(* ===== verification/_CoqProject ===== *)
-Q . S2P
Prelude.v
Buckets.v
Handles.v
RunList.v
Locks.v
Arena.v
Native.v
Marks.v
Joins.v
Meta.v
Framework.v
JoinPoll.v
JoinRun.v
Dag.v
RunDag.v
Requests.v
Ring.v
Syscalls.v
UringMeta.v
Owners.v
Uring.v
UringCalls.v
UringRun.v
Tokens.v
Text.v
Rpc.v
RpcServer.v
Pass.v
Stub.v
Teardown.v
Calls.v
DemoReads.v
Demos.v
