(* ===== verification/Prelude.v ===== *)
(** * async-a-sync

    A verification development for async-a-sync, which makes annotated C
    functions asynchronous on top of Fil-C.  A call of an annotated function
    goes through a stub emitted by a compiler pass: the stub stages the
    arguments, starts a task, takes the dependency locks of its arguments,
    marks the objects the call may touch, and hands the call to a runtime,
    which completes the task later.  Code that touches a marked object waits
    for the call that produces it.

    ** The parts and the files

    The pieces below are under src/; a definition bears the name of the C or
    C++ function it models.

    - This file: machine integers, the outcomes of C code, generic lemmas,
      runs of a transition system ([reach], [execs]), tactics.
    - Buckets, Handles, RunList: the hash tables of intrusive chains, the
      table of undelivered tasks ([g_handles]) and the list of running ones
      ([g_newest], [g_oldest]) of runtime/framework/filc_async.c.
    - Locks: its dependency locks ([g_lock_buckets]): queues of requests,
      grants, releases.
    - Marks: its pending marks ([g_mark_buckets]) and the flag they keep on
      objects.  Native (filc_async_native.c): the update of that flag in an
      object's header word among other threads' updates, and the slow path of
      the access hook.
    - Arena (filc_async_arena.c): the default allocator.
    - Meta: descriptors and the startup check ([filc_async_validate_table]).
    - Framework: tasks, and all of the above under the one lock [g_lock], as
      a state [fw] with critical sections [fw_op]; starting, completing,
      polling, waiting, [lock_take], marking, accesses and statistics.
      Joins and JoinPoll: [filc_async_wait_all], whose join task is a runtime
      of its own.  JoinRun: the threads inside its [join_poll], section by
      section, among all the others ([jsys]).
    - Requests, Ring (runtime/io_uring/fasync.c, fasync_native.c): the request
      table behind [fasync_id] handles, the submission and completion rings
      shared with the kernel.  Syscalls (fasync_syscalls.c): waiting for and
      collecting requests, pending opens, the five requests.  Owners: what
      each of those does to the live requests, for the layers above.
    - UringMeta, Uring, UringCalls, UringRun (filc_async_uring.c): the
      io_uring runtime of the framework: its ops, the records and the list of
      its calls, submission, reclaiming, polling.
    - Tokens (fasync_token.c): explicit calls ordered by a tracker.
    - Dag, RunDag (fasync_dep.c): the dependency graph of a batch and its run.
    - Text, Rpc, RpcServer (runtime/rpc/rpc_runtime.c and the connection
      handler of demos/rpc/rpc_server.c): the RPC runtime, and a call and its
      server together.
    - Pass, Stub, Teardown (compiler/pass/FilAsync.cpp): the options of
      annotations, the descriptors and their table; what the emitted stubs and
      thunks do and which calls go to them; the erasure of the annotations
      ([eraseAnnotations]).
    - Calls: an annotated call from its stub to the runtime, the stub's calls
      run one by one on the framework's state while other threads take their
      turns; [filc_async_submit] and [filc_async_run] of filc_async.c.
    - DemoReads, Demos (demos/): the files of the demos and the loops that
      read them, over any way a read may deliver; the checks, verdicts,
      dependency scenario and uploads.

    How they meet: Framework composes Handles, RunList, Locks, Marks and Meta;
    Syscalls, Uring and Tokens stand on Ring through Owners, which states what
    a call of the request layer promises (who owns which live request
    afterwards); Pass ends in the startup check of Meta, and Calls runs the
    stubs of Stub, for the descriptors of Pass, on the state of Framework;
    Demos uses the graph of Dag and the server of RpcServer.  A runtime and the framework have a lock each, and
    call one another without holding it: such a call is an operation of the
    other side's state, so a runtime's model records its calls of the
    framework ([y_completed], [v_shared], [rp_completed]).

    ** Conventions

    Integers are [Z], reduced modulo their width where the code's arithmetic
    is ([u32], [u64], [i32], [i64]).  A C function returns an [outcome]: a
    value, a fatal error, a trap (memory it may not touch), or [NoFuel].
    State is passed explicitly.  A record an allocator hands out is an
    argument ([fresh]), and so is whatever the kernel, a socket or Fil-C
    answers.  Intrusive chains are lists of addresses, except the two whose
    pointers the code walks while they change (RunList, and the free lists).

    A loop that waits is a function of what happens meanwhile: the rounds of
    other threads' critical sections ([round], [join_round]), the turns of
    completions the kernel posts ([turn], [look]), the answers of a socket
    ([io]).  It is [NoFuel] when that list ends before the loop does.  The
    theorems about the framework's waits except one case only, a wait in vain
    ([in_vain]): all the rounds are spent while one call that the wait is for
    (a holder or an earlier request in a conflicting mode, an owner of the
    object that may not be passed by) still runs.  The others assume that the
    request or the call that is waited for is completed in the turns given.
    One unit of fuel for each round is enough.  Walks of chains take as fuel
    the number of records (shown to be enough by the invariants); the loops of [fasync_run_dag],
    which spin, take fuel that a world that completes requests makes enough.
    The generation counters of requests and marks are assumed not to wrap
    (fewer than 2^32 requests, 2^64 marks); sizes and counters that may wrap
    are shown with their wrap-around.

    ** What the theorems show

    - The framework: a completed task never changes; locks, requests for
      them and marks belong to running tasks; exclusive locks, in order,
      granted exactly when no conflicting holder or earlier request is left;
      an object is flagged exactly while it is marked; a wait or an access
      waits only for calls it must wait for, and returns with the result or
      nothing left to wait for; results are delivered once; wait_all waits
      for every producer, however the threads in [join_poll] interleave with
      the rest, and answers exactly; every critical section, search and walk
      returns; the counts of the statistics; allocations are disjoint.
    - The request layer: unforgeable handles (a refinement of a set); each
      entry reaches the kernel once and in order; completions reach exactly
      the requests they name; the in-flight count; waits and results return.
    - The io_uring runtime: its list is the calls in flight, each the only
      owner of a live request; what a poll answers; submission returns though
      the table is full.  Calls that share a tracker never conflict in flight.
    - Batches: unordered operations never race; the edges and each counter of
      the statistics are exact; the run respects them and ends.
    - RPC: a call sends its request once and reports one result, and the
      server reads what was sent and answers what is reported.
    - The compiler pass: which options it accepts and what they mean, which
      diagnostic it gives otherwise; its table is accepted at startup except
      for one miscount; the runtime reads back the options as written; the
      body gets the caller's pointers and integers of up to 64 bits, through
      the words of the staging block; the stub locks, marks and submits in
      an order the framework can rely on; exactly the plain calls, of
      the function's own type and returning nothing or a pointer, go to the
      stub; the annotations are erased, and nothing else.
    - Whole calls: a stub reaches the runtime, with every dependency locked
      and every object marked, unless a conflicting call never ends; its call
      keeps them until it completes; so calls whose stubs have run and that
      are in flight together do not conflict and write different objects; the
      body reaches its own objects without waiting.
    - The demos: however the reads deliver, their loops count, sum and hash
      what the files hold, which is what their reports compare with; the
      verdicts say what the demos claim.

    Each file ends with concrete runs: witnesses that the hypotheses of its
    theorems hold somewhere, evaluated by [vm_compute].  Theorems that are
    closed computations at such a point document what the code does at an edge
    (a size that wraps, a namespace collision, a full table, a repeated
    option).

    ** Not modelled

    - The kernel, Fil-C's runtime and LLVM: parameters, or arguments with
      what the code relies on.  Of a module the pass reads, the model has the
      functions' types and names and the constants that are strings, and
      Teardown the graph of its constants; the plugin's registration is left
      out.
    - Data races: each file models critical sections of one lock.  The
      tracker calls of Tokens wait without that lock in the code.
    - The raw system calls ([zsys_...]), mutexes and condition variables, and
      [pthread_once].
    - The demos' system calls, clocks, medians of doubles and tables, the
      server's sockets and threads, the tests, and the headers' prototypes. *)

From stdpp Require Export gmap list strings fin_maps.
From Stdlib Require Export ZArith Lia.

Open Scope Z_scope.

(** ** Machine integers

    Addresses and sizes are 64-bit, so [uintptr_t], [size_t], [uint64_t] and
    [unsigned long] are a [Z] reduced modulo [2^64]; [unsigned] is reduced
    modulo [2^32]; [int] is the two's-complement reading of 32 bits. *)

Abbreviation ptr := Z (only parsing).
Definition NULL : ptr := 0.

Definition u64 (x : Z) : Z := x mod 2 ^ 64.
Definition u32 (x : Z) : Z := x mod 2 ^ 32.
Definition i32 (x : Z) : Z := (x + 2 ^ 31) mod 2 ^ 32 - 2 ^ 31.
Definition i64 (x : Z) : Z := (x + 2 ^ 63) mod 2 ^ 64 - 2 ^ 63.

(** ** Outcomes

    What a C call can do besides returning: report a fatal error and abort
    ([filc_async_fatal]), run into memory it may not touch (Fil-C traps), or,
    for a loop modelled with fuel, not be finished yet. *)

Inductive outcome (A : Type) : Type :=
  | Ret (a : A)
  | Fatal (msg : string)
  | Trap
  | NoFuel.
Arguments Ret {A} _.
Arguments Fatal {A} _.
Arguments Trap {A}.
Arguments NoFuel {A}.

#[export] Instance outcome_ret : MRet outcome := fun A a => Ret a.
#[export] Instance outcome_bind : MBind outcome := fun A B f m =>
  match m with
  | Ret a => f a
  | Fatal msg => Fatal msg
  | Trap => Trap
  | NoFuel => NoFuel
  end.

(** A NULL dereference, or falling off a list whose walk has no NULL check. *)
Definition deref {A} (o : option A) : outcome A :=
  match o with Some a => Ret a | None => Trap end.

Lemma bind_Ret_inv {A B} (m : outcome A) (f : A -> outcome B) b :
  m ≫= f = Ret b -> exists a, m = Ret a /\ f a = Ret b.
Proof. destruct m; cbn; naive_solver. Qed.

Lemma Ret_inj {A} (a b : A) : Ret a = Ret b -> a = b.
Proof. congruence. Qed.

Lemma deref_Ret {A} (o : option A) a : deref o = Ret a <-> o = Some a.
Proof. destruct o; cbn; naive_solver. Qed.

Create HintDb async.

(** [inv_ret] takes apart hypotheses saying that a composed call returned. *)
Ltac inv_ret :=
  repeat match goal with
  | H : Ret _ = Ret _ |- _ => injection H as H; subst
  | H : Some _ = Some _ |- _ => injection H as H; subst
  | H : mret _ = Ret _ |- _ => injection H as H; subst
  | H : (_ ≫= _) = Ret _ |- _ =>
      let a := fresh "r" in let H1 := fresh "Hr" in
      apply bind_Ret_inv in H as (a & H1 & H)
  | H : deref _ = Ret _ |- _ => apply deref_Ret in H
  | H : Fatal _ = Ret _ |- _ => discriminate H
  | H : Trap = Ret _ |- _ => discriminate H
  | H : NoFuel = Ret _ |- _ => discriminate H
  end.

(** Splits every [if] and [match] of a hypothesis or of the goal. *)
Ltac cases_in H :=
  repeat match type of H with
  | context [match ?x with _ => _ end] =>
      let E := fresh "E" in destruct x eqn:E; try discriminate H
  end.

Ltac split_and_all := repeat match goal with |- _ /\ _ => split end.

(** ** Arithmetic of the machine types *)

Lemma u64_range x : 0 <= u64 x < 2 ^ 64.
Proof. unfold u64. apply Z.mod_pos_bound. lia. Qed.

Lemma u32_range x : 0 <= u32 x < 2 ^ 32.
Proof. unfold u32. apply Z.mod_pos_bound. lia. Qed.

Lemma u64_small x : 0 <= x < 2 ^ 64 -> u64 x = x.
Proof. intros. unfold u64. by apply Z.mod_small. Qed.

Lemma u32_small x : 0 <= x < 2 ^ 32 -> u32 x = x.
Proof. intros. unfold u32. by apply Z.mod_small. Qed.

Lemma i32_range x : - 2 ^ 31 <= i32 x < 2 ^ 31.
Proof. unfold i32. pose proof (Z.mod_pos_bound (x + 2 ^ 31) (2 ^ 32)). lia. Qed.

Lemma i32_small x : - 2 ^ 31 <= x < 2 ^ 31 -> i32 x = x.
Proof. intros. unfold i32. rewrite Z.mod_small; lia. Qed.

Lemma i64_small x : - 2 ^ 63 <= x < 2 ^ 63 -> i64 x = x.
Proof. intros. unfold i64. rewrite Z.mod_small; lia. Qed.

Lemma u64_add_idemp_l x y : u64 (u64 x + y) = u64 (x + y).
Proof. unfold u64. by rewrite Zplus_mod_idemp_l. Qed.

Lemma u32_add_idemp_l x y : u32 (u32 x + y) = u32 (x + y).
Proof. unfold u32. by rewrite Zplus_mod_idemp_l. Qed.

(** Drops the reductions of values known to be in range. *)
Ltac unwrap := rewrite ?u64_small, ?u32_small, ?i32_small, ?i64_small by lia.

(** [x & ~(2^k - 1)]: clearing the low [k] bits of a 64-bit word. *)
Definition mask_down (x m : Z) : Z := Z.land x (u64 (Z.lnot m)).

Lemma mask_down_pow2 x k :
  0 <= k <= 63 -> 0 <= x < 2 ^ 64 ->
  mask_down x (2 ^ k - 1) = 2 ^ k * (x / 2 ^ k).
Proof.
  intros Hk Hx. unfold mask_down, u64.
  rewrite <- (Z.land_ones _ 64) by lia.
  rewrite (Z.land_comm (Z.lnot _)), Z.land_assoc, Z.land_ones by lia.
  rewrite (Z.mod_small x) by lia.
  replace (2 ^ k - 1) with (Z.ones k) by (rewrite Z.ones_equiv; lia).
  rewrite <- Z.ldiff_land, Z.ldiff_ones_r by lia.
  rewrite Z.shiftl_mul_pow2, Z.shiftr_div_pow2 by lia. lia.
Qed.

(** [a & (a - 1)] is zero exactly for powers of two (and zero). *)
Lemma land_pred_pow2 a :
  0 < a -> Z.land a (a - 1) = 0 <-> exists k, 0 <= k /\ a = 2 ^ k.
Proof.
  intros Ha. split.
  - intros H. exists (Z.log2 a). split; [apply Z.log2_nonneg|].
    destruct (Z.log2_spec a Ha) as [Hlo Hhi].
    destruct (Z.eq_dec a (2 ^ Z.log2 a)) as [|Hne]; [done|exfalso].
    assert (Hl : Z.log2 (a - 1) = Z.log2 a)
      by (apply Z.log2_unique; [apply Z.log2_nonneg | lia]).
    assert (Hb : Z.testbit (Z.land a (a - 1)) (Z.log2 a) = true).
    { rewrite Z.land_spec, Z.bit_log2 by lia. cbn.
      rewrite <- Hl. apply Z.bit_log2. pose proof (Z.log2_nonneg a).
      assert (1 <= 2 ^ Z.log2 a) by (apply Z.lt_pred_le; cbn; apply Z.pow_pos_nonneg; lia). lia. }
    rewrite H, Z.bits_0 in Hb. done.
  - intros (k & Hk & ->).
    replace (2 ^ k - 1) with (Z.ones k) by (rewrite Z.ones_equiv; lia).
    rewrite Z.land_ones by lia. apply Z.mod_same. lia.
Qed.

(** ** Lists as the code's linked lists *)

(** The loop that follows [link] until it points at [x] and then stores
    [x->next] through it: unlinks the first [x]; [None] when the walk runs off
    the end. *)
Fixpoint unlink (x : ptr) (l : list ptr) : option (list ptr) :=
  match l with
  | [] => None
  | y :: l' => if y =? x then Some l' else (y ::.) <$> unlink x l'
  end.

Lemma unlink_Some x (l : list ptr) : x ∈ l -> is_Some (unlink x l).
Proof.
  induction l as [|y l IH]; intros H; [by apply not_elem_of_nil in H|].
  cbn. destruct (Z.eqb_spec y x); [by eexists|].
  apply elem_of_cons in H as [->|H]; [done|].
  destruct (IH H) as [l' ->]. by eexists.
Qed.

Lemma unlink_elem x (l l' : list ptr) y :
  NoDup l -> unlink x l = Some l' -> y ∈ l' <-> y ∈ l /\ y <> x.
Proof.
  revert l'. induction l as [|z l IH]; intros l' Hnd H; [done|]. cbn in H.
  apply NoDup_cons in Hnd as [Hz Hnd]. rewrite elem_of_cons.
  destruct (Z.eqb_spec z x) as [->|Hzx].
  - inv_ret. naive_solver.
  - destruct (unlink x l) as [l1|]; [|done]. cbn in H. inv_ret.
    rewrite elem_of_cons, (IH l1) by done. naive_solver.
Qed.

Lemma unlink_sublist x (l l' : list ptr) : unlink x l = Some l' -> sublist l' l.
Proof.
  revert l'. induction l as [|z l IH]; intros l' H; [done|]. cbn in H.
  destruct (z =? x); [inv_ret; by constructor|].
  destruct (unlink x l); [|done]. cbn in H. inv_ret. constructor. by apply IH.
Qed.

Lemma unlink_NoDup x (l l' : list ptr) : NoDup l -> unlink x l = Some l' -> NoDup l'.
Proof. intros Hnd H. eapply sublist_NoDup; [done|by eapply unlink_sublist]. Qed.

Lemma unlink_Permutation x (l l' : list ptr) : unlink x l = Some l' -> l ≡ₚ x :: l'.
Proof.
  revert l'. induction l as [|z l IH]; intros l' H; [done|]. cbn in H.
  destruct (Z.eqb_spec z x) as [->|]; [by inv_ret|].
  destruct (unlink x l) as [l1|]; [|done]. cbn in H. inv_ret.
  rewrite (IH l1) by done. by rewrite Permutation_swap.
Qed.

Lemma unlink_length x (l l' : list ptr) :
  unlink x l = Some l' -> length l = S (length l').
Proof. intros H. by rewrite (unlink_Permutation _ _ _ H). Qed.

Lemma unlink_filter x (l : list ptr) :
  NoDup l -> x ∈ l -> unlink x l = Some (filter (fun y => y <> x) l).
Proof.
  induction l as [|z l IH]; intros Hnd Hx; [by apply not_elem_of_nil in Hx|].
  apply NoDup_cons in Hnd as [Hz Hnd]. cbn [unlink].
  destruct (Z.eqb_spec z x) as [->|Hzx].
  - rewrite filter_cons_False by naive_solver. f_equal. clear IH Hnd Hx.
    induction l as [|y l IH]; [done|]. apply not_elem_of_cons in Hz as [Hy Hz].
    rewrite filter_cons_True by congruence. f_equal. by apply IH.
  - rewrite filter_cons_True by done. rewrite IH; [done|done|set_solver].
Qed.

(** [a] stands before [b]. *)
Definition before {A} (a b : A) (l : list A) : Prop := sublist [a; b] l.

Lemma before_app {A} (a b : A) l tl : before a b l -> before a b (l ++ tl).
Proof. apply sublist_inserts_r. Qed.

Lemma before_elem {A} (a b : A) l : before a b l -> a ∈ l /\ b ∈ l.
Proof. intros H. split; eapply sublist_subseteq; try exact H; set_solver. Qed.

Lemma before_unlink (a b x : ptr) l l' :
  before a b l -> a <> x -> b <> x -> unlink x l = Some l' -> before a b l'.
Proof.
  unfold before. revert l'. induction l as [|y l IH]; intros l' Hs Ha Hb Hu; [done|]. cbn in Hu.
  apply sublist_cons_r in Hs. destruct (Z.eqb_spec y x) as [->|Hyx].
  - injection Hu as <-. destruct Hs as [Hs|(l0 & [=-> ->] & _)]; done.
  - destruct (unlink x l) as [l0|] eqn:E; [|done]. cbn in Hu. injection Hu as <-.
    destruct Hs as [Hs|(l1 & [=-> <-] & Hs)]; [apply sublist_cons; by apply IH|].
    apply sublist_skip, singleton_sublist_l. apply singleton_sublist_l in Hs.
    rewrite (unlink_Permutation _ _ _ E) in Hs. set_solver.
Qed.

Lemma before_split {A} (a b : A) l :
  before a b l -> exists l1 l2 l3, l = l1 ++ a :: l2 ++ b :: l3.
Proof.
  intros (l1 & k & -> & (l2 & l3 & -> & _)%sublist_cons_l)%sublist_cons_l. by exists l1, l2, l3.
Qed.

(** ** Sets of addresses *)

Lemma gset_size_bound (S : gset Z) m n :
  0 <= n -> (forall x, x ∈ S -> m <= x < m + n) -> Z.of_nat (size S) <= n.
Proof.
  intros Hn H.
  assert (Hs : S ⊆ list_to_set (seqZ m n)).
  { intros x Hx. apply elem_of_list_to_set, elem_of_seqZ. by apply H. }
  apply subseteq_size in Hs. rewrite size_list_to_set, length_seqZ in Hs by apply NoDup_seqZ.
  lia.
Qed.

(** ** Counting the entries of a map *)

Lemma map_count_insert {A} (P : A -> Prop) `{forall x, Decision (P x)} (m : gmap Z A) (t : Z) tk tk' :
  m !! t = Some tk ->
  Z.of_nat (size (filter (fun kt : Z * A => P kt.2) (<[t := tk']> m))) =
  Z.of_nat (size (filter (fun kt : Z * A => P kt.2) m))
    + (if decide (P tk') then 1 else 0) - (if decide (P tk) then 1 else 0).
Proof.
  intros Ht. set (F := filter (fun kt : Z * A => P kt.2)).
  assert (Hsplit : forall tk0, Z.of_nat (size (F (<[t := tk0]> m))) =
    Z.of_nat (size (F (delete t m))) + if decide (P tk0) then 1 else 0).
  { intros tk0. unfold F. rewrite <- (insert_delete_eq m t tk0). case_decide as E.
    - rewrite map_filter_insert_True by done. rewrite map_size_insert_None; [lia|].
      apply map_lookup_filter_None. left. apply lookup_delete_eq.
    - rewrite map_filter_insert_False by done. rewrite delete_delete_eq. lia. }
  rewrite (Hsplit tk'). rewrite <- (insert_id m t tk Ht) at 2. rewrite (Hsplit tk). lia.
Qed.

Lemma map_count_fresh {A} (P : A -> Prop) `{forall x, Decision (P x)} (m : gmap Z A) (t : Z) tk' :
  m !! t = None ->
  Z.of_nat (size (filter (fun kt : Z * A => P kt.2) (<[t := tk']> m))) =
  Z.of_nat (size (filter (fun kt : Z * A => P kt.2) m)) + (if decide (P tk') then 1 else 0).
Proof.
  intros Ht. case_decide as E.
  - rewrite map_filter_insert_True by done. rewrite map_size_insert_None; [lia|].
    apply map_lookup_filter_None. by left.
  - rewrite map_filter_insert_False by done. rewrite delete_id by done. lia.
Qed.

(** Addresses of objects: not NULL, and within 64 bits. *)
Definition is_addr (p : ptr) : Prop := 0 < p < 2 ^ 64.

(** A Fil-C pointer: its address and the bounds of its object, as [zgetlower]
    and [zgetupper] give them. *)
Record fptr := mk_fptr { f_addr : ptr; f_lower : ptr; f_upper : ptr }.
Definition fnull : fptr := mk_fptr NULL NULL NULL.

(** ** Operations as steps

    A component is a state and operations on it, each with what it relies on;
    between two operations any thread may take the lock, so a history is any
    sequence of operations whose assumptions hold where they run. *)

Section Steps.
Context {S O : Type} (exec : O -> S -> outcome S) (ok : O -> S -> Prop) (init : S).

Inductive reach : S -> Prop :=
  | reach_init : reach init
  | reach_step s op s' : reach s -> ok op s -> exec op s = Ret s' -> reach s'.

Fixpoint execs (ops : list O) (s : S) : outcome S :=
  match ops with
  | [] => mret s
  | op :: ops => s ← exec op s; execs ops s
  end.

Fixpoint ops_ok (ops : list O) (s : S) : Prop :=
  match ops with
  | [] => True
  | op :: ops => ok op s /\ forall s', exec op s = Ret s' -> ops_ok ops s'
  end.

Lemma execs_reach ops s s' : reach s -> ops_ok ops s -> execs ops s = Ret s' -> reach s'.
Proof.
  revert s. induction ops as [|op ops IH]; intros s Hs Hok He; cbn in *.
  - by injection He as <-.
  - destruct Hok as [Hop Hok]. apply bind_Ret_inv in He as (s1 & H1 & He).
    apply (IH s1); [by eapply reach_step|by apply Hok|done].
Qed.

Lemma execs_app ops1 ops2 s : execs (ops1 ++ ops2) s = execs ops1 s ≫= execs ops2.
Proof.
  revert s. induction ops1 as [|op ops1 IH]; intros s; [done|]. cbn.
  destruct (exec op s); cbn; [apply IH|done..].
Qed.

(** An invariant that every operation keeps, and under which every operation
    returns, holds in every reachable state. *)
Context (I : S -> Prop) (Hstep : forall s op, I s -> ok op s -> exists s', exec op s = Ret s' /\ I s').

Lemma reach_inv s : I init -> reach s -> I s.
Proof.
  intros H0. induction 1 as [|s op s' _ Hi Hop He]; [done|].
  destruct (Hstep s op Hi Hop) as (s1 & He' & Hi'). rewrite He in He'. by injection He' as <-.
Qed.

Lemma execs_total ops s : I s -> ops_ok ops s -> exists s', execs ops s = Ret s' /\ I s'.
Proof.
  revert s. induction ops as [|op ops IH]; intros s Hi Hok; cbn in *; [by exists s|].
  destruct Hok as [Hop Hok]. destruct (Hstep s op Hi Hop) as (s1 & H1 & Hi1). rewrite H1. cbn.
  apply IH; [done|by apply Hok].
Qed.
End Steps.

(** Closed facts: equations, inequalities and decidable propositions. *)
Ltac point :=
  lazymatch goal with
  | |- _ = _ => vm_compute; reflexivity
  | |- _ <> _ => first [ (apply (bool_decide_unpack _); vm_compute; reflexivity) | discriminate ]
  | |- _ => apply (bool_decide_unpack _); vm_compute; reflexivity
  end.

(** A fact about what a concrete call returns is one about its result, which
    stays a name: only the booleans asked of it are ever computed. *)
Definition after {A} (d : A) (o : outcome A) : A := match o with Ret a => a | _ => d end.

Lemma after_ret {A} (o : outcome A) (d : A) (P : A -> Prop) : P (after d o) -> forall a, o = Ret a -> P a.
Proof. by intros H a ->. Qed.

Ltac after_call :=
  lazymatch goal with |- forall a, ?o = Ret a -> @?P a =>
    let d := lazymatch o with _ ?s => s end in refine (after_ret o d P _); cbv beta end.

(** [ops_concrete tac] proves [ops_ok] of a concrete list of operations, the
    assumptions of each by [tac]. *)
Ltac ops_concrete tac :=
  lazymatch goal with
  | |- ops_ok _ _ [] _ => exact I
  | |- ops_ok _ _ (_ :: _) _ =>
      split; [ tac | after_call; ops_concrete tac ]
  end.
