(* ===== verification/Buckets.v ===== *)
(** * Buckets: the multiplicative hash and the chained tables

    The framework keeps three hash tables of intrusive chains: the handles,
    the dependency locks and the pending marks.  Each is an array of list
    heads indexed by [hash_bits]; a chain is the list of the addresses on it,
    head first.  A C array of NULL heads is the empty map. *)

From S2P Require Import Prelude.
Open Scope Z_scope.

(** [hash_bits]: the top [bits] bits of [key * 2^64/phi]. *)
Definition hash_bits (key bits : Z) : Z :=
  Z.shiftr (u64 (key * 0x9E3779B97F4A7C15)) (64 - bits).

(** A hash never indexes outside a table of [2^bits] heads. *)
Lemma hash_bits_range key bits : 0 <= bits <= 64 -> 0 <= hash_bits key bits < 2 ^ bits.
Proof.
  intros Hb. unfold hash_bits. rewrite Z.shiftr_div_pow2 by lia.
  pose proof (u64_range (key * 0x9E3779B97F4A7C15)) as Hr.
  set (x := u64 _) in *. clearbody x. split.
  - apply Z.div_pos; [lia|]. apply Z.pow_pos_nonneg; lia.
  - apply Z.div_lt_upper_bound; [apply Z.pow_pos_nonneg; lia|].
    rewrite <- Z.pow_add_r by lia. replace (64 - bits + bits) with 64 by lia. lia.
Qed.

(** ** Chains *)

Abbreviation table := (gmap Z (list ptr)) (only parsing).

Definition chain (b : table) (i : Z) : list ptr := default [] (b !! i).
Definition chain_push (i : Z) (x : ptr) (b : table) : table := <[i := x :: chain b i]> b.
Definition chain_unlink (i : Z) (x : ptr) (b : table) : outcome table :=
  l ← deref (unlink x (chain b i)); mret (<[i := l]> b).

(** [tab_ok key b S]: the chains hold exactly the addresses of [S], each on
    the chain its key selects and only once. *)
Definition tab_ok (key : ptr -> Z) (b : table) (S : gset ptr) : Prop :=
  forall i, NoDup (chain b i) /\ forall x, x ∈ chain b i <-> x ∈ S /\ key x = i.

Lemma chain_insert b i j l : chain (<[i := l]> b) j = if decide (i = j) then l else chain b j.
Proof. unfold chain. rewrite lookup_insert. by case_decide. Qed.

Section Table.
Context (key : ptr -> Z).
Implicit Types (b : table) (S : gset ptr) (x y : ptr).

Lemma tab_ok_empty : tab_ok key ∅ ∅.
Proof.
  intros i. unfold chain. rewrite lookup_empty. cbn. split; [constructor|].
  intros x. split; [by intros ?%not_elem_of_nil|set_solver].
Qed.

Lemma tab_ok_elem b S x i : tab_ok key b S -> x ∈ chain b i <-> x ∈ S /\ key x = i.
Proof. intros H. apply (H i). Qed.

Lemma tab_ok_NoDup b S i : tab_ok key b S -> NoDup (chain b i).
Proof. intros H. apply (H i). Qed.

Lemma tab_ok_ext key' b S :
  (forall x, x ∈ S -> key' x = key x) -> tab_ok key b S -> tab_ok key' b S.
Proof.
  intros He H i. split; [by apply H|]. intros x. rewrite (tab_ok_elem b S) by done.
  split; intros [Hx <-]; (split; [done|]); [by apply He|by symmetry; apply He].
Qed.

Lemma tab_ok_push b S x :
  tab_ok key b S -> x ∉ S -> tab_ok key (chain_push (key x) x b) ({[x]} ∪ S).
Proof.
  intros H Hx i. unfold chain_push. rewrite chain_insert. case_decide as Hi.
  - subst i. split.
    + apply NoDup_cons. split; [|by apply H]. rewrite tab_ok_elem by done. naive_solver.
    + intros y. rewrite elem_of_cons, tab_ok_elem by done. set_solver.
  - split; [by apply H|]. intros y. rewrite tab_ok_elem by done. set_solver.
Qed.

Lemma tab_ok_unlink b S x :
  tab_ok key b S -> x ∈ S ->
  exists b', chain_unlink (key x) x b = Ret b' /\ tab_ok key b' (S ∖ {[x]}).
Proof.
  intros H Hx. unfold chain_unlink.
  assert (Hin : x ∈ chain b (key x)) by (by apply (tab_ok_elem b S)).
  destruct (unlink_Some _ _ Hin) as [l Hl]. rewrite Hl. cbn. eexists. split; [done|].
  intros i. rewrite chain_insert. case_decide as Hi.
  - subst i. pose proof (tab_ok_NoDup _ _ (key x) H) as Hnd. split.
    + by eapply unlink_NoDup.
    + intros y. rewrite (unlink_elem _ _ _ _ Hnd Hl), tab_ok_elem by done. set_solver.
  - split; [by apply H|]. intros y. rewrite tab_ok_elem by done. set_solver.
Qed.
End Table.

#[export] Hint Resolve tab_ok_empty tab_ok_NoDup : async.
