(* ===== verification/Handles.v ===== *)
(** * Handles: the tasks whose completion has not been delivered

    [g_handles] of [framework/filc_async.c]: a chained hash table of task
    addresses that doubles when it is full.  [h_handled] is the [handled]
    field of each task.  The allocator's answer for a new table is an
    argument, [fresh] (NULL when it has no memory). *)

From S2P Require Import Prelude Buckets.
Open Scope Z_scope.

Definition alloc_or_die (p : ptr) : outcome ptr :=
  if p =? NULL then Fatal "out of memory" else Ret p.

Record handles := mk_handles {
  g_handles : ptr;           (* NULL until the first table *)
  h_chains : gmap Z (list ptr);
  g_handle_bits : Z;
  g_nhandles : Z;
  h_handled : gset ptr;
}.

Definition handles_init : handles := mk_handles NULL ∅ 0 0 ∅.

(** Moves one chain of the old table, head first, onto the new one. *)
Definition rehash_chain (bits : Z) (l : list ptr) (b : gmap Z (list ptr)) : gmap Z (list ptr) :=
  fold_left (fun b t => chain_push (hash_bits t bits) t b) l b.

Definition handles_grow (fresh : ptr) (h : handles) : outcome handles :=
  let bits := if g_handles h =? NULL then 10 else g_handle_bits h + 1 in
  tbl ← alloc_or_die fresh;
  let old := if g_handles h =? NULL then [] else seqZ 0 (2 ^ g_handle_bits h) in
  let b := fold_left (fun b i => rehash_chain bits (chain (h_chains h) i) b) old ∅ in
  mret (mk_handles tbl b bits (g_nhandles h) (h_handled h)).

Definition handle_add (fresh : ptr) (t : ptr) (h : handles) : outcome handles :=
  h ← (if (g_handles h =? NULL) || (2 ^ g_handle_bits h <=? g_nhandles h)
       then handles_grow fresh h else mret h);
  mret (mk_handles (g_handles h)
          (chain_push (hash_bits t (g_handle_bits h)) t (h_chains h))
          (g_handle_bits h) (g_nhandles h + 1) ({[t]} ∪ h_handled h)).

Definition find_task (pending : ptr) (h : handles) : ptr :=
  if g_handles h =? NULL then NULL
  else if bool_decide (pending ∈ chain (h_chains h) (hash_bits pending (g_handle_bits h)))
  then pending else NULL.

Definition retire_task (t : ptr) (state : Z) (h : handles) : outcome handles :=
  if (state =? 1) || negb (bool_decide (t ∈ h_handled h)) then mret h
  else
    b ← chain_unlink (hash_bits t (g_handle_bits h)) t (h_chains h);
    mret (mk_handles (g_handles h) b (g_handle_bits h) (g_nhandles h - 1)
            (h_handled h ∖ {[t]})).

(** ** Invariant *)

Record handles_ok (h : handles) : Prop := {
  ho_table : tab_ok (fun t => hash_bits t (g_handle_bits h)) (h_chains h) (h_handled h);
  ho_count : g_nhandles h = Z.of_nat (size (h_handled h));
  ho_bits : g_handles h <> NULL -> 10 <= g_handle_bits h <= 64;
  ho_none : g_handles h = NULL -> h_handled h = ∅;
  ho_addr : set_Forall is_addr (h_handled h);
}.

Lemma handles_init_ok : handles_ok handles_init.
Proof. split; cbn; try done; auto with async. Qed.

Lemma handles_count_lt h : handles_ok h -> g_nhandles h < 2 ^ 64.
Proof.
  intros Hh. rewrite (ho_count _ Hh).
  pose proof (gset_size_bound (h_handled h) 1 (2 ^ 64 - 1) ltac:(lia)) as Hb.
  cut (Z.of_nat (size (h_handled h)) <= 2 ^ 64 - 1); [lia|]. apply Hb.
  intros x Hx%(ho_addr _ Hh). unfold is_addr in Hx. lia.
Qed.

Lemma rehash_chain_ok bits l b S :
  NoDup l -> (forall t, t ∈ l -> t ∉ S) ->
  tab_ok (fun t => hash_bits t bits) b S ->
  tab_ok (fun t => hash_bits t bits) (rehash_chain bits l b) (list_to_set l ∪ S).
Proof.
  revert b S. induction l as [|t l IH]; intros b S Hnd Hd Hok; cbn.
  - by rewrite (left_id_L ∅ (∪)).
  - apply NoDup_cons in Hnd as [Ht Hnd].
    replace ({[t]} ∪ list_to_set l ∪ S) with (list_to_set l ∪ ({[t]} ∪ S)) by set_solver.
    apply IH; [done| |apply (tab_ok_push (fun t => hash_bits t bits)); [done|set_solver]].
    intros u Hu [->%elem_of_singleton|HS]%elem_of_union; [done|].
    by apply (Hd u); [right|].
Qed.

(** Rehashing the chains with an index in [ixs] adds exactly their tasks. *)
Lemma rehash_ok h bits ixs b S :
  handles_ok h -> NoDup ixs ->
  (forall t, t ∈ S -> hash_bits t (g_handle_bits h) ∉ ixs) ->
  tab_ok (fun t => hash_bits t bits) b S ->
  exists S', tab_ok (fun t => hash_bits t bits)
      (fold_left (fun b i => rehash_chain bits (chain (h_chains h) i) b) ixs b) S' /\
    forall t, t ∈ S' <-> t ∈ S \/ t ∈ h_handled h /\ hash_bits t (g_handle_bits h) ∈ ixs.
Proof.
  intros Hh. revert b S. induction ixs as [|i ixs IH]; intros b S Hnd HS Hok; cbn.
  - exists S. split; [done|]. intros t. split; [by left|]. intros [|[_ ?%not_elem_of_nil]]; done.
  - apply NoDup_cons in Hnd as [Hi Hnd].
    assert (Hch : forall t, t ∈ chain (h_chains h) i <->
              t ∈ h_handled h /\ hash_bits t (g_handle_bits h) = i)
      by (intros t; apply (tab_ok_elem _ _ _ _ _ (ho_table _ Hh))).
    destruct (IH (rehash_chain bits (chain (h_chains h) i) b)
                 (list_to_set (chain (h_chains h) i) ∪ S)) as (S' & HS' & Hiff); [done| | |].
    + intros t [Ht%elem_of_list_to_set|Ht]%elem_of_union.
      * by apply Hch in Ht as [? <-].
      * apply HS in Ht. set_solver.
    + apply rehash_chain_ok; [eapply tab_ok_NoDup, ho_table, Hh| |done].
      intros t [Ht <-]%Hch Hs. apply HS in Hs. set_solver.
    + exists S'. split; [done|]. intros t.
      rewrite Hiff, elem_of_union, elem_of_list_to_set, Hch, elem_of_cons. naive_solver.
Qed.

Lemma handles_grow_ok fresh h :
  handles_ok h -> fresh <> NULL ->
  (g_handles h <> NULL -> 2 ^ g_handle_bits h <= g_nhandles h) ->
  exists h', handles_grow fresh h = Ret h' /\ handles_ok h' /\
    h_handled h' = h_handled h /\ g_handles h' <> NULL.
Proof.
  intros Hok Hf Hfull. unfold handles_grow, alloc_or_die.
  destruct (Z.eqb_spec fresh NULL); [done|]. cbn [mbind outcome_bind].
  set (bits := if g_handles h =? NULL then 10 else g_handle_bits h + 1).
  set (old := if g_handles h =? NULL then [] else _).
  destruct (rehash_ok h bits old ∅ ∅ Hok) as (S' & HS' & Hiff); [| | |].
  { unfold old. destruct (_ =? _); [constructor|apply NoDup_seqZ]. }
  { set_solver. }
  { apply tab_ok_empty. }
  assert (S' = h_handled h) as ->.
  { apply set_eq. intros t. rewrite Hiff. unfold old.
    destruct (Z.eqb_spec (g_handles h) NULL) as [E|E].
    - rewrite (ho_none _ Hok E). set_solver.
    - rewrite elem_of_seqZ.
      pose proof (hash_bits_range t (g_handle_bits h) ltac:(pose proof (ho_bits _ Hok E); lia)).
      rewrite Z.add_0_l. set_solver. }
  eexists. split; [done|]. split; [|done].
  split; cbn; try apply Hok; try done.
  intros _. unfold bits. destruct (Z.eqb_spec (g_handles h) NULL) as [E|E]; [lia|].
  pose proof (ho_bits _ Hok E). pose proof (handles_count_lt _ Hok).
  specialize (Hfull E). assert (g_handle_bits h < 64); [|lia].
  apply (Z.pow_lt_mono_r_iff 2); lia.
Qed.

Lemma handle_add_ok fresh t h :
  handles_ok h -> fresh <> NULL -> is_addr t -> t ∉ h_handled h ->
  exists h', handle_add fresh t h = Ret h' /\ handles_ok h' /\
    h_handled h' = {[t]} ∪ h_handled h.
Proof.
  intros Hok Hf Ha Ht.
  assert (exists h1, (if (g_handles h =? NULL) || (2 ^ g_handle_bits h <=? g_nhandles h)
      then handles_grow fresh h else mret h) = Ret h1 /\ handles_ok h1 /\
      h_handled h1 = h_handled h /\ g_handles h1 <> NULL) as (h1 & Hg & Hok1 & Hs & Hn).
  { destruct ((g_handles h =? NULL) || _) eqn:E.
    - apply handles_grow_ok; [done|done|]. intros Hnn.
      apply orb_true_iff in E as [E%Z.eqb_eq|E%Z.leb_le]; done.
    - apply orb_false_iff in E as [E%Z.eqb_neq _]. by eexists. }
  unfold handle_add. rewrite Hg. cbn. eexists. split; [done|]. rewrite Hs. split; [|done].
  rewrite <- Hs in Ht. rewrite <- Hs. split; cbn.
  - by apply (tab_ok_push (fun t => hash_bits t (g_handle_bits h1))); [apply Hok1|].
  - rewrite (ho_count _ Hok1), size_union, size_singleton by set_solver. lia.
  - apply Hok1.
  - done.
  - apply set_Forall_union; [by apply set_Forall_singleton|apply Hok1].
Qed.

Lemma retire_task_ok t state h :
  handles_ok h ->
  exists h', retire_task t state h = Ret h' /\ handles_ok h' /\
    h_handled h' = if state =? 1 then h_handled h else h_handled h ∖ {[t]}.
Proof.
  intros Hok. unfold retire_task. destruct (Z.eqb_spec state 1); cbn; [by eexists|].
  case_bool_decide as Ht; cbn.
  - destruct (tab_ok_unlink _ _ _ t (ho_table _ Hok) Ht) as (b & -> & Hb).
    cbn. eexists. split; [done|]. split; [|done]. split; cbn; [done| |apply Hok| |].
    + rewrite (ho_count _ Hok), size_difference, size_singleton by set_solver.
      assert (size (h_handled h) <> 0%nat) by (apply size_non_empty_iff; set_solver). lia.
    + intros E. rewrite (ho_none _ Hok E) in Ht. set_solver.
    + intros x Hx. apply (ho_addr _ Hok). set_solver.
  - eexists. split; [done|]. split; [done|]. set_solver.
Qed.

Lemma find_task_ok t h :
  handles_ok h -> find_task t h = if decide (t ∈ h_handled h) then t else NULL.
Proof.
  intros Hok. unfold find_task. destruct (Z.eqb_spec (g_handles h) NULL) as [E|E].
  - rewrite (ho_none _ Hok E). by rewrite decide_False by set_solver.
  - pose proof (tab_ok_elem _ _ _ t (hash_bits t (g_handle_bits h)) (ho_table _ Hok)) as He.
    cbn in He. case_bool_decide; case_decide; naive_solver.
Qed.
