(* ===== verification/RunList.v ===== *)
(** * RunList: the intrusive doubly-linked list, oldest first

    [running_add] and [running_remove] of [framework/filc_async.c], and the
    same two operations of [io_uring/filc_async_uring.c] ([list_add],
    [list_remove]), at the level of the [newer] and [older] pointers.  A
    removed node keeps its own two pointers: a walker that released the lock
    while standing on it goes on from there. *)

From S2P Require Import Prelude.
Open Scope Z_scope.

Record links := mk_links { newer : ptr; older : ptr }.

Record runlist := mk_runlist {
  rl_nodes : gmap ptr links;   (* the two fields of every node ever added *)
  g_newest : ptr;
  g_oldest : ptr;
}.

Definition runlist_init : runlist := mk_runlist ∅ NULL NULL.

Definition set_newer (p v : ptr) (m : gmap ptr links) : outcome (gmap ptr links) :=
  n ← deref (m !! p); mret (<[p := mk_links v (older n)]> m).
Definition set_older (p v : ptr) (m : gmap ptr links) : outcome (gmap ptr links) :=
  n ← deref (m !! p); mret (<[p := mk_links (newer n) v]> m).

Definition running_add (t : ptr) (s : runlist) : outcome runlist :=
  let m := <[t := mk_links NULL (g_newest s)]> (rl_nodes s) in
  if g_newest s =? NULL then mret (mk_runlist m t t)
  else m ← set_newer (g_newest s) t m; mret (mk_runlist m t (g_oldest s)).

Definition running_remove (t : ptr) (s : runlist) : outcome runlist :=
  n ← deref (rl_nodes s !! t);
  s ← (if newer n =? NULL then mret (mk_runlist (rl_nodes s) (older n) (g_oldest s))
       else m ← set_older (newer n) (older n) (rl_nodes s);
            mret (mk_runlist m (g_newest s) (g_oldest s)));
  if older n =? NULL then mret (mk_runlist (rl_nodes s) (g_newest s) (newer n))
  else m ← set_newer (older n) (newer n) (rl_nodes s);
       mret (mk_runlist m (g_newest s) (g_oldest s)).

(** The io_uring runtime's list of calls with a request in flight. *)
Definition list_add : ptr -> runlist -> outcome runlist := running_add.
Definition list_remove : ptr -> runlist -> outcome runlist := running_remove.

(** ** The walk that lets go of the lock

    [for (t = g_oldest; t; t = t->newer)] in [filc_async_get_stats], where the
    body of each round releases the lock, so that other tasks may be added
    and removed ([sched]: the operations of each round) before the walker
    reads its own node's [newer] field. *)

Inductive rl_op := OpAdd (t : ptr) | OpRemove (t : ptr).

Definition rl_exec (op : rl_op) (s : runlist) : outcome runlist :=
  match op with OpAdd t => running_add t s | OpRemove t => running_remove t s end.

Fixpoint rl_execs (ops : list rl_op) (s : runlist) : outcome runlist :=
  match ops with
  | [] => mret s
  | op :: ops => s ← rl_exec op s; rl_execs ops s
  end.

Fixpoint walk_with (fuel : nat) (sched : list (list rl_op)) (t : ptr) (s : runlist)
  : outcome (list ptr * runlist) :=
  if t =? NULL then mret ([], s)
  else match fuel with
       | O => NoFuel
       | S fuel =>
           s ← rl_execs (default [] (head sched)) s;
           n ← deref (rl_nodes s !! t);
           '(l, s) ← walk_with fuel (tail sched) (newer n) s;
           mret (t :: l, s)
       end.

(** ** The abstract list *)

Definition hd_of (n : ptr) (l : list ptr) : ptr := match l with [] => n | x :: _ => x end.
Fixpoint lst_of (p : ptr) (l : list ptr) : ptr :=
  match l with [] => p | x :: l' => lst_of x l' end.

(** [seg m p l n]: the nodes of [l] are linked both ways, with [p] older than
    the first and [n] newer than the last. *)
Fixpoint seg (m : gmap ptr links) (p : ptr) (l : list ptr) (n : ptr) : Prop :=
  match l with
  | [] => True
  | x :: l' => m !! x = Some (mk_links (hd_of n l') p) /\ seg m x l' n
  end.

(** [dll_rep s l]: the list from [g_oldest] along [newer] is [l], and [older]
    and [g_newest] agree with it. *)
Record dll_rep (s : runlist) (l : list ptr) : Prop := {
  dr_NoDup : NoDup l;
  dr_addr : NULL ∉ l;
  dr_seg : seg (rl_nodes s) NULL l NULL;
  dr_oldest : g_oldest s = hd_of NULL l;
  dr_newest : g_newest s = lst_of NULL l;
}.

Lemma hd_of_app n l1 l2 : hd_of n (l1 ++ l2) = hd_of (hd_of n l2) l1.
Proof. by destruct l1. Qed.

Lemma lst_of_app p l1 l2 : lst_of p (l1 ++ l2) = lst_of (lst_of p l1) l2.
Proof. revert p. by induction l1; intros; cbn. Qed.

Lemma lst_of_elem p l : l <> [] -> lst_of p l ∈ l.
Proof.
  revert p. induction l as [|x l IH]; intros p H; [done|]. cbn.
  destruct l; [set_solver|]. right. by apply IH.
Qed.

Lemma seg_app m p l1 l2 n :
  seg m p (l1 ++ l2) n <-> seg m p l1 (hd_of n l2) /\ seg m (lst_of p l1) l2 n.
Proof.
  revert p. induction l1 as [|x l1 IH]; intros p; cbn; [naive_solver|].
  rewrite IH, hd_of_app. naive_solver.
Qed.

Lemma seg_frame m m' p l n :
  (forall x, x ∈ l -> m' !! x = m !! x) -> seg m p l n -> seg m' p l n.
Proof.
  revert p. induction l as [|x l IH]; intros p H; [done|]. cbn. intros [Hx Hl]. split.
  - rewrite H by set_solver. done.
  - apply IH; [set_solver|done].
Qed.

(** Storing into the [newer] field of the last node of a segment. *)
Lemma seg_set_newer m p l n v :
  NoDup l -> l <> [] -> seg m p l n ->
  exists m', set_newer (lst_of p l) v m = Ret m' /\ seg m' p l v /\
    (forall x, x <> lst_of p l -> m' !! x = m !! x) /\
    (forall k, m !! lst_of p l = Some k -> m' !! lst_of p l = Some (mk_links v (older k))).
Proof.
  revert p. induction l as [|x l IH]; cbn [seg]; intros p Hnd Hne Hs; [done|]. destruct Hs as [Hx Hl].
  apply NoDup_cons in Hnd as [Hxl Hnd]. cbn [lst_of].
  destruct l as [|y l].
  - cbn [lst_of seg hd_of] in *. unfold set_newer. rewrite Hx. cbn. eexists. split; [done|]. split_and!.
    + by rewrite lookup_insert_eq.
    + done.
    + intros z Hz. by rewrite lookup_insert_ne.
    + intros k [= <-]. by rewrite lookup_insert_eq.
  - destruct (IH x) as (m' & Hm & Hs & Hf & Hk); [done|done|done|].
    exists m'. split; [done|]. split_and!; [|done|done|done].
    rewrite Hf; [done|]. intros E. apply Hxl. rewrite E. by apply (lst_of_elem x (y :: l)).
Qed.

(** Storing into the [older] field of the first node of a segment. *)
Lemma seg_set_older m p l n v :
  NoDup l -> l <> [] -> seg m p l n ->
  exists m', set_older (hd_of n l) v m = Ret m' /\ seg m' v l n /\
    (forall x, x <> hd_of n l -> m' !! x = m !! x) /\
    (forall k, m !! hd_of n l = Some k -> m' !! hd_of n l = Some (mk_links (newer k) v)).
Proof.
  destruct l as [|x l]; cbn [seg]; intros Hnd Hne Hs; [done|]. destruct Hs as [Hx Hl]. cbn [hd_of].
  apply NoDup_cons in Hnd as [Hxl Hnd]. unfold set_older. rewrite Hx. cbn.
  eexists. split; [done|]. split_and!.
  - by rewrite lookup_insert_eq.
  - eapply seg_frame; [|done]. intros y Hy. rewrite lookup_insert_ne by set_solver. done.
  - intros z Hz. by rewrite lookup_insert_ne.
  - intros k [= <-]. by rewrite lookup_insert_eq.
Qed.

Lemma runlist_init_rep : dll_rep runlist_init [].
Proof. split; try done; [constructor|by intros ?%not_elem_of_nil]. Qed.

Lemma lst_of_null l : NULL ∉ l -> lst_of NULL l = NULL <-> l = [].
Proof.
  intros H. split; [|by intros ->]. intros E. destruct l as [|x l]; [done|].
  pose proof (lst_of_elem NULL (x :: l)). rewrite E in *. naive_solver.
Qed.

Lemma hd_of_null l : NULL ∉ l -> hd_of NULL l = NULL <-> l = [].
Proof. intros H. split; [|by intros ->]. destruct l; [done|]. cbn. set_solver. Qed.

Lemma running_add_rep s l t :
  dll_rep s l -> t <> NULL -> t ∉ l ->
  exists s', running_add t s = Ret s' /\ dll_rep s' (l ++ [t]).
Proof.
  intros [Hnd Ha Hs Ho Hn] Ht Hl. unfold running_add. rewrite Hn.
  assert (Hs' : seg (<[t:=mk_links NULL (lst_of NULL l)]> (rl_nodes s)) NULL l NULL).
  { eapply seg_frame; [|done]. intros x Hx. by rewrite lookup_insert_ne by set_solver. }
  assert (NoDup (l ++ [t]) /\ NULL ∉ l ++ [t]) as [Hnd' Ha'].
  { split; [|set_solver]. apply NoDup_app. split; [done|]. split; [set_solver|apply NoDup_singleton]. }
  destruct (Z.eqb_spec (lst_of NULL l) NULL) as [E|E].
  - apply lst_of_null in E as ->; [|done]. eexists. split; [done|].
    split; cbn; try done. by rewrite lookup_insert_eq.
  - assert (Hne : l <> []) by (intros ->; done).
    destruct (seg_set_newer _ _ _ _ t Hnd Hne Hs') as (m' & Hm & Hseg & Hf & _).
    rewrite Hm. cbn. eexists. split; [done|]. split; cbn; try done.
    + rewrite seg_app. split; [done|]. cbn. split; [|done].
      rewrite Hf by (intros ->; by apply Hl, lst_of_elem). by rewrite lookup_insert_eq.
    + rewrite Ho. by destruct l.
    + by rewrite lst_of_app.
Qed.

(** The two halves around a removed node, joined. *)
Lemma running_remove_rep s l1 t l2 :
  dll_rep s (l1 ++ t :: l2) ->
  exists s', running_remove t s = Ret s' /\ dll_rep s' (l1 ++ l2) /\
    rl_nodes s' !! t = rl_nodes s !! t.
Proof.
  intros [Hnd Ha Hs Ho Hn].
  apply seg_app in Hs as (Hs1 & Ht & Hs2). cbn in Hs1.
  assert (NoDup l1 /\ NoDup l2 /\ (t ∉ l1) /\ (t ∉ l2) /\ (forall x, x ∈ l1 -> x ∉ l2) /\ NoDup (l1 ++ l2))
    as (Hn1 & Hn2 & Ht1 & Ht2 & Hd & Hnd').
  { apply NoDup_app in Hnd as (? & H & [? ?]%NoDup_cons).
    rewrite NoDup_app. split_and!; try done; set_solver. }
  assert (Ha' : NULL ∉ l1 ++ l2) by set_solver.
  unfold running_remove. rewrite Ht. cbn [mbind outcome_bind deref newer older].
  assert (exists m1, (if hd_of NULL l2 =? NULL
      then mret (mk_runlist (rl_nodes s) (lst_of NULL l1) (g_oldest s))
      else m ← set_older (hd_of NULL l2) (lst_of NULL l1) (rl_nodes s);
           mret (mk_runlist m (g_newest s) (g_oldest s)))
    = Ret (mk_runlist m1 (lst_of NULL (l1 ++ l2)) (g_oldest s)) /\
    seg m1 NULL l1 t /\ seg m1 (lst_of NULL l1) l2 NULL /\ m1 !! t = rl_nodes s !! t)
    as (m1 & -> & Hm1 & Hm2 & Hmt).
  { destruct (Z.eqb_spec (hd_of NULL l2) NULL) as [E|E].
    - apply hd_of_null in E as ->; [|set_solver]. rewrite app_nil_r. by eexists.
    - assert (l2 <> []) by (intros ->; done).
      destruct (seg_set_older _ _ _ _ (lst_of NULL l1) Hn2 ltac:(done) Hs2) as (m & -> & ? & Hf & _).
      assert (hd_of NULL l2 ∈ l2) by (destruct l2; set_solver).
      exists m. split_and!; [|eapply seg_frame; [|done]|done|apply Hf; set_solver].
      + cbn. do 2 f_equal. rewrite Hn, !lst_of_app. cbn. by destruct l2.
      + intros x Hx. apply Hf. set_solver. }
  cbn [mbind outcome_bind rl_nodes g_newest g_oldest].
  destruct (Z.eqb_spec (lst_of NULL l1) NULL) as [E|E].
  - apply lst_of_null in E as ->; [|set_solver]. eexists. split; [done|]. cbn. split; [by split|]. by rewrite Hmt.
  - assert (l1 <> []) by (intros ->; done).
    destruct (seg_set_newer _ _ _ _ (hd_of NULL l2) Hn1 ltac:(done) Hm1) as (m & -> & ? & Hf & _).
    pose proof (lst_of_elem NULL l1 ltac:(done)).
    eexists. split; [done|]. cbn. split; [|rewrite Hf, Hmt; [done|set_solver]].
    split; cbn; try done.
    + rewrite seg_app. split; [done|]. eapply seg_frame; [|done]. intros x Hx. apply Hf. set_solver.
    + rewrite Ho. by destruct l1.
Qed.

(** ** Histories

    [h] lists every task ever added, in order; [l] the ones still linked. *)

Definition rl_abs (op : rl_op) (lh : list ptr * list ptr) : option (list ptr * list ptr) :=
  match op with
  | OpAdd t => if decide (t <> NULL /\ t ∉ lh.2) then Some (lh.1 ++ [t], lh.2 ++ [t]) else None
  | OpRemove t => (fun l => (l, lh.2)) <$> unlink t lh.1
  end.

Fixpoint rl_abss (ops : list rl_op) (lh : list ptr * list ptr) : option (list ptr * list ptr) :=
  match ops with
  | [] => Some lh
  | op :: ops => lh ← rl_abs op lh; rl_abss ops lh
  end.

Record rl_inv (s : runlist) (l h : list ptr) : Prop := {
  ri_rep : dll_rep s l;
  ri_sub : forall t, t ∈ l -> t ∈ h;
  ri_hist : NoDup h;
  ri_null : NULL ∉ h;
  ri_dom : forall t, t ∈ h <-> is_Some (rl_nodes s !! t);
  ri_edge : forall i a n, h !! i = Some a -> rl_nodes s !! a = Some n -> newer n <> NULL ->
    exists j, (i < j)%nat /\ h !! j = Some (newer n);
}.

(** [path m a u]: following [newer] from [a] reaches [u]. *)
Inductive path (m : gmap ptr links) (u : ptr) : ptr -> Prop :=
  | path_here : path m u u
  | path_next a n : m !! a = Some n -> newer n <> NULL -> path m u (newer n) -> path m u a.

Lemma unlink_split x (l l' : list ptr) :
  unlink x l = Some l' -> exists l1 l2, l = l1 ++ x :: l2 /\ l' = l1 ++ l2.
Proof.
  revert l'. induction l as [|y l IH]; intros l' H; [done|]. cbn in H.
  destruct (Z.eqb_spec y x) as [->|].
  - inv_ret. by exists [], l'.
  - destruct (unlink x l) as [l0|] eqn:E; [|done]. cbn in H. inv_ret.
    destruct (IH _ eq_refl) as (l1 & l2 & -> & ->). by exists (y :: l1), l2.
Qed.

Lemma dom_insert_Some {A} (m : gmap ptr A) k v x :
  is_Some (<[k:=v]> m !! x) <-> x = k \/ is_Some (m !! x).
Proof. rewrite lookup_insert. case_decide; subst; naive_solver. Qed.

(** What adding does to the pointers of the other nodes. *)
Lemma running_add_nodes s t s' x n :
  running_add t s = Ret s' -> x <> t -> rl_nodes s' !! x = Some n ->
  rl_nodes s !! x = Some n \/
  x = g_newest s /\ newer n = t /\ is_Some (rl_nodes s !! x).
Proof.
  unfold running_add, set_newer. intros H Hx. destruct (g_newest s =? NULL).
  - inv_ret. cbn. rewrite lookup_insert_ne by done. auto.
  - inv_ret. cbn. rewrite lookup_insert. case_decide as Hg; subst.
    + rewrite lookup_insert_ne in Hr0 by done. intros [= <-]. right. eauto.
    + rewrite lookup_insert_ne by done. auto.
Qed.

Lemma running_add_dom s t s' x :
  running_add t s = Ret s' -> is_Some (rl_nodes s' !! x) <-> x = t \/ is_Some (rl_nodes s !! x).
Proof.
  unfold running_add, set_newer. intros H. destruct (g_newest s =? NULL).
  - inv_ret. apply dom_insert_Some.
  - inv_ret. cbn. rewrite dom_insert_Some, dom_insert_Some.
    destruct (decide (g_newest s = t)) as [->|Hne]; [tauto|].
    rewrite lookup_insert_ne in Hr0 by done. split; [|tauto].
    intros [->|]; [right; by eexists|done].
Qed.

Lemma running_add_new s t s' :
  running_add t s = Ret s' -> g_newest s <> t -> rl_nodes s' !! t = Some (mk_links NULL (g_newest s)).
Proof.
  unfold running_add, set_newer. intros H Hne. destruct (g_newest s =? NULL).
  - inv_ret. cbn. by rewrite lookup_insert_eq.
  - inv_ret. cbn. by rewrite lookup_insert_ne, lookup_insert_eq.
Qed.

Lemma rl_inv_add s l h t :
  rl_inv s l h -> t <> NULL -> t ∉ h ->
  exists s', running_add t s = Ret s' /\ rl_inv s' (l ++ [t]) (h ++ [t]).
Proof.
  intros [Hr Hsub Hnd Hnull Hdom He] Ht Hh.
  destruct (running_add_rep s l t Hr Ht) as (s' & Ha & Hr'); [naive_solver|].
  assert (Hg : g_newest s <> NULL -> g_newest s ∈ h).
  { rewrite (dr_newest _ _ Hr). intros Hn. apply Hsub, lst_of_elem. by intros ->. }
  exists s'. split; [done|]. split; [done| | | | |].
  - set_solver.
  - apply NoDup_app. split; [done|]. split; [set_solver|apply NoDup_singleton].
  - set_solver.
  - intros x. rewrite elem_of_app, list_elem_of_singleton, Hdom, (running_add_dom _ _ _ x Ha). tauto.
  - intros i a n Hi Hn Hnn. apply lookup_app_Some in Hi as [Hi|[Hge Hi]].
    + assert (a <> t) by (intros ->; apply Hh; by eapply list_elem_of_lookup_2).
      destruct (running_add_nodes _ _ _ _ _ Ha ltac:(done) Hn) as [Hn'|(-> & -> & _)].
      * destruct (He _ _ _ Hi Hn' Hnn) as (j & ? & ?). exists j. split; [done|].
        by apply lookup_app_l_Some.
      * exists (length h). apply lookup_lt_Some in Hi. split; [lia|]. by apply list_lookup_middle.
    + apply list_lookup_singleton_Some in Hi as [Hi <-].
      rewrite (running_add_new _ _ _ Ha) in Hn; [by inv_ret|].
      intros E. rewrite E in Hg. naive_solver.
Qed.

(** Removing [t] makes its older neighbour skip it, and changes no other
    [newer] pointer; in particular not its own. *)
Lemma running_remove_newer s t s' k :
  running_remove t s = Ret s' -> rl_nodes s !! t = Some k ->
  forall x, newer <$> rl_nodes s' !! x =
    if decide (x = older k /\ older k <> NULL) then Some (newer k) else newer <$> rl_nodes s !! x.
Proof.
  unfold running_remove. intros H Hk. rewrite Hk in H. cbn in H.
  apply bind_Ret_inv in H as (s1 & H1 & H).
  assert (Hn : forall x, newer <$> rl_nodes s1 !! x = newer <$> rl_nodes s !! x).
  { intros x. destruct (newer k =? NULL); [by inv_ret|]. unfold set_older in H1. inv_ret. cbn.
    rewrite lookup_insert. case_decide; [subst|done]. by rewrite Hr0. }
  intros x. rewrite <- Hn. destruct (Z.eqb_spec (older k) NULL) as [E|E].
  - inv_ret. cbn. by rewrite decide_False by naive_solver.
  - unfold set_newer in H. inv_ret. cbn. rewrite lookup_insert.
    case_decide; subst; [by rewrite decide_True|]. by rewrite decide_False by naive_solver.
Qed.

Lemma fmap_newer_Some (o : option links) v :
  newer <$> o = Some v <-> exists n, o = Some n /\ newer n = v.
Proof. destruct o; cbn; naive_solver. Qed.

Lemma seg_neighbours m l1 t l2 k :
  NULL ∉ l1 ++ t :: l2 -> seg m NULL (l1 ++ t :: l2) NULL -> m !! t = Some k ->
  (older k <> NULL -> older k ∈ l1 /\ newer <$> m !! older k = Some t) /\
  newer k = hd_of NULL l2.
Proof.
  intros Ha (Hs1 & Ht & Hs2)%seg_app Hk. rewrite Hk in Ht. injection Ht as ->. cbn.
  split; [|done]. intros Hne. destruct l1 as [|x l1 _] using rev_ind; [done|].
  rewrite lst_of_app in *. cbn in *. split; [set_solver|].
  apply seg_app in Hs1 as [_ [Hx _]]. by rewrite Hx.
Qed.

(** Paths to other nodes survive the removal of [t]: they skip it. *)
Lemma path_skip m m' t k :
  m !! t = Some k -> (older k <> NULL -> newer <$> m !! older k = Some t) ->
  (forall x, newer <$> m' !! x =
     if decide (x = older k /\ older k <> NULL) then Some (newer k) else newer <$> m !! x) ->
  forall u a, u <> t -> path m u a -> path m' u a.
Proof.
  intros Hk Ho Hn u a Hu Hp. induction Hp as [|a n Hna Hnn Hp IH]; [constructor|].
  assert (Hx : newer <$> m !! a = Some (newer n)) by (by rewrite Hna).
  destruct (decide (a = older k /\ older k <> NULL)) as [[-> Hd]|Hd].
  - rewrite (Ho Hd) in Hx. injection Hx as Hx. rewrite <- Hx in IH.
    inversion IH as [|? n' Hn' Hnn' Hp']; subst; [done|].
    assert (newer <$> m' !! older k = Some (newer k)) as (o & Hok & Hon)%fmap_newer_Some
      by (by rewrite Hn, decide_True).
    assert (newer n' = newer k) as Heq.
    { assert (Hmk : newer <$> m' !! newer n = Some (newer n')) by (by rewrite Hn').
      rewrite Hn in Hmk. destruct (decide _); [by injection Hmk|].
      rewrite Hk in Hmk. cbn in Hmk. by injection Hmk. }
    eapply path_next; [done|by rewrite Hon, <- Heq|by rewrite Hon, <- Heq].
  - assert (newer <$> m' !! a = Some (newer n)) as (o & Ho' & Hon)%fmap_newer_Some
      by (by rewrite Hn, decide_False).
    eapply path_next; [done|by rewrite Hon|by rewrite Hon].
Qed.

Lemma rl_inv_remove s l l' h t :
  rl_inv s l h -> unlink t l = Some l' ->
  exists s', running_remove t s = Ret s' /\ rl_inv s' l' h /\
    forall u a, u <> t -> path (rl_nodes s) u a -> path (rl_nodes s') u a.
Proof.
  intros [Hr Hsub Hnd Hnull Hdom He] (l1 & l2 & -> & ->)%unlink_split.
  destruct (running_remove_rep s l1 t l2 Hr) as (s' & Ha & Hr' & _).
  assert (Ht : t ∈ h) by (apply Hsub; set_solver).
  pose proof Ht as Hk. apply Hdom in Hk as [k Hk].
  pose proof (running_remove_newer _ _ _ _ Ha Hk) as Hn.
  destruct (seg_neighbours _ _ _ _ _ (dr_addr _ _ Hr) (dr_seg _ _ Hr) Hk) as [Ho Hnk].
  exists s'. split; [done|]. split; [split|].
  - done.
  - set_solver.
  - done.
  - done.
  - intros x. rewrite Hdom. rewrite <- (fmap_is_Some newer), <- (fmap_is_Some newer (rl_nodes s' !! x)), Hn.
    destruct (decide _) as [[-> Hd]|Hd]; [|reflexivity].
    destruct (Ho Hd) as [_ ->]. by split; eexists.
  - intros i a n Hi Hna Hnn.
    assert (Hx : newer <$> rl_nodes s' !! a = Some (newer n)) by (by rewrite Hna). rewrite Hn in Hx.
    destruct (decide _) as [[-> Hd]|Hd].
    + injection Hx as Hx. destruct (Ho Hd) as [_ Hot].
      apply fmap_newer_Some in Hot as (m & Hm & Hmt).
      destruct (He _ _ _ Hi Hm) as (j & Hij & Hj); [rewrite Hmt; intros ->; by apply (dr_addr _ _ Hr); set_solver|].
      rewrite Hmt in Hj. destruct (He _ _ _ Hj Hk) as (j' & ? & Hj'); [by rewrite Hx|].
      exists j'. rewrite <- Hx. split; [lia|done].
    + apply fmap_newer_Some in Hx as (m & Hm & Hmn). rewrite <- Hmn in *. by apply (He i a m).
  - intros u a Hu. apply (path_skip _ _ t k); [done|apply Ho|done|done].
Qed.

Lemma path_add s l h t s' u a :
  rl_inv s l h -> running_add t s = Ret s' -> t ∉ h -> path (rl_nodes s) u a -> path (rl_nodes s') u a.
Proof.
  intros [Hr Hsub Hnd Hnull Hdom He] Ha Ht Hp.
  induction Hp as [|a n Hna Hnn Hp IH]; [constructor|].
  assert (Hat : a <> t) by (intros ->; apply Ht, Hdom; by eexists).
  assert (is_Some (rl_nodes s' !! a)) as [n' Hn'].
  { apply (running_add_dom _ _ _ _ Ha). right. by eexists. }
  destruct (running_add_nodes _ _ _ _ _ Ha Hat Hn') as [Hn|(-> & _)].
  - rewrite Hna in Hn. injection Hn as ->. by eapply path_next.
  - exfalso. pose proof (dr_seg _ _ Hr) as Hs. rewrite (dr_newest _ _ Hr) in Hna.
    destruct l as [|x l _] using rev_ind.
    + apply Hnull, Hdom. by eexists.
    + apply seg_app in Hs as [_ [Hx _]]. rewrite lst_of_app in Hna. cbn in Hna, Hx.
      rewrite Hx in Hna. injection Hna as <-. done.
Qed.

Lemma rl_exec_inv op s l h l' h' :
  rl_inv s l h -> rl_abs op (l, h) = Some (l', h') ->
  exists s', rl_exec op s = Ret s' /\ rl_inv s' l' h' /\ h `prefix_of` h' /\
    (forall u, u ∈ h -> u ∈ l' -> u ∈ l) /\
    (forall u a, u ∈ h -> u ∈ l' -> path (rl_nodes s) u a -> path (rl_nodes s') u a).
Proof.
  intros Hi Ha. destruct op as [t|t]; cbn in Ha |- *.
  - case_decide as Ht; [|done]. destruct Ht as [Hn Ht]. injection Ha as <- <-.
    destruct (rl_inv_add s l h t Hi Hn Ht) as (s' & He & Hi').
    exists s'. split_and!; [done|done|by apply prefix_app_r| |].
    + intros u Hu [?|?%list_elem_of_singleton]%elem_of_app; [done|]. by subst.
    + intros u a _ _. by eapply path_add.
  - destruct (unlink t l) as [l0|] eqn:Hu; [|done]. cbn in Ha. injection Ha as <- <-.
    destruct (rl_inv_remove s l l0 h t Hi Hu) as (s' & He & Hi' & Hp).
    pose proof (dr_NoDup _ _ (ri_rep _ _ _ Hi)) as Hnd.
    exists s'. split_and!; [done|done|done| |].
    + intros u _ Hul. by apply (unlink_elem t l l0 u Hnd) in Hul as [? _].
    + intros u a _ Hul. apply Hp. by apply (unlink_elem t l l0 u Hnd) in Hul as [_ ?].
Qed.

Lemma rl_execs_inv ops s l h l' h' :
  rl_inv s l h -> rl_abss ops (l, h) = Some (l', h') ->
  exists s', rl_execs ops s = Ret s' /\ rl_inv s' l' h' /\ h `prefix_of` h' /\
    (forall u, u ∈ h -> u ∈ l' -> u ∈ l) /\
    (forall u a, u ∈ h -> u ∈ l' -> path (rl_nodes s) u a -> path (rl_nodes s') u a).
Proof.
  revert s l h. induction ops as [|op ops IH]; intros s l h Hi Ha; cbn in Ha |- *.
  - injection Ha as <- <-. by exists s.
  - destruct (rl_abs op (l, h)) as [[l1 h1]|] eqn:E; [|done]. cbn in Ha.
    destruct (rl_exec_inv op s l h l1 h1 Hi E) as (s1 & He1 & Hi1 & Hp1 & Hu1 & Hq1).
    destruct (IH s1 l1 h1 Hi1 Ha) as (s2 & He2 & Hi2 & Hp2 & Hu2 & Hq2).
    assert (Hsub : forall u, u ∈ h -> u ∈ h1) by (destruct Hp1 as [? ->]; set_solver).
    exists s2. rewrite He1. cbn. split_and!; [done|done|by etrans| |].
    + intros u Hu Hul. apply Hu1, Hu2; auto.
    + intros u a Hu Hul Hp. auto.
Qed.

Lemma rl_abss_app ops1 ops2 lh : rl_abss (ops1 ++ ops2) lh = rl_abss ops1 lh ≫= rl_abss ops2.
Proof.
  revert lh. induction ops1 as [|op ops1 IH]; intros lh; [done|]. cbn.
  destruct (rl_abs op lh); [apply IH|done].
Qed.

Lemma concat_head_tail {A} (ll : list (list A)) :
  concat ll = default [] (head ll) ++ concat (tail ll).
Proof. by destruct ll. Qed.

(** The walk ends within the fuel, and meets every node on the path ahead of
    it that stays linked. *)
Lemma walk_with_ok fuel sched t s l h l' h' :
  rl_inv s l h -> rl_abss (concat sched) (l, h) = Some (l', h') ->
  (t = NULL \/ exists i, h !! i = Some t /\ (length h' - i <= fuel)%nat) ->
  exists vs s', walk_with fuel sched t s = Ret (vs, s') /\
    forall u, u ∈ h -> u ∈ l' -> path (rl_nodes s) u t -> u ∈ vs.
Proof.
  revert sched t s l h. induction fuel as [|fuel IH]; intros sched t s l h Hi Ha Ht; cbn [walk_with].
  all: destruct (Z.eqb_spec t NULL) as [->|Hn]; [exists [], s; split; [done|]|].
  1, 3: intros u Hu Hl Hp; exfalso; inversion Hp as [|? n Hx]; subst;
    [by apply (ri_null _ _ _ Hi)|apply (ri_null _ _ _ Hi), (ri_dom _ _ _ Hi); by eexists].
  all: destruct Ht as [|(i & Hti & Hf)]; [done|].
  { exfalso. destruct (rl_execs_inv _ _ _ _ _ _ Hi Ha) as (? & _ & _ & Hp & _).
    apply prefix_length in Hp. apply lookup_lt_Some in Hti. lia. }
  rewrite concat_head_tail, rl_abss_app in Ha.
  destruct (rl_abss _ (l, h)) as [[l1 h1]|] eqn:E; [|done]. cbn in Ha.
  destruct (rl_execs_inv _ _ _ _ _ _ Hi E) as (s1 & -> & Hi1 & Hp1 & Hu1 & Hq1). cbn.
  assert (Ht1 : h1 !! i = Some t) by (by eapply prefix_lookup_Some).
  assert (is_Some (rl_nodes s1 !! t)) as [n Hnt].
  { apply (ri_dom _ _ _ Hi1). by eapply list_elem_of_lookup_2. }
  rewrite Hnt. cbn.
  destruct (IH (tail sched) (newer n) s1 l1 h1 Hi1 Ha) as (vs & s' & -> & Hvs).
  { destruct (decide (newer n = NULL)) as [->|Hne]; [by left|right].
    destruct (ri_edge _ _ _ Hi1 _ _ _ Ht1 Hnt Hne) as (j & Hij & Hj). exists j. split; [done|lia]. }
  exists (t :: vs), s'. split; [done|]. intros u Hu Hul Hp.
  destruct (decide (u = t)) as [->|Hut]; [left|right].
  assert (Hsub : u ∈ h1) by (destruct Hp1 as [? ->]; set_solver).
  destruct (rl_execs_inv _ _ _ _ _ _ Hi1 Ha) as (_ & _ & _ & _ & Hu2 & _).
  apply Hvs; [done|done|]. apply Hq1 in Hp; auto.
  inversion Hp as [|? n' Hn' ? Hp']; subst; [done|]. rewrite Hnt in Hn'. by injection Hn' as ->.
Qed.

(** From [g_oldest] every linked node lies ahead. *)
Lemma seg_path m p l u :
  NULL ∉ l -> seg m p l NULL -> u ∈ l -> path m u (hd_of NULL l).
Proof.
  revert p. induction l as [|x l IH]; intros p Ha Hs Hu; [set_solver|]. cbn in Hs |- *.
  destruct Hs as [Hx Hs]. apply elem_of_cons in Hu as [->|Hu]; [constructor|].
  eapply path_next; [done| |].
  - cbn. destruct l; set_solver.
  - cbn. eapply IH; [set_solver|done|done].
Qed.

Lemma rl_inv_init : rl_inv runlist_init [] [].
Proof.
  split; [apply runlist_init_rep|set_solver|constructor|set_solver| |].
  - intros t. cbn. rewrite lookup_empty. split; [by intros ?%not_elem_of_nil|by intros [? ?]].
  - intros i a n Hi. by apply lookup_nil_Some in Hi || done.
Qed.

(** The list is determined by the pointers. *)
Lemma dll_rep_unique s l1 l2 : dll_rep s l1 -> dll_rep s l2 -> l1 = l2.
Proof.
  intros [_ Ha1 Hs1 Ho1 _] [_ Ha2 Hs2 Ho2 _]. rewrite Ho1 in Ho2. clear Ho1. revert Hs1 Hs2 Ho2 Ha1 Ha2.
  generalize NULL at 1 3 as p. induction l1 as [|x l1 IH] in l2 |- *; intros p Hs1 Hs2 Ho Ha1 Ha2.
  - symmetry. apply hd_of_null; [done|]. by rewrite <- Ho.
  - destruct l2 as [|y l2]; [exfalso; cbn in Ho; set_solver|]. cbn in Ho. subst y. destruct Hs1 as [Hx1 Hs1], Hs2 as [Hx2 Hs2].
    rewrite Hx1 in Hx2. injection Hx2 as Hn. f_equal. apply (IH l2 x); [done|done|done|set_solver|set_solver].
Qed.

(** The statistics walk.  [filc_async_get_stats] walks the running list
    from the oldest task and lets go of the lock at every task, so tasks may
    start and complete under it, the one it stands on included.  In every
    reachable list, whatever sequence of additions and removals happens at
    each round, the walk ends within as many rounds as tasks were ever
    added, never touches memory that is not a task, and asks about every task
    that was running when it began and is still running when it ends. *)
Theorem get_stats_walk_visits_all (s : runlist) (l h l' h' : list ptr)
    (ops : list rl_op) (sched : list (list rl_op)) (fuel : nat) :
  rl_execs ops runlist_init = Ret s ->
  rl_abss ops ([], []) = Some (l, h) ->
  rl_abss (concat sched) (l, h) = Some (l', h') ->
  (length h' <= fuel)%nat ->
  exists vs s', walk_with fuel sched (g_oldest s) s = Ret (vs, s') /\
    forall u, u ∈ l -> u ∈ l' -> u ∈ vs.
Proof.
  intros He Ha Hs Hf.
  destruct (rl_execs_inv _ _ _ _ _ _ rl_inv_init Ha) as (s0 & He' & Hi & _).
  rewrite He in He'. injection He' as <-.
  pose proof (ri_rep _ _ _ Hi) as Hr.
  destruct (walk_with_ok fuel sched (g_oldest s) s l h l' h' Hi Hs) as (vs & s' & Hw & Hvs).
  - rewrite (dr_oldest _ _ Hr). destruct l as [|x l]; [by left|right].
    assert (x ∈ h) as [i Hx]%list_elem_of_lookup by (apply (ri_sub _ _ _ Hi); set_solver).
    exists i. split; [done|lia].
  - exists vs, s'. split; [done|]. intros u Hu Hu'.
    apply Hvs; [by apply (ri_sub _ _ _ Hi)|done|]. rewrite (dr_oldest _ _ Hr).
    eapply seg_path; [apply Hr|apply Hr|done].
Qed.

(** Three tasks; while the walker stands on the first, the first two complete
    and a fourth starts: the third and the fourth are still asked. *)
Lemma get_stats_walk_visits_all_witness :
  exists s, rl_execs [OpAdd 16; OpAdd 32; OpAdd 48] runlist_init = Ret s /\
  exists vs s', walk_with 4 [[OpRemove 16; OpRemove 32; OpAdd 64]] (g_oldest s) s = Ret (vs, s') /\
    vs = [16; 32; 48; 64] /\ forall u, u ∈ [16; 32; 48] -> u ∈ [48; 64] -> u ∈ vs.
Proof.
  set (ops := [OpAdd 16; OpAdd 32; OpAdd 48]).
  exists (match rl_execs ops runlist_init with Ret s => s | _ => runlist_init end).
  split; [vm_compute; reflexivity|].
  destruct (get_stats_walk_visits_all
    (match rl_execs ops runlist_init with Ret s => s | _ => runlist_init end) [16; 32; 48] [16; 32; 48] [48; 64] [16; 32; 48; 64]
    ops [[OpRemove 16; OpRemove 32; OpAdd 64]] 4) as (vs & s' & Hw & Hv).
  - vm_compute; reflexivity.
  - vm_compute; reflexivity.
  - vm_compute; reflexivity.
  - cbn; lia.
  - exists vs, s'. split; [exact Hw|]. split; [|exact Hv]. vm_compute in Hw. by injection Hw as <- _.
Defined.
