(* ===== verification/Locks.v ===== *)
(** * Locks: the dependency locks

    One lock per (value, space): shared by readers, exclusive for a writer,
    granted in the order the requests arrived.  [lk_mem] and [lk_holds] are
    the arena's lock and hold records, [lk_buckets] the hash table,
    [lk_free] the free list (through [bucket_next]), and [lk_task_holds] the
    [holds] list of each task.  The intrusive [holders] and [waiters] chains
    are lists of hold addresses, head first.  A record the allocator hands
    out is an argument ([fresh]); it matters only when it is used.

    [lock_take] is cut where the code gives up [g_lock]: [lock_enqueue], then
    the test [lock_blocked] that its loop repeats each time it has the lock
    again, then [lock_grant].  The loop itself is in the file Framework. *)

From S2P Require Import Prelude Buckets Handles.
Open Scope Z_scope.

Definition FILC_ASYNC_DEP_READ : Z := 1.
Definition FILC_ASYNC_DEP_WRITE : Z := 2.
Definition FILC_ASYNC_DEP_POINTER : Z := 4.

Definition LOCK_BUCKET_BITS : Z := 10.

Record lock := mk_lock {
  l_value : Z;
  l_space : Z;
  l_holders : list ptr;
  l_waiters : list ptr;     (* requests not yet granted, oldest first *)
  l_nholders : Z;
  l_nwriters : Z;           (* holders in write mode *)
}.

Record hold := mk_hold {
  hd_task : ptr;
  hd_lock : ptr;
  hd_write : bool;
}.

Record locks := mk_locks {
  lk_mem : gmap ptr lock;
  lk_holds : gmap ptr hold;
  lk_buckets : gmap Z (list ptr);
  lk_free : list ptr;
  lk_task_holds : gmap ptr (list ptr);
}.

Definition locks_init : locks := mk_locks ∅ ∅ ∅ [] ∅.

Definition set_lk_mem (m : gmap ptr lock) (s : locks) : locks :=
  mk_locks m (lk_holds s) (lk_buckets s) (lk_free s) (lk_task_holds s).
Definition set_task_holds (t : ptr) (l : list ptr) (s : locks) : locks :=
  mk_locks (lk_mem s) (lk_holds s) (lk_buckets s) (lk_free s) (<[t := l]> (lk_task_holds s)).

Definition task_holds (s : locks) (t : ptr) : list ptr := default [] (lk_task_holds s !! t).

Definition lock_bucket (value space : Z) : Z :=
  hash_bits (Z.lxor value space) LOCK_BUCKET_BITS.

(** The walk of one bucket: a chain entry that is not a lock is a wild
    pointer. *)
Fixpoint bucket_find (m : gmap ptr lock) (value space : Z) (l : list ptr) : outcome (option ptr) :=
  match l with
  | [] => mret None
  | x :: l =>
      lk ← deref (m !! x);
      if (l_value lk =? value) && (l_space lk =? space) then mret (Some x)
      else bucket_find m value space l
  end.

Definition lock_get (value space : Z) (fresh : ptr) (s : locks) : outcome (ptr * locks) :=
  let b := lock_bucket value space in
  found ← bucket_find (lk_mem s) value space (chain (lk_buckets s) b);
  match found with
  | Some l => mret (l, s)
  | None =>
      '(l, free) ← match lk_free s with
                   | l :: free => mret (l, free)
                   | [] => l ← alloc_or_die fresh; mret (l, [])
                   end;
      mret (l, mk_locks (<[l := mk_lock value space [] [] 0 0]> (lk_mem s)) (lk_holds s)
                 (chain_push b l (lk_buckets s)) free (lk_task_holds s))
  end.

(** The first holder in [hs] that [t] must wait for. *)
Fixpoint find_conflict (H : gmap ptr hold) (t : ptr) (write : bool) (hs : list ptr) : outcome (option hold) :=
  match hs with
  | [] => mret None
  | h :: hs =>
      hd ← deref (H !! h);
      if negb (hd_task hd =? t) && (write || hd_write hd) then mret (Some hd)
      else find_conflict H t write hs
  end.

(** The task to wait for, or NULL. *)
Definition lock_conflict (s : locks) (l : lock) (t : ptr) (write : bool) : outcome ptr :=
  if (if write then l_nholders l =? 0 else l_nwriters l =? 0) then mret NULL
  else c ← find_conflict (lk_holds s) t write (l_holders l);
       mret (match c with Some hd => hd_task hd | None => NULL end).

(** The waiters in front of [h]; the walk must meet [h]. *)
Fixpoint ahead_of (h : ptr) (ws : list ptr) : outcome (list ptr) :=
  match ws with
  | [] => Trap
  | w :: ws => if w =? h then mret [] else l ← ahead_of h ws; mret (w :: l)
  end.

(** One turn of the loop of [lock_take] for the request [h]: the holder it
    waits for (or NULL), and whether a request queued before it conflicts. *)
Definition lock_blocked (h : ptr) (s : locks) : outcome (ptr * bool) :=
  hd ← deref (lk_holds s !! h);
  l ← deref (lk_mem s !! hd_lock hd);
  holder ← lock_conflict s l (hd_task hd) (hd_write hd);
  ws ← ahead_of h (l_waiters l);
  c ← find_conflict (lk_holds s) (hd_task hd) (hd_write hd) ws;
  mret (holder, match c with Some _ => true | None => false end).

(** [lock_take] up to its loop: find or make the lock, queue the request. *)
Definition lock_enqueue (t : ptr) (value space mode : Z) (fresh_lock fresh_hold : ptr) (s : locks)
  : outcome (ptr * locks) :=
  let write := mode =? FILC_ASYNC_DEP_WRITE in
  '(l, s) ← lock_get value space fresh_lock s;
  h ← alloc_or_die fresh_hold;
  lk ← deref (lk_mem s !! l);
  mret (h, mk_locks
    (<[l := mk_lock (l_value lk) (l_space lk) (l_holders lk) (l_waiters lk ++ [h])
              (l_nholders lk) (l_nwriters lk)]> (lk_mem s))
    (<[h := mk_hold t l write]> (lk_holds s)) (lk_buckets s) (lk_free s) (lk_task_holds s)).

(** [lock_take] after its loop: from the waiters to the holders. *)
Definition lock_grant (h : ptr) (s : locks) : outcome locks :=
  hd ← deref (lk_holds s !! h);
  l ← deref (lk_mem s !! hd_lock hd);
  ws ← deref (unlink h (l_waiters l));
  let l := mk_lock (l_value l) (l_space l) (h :: l_holders l) ws
             (u32 (l_nholders l + 1))
             (if hd_write hd then u32 (l_nwriters l + 1) else l_nwriters l) in
  mret (set_task_holds (hd_task hd) (h :: task_holds s (hd_task hd))
          (set_lk_mem (<[hd_lock hd := l]> (lk_mem s)) s)).

(** One round of [locks_release]. *)
Definition release_hold (h : ptr) (s : locks) : outcome locks :=
  hd ← deref (lk_holds s !! h);
  l ← deref (lk_mem s !! hd_lock hd);
  hs ← deref (unlink h (l_holders l));
  let l' := mk_lock (l_value l) (l_space l) hs (l_waiters l)
              (u32 (l_nholders l - 1))
              (if hd_write hd then u32 (l_nwriters l - 1) else l_nwriters l) in
  let s' := set_lk_mem (<[hd_lock hd := l']> (lk_mem s)) s in
  match hs, l_waiters l with
  | [], [] =>
      if negb (l_nholders l' =? 0) || negb (l_nwriters l' =? 0)
      then Fatal "dependency lock counts out of step"
      else b ← chain_unlink (lock_bucket (l_value l) (l_space l)) (hd_lock hd) (lk_buckets s');
           mret (mk_locks (lk_mem s') (lk_holds s') b (hd_lock hd :: lk_free s') (lk_task_holds s'))
  | _, _ => mret s'
  end.

Fixpoint release_holds (hs : list ptr) (s : locks) : outcome locks :=
  match hs with
  | [] => mret s
  | h :: hs => s ← release_hold h s; release_holds hs s
  end.

Definition locks_release (t : ptr) (s : locks) : outcome locks :=
  s ← release_holds (task_holds s t) s;
  mret (set_task_holds t [] s).

(** The keys of [filc_async_lock_word] and [filc_async_lock_ptr]. *)
Definition word_space (space : Z) : Z := Z.land space (u32 (Z.lnot FILC_ASYNC_DEP_POINTER)).
Definition ptr_space (space : Z) : Z := Z.lor space FILC_ASYNC_DEP_POINTER.

(** ** The operations as steps

    Between two steps any thread may take [g_lock].  A [Grant] is one turn of
    a waiting request's loop: it is granted, or it goes on waiting. *)

Inductive lk_op :=
  | Request (t : ptr) (value space mode : Z) (fresh_lock fresh_hold : ptr)
  | Grant (h : ptr)
  | Release (t : ptr).

Definition lk_exec (op : lk_op) (s : locks) : outcome locks :=
  match op with
  | Request t value space mode fl fh =>
      '(_, s) ← lock_enqueue t value space mode fl fh s; mret s
  | Grant h =>
      '(holder, queued_behind) ← lock_blocked h s;
      if (holder =? NULL) && negb queued_behind then lock_grant h s else mret s
  | Release t => locks_release t s
  end.

(** [h] waits on lock [l]. *)
Definition waiting (s : locks) (h : ptr) (hd : hold) (lk : lock) : Prop :=
  lk_holds s !! h = Some hd /\ lk_mem s !! hd_lock hd = Some lk /\ h ∈ l_waiters lk.

(** [h] is granted. *)
Definition held (s : locks) (h : ptr) (hd : hold) : Prop :=
  lk_holds s !! h = Some hd /\ exists lk, lk_mem s !! hd_lock hd = Some lk /\ h ∈ l_holders lk.

(** What the steps rely on: the allocator answers with addresses not in use,
    a lock call names a task, and memory for [2^32] hold records, which are
    never freed, does not exist. *)
Definition lk_op_ok (op : lk_op) (s : locks) : Prop :=
  match op with
  | Request t _ _ _ fl fh =>
      t <> NULL /\ fl <> NULL /\ lk_mem s !! fl = None /\
      fh <> NULL /\ lk_holds s !! fh = None /\ Z.of_nat (size (lk_holds s)) < 2 ^ 32 - 1
  | Grant h => exists hd lk, waiting s h hd lk
  | Release _ => True
  end.

Abbreviation lk_reach := (reach lk_exec lk_op_ok locks_init).
Abbreviation lk_execs := (execs lk_exec).
Abbreviation lk_ops_ok := (ops_ok lk_exec lk_op_ok).

(** ** Invariant *)

Definition hold_writes (H : gmap ptr hold) (h : ptr) : bool :=
  match H !! h with Some hd => hd_write hd | None => false end.
Definition writers (H : gmap ptr hold) (hs : list ptr) : list ptr :=
  filter (fun h => hold_writes H h = true) hs.
#[global] Arguments writers : simpl never.

Record lock_ok (H : gmap ptr hold) (l : ptr) (lk : lock) : Prop := {
  lo_nodup : NoDup (l_holders lk ++ l_waiters lk);
  lo_hold : forall h, h ∈ l_holders lk ++ l_waiters lk ->
    exists hd, H !! h = Some hd /\ hd_lock hd = l;
  lo_nholders : l_nholders lk = Z.of_nat (length (l_holders lk));
  lo_nwriters : l_nwriters lk = Z.of_nat (length (writers H (l_holders lk)));
  lo_excl : forall h1 h2 hd1 hd2, h1 ∈ l_holders lk -> h2 ∈ l_holders lk ->
    H !! h1 = Some hd1 -> H !! h2 = Some hd2 -> hd_task hd1 <> hd_task hd2 ->
    hd_write hd1 = false;
}.

Definition lk_live (s : locks) : gset ptr := dom (lk_mem s) ∖ list_to_set (lk_free s).
Definition lock_key (m : gmap ptr lock) (l : ptr) : Z :=
  match m !! l with Some lk => lock_bucket (l_value lk) (l_space lk) | None => 0 end.

(** [X]: locks that may have neither holders nor waiters. *)
Record locks_inv (X : gset ptr) (s : locks) : Prop := {
  li_tab : tab_ok (lock_key (lk_mem s)) (lk_buckets s) (lk_live s);
  li_free : NoDup (lk_free s) /\ forall l, l ∈ lk_free s ->
    exists lk, lk_mem s !! l = Some lk /\ l_holders lk = [] /\ l_waiters lk = [];
  li_lock : map_Forall (lock_ok (lk_holds s)) (lk_mem s);
  li_busy : forall l lk, l ∈ lk_live s -> l ∉ X -> lk_mem s !! l = Some lk ->
    l_holders lk ++ l_waiters lk <> [];
  li_uniq : forall l1 l2 lk1 lk2, l1 ∈ lk_live s -> l2 ∈ lk_live s ->
    lk_mem s !! l1 = Some lk1 -> lk_mem s !! l2 = Some lk2 ->
    l_value lk1 = l_value lk2 -> l_space lk1 = l_space lk2 -> l1 = l2;
  li_task : forall t, NoDup (task_holds s t) /\
    forall h, h ∈ task_holds s t <-> exists hd, held s h hd /\ hd_task hd = t;
  li_bound : Z.of_nat (size (lk_holds s)) < 2 ^ 32;
  li_tasks : map_Forall (fun _ hd => hd_task hd <> NULL) (lk_holds s);
}.

Lemma locks_inv_init : locks_inv ∅ locks_init.
Proof.
  split; cbn.
  - apply tab_ok_empty.
  - split; [constructor|]. by intros l ?%not_elem_of_nil.
  - apply map_Forall_empty.
  - intros l lk. by rewrite lookup_empty.
  - intros l1 l2 lk1 lk2 _ _. by rewrite lookup_empty.
  - intros t. unfold task_holds. cbn. rewrite lookup_empty. cbn. split; [constructor|].
    intros h. split; [by intros ?%not_elem_of_nil|]. intros (hd & [Hh _] & _). cbn in Hh.
    by rewrite lookup_empty in Hh.
  - by rewrite map_size_empty.
  - apply map_Forall_empty.
Qed.

(** Every chain the operations walk is a list of distinct hold records. *)
Lemma lock_ok_length H l lk :
  lock_ok H l lk -> (length (l_holders lk) + length (l_waiters lk) <= size H)%nat.
Proof.
  intros Hok. rewrite <- length_app, <- (size_dom H).
  rewrite <- (size_list_to_set (C := gset ptr) (l_holders lk ++ l_waiters lk)) by apply Hok.
  apply subseteq_size. intros h Hh%elem_of_list_to_set.
  destruct (lo_hold _ _ _ Hok h Hh) as (hd & Hhd & _). apply elem_of_dom. by eexists.
Qed.

Lemma writers_app H l1 l2 : writers H (l1 ++ l2) = writers H l1 ++ writers H l2.
Proof. apply filter_app. Qed.

Lemma writers_cons H h hs :
  writers H (h :: hs) = if hold_writes H h then h :: writers H hs else writers H hs.
Proof.
  unfold writers. destruct (hold_writes H h) eqn:E.
  - by rewrite filter_cons_True.
  - rewrite filter_cons_False by congruence. done.
Qed.

Lemma writers_ext H H' hs :
  (forall h, h ∈ hs -> H' !! h = H !! h) -> writers H' hs = writers H hs.
Proof.
  induction hs as [|h hs IH]; intros He; [done|]. rewrite !writers_cons.
  unfold hold_writes. rewrite He by set_solver. rewrite IH by set_solver. done.
Qed.

(** [find_conflict] is the first conflicting entry of the list. *)
Definition conflicts (t : ptr) (write : bool) (hd : hold) : Prop :=
  hd_task hd <> t /\ (write = true \/ hd_write hd = true).

Lemma find_conflict_spec H t write hs :
  (forall h, h ∈ hs -> is_Some (H !! h)) ->
  exists c, find_conflict H t write hs = Ret c /\
    match c with
    | Some hd => conflicts t write hd /\ exists h, h ∈ hs /\ H !! h = Some hd
    | None => forall h hd, h ∈ hs -> H !! h = Some hd -> ~ conflicts t write hd
    end.
Proof.
  induction hs as [|h hs IH]; intros Hs; cbn.
  - eexists. split; [done|]. by intros h hd ?%not_elem_of_nil.
  - destruct (Hs h ltac:(left)) as [hd Hhd]. rewrite Hhd. cbn.
    destruct (negb (hd_task hd =? t) && (write || hd_write hd)) eqn:E.
    + eexists. split; [done|]. split; [|exists h; split; [left|done]].
      apply andb_true_iff in E as [E1%negb_true_iff%Z.eqb_neq E2%orb_true_iff]. by split.
    + destruct IH as (c & -> & Hc); [intros; apply Hs; by right|]. exists c. split; [done|].
      destruct c as [hd'|]; [destruct Hc as [? (h' & ? & ?)]; split; [done|]; exists h'; split; [by right|done]|].
      intros h' hd' [->|Hh']%elem_of_cons Hl; [|by eapply Hc].
      rewrite Hhd in Hl. injection Hl as <-. intros [Hn%Z.eqb_neq Hw%orb_true_iff].
      by rewrite Hn, Hw in E.
Qed.

Lemma ahead_of_split h ws1 ws2 : h ∉ ws1 -> ahead_of h (ws1 ++ h :: ws2) = Ret ws1.
Proof.
  induction ws1 as [|w ws1 IH]; intros Hh; cbn; [by rewrite Z.eqb_refl|].
  apply not_elem_of_cons in Hh as [Hw Hh]. destruct (Z.eqb_spec w h); [done|].
  by rewrite IH.
Qed.

Section Inv.
Context (X : gset ptr) (s : locks) (Hinv : locks_inv X s).

Lemma lock_ok_at l lk : lk_mem s !! l = Some lk -> lock_ok (lk_holds s) l lk.
Proof. apply (li_lock _ _ Hinv). Qed.

Lemma holders_known l lk h : lk_mem s !! l = Some lk -> h ∈ l_holders lk ++ l_waiters lk ->
  is_Some (lk_holds s !! h).
Proof. intros Hl Hh. destruct (lo_hold _ _ _ (lock_ok_at _ _ Hl) h Hh) as (? & ? & _). by eexists. Qed.

(** The counts decide exactly when the walk finds nothing. *)
Lemma lock_conflict_spec l lk t write :
  lk_mem s !! l = Some lk ->
  exists p, lock_conflict s lk t write = Ret p /\
    (p = NULL <-> forall h hd, h ∈ l_holders lk -> lk_holds s !! h = Some hd -> ~ conflicts t write hd) /\
    (p <> NULL -> exists h hd, h ∈ l_holders lk /\ lk_holds s !! h = Some hd /\
       conflicts t write hd /\ hd_task hd = p).
Proof.
  intros Hl. pose proof (lock_ok_at _ _ Hl) as Hok. unfold lock_conflict.
  destruct (if write then _ else _) eqn:E.
  - exists NULL. split; [done|]. split; [|done]. split; [|done]. intros _ h hd Hh Hhd [Hne Hw].
    destruct write.
    + apply Z.eqb_eq in E. rewrite (lo_nholders _ _ _ Hok) in E.
      destruct (l_holders lk); [by apply not_elem_of_nil in Hh|cbn in E; lia].
    + destruct Hw as [|Hw]; [done|]. apply Z.eqb_eq in E. rewrite (lo_nwriters _ _ _ Hok) in E.
      assert (h ∈ writers (lk_holds s) (l_holders lk)) as Hin.
      { apply list_elem_of_filter. split; [|done]. unfold hold_writes. by rewrite Hhd. }
      destruct (writers _ _); [by apply not_elem_of_nil in Hin|cbn in E; lia].
  - clear E. destruct (find_conflict_spec (lk_holds s) t write (l_holders lk)) as (c & -> & Hc).
    { intros h Hh. eapply holders_known; [done|]. set_solver. }
    cbn. eexists. split; [done|]. destruct c as [hd|].
    + destruct Hc as [Hc (h & Hh & Hhd)].
      pose proof (li_tasks _ _ Hinv _ _ Hhd) as Hn. cbn in Hn. split; [|intros _; by exists h, hd].
      split; [done|]. intros Hno. by destruct (Hno h hd Hh Hhd).
    + split; [|done]. by split.
Qed.

Lemma lock_blocked_spec h hd lk ws1 ws2 :
  waiting s h hd lk -> l_waiters lk = ws1 ++ h :: ws2 ->
  exists p q, lock_blocked h s = Ret (p, q) /\
    (p = NULL <-> forall h' hd', h' ∈ l_holders lk -> lk_holds s !! h' = Some hd' ->
       ~ conflicts (hd_task hd) (hd_write hd) hd') /\
    (q = false <-> forall h' hd', h' ∈ ws1 -> lk_holds s !! h' = Some hd' ->
       ~ conflicts (hd_task hd) (hd_write hd) hd').
Proof.
  intros (Hh & Hl & Hin) Hws. unfold lock_blocked. rewrite Hh. cbn. rewrite Hl. cbn.
  destruct (lock_conflict_spec _ _ (hd_task hd) (hd_write hd) Hl) as (p & -> & Hp & _). cbn.
  rewrite Hws, ahead_of_split; cycle 1.
  { pose proof (lo_nodup _ _ _ (lock_ok_at _ _ Hl)) as Hnd. rewrite Hws in Hnd.
    apply NoDup_app in Hnd as (_ & _ & Hnd%NoDup_app). set_solver. }
  cbn. destruct (find_conflict_spec (lk_holds s) (hd_task hd) (hd_write hd) ws1) as (c & -> & Hc).
  { intros h' Hh'. eapply holders_known; [done|]. rewrite Hws. set_solver. }
  cbn. do 2 eexists. split; [done|]. split; [done|]. destruct c as [hd'|].
  - destruct Hc as [Hc (h' & Hh' & Hhd')]. split; [done|]. intros Hno. by destruct (Hno h' hd' Hh' Hhd').
  - by split.
Qed.
End Inv.

Lemma bucket_find_spec m value space l :
  (forall x, x ∈ l -> is_Some (m !! x)) ->
  exists r, bucket_find m value space l = Ret r /\
    match r with
    | Some x => x ∈ l /\ exists lk, m !! x = Some lk /\ l_value lk = value /\ l_space lk = space
    | None => forall x lk, x ∈ l -> m !! x = Some lk -> ~ (l_value lk = value /\ l_space lk = space)
    end.
Proof.
  induction l as [|x l IH]; intros Hs; cbn.
  - eexists. split; [done|]. by intros ? ? ?%not_elem_of_nil.
  - destruct (Hs x ltac:(left)) as [lk Hlk]. rewrite Hlk. cbn.
    destruct ((l_value lk =? value) && (l_space lk =? space)) eqn:E.
    + apply andb_true_iff in E as [?%Z.eqb_eq ?%Z.eqb_eq].
      eexists. split; [done|]. split; [left|by exists lk].
    + destruct IH as (r & -> & Hr); [intros; apply Hs; by right|]. exists r. split; [done|].
      destruct r as [y|]; [destruct Hr; split; [by right|done]|].
      intros y lk' [->|Hy]%elem_of_cons Hl; [|by eapply Hr].
      rewrite Hlk in Hl. injection Hl as <-. intros [Hv%Z.eqb_eq Hsp%Z.eqb_eq].
      by rewrite Hv, Hsp in E.
Qed.

Lemma live_mem s l : l ∈ lk_live s -> is_Some (lk_mem s !! l).
Proof. unfold lk_live. intros [H%elem_of_dom _]%elem_of_difference. done. Qed.

(** A lock record without holders or waiters is well formed. *)
Lemma lock_ok_empty H l value space : lock_ok H l (mk_lock value space [] [] 0 0).
Proof. split; cbn; try done; [constructor|by intros h ?%not_elem_of_nil|by intros ? ? ? ? ?%not_elem_of_nil]. Qed.

(** A new record at [l], on the free list or fresh, joins the table. *)
Lemma lock_new_inv s l free value space :
  locks_inv ∅ s -> l ∉ lk_live s ->
  (forall lk, lk_mem s !! l = Some lk -> l_holders lk = [] /\ l_waiters lk = []) ->
  NoDup (l :: free) -> (forall x, x ∈ lk_free s -> x = l \/ x ∈ free) ->
  (forall x, x ∈ free -> x ∈ lk_free s) ->
  (forall x lk, x ∈ lk_live s -> lk_mem s !! x = Some lk ->
     ~ (l_value lk = value /\ l_space lk = space)) ->
  locks_inv {[l]} (mk_locks (<[l := mk_lock value space [] [] 0 0]> (lk_mem s)) (lk_holds s)
    (chain_push (lock_bucket value space) l (lk_buckets s)) free (lk_task_holds s)).
Proof.
  intros Hi Hl Hold [Hlf Hnd]%NoDup_cons Hfree Hsub Hfresh.
  set (s' := mk_locks _ _ _ _ _).
  assert (Hlive : lk_live s' = {[l]} ∪ lk_live s).
  { unfold lk_live. cbn. rewrite dom_insert_L. apply set_eq. intros x.
    rewrite !elem_of_difference, !elem_of_union, !elem_of_difference, !elem_of_list_to_set, elem_of_singleton.
    destruct (decide (x = l)) as [->|]; [tauto|]. naive_solver. }
  split; cbn [lk_mem lk_holds lk_buckets lk_free lk_task_holds s'].
  - rewrite Hlive.
    replace (lock_bucket value space) with
      (lock_key (<[l:=mk_lock value space [] [] 0 0]> (lk_mem s)) l)
      by (unfold lock_key; by rewrite lookup_insert_eq).
    apply tab_ok_push; [|done]. eapply tab_ok_ext; [|apply (li_tab _ _ Hi)].
    intros x Hx. unfold lock_key. rewrite lookup_insert_ne by (by intros ->). done.
  - split; [done|]. intros x Hx. destruct (li_free _ _ Hi) as [_ Hf].
    rewrite lookup_insert_ne by (by intros ->). by apply Hf, Hsub.
  - apply map_Forall_insert_2; [apply lock_ok_empty|apply Hi].
  - rewrite Hlive. intros x lk Hx Hxl. rewrite lookup_insert_ne by set_solver.
    apply (li_busy _ _ Hi); set_solver.
  - rewrite Hlive. intros l1 l2 lk1 lk2 H1 H2 Hl1 Hl2 Hv Hs.
    destruct (decide (l1 = l)) as [->|Hn1], (decide (l2 = l)) as [->|Hn2]; [done| | |].
    + rewrite lookup_insert_eq in Hl1. injection Hl1 as <-. rewrite lookup_insert_ne in Hl2 by done.
      exfalso. eapply (Hfresh l2); [set_solver|done|]. by rewrite <- Hv, <- Hs.
    + rewrite lookup_insert_eq in Hl2. injection Hl2 as <-. rewrite lookup_insert_ne in Hl1 by done.
      exfalso. eapply (Hfresh l1); [set_solver|done|]. by rewrite Hv, Hs.
    + rewrite !lookup_insert_ne in * by done. eapply (li_uniq _ _ Hi); [set_solver..|done|done|done|done].
  - intros t. destruct (li_task _ _ Hi t) as [Hn Ht]. split; [done|]. intros h.
    unfold task_holds, held, s' in *. cbn. rewrite Ht.
    split; intros (hd & (Hh & lk & Hlk & Hin) & Htk); exists hd; (split; [split; [done|]|done]).
    + exists lk. split; [|done]. rewrite lookup_insert_ne; [done|]. intros E. subst l.
      destruct (Hold _ Hlk) as [E _]. rewrite E in Hin. by apply not_elem_of_nil in Hin.
    + destruct (decide (hd_lock hd = l)) as [E|].
      * rewrite E, lookup_insert_eq in Hlk. injection Hlk as <-. by apply not_elem_of_nil in Hin.
      * rewrite lookup_insert_ne in Hlk by done. by exists lk.
  - apply Hi.
  - apply Hi.
Qed.

Lemma locks_inv_weaken X Y s : X ⊆ Y -> locks_inv X s -> locks_inv Y s.
Proof. intros HXY Hi. split; try apply Hi. intros l lk Hl HlY. apply (li_busy _ _ Hi); set_solver. Qed.

(** [lock_get] answers with the one lock of the key, making it when there is
    none. *)
Lemma lock_get_ok s value space fl :
  locks_inv ∅ s -> fl <> NULL -> lk_mem s !! fl = None ->
  exists l s', lock_get value space fl s = Ret (l, s') /\ locks_inv {[l]} s' /\
    lk_holds s' = lk_holds s /\ lk_task_holds s' = lk_task_holds s /\ (l ∈ lk_live s') /\
    (forall x, x ∈ lk_live s -> lk_mem s' !! x = lk_mem s !! x) /\
    exists lk, lk_mem s' !! l = Some lk /\ l_value lk = value /\ l_space lk = space /\
      (lk_mem s !! l = Some lk \/ lk = mk_lock value space [] [] 0 0) /\
      (forall x, x <> l -> lk_mem s' !! x = lk_mem s !! x).
Proof.
  intros Hi Hfl Hfresh. unfold lock_get.
  assert (Hch : forall x, x ∈ chain (lk_buckets s) (lock_bucket value space) <->
      x ∈ lk_live s /\ lock_key (lk_mem s) x = lock_bucket value space)
    by (intros; apply tab_ok_elem, Hi).
  destruct (bucket_find_spec (lk_mem s) value space (chain (lk_buckets s) (lock_bucket value space)))
    as (r & -> & Hr).
  { intros x [Hx _]%Hch. by apply live_mem. }
  cbn. destruct r as [l|].
  - destruct Hr as [[Hl _]%Hch (lk & Hlk & Hv & Hs)]. exists l, s. split; [done|].
    split; [by apply (locks_inv_weaken ∅); [set_solver|]|]. split_and!; try done.
    exists lk. split_and!; try done. by left.
  - assert (Hno : forall x lk, x ∈ lk_live s -> lk_mem s !! x = Some lk ->
      ~ (l_value lk = value /\ l_space lk = space)).
    { intros x lk Hx Hlk [Hv Hs]. eapply Hr; [|done|done]. apply Hch. split; [done|].
      unfold lock_key. by rewrite Hlk, Hv, Hs. }
    destruct (li_free _ _ Hi) as [Hnd Hf].
    assert (exists l free, match lk_free s with
        | l :: free => mret (l, free)
        | [] => l ← alloc_or_die fl; mret (l, []) end = Ret (l, free) /\
      (l ∉ lk_live s) /\ NoDup (l :: free) /\ (forall x, x ∈ lk_free s -> x = l \/ x ∈ free) /\
      (forall x, x ∈ free -> x ∈ lk_free s) /\
      (forall lk, lk_mem s !! l = Some lk -> l_holders lk = [] /\ l_waiters lk = []))
      as (l & free & -> & Hl & Hn & Hs1 & Hs2 & Hold).
    { destruct (lk_free s) as [|l free] eqn:E.
      - exists fl, []. unfold alloc_or_die. destruct (Z.eqb_spec fl NULL); [done|].
        split_and!; [done| |apply NoDup_singleton|set_solver|set_solver|by rewrite Hfresh].
        intros [? Hx]%live_mem. by rewrite Hfresh in Hx.
      - exists l, free. split_and!; [done| |done|set_solver|set_solver|].
        + unfold lk_live. rewrite E. set_solver.
        + intros lk Hlk. destruct (Hf l ltac:(left)) as (lk' & Hlk' & ? & ?).
          rewrite Hlk in Hlk'. by injection Hlk' as <-. }
    cbn. do 2 eexists. split; [done|]. split; [by apply lock_new_inv|]. cbn.
    split_and!; [done|done| | |].
    + unfold lk_live. cbn. rewrite dom_insert_L. apply NoDup_cons in Hn as [Hn _]. set_solver.
    + intros x Hx. by rewrite lookup_insert_ne by (by intros ->).
    + eexists. rewrite lookup_insert_eq. split; [done|]. split_and!; try done; [by right|].
      intros x Hx. by rewrite lookup_insert_ne.
Qed.

(** New hold records do not disturb the locks that do not list them. *)
Lemma lock_ok_mono H H' l lk : H ⊆ H' -> lock_ok H l lk -> lock_ok H' l lk.
Proof.
  intros Hsub Hok.
  assert (Hsame : forall h, h ∈ l_holders lk ++ l_waiters lk -> H' !! h = H !! h).
  { intros h Hh. destruct (lo_hold _ _ _ Hok h Hh) as (hd & Hhd & _).
    rewrite Hhd. by eapply lookup_weaken. }
  split; try apply Hok.
  - intros h Hh. rewrite Hsame by done. by apply Hok.
  - rewrite (writers_ext H); [apply Hok|]. intros h Hh. apply Hsame. set_solver.
  - intros h1 h2 hd1 hd2 H1 H2. rewrite !Hsame by set_solver. by apply Hok.
Qed.

(** Replacing the record of one lock, growing the hold records and
    rearranging the tasks' hold lists. *)
Lemma locks_inv_update X X' s l lk lk' H' TH' :
  locks_inv X s -> lk_mem s !! l = Some lk ->
  l_value lk' = l_value lk -> l_space lk' = l_space lk ->
  lk_holds s ⊆ H' -> Z.of_nat (size H') < 2 ^ 32 -> map_Forall (fun _ hd => hd_task hd <> NULL) H' ->
  lock_ok H' l lk' ->
  l ∈ lk_live s -> X ⊆ {[l]} ∪ X' -> (l ∉ X' -> l_holders lk' ++ l_waiters lk' <> []) ->
  let s' := mk_locks (<[l := lk']> (lk_mem s)) H' (lk_buckets s) (lk_free s) TH' in
  (forall t, NoDup (task_holds s' t) /\
    forall h, h ∈ task_holds s' t <-> exists hd, held s' h hd /\ hd_task hd = t) ->
  locks_inv X' s'.
Proof.
  intros Hi Hl Hv Hs Hsub Hb Ht Hok Hlive HX Hbusy s' Htask.
  assert (Hlv : lk_live s' = lk_live s).
  { unfold lk_live. cbn. rewrite dom_insert_lookup_L by (by eexists). done. }
  assert (Hkey : forall x lkx, <[l:=lk']> (lk_mem s) !! x = Some lkx ->
      exists lk0, lk_mem s !! x = Some lk0 /\ l_value lkx = l_value lk0 /\ l_space lkx = l_space lk0).
  { intros x lkx. rewrite lookup_insert. case_decide as E; [|by eauto].
    subst x. intros [= <-]. by exists lk. }
  split; cbn [lk_mem lk_holds lk_buckets lk_free s']; rewrite ?Hlv.
  - eapply tab_ok_ext; [|apply (li_tab _ _ Hi)]. intros x Hx. unfold lock_key.
    destruct (<[l:=lk']> (lk_mem s) !! x) as [lkx|] eqn:E.
    + destruct (Hkey _ _ E) as (lk0 & -> & -> & ->). done.
    + apply live_mem in Hx as [y Hy]. apply lookup_insert_None in E as [E _]. congruence.
  - split; [apply (li_free _ _ Hi)|]. intros x Hx. rewrite lookup_insert_ne.
    + by apply (li_free _ _ Hi).
    + intros E. unfold lk_live in Hlive. rewrite E in Hlive.
      apply elem_of_difference in Hlive as [_ Hn]. apply Hn. by apply elem_of_list_to_set.
  - apply map_Forall_insert_2; [done|]. intros x lkx Hx. eapply lock_ok_mono; [done|].
    by apply (li_lock _ _ Hi).
  - intros x lkx Hx HxX. rewrite lookup_insert. case_decide as E.
    + subst x. intros [= <-]. by apply Hbusy.
    + apply (li_busy _ _ Hi); [done|]. set_solver.
  - intros l1 l2 lk1 lk2 H1 H2 (lk1' & Hl1 & -> & ->)%Hkey (lk2' & Hl2 & -> & ->)%Hkey.
    by eapply (li_uniq _ _ Hi).
  - done.
  - done.
  - done.
Qed.

Lemma held_waiting X s h hd hd' lk : locks_inv X s -> held s h hd -> waiting s h hd' lk -> False.
Proof.
  intros Hi (Hh & lk0 & Hl & Hin) (Hh' & Hl' & Hin'). rewrite Hh in Hh'. injection Hh' as <-.
  rewrite Hl in Hl'. injection Hl' as <-.
  pose proof (lo_nodup _ _ _ (li_lock _ _ Hi _ _ Hl)) as (_ & Hd & _)%NoDup_app. by apply (Hd h).
Qed.

Lemma nonempty_live s X l lk :
  locks_inv X s -> lk_mem s !! l = Some lk -> l_holders lk ++ l_waiters lk <> [] -> l ∈ lk_live s.
Proof.
  intros Hi Hl Hne. unfold lk_live. apply elem_of_difference. split; [apply elem_of_dom; by eexists|].
  intros Hf%elem_of_list_to_set. apply (li_free _ _ Hi) in Hf as (lk' & Hl' & E1 & E2).
  rewrite Hl in Hl'. injection Hl' as <-. by rewrite E1, E2 in Hne.
Qed.

(** Queuing a request. *)
Lemma lock_enqueue_ok s t value space mode fl fh :
  locks_inv ∅ s -> lk_op_ok (Request t value space mode fl fh) s ->
  exists s' hd lk, lock_enqueue t value space mode fl fh s = Ret (fh, s') /\ locks_inv ∅ s' /\
    waiting s' fh hd lk /\ hd = mk_hold t (hd_lock hd) (mode =? FILC_ASYNC_DEP_WRITE) /\
    l_value lk = value /\ l_space lk = space /\ last (l_waiters lk) = Some fh.
Proof.
  intros Hi (Ht & Hfl & Hml & Hfh & Hmh & Hb). unfold lock_enqueue.
  destruct (lock_get_ok s value space fl Hi Hfl Hml) as (l & s1 & -> & Hi1 & HH & HT & Hlive & _ & lk & Hl & Hv & Hs & _ & _).
  cbn. unfold alloc_or_die. destruct (Z.eqb_spec fh NULL); [done|]. cbn. rewrite Hl. cbn.
  set (lk' := mk_lock _ _ _ _ _ _). set (hd := mk_hold t l _).
  assert (Hfresh : lk_holds s1 !! fh = None) by (by rewrite HH).
  pose proof (li_lock _ _ Hi1 _ _ Hl) as Hok.
  assert (Hnin : forall x lkx, lk_mem s1 !! x = Some lkx -> fh ∉ l_holders lkx ++ l_waiters lkx).
  { intros x lkx Hx Hin. destruct (lo_hold _ _ _ (li_lock _ _ Hi1 _ _ Hx) fh Hin) as (? & E & _).
    by rewrite Hfresh in E. }
  assert (Hsub : lk_holds s1 ⊆ <[fh:=hd]> (lk_holds s1)) by (by apply insert_subseteq).
  do 3 eexists. split; [done|]. split; [|split; [split; [by apply lookup_insert_eq|split]|]].
  - eapply (locks_inv_update {[l]} ∅ s1 l lk lk'); try done.
    + rewrite map_size_insert_None by done. rewrite HH. lia.
    + apply map_Forall_insert_2; [done|apply Hi1].
    + pose proof (lock_ok_mono _ _ _ _ Hsub Hok) as Hok'. split; cbn; try apply Hok'.
      * rewrite (assoc_L (++)). apply NoDup_app. split; [apply Hok|]. split; [|apply NoDup_singleton].
        intros h Hh E%list_elem_of_singleton. subst h. by apply (Hnin l lk).
      * intros h. rewrite (assoc_L (++)). intros [Hh|E%list_elem_of_singleton]%elem_of_app.
        -- by apply Hok'.
        -- subst h. exists hd. by rewrite lookup_insert_eq.
    + set_solver.
    + intros _ E. cbn in E. by destruct (l_holders lk), (l_waiters lk).
    + intros t0. destruct (li_task _ _ Hi1 t0) as [Hnd Hin]. unfold task_holds in *. cbn.
      split; [done|]. intros h. rewrite Hin. unfold held. cbn.
      split; intros (hd0 & (Hh & lk0 & Hlk0 & Hhin) & Htk); exists hd0.
      * assert (h <> fh) by congruence. rewrite lookup_insert_ne by done. split; [|done]. split; [done|].
        rewrite lookup_insert. case_decide as E; [|by exists lk0]. exists lk'. split; [done|].
        rewrite <- E, Hl in Hlk0. by injection Hlk0 as <-.
      * rewrite lookup_insert in Hlk0.
        assert (h ∈ l_holders lk0 /\ exists lkx, lk_mem s1 !! hd_lock hd0 = Some lkx /\ l_holders lkx = l_holders lk0)
          as [_ (lkx & Hlkx & E)].
        { split; [done|]. case_decide as E; [|by exists lk0]. injection Hlk0 as <-. exists lk. by rewrite <- E. }
        rewrite <- E in Hhin. assert (h <> fh) by (intros ->; apply (Hnin _ _ Hlkx); set_solver).
        rewrite lookup_insert_ne in Hh by done. split; [|done]. split; [done|by exists lkx].
  - cbn. by apply lookup_insert_eq.
  - cbn. set_solver.
  - cbn. by rewrite last_snoc.
Qed.

(** Granting a request no holder conflicts with. *)
Lemma lock_grant_ok s h hd lk :
  locks_inv ∅ s -> waiting s h hd lk ->
  (forall h' hd', h' ∈ l_holders lk -> lk_holds s !! h' = Some hd' ->
     ~ conflicts (hd_task hd) (hd_write hd) hd') ->
  exists s' ws, lock_grant h s = Ret s' /\ locks_inv ∅ s' /\ held s' h hd /\
    unlink h (l_waiters lk) = Some ws /\ lk_holds s' = lk_holds s /\
    lk_mem s' = <[hd_lock hd := mk_lock (l_value lk) (l_space lk) (h :: l_holders lk) ws
      (l_nholders lk + 1) (if hd_write hd then l_nwriters lk + 1 else l_nwriters lk)]> (lk_mem s).
Proof.
  intros Hi Hw Hno. pose proof Hw as (Hh & Hl & Hin). unfold lock_grant. rewrite Hh. cbn. rewrite Hl. cbn.
  destruct (unlink_Some _ _ Hin) as [ws Hws]. rewrite Hws. cbn.
  pose proof (li_lock _ _ Hi _ _ Hl) as Hok. cbn in Hok.
  pose proof (lock_ok_length _ _ _ Hok) as Hlen. pose proof (unlink_length _ _ _ Hws) as Hwl.
  pose proof (li_bound _ _ Hi) as Hb. pose proof (lo_nholders _ _ _ Hok) as Hnh.
  pose proof (lo_nwriters _ _ _ Hok) as Hnw.
  assert (Hwr : (length (writers (lk_holds s) (l_holders lk)) <= length (l_holders lk))%nat)
    by apply length_filter.
  rewrite !u32_small by (destruct (hd_write hd); lia).
  pose proof (lo_nodup _ _ _ Hok) as Hnd0. apply NoDup_app in Hnd0 as (Hn1 & Hd & Hn2).
  set (lk' := mk_lock _ _ _ _ _ _).
  assert (Hsub : forall x, x ∈ ws <-> x ∈ l_waiters lk /\ x <> h) by (intros; by apply unlink_elem).
  assert (Hok' : lock_ok (lk_holds s) (hd_lock hd) lk').
  { split; cbn.
    - apply NoDup_cons. split; [|apply NoDup_app; split_and!; [done| |by eapply unlink_NoDup]].
      + rewrite elem_of_app, Hsub. intros [Hx|[_ Hx]]; [by apply (Hd h)|done].
      + intros x Hx [Hx' _]%Hsub. by apply (Hd x).
    - intros x Hx. apply (lo_hold _ _ _ Hok). set_solver.
    - lia.
    - rewrite writers_cons. unfold hold_writes. rewrite Hh. destruct (hd_write hd); cbn; lia.
    - intros h1 h2 hd1 hd2 H1 H2 E1 E2 Hne. destruct (hd_write hd1) eqn:E; [exfalso|done].
      apply elem_of_cons in H1 as [->|H1], H2 as [->|H2].
      + congruence.
      + rewrite Hh in E1. injection E1 as <-. apply (Hno _ _ H2 E2). split; [by apply not_eq_sym|by left].
      + rewrite Hh in E2. injection E2 as <-. apply (Hno _ _ H1 E1). split; [done|by right].
      + rewrite (lo_excl _ _ _ Hok h1 h2 hd1 hd2) in E; done. }
  do 2 eexists. split; [done|].
  assert (Hlive : hd_lock hd ∈ lk_live s).
  { eapply nonempty_live; [done|done|]. destruct (l_waiters lk); [by apply not_elem_of_nil in Hin|].
    by destruct (l_holders lk). }
  split; [|split; [|done]].
  - eapply (locks_inv_update ∅ ∅ s (hd_lock hd) lk lk'); try done; [apply (li_tasks _ _ Hi)|].
    intros t0. unfold task_holds. cbn. destruct (li_task _ _ Hi t0) as [Hnd0 Hin0].
    assert (Hheld : forall h0 hd0, held (mk_locks (<[hd_lock hd:=lk']> (lk_mem s)) (lk_holds s) (lk_buckets s) (lk_free s)
        (<[hd_task hd:=h :: default [] (lk_task_holds s !! hd_task hd)]> (lk_task_holds s))) h0 hd0
        <-> held s h0 hd0 \/ h0 = h /\ hd0 = hd).
    { intros h0 hd0. unfold held. cbn. split.
      - intros (Hh0 & lk0 & Hl0 & Hx). rewrite lookup_insert in Hl0. case_decide as E; [|by left; split; [|exists lk0]].
        injection Hl0 as <-. cbn in Hx. apply elem_of_cons in Hx as [->|Hx].
        + right. split; [done|]. congruence.
        + left. split; [done|]. exists lk. by rewrite <- E.
      - intros [(Hh0 & lk0 & Hl0 & Hx)|[-> ->]].
        + split; [done|]. rewrite lookup_insert. case_decide as E; [|by exists lk0].
          exists lk'. split; [done|]. rewrite <- E, Hl in Hl0. injection Hl0 as <-. cbn. set_solver.
        + split; [done|]. exists lk'. rewrite lookup_insert_eq. cbn. set_solver. }
    rewrite lookup_insert. unfold task_holds in *. case_decide as E; cbn.
    + rewrite E. split.
      * apply NoDup_cons. split; [|done]. intros (hd0 & Hhd0 & _)%Hin0.
        by eapply held_waiting.
      * intros h0. rewrite elem_of_cons, Hin0. setoid_rewrite Hheld. split.
        -- intros [->|(hd0 & ? & ?)]; [exists hd; auto|exists hd0; auto].
        -- intros (hd0 & [?|[-> ->]] & ?); [right; by exists hd0|by left].
    + split; [done|]. intros h0. rewrite Hin0. setoid_rewrite Hheld.
      split; intros (hd0 & H0 & Ht0); exists hd0; naive_solver.
  - split; [done|]. exists lk'. cbn. rewrite lookup_insert_eq. split; [done|left].
Qed.

(** A lock without holders and waiters goes to the free list. *)
Lemma lock_free_inv s l lk :
  locks_inv {[l]} s -> l ∈ lk_live s -> lk_mem s !! l = Some lk ->
  l_holders lk = [] -> l_waiters lk = [] ->
  exists b, chain_unlink (lock_bucket (l_value lk) (l_space lk)) l (lk_buckets s) = Ret b /\
    locks_inv ∅ (mk_locks (lk_mem s) (lk_holds s) b (l :: lk_free s) (lk_task_holds s)).
Proof.
  intros Hi Hlive Hl Hh Hw.
  destruct (tab_ok_unlink _ _ _ l (li_tab _ _ Hi) Hlive) as (b & Hb & Htab).
  unfold lock_key in Hb. rewrite Hl in Hb. exists b. split; [done|].
  assert (Hlv : forall x, x ∈ lk_live (mk_locks (lk_mem s) (lk_holds s) b (l :: lk_free s) (lk_task_holds s))
      <-> x ∈ lk_live s /\ x <> l) by (intros x; unfold lk_live; cbn; set_solver).
  split; cbn; try apply Hi.
  - replace (lk_live _) with (lk_live s ∖ {[l]}); [done|]. apply set_eq. intros x. rewrite Hlv. set_solver.
  - destruct (li_free _ _ Hi) as [Hnd Hf]. split.
    + apply NoDup_cons. split; [|done]. unfold lk_live in Hlive. set_solver.
    + intros x [->|Hx]%elem_of_cons; [by exists lk|by apply Hf].
  - intros x lkx [Hx Hxl]%Hlv _. apply (li_busy _ _ Hi); [done|set_solver].
  - intros l1 l2 lk1 lk2 [H1 _]%Hlv [H2 _]%Hlv. by apply (li_uniq _ _ Hi).
Qed.

(** No request leaves or joins a queue, and no lock changes its key. *)
Definition lock_queue (lk : lock) : Z * Z * list ptr := (l_value lk, l_space lk, l_waiters lk).
Definition same_waiters (s s' : locks) : Prop :=
  forall l, lock_queue <$> lk_mem s' !! l = lock_queue <$> lk_mem s !! l.

(** One hold leaves its lock; [t]'s list is shorter by it. *)
Lemma release_hold_ok s t h hs :
  locks_inv ∅ (set_task_holds t (h :: hs) s) ->
  exists s', release_hold h s = Ret s' /\ locks_inv ∅ (set_task_holds t hs s') /\
    lk_holds s' = lk_holds s /\ lk_task_holds s' = lk_task_holds s /\ same_waiters s s'.
Proof.
  intros Hi. set (s0 := set_task_holds t (h :: hs) s) in *.
  assert (Hts : task_holds s0 t = h :: hs)
    by (unfold task_holds, s0; cbn; by rewrite lookup_insert_eq).
  destruct (li_task _ _ Hi t) as [Hnd Hin]. rewrite Hts in Hnd, Hin.
  destruct (proj1 (Hin h) ltac:(left)) as (hd & (Hh & lk & Hl & Hhin) & Htask). cbn in Hh, Hl.
  unfold release_hold. rewrite Hh. cbn. rewrite Hl. cbn.
  destruct (unlink_Some _ _ Hhin) as [hs' Hu]. rewrite Hu. cbn.
  pose proof (li_lock _ _ Hi _ _ Hl) as Hok. cbn in Hok.
  pose proof (lock_ok_length _ _ _ Hok) as Hlen. pose proof (unlink_length _ _ _ Hu) as Hul.
  pose proof (li_bound _ _ Hi) as Hb. cbn in Hb. pose proof (lo_nholders _ _ _ Hok) as Hnh.
  pose proof (lo_nwriters _ _ _ Hok) as Hnw.
  assert (Hperm : writers (lk_holds s) (l_holders lk) ≡ₚ writers (lk_holds s) (h :: hs')).
  { unfold writers. by rewrite (unlink_Permutation _ _ _ Hu). }
  apply Permutation_length in Hperm. rewrite writers_cons in Hperm.
  unfold hold_writes in Hperm. rewrite Hh in Hperm.
  assert (Hwr : (length (writers (lk_holds s) hs') <= length hs')%nat) by apply length_filter.
  assert (Hc1 : u32 (l_nholders lk - 1) = Z.of_nat (length hs')) by (rewrite u32_small; lia).
  assert (Hc2 : (if hd_write hd then u32 (l_nwriters lk - 1) else l_nwriters lk)
      = Z.of_nat (length (writers (lk_holds s) hs'))).
  { destruct (hd_write hd); [rewrite u32_small|]; cbn in Hperm; lia. }
  rewrite Hc1, Hc2. set (lk' := mk_lock _ _ _ _ _ _).
  pose proof (lo_nodup _ _ _ Hok) as Hnd0. apply NoDup_app in Hnd0 as (Hn1 & Hd & Hn2).
  assert (Hsub : forall x, x ∈ hs' <-> x ∈ l_holders lk /\ x <> h) by (intros; by apply unlink_elem).
  assert (Hlive : hd_lock hd ∈ lk_live s0).
  { eapply (nonempty_live _ ∅); [done|done|]. destruct (l_holders lk); [by apply not_elem_of_nil in Hhin|done]. }
  assert (Hok' : lock_ok (lk_holds s) (hd_lock hd) lk').
  { split; cbn; [|intros x Hx; apply (lo_hold _ _ _ Hok); set_solver|done|done|].
    - apply NoDup_app. split_and!; [exact (unlink_NoDup _ _ _ Hn1 Hu)| |done]. intros x [Hx _]%Hsub. by apply Hd.
    - intros h1 h2 hd1 hd2 [H1 _]%Hsub [H2 _]%Hsub. by apply (lo_excl _ _ _ Hok h1 h2). }
  assert (Hupd : locks_inv {[hd_lock hd]} (set_task_holds t hs (set_lk_mem (<[hd_lock hd:=lk']> (lk_mem s)) s))).
  { eapply (locks_inv_update ∅ {[hd_lock hd]} s0 (hd_lock hd) lk lk'); try done;
      [apply (li_tasks _ _ Hi)|set_solver|].
    intros t0. assert (Hheld : forall h0 hd0,
        held (set_task_holds t hs (set_lk_mem (<[hd_lock hd:=lk']> (lk_mem s)) s)) h0 hd0
        <-> held s0 h0 hd0 /\ h0 <> h).
    { intros h0 hd0. unfold held. cbn. split.
      - intros (Hh0 & lk0 & Hl0 & Hx). rewrite lookup_insert in Hl0. case_decide as E.
        + injection Hl0 as <-. cbn in Hx. apply Hsub in Hx as [Hx ?]. split; [|done].
          split; [done|]. exists lk. by rewrite <- E.
        + split; [split; [done|by exists lk0]|]. intros ->. congruence.
      - intros ((Hh0 & lk0 & Hl0 & Hx) & Hne). split; [done|]. rewrite lookup_insert.
        case_decide as E; [|by exists lk0]. exists lk'. split; [done|]. cbn. apply Hsub. split; [|done].
        rewrite <- E, Hl in Hl0. by injection Hl0 as <-. }
    unfold task_holds at 1 2. cbn. rewrite lookup_insert. case_decide as E; cbn.
    - subst t0. apply NoDup_cons in Hnd as [Hnh' Hnd]. split; [done|]. intros h0.
      setoid_rewrite Hheld. split.
      + intros Hx. destruct (proj1 (Hin h0) ltac:(by right)) as (hd0 & ? & ?). exists hd0.
        split; [split; [done|]|done]. by intros ->.
      + intros (hd0 & [H0 Hne] & Ht0). assert (h0 ∈ h :: hs) as [->|?]%elem_of_cons by (apply Hin; by exists hd0); done.
    - destruct (li_task _ _ Hi t0) as [Hnd0 Hin0]. unfold task_holds, s0 in Hnd0, Hin0. cbn in Hnd0, Hin0.
      rewrite lookup_insert_ne in Hnd0, Hin0 by done. split; [done|]. intros h0. rewrite Hin0.
      setoid_rewrite Hheld. split; intros (hd0 & H0 & Ht0); exists hd0; [|naive_solver].
      split; [|done]. split; [done|]. intros ->. destruct H0 as [H0 _]. cbn in H0. congruence. }
  assert (Hsw : same_waiters s (set_lk_mem (<[hd_lock hd:=lk']> (lk_mem s)) s)).
  { intros l0. cbn. rewrite lookup_insert. case_decide as E; [|done]. by rewrite <- E, Hl. }
  destruct (decide (hs' = [] /\ l_waiters lk = [])) as [[-> Hwt]|Hne].
  - rewrite Hwt. cbn [length writers l_nholders l_nwriters lk'].
    replace (Z.of_nat (length (writers (lk_holds s) []))) with 0 by done. cbn.
    destruct (lock_free_inv _ (hd_lock hd) lk' Hupd) as (b & Hb' & Hinv); [| |done|done|].
    + unfold lk_live in *. cbn in *. rewrite dom_insert_lookup_L by (by eexists). done.
    + cbn. by rewrite lookup_insert_eq.
    + cbn in Hb'. rewrite Hb'. cbn. eexists. split; [done|]. by split.
  - exists (set_lk_mem (<[hd_lock hd:=lk']> (lk_mem s)) s).
    split; [destruct hs' as [|x hs'], (l_waiters lk) as [|y l0]; try done; by destruct Hne|].
    split; [|done]. split; try apply Hupd. intros l0 lk0 Hl0 _ Hlk0.
    destruct (decide (l0 = hd_lock hd)) as [->|Hne0].
    + cbn in Hlk0. rewrite lookup_insert_eq in Hlk0. injection Hlk0 as <-. cbn.
      intros [-> ?]%app_nil. by destruct Hne.
    + apply (li_busy _ _ Hupd l0 lk0); set_solver.
Qed.

Lemma set_task_holds_idem t l1 l2 s :
  set_task_holds t l2 (set_task_holds t l1 s) = set_task_holds t l2 s.
Proof. unfold set_task_holds. cbn. by rewrite insert_insert_eq. Qed.

Lemma locks_release_ok s t :
  locks_inv ∅ s -> exists s', locks_release t s = Ret s' /\ locks_inv ∅ s' /\
    lk_holds s' = lk_holds s /\ same_waiters s s' /\ task_holds s' t = [] /\
    forall t', t' <> t -> task_holds s' t' = task_holds s t'.
Proof.
  intros Hi. unfold locks_release.
  assert (Hgen : forall hs s0, locks_inv ∅ (set_task_holds t hs s0) ->
    exists s1, release_holds hs s0 = Ret s1 /\ locks_inv ∅ (set_task_holds t [] s1) /\
      lk_holds s1 = lk_holds s0 /\ lk_task_holds s1 = lk_task_holds s0 /\ same_waiters s0 s1).
  { clear. induction hs as [|h hs IH]; intros s0 Hi; [by exists s0|]. cbn.
    destruct (release_hold_ok s0 t h hs Hi) as (s1 & -> & Hi1 & E1 & E2 & E3). cbn.
    destruct (IH s1 Hi1) as (s2 & -> & Hi2 & E4 & E5 & E6). exists s2.
    split_and!; try congruence. }
  destruct (Hgen (task_holds s t) s) as (s1 & -> & Hi1 & E1 & E2 & E3).
  { destruct Hi. split; try done. cbn. intros t0.
    assert (task_holds (set_task_holds t (task_holds s t) s) t0 = task_holds s t0) as ->; [|apply li_task0].
    unfold task_holds. cbn. rewrite lookup_insert. by case_decide; subst. }
  cbn. eexists. split; [done|]. split; [done|]. split; [done|]. split; [done|]. unfold task_holds. cbn.
  split; [by rewrite lookup_insert_eq|]. intros t' Hne. rewrite lookup_insert_ne by done. by rewrite E2.
Qed.

(** A completed task holds nothing; the other holds are as before. *)
Lemma locks_release_held s t s' h hd :
  locks_inv ∅ s -> locks_release t s = Ret s' -> held s' h hd <-> held s h hd /\ hd_task hd <> t.
Proof.
  intros Hi Hr. destruct (locks_release_ok s t Hi) as (s1 & Hr' & Hi1 & EH & _ & E & Eo).
  rewrite Hr in Hr'. injection Hr' as <-.
  assert (Hany : forall s0 s1 h hd, locks_inv ∅ s0 -> locks_inv ∅ s1 -> lk_holds s0 = lk_holds s1 ->
      task_holds s0 (hd_task hd) = task_holds s1 (hd_task hd) -> held s0 h hd -> held s1 h hd).
  { clear. intros s0 s1 h hd Hi0 Hi1 EH ET Hh.
    assert (h ∈ task_holds s1 (hd_task hd)) as Hin.
    { rewrite <- ET. apply (li_task _ _ Hi0). by exists hd. }
    apply (li_task _ _ Hi1) in Hin as (hd' & Hh' & _).
    destruct Hh as [Hh _], Hh' as [Hh' Hx]. rewrite <- EH, Hh in Hh'. injection Hh' as <-.
    split; [by rewrite <- EH|done]. }
  assert (Hno : hd_task hd = t -> ~ held s' h hd).
  { intros <- Hh. assert (h ∈ task_holds s' (hd_task hd)) as Hin by (apply (li_task _ _ Hi1); by exists hd).
    rewrite E in Hin. by apply not_elem_of_nil in Hin. }
  split.
  - intros Hh. assert (hd_task hd <> t) by (intros Et; by apply (Hno Et)). split; [|done].
    apply (Hany s'); auto.
  - intros [Hh Hne]. apply (Hany s); auto. symmetry. by apply Eo.
Qed.

(** Every operation returns and keeps the invariant. *)
Lemma lk_exec_ok s op :
  locks_inv ∅ s -> lk_op_ok op s -> exists s', lk_exec op s = Ret s' /\ locks_inv ∅ s'.
Proof.
  intros Hi Hop. destruct op as [t value space mode fl fh|h|t]; cbn.
  - destruct (lock_enqueue_ok s t value space mode fl fh Hi Hop) as (s' & _ & _ & -> & Hi' & _). by exists s'.
  - destruct Hop as (hd & lk & Hw). pose proof Hw as (_ & _ & (ws1 & ws2 & Hws)%list_elem_of_split).
    destruct (lock_blocked_spec _ _ Hi _ _ _ _ _ Hw Hws) as (p & q & -> & Hp & _). cbn.
    destruct (Z.eqb_spec p NULL) as [->|]; cbn; [|by exists s].
    destruct q; cbn; [by exists s|].
    destruct (lock_grant_ok s h hd lk Hi Hw (proj1 Hp eq_refl)) as (s' & _ & -> & Hi' & _). by exists s'.
  - destruct (locks_release_ok s t Hi) as (s' & -> & Hi' & _). by exists s'.
Qed.

Lemma lk_reach_inv s : lk_reach s -> locks_inv ∅ s.
Proof. apply reach_inv; [apply lk_exec_ok|apply locks_inv_init]. Qed.

#[export] Hint Resolve lk_reach_inv locks_inv_init : async.

(** ** What the locks promise *)

(** The key a hold is for. *)
Definition hold_key (s : locks) (hd : hold) : option (Z * Z) :=
  lk ← lk_mem s !! hd_lock hd; Some (l_value lk, l_space lk).

Lemma held_same_key s h1 h2 hd1 hd2 :
  locks_inv ∅ s -> held s h1 hd1 -> held s h2 hd2 -> hold_key s hd1 = hold_key s hd2 ->
  hd_lock hd1 = hd_lock hd2.
Proof.
  intros Hi (_ & lk1 & Hl1 & H1) (_ & lk2 & Hl2 & H2) Hk. unfold hold_key in Hk.
  rewrite Hl1, Hl2 in Hk. cbn in Hk. injection Hk as Hv Hs.
  eapply (li_uniq _ _ Hi); try done; (eapply nonempty_live; [done|done|]).
  - by destruct (l_holders lk1); [apply not_elem_of_nil in H1|].
  - by destruct (l_holders lk2); [apply not_elem_of_nil in H2|].
Qed.

Lemma held_exclusive s h1 h2 hd1 hd2 :
  locks_inv ∅ s -> held s h1 hd1 -> held s h2 hd2 -> hold_key s hd1 = hold_key s hd2 ->
  hd_task hd1 <> hd_task hd2 -> hd_write hd1 = false /\ hd_write hd2 = false.
Proof.
  intros Hi H1 H2 Hk Ht. pose proof (held_same_key _ _ _ _ _ Hi H1 H2 Hk) as E.
  destruct H1 as (Hh1 & lk1 & Hl1 & Hin1), H2 as (Hh2 & lk2 & Hl2 & Hin2).
  rewrite E, Hl2 in Hl1. injection Hl1 as <-. pose proof (li_lock _ _ Hi _ _ Hl2) as Hok. cbn in Hok.
  split; [by eapply (lo_excl _ _ _ Hok h1 h2)|by eapply (lo_excl _ _ _ Hok h2 h1); [..|by apply not_eq_sym]].
Qed.

(** C3: mutual exclusion.  In every state the lock operations can reach, two
    calls that hold a dependency lock for the same value and space both hold
    it in read mode: a writer holds its key alone. *)
Theorem lock_mutual_exclusion (s : locks) (h1 h2 : ptr) (hd1 hd2 : hold) :
  lk_reach s -> held s h1 hd1 -> held s h2 hd2 -> hold_key s hd1 = hold_key s hd2 ->
  hd_task hd1 <> hd_task hd2 -> hd_write hd1 = false /\ hd_write hd2 = false.
Proof. intros Hi%lk_reach_inv. by apply held_exclusive. Qed.

(** The lock operations never fail.  From every reachable state every
    operation a call may make returns: no chain is walked off its end, and the
    check "dependency lock counts out of step" never fires. *)
Theorem lock_ops_total (s : locks) (op : lk_op) :
  lk_reach s -> lk_op_ok op s -> exists s', lk_exec op s = Ret s'.
Proof. intros Hi%lk_reach_inv Hop. destruct (lk_exec_ok s op Hi Hop) as (s' & ? & _). by exists s'. Qed.

(** *** Order of grants *)

(** How one step changes a queue: a request goes to the end of the queue of
    its lock, a grant takes one entry out, and nothing else moves. *)
Lemma lk_exec_waiting s op s' h hd lk :
  locks_inv ∅ s -> lk_op_ok op s -> lk_exec op s = Ret s' -> waiting s h hd lk ->
  exists lk', lk_mem s' !! hd_lock hd = Some lk' /\ lk_holds s' !! h = Some hd /\
    (l_value lk' = l_value lk /\ l_space lk' = l_space lk) /\
    ((exists tl, l_waiters lk' = l_waiters lk ++ tl) \/
     exists h', op = Grant h' /\ unlink h' (l_waiters lk) = Some (l_waiters lk') /\ held s' h' (default hd (lk_holds s !! h'))).
Proof.
  intros Hi Hop He Hw. pose proof Hw as (Hh & Hl & Hin).
  assert (Hlive : hd_lock hd ∈ lk_live s).
  { eapply nonempty_live; [done|done|]. destruct (l_waiters lk); [by apply not_elem_of_nil in Hin|].
    by destruct (l_holders lk). }
  destruct op as [t value space mode fl fh|h'|t]; cbn in He.
  - destruct Hop as (Ht & Hfl & Hml & Hfh & Hmh & Hb). unfold lock_enqueue in He.
    destruct (lock_get_ok s value space fl Hi Hfl Hml) as (l & s1 & Hg & Hi1 & HH & HT & _ & Hsame & lk1 & Hl1 & _).
    rewrite Hg in He. unfold alloc_or_die in He. cbn in He. destruct (Z.eqb_spec fh NULL); [done|]. cbn in He.
    rewrite Hl1 in He. cbn in He. injection He as <-. cbn.
    pose proof (Hsame _ Hlive) as Hl'. rewrite Hl in Hl'.
    rewrite (lookup_insert_ne (lk_holds s1)) by congruence. rewrite HH, Hh. rewrite lookup_insert. case_decide as E.
    + eexists. split; [done|]. split; [done|]. cbn. rewrite E, Hl' in Hl1. injection Hl1 as <-.
      split; [done|]. left. by eexists.
    + exists lk. split; [done|]. split; [done|]. split; [done|]. left. exists []. by rewrite app_nil_r.
  - destruct Hop as (hd' & lk1 & Hw'). pose proof Hw' as (Hh' & Hl1 & (ws1 & ws2 & Hws)%list_elem_of_split).
    destruct (lock_blocked_spec _ _ Hi _ _ _ _ _ Hw' Hws) as (p & q & Hbl & Hp & _). rewrite Hbl in He. cbn in He.
    destruct ((p =? NULL) && negb q) eqn:E; cycle 1.
    { injection He as <-. exists lk. split_and!; [done..|]. left. exists []. by rewrite app_nil_r. }
    apply andb_true_iff in E as [->%Z.eqb_eq _].
    destruct (lock_grant_ok s h' hd' lk1 Hi Hw' (proj1 Hp eq_refl)) as (s1 & ws & He1 & _ & Hheld & Hu & EH & EM).
    rewrite He in He1. injection He1 as <-. rewrite EM, EH, lookup_insert, Hh. case_decide as E.
    + rewrite E, Hl in Hl1. injection Hl1 as <-. eexists. split_and!; [done..|]. right.
      exists h'. rewrite Hh'. done.
    + exists lk. split_and!; [done..|]. left. exists []. by rewrite app_nil_r.
  - destruct (locks_release_ok s t Hi) as (s1 & He1 & _ & EH & Hsw & _). rewrite He in He1. injection He1 as <-.
    pose proof (Hsw (hd_lock hd)) as Hsw'. rewrite Hl in Hsw'. cbn in Hsw'.
    destruct (lk_mem s' !! hd_lock hd) as [lk'|] eqn:El; [|done]. cbn in Hsw'. injection Hsw' as Hv' Hs' Hsw'.
    exists lk'. rewrite EH. split_and!; [done..|]. left. exists []. by rewrite app_nil_r.
Qed.

(** Only new requests start to wait. *)
Lemma lk_exec_waiting_inv s op s' h hd hd0 lk' :
  locks_inv ∅ s -> lk_op_ok op s -> lk_exec op s = Ret s' -> waiting s' h hd lk' ->
  lk_holds s !! h = Some hd0 -> exists lk, waiting s h hd lk.
Proof.
  intros Hi Hop He (Hh & Hl & Hin) H0. destruct op as [t value space mode fl fh|h'|t]; cbn in He.
  - destruct Hop as (Ht & Hfl & Hml & Hfh & Hmh & Hb). unfold lock_enqueue in He.
    destruct (lock_get_ok s value space fl Hi Hfl Hml)
      as (l & s1 & Hg & Hi1 & HH & HT & _ & _ & lk1 & Hl1 & _ & _ & Hor & Hsame).
    rewrite Hg in He. unfold alloc_or_die in He. cbn in He. destruct (Z.eqb_spec fh NULL); [done|]. cbn in He.
    rewrite Hl1 in He. cbn in He. injection He as <-. cbn in Hh, Hl.
    assert (h <> fh) by congruence. rewrite lookup_insert_ne, HH in Hh by done.
    rewrite lookup_insert in Hl. case_decide as E.
    + injection Hl as <-. cbn in Hin. apply elem_of_app in Hin as [Hin|Hin%list_elem_of_singleton]; [|done].
      destruct Hor as [Hls| ->]; [|by apply not_elem_of_nil in Hin]. exists lk1. by rewrite E in Hls.
    + rewrite Hsame in Hl by congruence. by exists lk'.
  - destruct Hop as (hd' & lk1 & Hw'). pose proof Hw' as (Hh' & Hl1 & (ws1 & ws2 & Hws)%list_elem_of_split).
    destruct (lock_blocked_spec _ _ Hi _ _ _ _ _ Hw' Hws) as (p & q & Hbl & Hp & _). rewrite Hbl in He. cbn in He.
    destruct ((p =? NULL) && negb q) eqn:E; [|injection He as <-; by exists lk'].
    apply andb_true_iff in E as [->%Z.eqb_eq _].
    destruct (lock_grant_ok s h' hd' lk1 Hi Hw' (proj1 Hp eq_refl)) as (s1 & ws & He1 & _ & _ & Hu & EH & EM).
    rewrite He in He1. injection He1 as <-. rewrite EM in Hl. rewrite EH in Hh. rewrite lookup_insert in Hl.
    case_decide as E; [|by exists lk']. injection Hl as <-. cbn in Hin. exists lk1. rewrite E in Hl1.
    split; [done|]. split; [done|]. apply (sublist_subseteq ws); [by eapply unlink_sublist|done].
  - destruct (locks_release_ok s t Hi) as (s1 & He1 & _ & EH & Hsw & _). rewrite He in He1. injection He1 as <-.
    pose proof (Hsw (hd_lock hd)) as Hsw'. rewrite Hl in Hsw'. cbn in Hsw'.
    destruct (lk_mem s !! hd_lock hd) as [lk|] eqn:El; [|done]. cbn in Hsw'. injection Hsw' as Hv' Hs' Hsw'.
    exists lk. split; [by rewrite <- EH|]. split; [done|]. by rewrite <- Hsw'.
Qed.

Lemma lk_exec_holds s op s' h hd :
  locks_inv ∅ s -> lk_op_ok op s -> lk_exec op s = Ret s' ->
  lk_holds s !! h = Some hd -> lk_holds s' !! h = Some hd.
Proof.
  intros Hi Hop He Hh. destruct op as [t value space mode fl fh|h'|t]; cbn in He.
  - destruct Hop as (Ht & Hfl & Hml & Hfh & Hmh & Hb). unfold lock_enqueue in He.
    destruct (lock_get_ok s value space fl Hi Hfl Hml) as (l & s1 & Hg & _ & HH & _ & _ & _ & lk1 & Hl1 & _).
    rewrite Hg in He. unfold alloc_or_die in He. cbn in He. destruct (Z.eqb_spec fh NULL); [done|]. cbn in He.
    rewrite Hl1 in He. cbn in He. injection He as <-. cbn. rewrite HH. by rewrite lookup_insert_ne by congruence.
  - destruct Hop as (hd' & lk & Hw). pose proof Hw as (_ & _ & (ws1 & ws2 & Hws)%list_elem_of_split).
    destruct (lock_blocked_spec _ _ Hi _ _ _ _ _ Hw Hws) as (p & q & Hbl & Hp & _). rewrite Hbl in He. cbn in He.
    destruct ((p =? NULL) && negb q) eqn:E; [|by injection He as <-].
    apply andb_true_iff in E as [->%Z.eqb_eq _].
    destruct (lock_grant_ok s h' hd' lk Hi Hw (proj1 Hp eq_refl)) as (s1 & ws & He1 & _ & _ & _ & EH & _).
    rewrite He in He1. injection He1 as <-. by rewrite EH.
  - destruct (locks_release_ok s t Hi) as (s1 & He1 & _ & EH & _). rewrite He in He1. injection He1 as <-.
    by rewrite EH.
Qed.

(** Only a request starts to wait, for its task. *)
Lemma lk_exec_new_waiting s op s' h hd lk' :
  locks_inv ∅ s -> lk_op_ok op s -> lk_exec op s = Ret s' -> waiting s' h hd lk' ->
  (exists lk, waiting s h hd lk) \/ match op with Request t _ _ _ _ _ => hd_task hd = t | _ => False end.
Proof.
  intros Hi Hop He Hw. destruct (lk_holds s !! h) as [hd0|] eqn:E0; [left; by eapply lk_exec_waiting_inv|right].
  pose proof Hw as (Hh & _). destruct op as [t value space mode fl fh|g|t].
  - destruct (lock_enqueue_ok s t value space mode fl fh Hi Hop) as (s1 & hd1 & lk1 & E & _ & (Hh1 & _) & Ehd & _).
    cbn in He. rewrite E in He. cbn in He. injection He as ->.
    destruct Hop as (Ht & Hfl & Hml & Hfh & Hmh & Hb). unfold lock_enqueue in E.
    destruct (lock_get_ok s value space fl Hi Hfl Hml) as (l & s2 & Hg & _ & HH & _).
    rewrite Hg in E. unfold alloc_or_die in E. cbn in E. destruct (Z.eqb_spec fh NULL); [done|]. cbn in E.
    destruct (lk_mem s2 !! l); cbn in E; [|done]. injection E as <-. cbn in Hh, Hh1. rewrite HH in Hh.
    rewrite lookup_insert in Hh. case_decide as Ef; [by injection Hh as <-|congruence].
  - exfalso. cbn in He. apply bind_Ret_inv in He as ([p q] & _ & He). destruct ((p =? NULL) && negb q); [|injection He as <-; congruence].
    unfold lock_grant in He. inv_ret. cbn in Hh. congruence.
  - exfalso. destruct (locks_release_ok s t Hi) as (s1 & He1 & _ & EH & _). cbn in He. rewrite He in He1. injection He1 as <-.
    rewrite EH in Hh. congruence.
Qed.

(** A grant is recorded in the lists of tasks and of locks alike. *)
Lemma held_iff_listed s h hd :
  locks_inv ∅ s -> held s h hd <-> lk_holds s !! h = Some hd /\ h ∈ task_holds s (hd_task hd).
Proof.
  intros Hi. split.
  - intros Hh. split; [by destruct Hh|]. apply (li_task _ _ Hi). by exists hd.
  - intros [Hh Hin]. apply (li_task _ _ Hi) in Hin as (hd' & Hh' & _).
    destruct Hh' as [Hh' Hl]. rewrite Hh in Hh'. injection Hh' as <-. by split.
Qed.

(** Only a grant makes a request held. *)
Lemma lk_exec_held_inv s op s' h hd :
  locks_inv ∅ s -> lk_op_ok op s -> lk_exec op s = Ret s' -> held s' h hd ->
  held s h hd \/ op = Grant h /\ lk_holds s !! h = Some hd.
Proof.
  intros Hi Hop He Hh. destruct (lk_exec_ok s op Hi Hop) as (s1 & He1 & Hi'). rewrite He in He1. injection He1 as <-.
  destruct op as [t value space mode fl fh|g|t]; cbn in He.
  - left. apply (held_iff_listed _ _ _ Hi') in Hh as [Hh Hin].
    destruct Hop as (Ht & Hfl & Hml & Hfh & Hmh & Hb). unfold lock_enqueue in He.
    destruct (lock_get_ok s value space fl Hi Hfl Hml) as (l & s1 & Hg & _ & HH & HT & _ & _ & lk1 & Hl1 & _).
    rewrite Hg in He. unfold alloc_or_die in He. cbn in He. destruct (Z.eqb_spec fh NULL); [done|]. cbn in He.
    rewrite Hl1 in He. cbn in He. injection He as <-. unfold task_holds in Hin. cbn in Hh, Hin. rewrite HT in Hin.
    change (h ∈ task_holds s (hd_task hd)) in Hin. apply (held_iff_listed _ _ _ Hi). split; [|done].
    rewrite HH, lookup_insert in Hh. case_decide as E; [|done]. exfalso. subst h.
    apply (li_task _ _ Hi) in Hin as (hd' & [Hf _] & _). congruence.
  - destruct Hop as (hd' & lk & Hw). pose proof Hw as (Hg & _ & (ws1 & ws2 & Hws)%list_elem_of_split).
    destruct (lock_blocked_spec _ _ Hi _ _ _ _ _ Hw Hws) as (p & q & Hbl & Hp & _). rewrite Hbl in He. cbn in He.
    destruct ((p =? NULL) && negb q) eqn:E; [|injection He as <-; by left].
    apply andb_true_iff in E as [->%Z.eqb_eq _].
    destruct (lock_grant_ok s g hd' lk Hi Hw (proj1 Hp eq_refl)) as (s1 & ws & He1 & _ & _ & _ & EH & EM).
    rewrite He in He1. injection He1 as <-. destruct Hh as (Hh & lk' & Hl' & Hin). rewrite EH in Hh.
    rewrite EM, lookup_insert in Hl'. case_decide as El; [|left; split; [done|by exists lk']].
    injection Hl' as <-. cbn in Hin. apply elem_of_cons in Hin as [->|Hin]; [by right|left].
    split; [done|]. exists lk. split; [|done]. rewrite <- El. apply Hw.
  - left. by apply (locks_release_held s t s') in Hh as [? _].
Qed.

(** A hold stays, for its key, until its task releases it. *)
Lemma lk_exec_held s op s' h hd key :
  locks_inv ∅ s -> lk_op_ok op s -> lk_exec op s = Ret s' -> op <> Release (hd_task hd) ->
  held s h hd -> hold_key s hd = Some key -> held s' h hd /\ hold_key s' hd = Some key.
Proof.
  intros Hi Hop He Hne Hh Hk. destruct (lk_exec_ok s op Hi Hop) as (s1 & He1 & Hi'). rewrite He in He1. injection He1 as <-.
  assert (Hh' : lk_holds s' !! h = Some hd) by (apply (lk_exec_holds s op s' h hd); try done; by destruct Hh).
  assert (Hl : h ∈ task_holds s (hd_task hd)) by (by apply (held_iff_listed s h hd Hi) in Hh as [_ ?]).
  destruct Hh as (Hh & lk & Hlk & Hin).
  assert (Hlive : hd_lock hd ∈ lk_live s) by (eapply nonempty_live; [done..|]; by destruct (l_holders lk); [apply not_elem_of_nil in Hin|]).
  destruct op as [t value space mode fl fh|g|t]; cbn in He.
  - destruct Hop as (Ht & Hfl & Hml & Hfh & Hmh & Hb). unfold lock_enqueue in He.
    destruct (lock_get_ok s value space fl Hi Hfl Hml) as (l & s1 & Hg & Hi1 & HH & HT & _ & Hsame & lk1 & Hl1 & _).
    rewrite Hg in He. unfold alloc_or_die in He. cbn in He. destruct (Z.eqb_spec fh NULL); [done|]. cbn in He.
    rewrite Hl1 in He. cbn in He. injection He as <-. split.
    { apply (held_iff_listed _ _ _ Hi'). split; [done|]. unfold task_holds in *. cbn. by rewrite HT. }
    unfold hold_key in *. cbn. rewrite <- Hk, lookup_insert. case_decide as E; [|by rewrite (Hsame _ Hlive)]. cbn. subst l. by rewrite <- (Hsame _ Hlive), Hl1.
  - destruct Hop as (hd' & lk1 & Hw). pose proof Hw as (Hg & _ & (ws1 & ws2 & Hws)%list_elem_of_split).
    destruct (lock_blocked_spec _ _ Hi _ _ _ _ _ Hw Hws) as (p & q & Hbl & Hp & _). rewrite Hbl in He. cbn in He.
    destruct ((p =? NULL) && negb q) eqn:E; [|injection He as <-; split; [split; [done|by exists lk]|done]].
    apply andb_true_iff in E as [->%Z.eqb_eq _].
    destruct (lock_grant_ok s g hd' lk1 Hi Hw (proj1 Hp eq_refl)) as (s1 & ws & He1 & _ & Hheld & _ & EH & EM).
    rewrite He in He1. injection He1 as <-. split.
    + split; [done|]. rewrite EM, lookup_insert. case_decide as E; [|by exists lk].
      destruct Hw as (_ & Hl1 & _). rewrite E in Hl1. rewrite Hlk in Hl1. injection Hl1 as <-. eexists. split; [done|]. cbn. by right.
    + rewrite <- Hk. unfold hold_key. rewrite EM, lookup_insert. case_decide as E; [|done]. destruct Hw as (_ & Hl1 & _). by rewrite <- E, Hl1.
  - assert (t <> hd_task hd) by congruence. destruct (locks_release_ok s t Hi) as (s1 & He1 & _ & EH & Hsw & _).
    rewrite He in He1. injection He1 as <-. split.
    + apply (locks_release_held s t s'); [done..|]. split; [|done]. split; [done|by exists lk].
    + rewrite <- Hk. unfold hold_key. pose proof (Hsw (hd_lock hd)) as Hq. rewrite Hlk in Hq. rewrite Hlk. unfold lock_queue in Hq.
      destruct (lk_mem s' !! hd_lock hd); [|done]. cbn in *. by injection Hq as -> -> _.
Qed.

(** [h1] is queued in front of [h2] on one lock. *)
Definition queued_before (s : locks) (h1 h2 : ptr) (hd1 hd2 : hold) : Prop :=
  exists lk, waiting s h1 hd1 lk /\ waiting s h2 hd2 lk /\ hd_lock hd1 = hd_lock hd2 /\
    before h1 h2 (l_waiters lk).


Lemma queued_before_step s op s' h1 h2 hd1 hd2 :
  locks_inv ∅ s -> lk_op_ok op s -> lk_exec op s = Ret s' ->
  conflicts (hd_task hd2) (hd_write hd2) hd1 -> queued_before s h1 h2 hd1 hd2 ->
  queued_before s' h1 h2 hd1 hd2 \/ ~ exists lk', waiting s' h1 hd1 lk'.
Proof.
  intros Hi Hop He Hc (lk & Hw1 & Hw2 & El & Hb).
  destruct (lk_exec_waiting s op s' h1 hd1 lk Hi Hop He Hw1) as (lk' & Hl' & Hh1 & _ & Hcase).
  destruct (lk_exec_waiting s op s' h2 hd2 lk Hi Hop He Hw2) as (lk2 & Hl2 & Hh2 & _).
  rewrite <- El, Hl' in Hl2. injection Hl2 as <-.
  assert (Hgo : before h1 h2 (l_waiters lk') -> queued_before s' h1 h2 hd1 hd2).
  { intros Hb'. apply before_elem in Hb' as Hin. exists lk'. unfold waiting. rewrite <- El. naive_solver. }
  destruct Hcase as [[tl Htl]|(h' & -> & Hu & Hheld)].
  { left. apply Hgo. rewrite Htl. by apply before_app. }
  assert (Hnd : NoDup (l_waiters lk)).
  { destruct Hw1 as (_ & Hl & _). pose proof (lo_nodup _ _ _ (li_lock _ _ Hi _ _ Hl)) as Hn.
    by apply NoDup_app in Hn as (_ & _ & ?). }
  destruct (decide (h' = h1)) as [->|Hn1].
  { right. intros (lk1 & _ & Hl1 & Hin). rewrite Hl' in Hl1. injection Hl1 as <-.
    by apply (unlink_elem _ _ _ h1 Hnd Hu) in Hin as [_ ?]. }
  destruct (decide (h' = h2)) as [->|Hn2]; [|left; apply Hgo; by eapply before_unlink].
  exfalso. apply before_split in Hb as (ws1 & ws2 & ws3 & Hws).
  destruct (lock_blocked_spec _ _ Hi h2 hd2 lk (ws1 ++ h1 :: ws2) ws3 Hw2) as (p & q & Hbl & _ & Hq).
  { by rewrite Hws, <- app_assoc. }
  cbn in He. rewrite Hbl in He. cbn in He. destruct q; [|destruct (proj1 Hq eq_refl h1 hd1)]; try done.
  - rewrite andb_false_r in He. injection He as <-. destruct Hw1 as (? & Hl & ?).
    rewrite Hl in Hl'. injection Hl' as <-.
    pose proof (unlink_length _ _ _ Hu). lia.
  - set_solver.
  - apply Hw1.
Qed.

(** C34: first come, first served.  If request [h1] is queued on a lock in
    front of request [h2] of another call and the two conflict, then whatever
    operations follow, [h2] is not granted while [h1] still waits: a stream of
    readers cannot keep a waiting writer out. *)
Theorem lock_fifo (s s' : locks) (ops : list lk_op) (h1 h2 : ptr) (hd1 hd2 : hold) :
  lk_reach s -> queued_before s h1 h2 hd1 hd2 -> conflicts (hd_task hd2) (hd_write hd2) hd1 ->
  lk_ops_ok ops s -> lk_execs ops s = Ret s' ->
  held s' h2 hd2 -> ~ exists lk, waiting s' h1 hd1 lk.
Proof.
  intros Hi%lk_reach_inv Hq Hc Hok He Hheld.
  assert (Hgen : forall ops s, locks_inv ∅ s ->
    lk_holds s !! h1 = Some hd1 ->
    queued_before s h1 h2 hd1 hd2 \/ (~ exists lk, waiting s h1 hd1 lk) ->
    lk_ops_ok ops s -> lk_execs ops s = Ret s' -> ~ exists lk, waiting s' h1 hd1 lk).
  { clear -Hc Hheld. induction ops as [|op ops IH]; intros s Hi Hh1 Hq Hok He; cbn in *.
    - injection He as <-. destruct Hq as [(lk & _ & Hw & _)|Hq]; [|done].
      exfalso. by eapply held_waiting.
    - destruct Hok as [Hop Hok]. apply bind_Ret_inv in He as (s1 & H1 & He).
      destruct (lk_exec_ok s op Hi Hop) as (s1' & H1' & Hi1). rewrite H1 in H1'. injection H1' as <-.
      assert (Hh1' : lk_holds s1 !! h1 = Some hd1) by exact (lk_exec_holds s op s1 h1 hd1 Hi Hop H1 Hh1).
      apply (IH s1); auto. destruct Hq as [Hq|Hq]; [by apply (queued_before_step s op s1)|right].
      intros [lk' Hw]. apply Hq. exact (lk_exec_waiting_inv s op s1 h1 hd1 hd1 lk' Hi Hop H1 Hw Hh1). }
  apply (Hgen ops s); auto. destruct Hq as (lk & (? & _) & _). done.
Qed.


(** *** Progress *)

(** Completing the calls [ts] takes away their holds and nothing else. *)
Lemma lk_execs_releases ts s :
  locks_inv ∅ s -> exists s', lk_execs (map Release ts) s = Ret s' /\ locks_inv ∅ s' /\
    lk_holds s' = lk_holds s /\ same_waiters s s' /\
    forall h hd, held s' h hd <-> held s h hd /\ hd_task hd ∉ ts.
Proof.
  revert s. induction ts as [|t ts IH]; intros s Hi.
  - exists s. split_and!; try done. intros h hd. split; [|naive_solver].
    intros ?. split; [done|]. apply not_elem_of_nil.
  - destruct (locks_release_ok s t Hi) as (s1 & Hr & Hi1 & EH & Hw & _).
    destruct (IH s1 Hi1) as (s2 & He & Hi2 & EH2 & Hw2 & Hh2). exists s2. cbn. rewrite Hr. cbn.
    split_and!; [done|done|congruence|by intros l; rewrite Hw2|].
    intros h hd. rewrite Hh2, (locks_release_held s t s1) by done. rewrite not_elem_of_cons. tauto.
Qed.

(** C36: progress.  Whatever calls [ts] complete, the next turn of a queued
    request grants it exactly when every other call that holds its lock in a
    conflicting mode is among them, and no request ahead of it conflicts with
    it: a reader waits for writers only, and the request at the head of the
    queue for holders only. *)
Theorem lock_progress (s : locks) (h : ptr) (hd : hold) (lk : lock) (ahead behind ts : list ptr) :
  lk_reach s -> waiting s h hd lk -> l_waiters lk = ahead ++ h :: behind ->
  exists s', lk_execs (map Release ts ++ [Grant h]) s = Ret s' /\
    (held s' h hd <->
      (forall h' hd', held s h' hd' -> hd_lock hd' = hd_lock hd -> conflicts (hd_task hd) (hd_write hd) hd' -> hd_task hd' ∈ ts) /\
      (forall h' hd', h' ∈ ahead -> lk_holds s !! h' = Some hd' -> ~ conflicts (hd_task hd) (hd_write hd) hd')).
Proof.
  intros Hi%lk_reach_inv (Hh & Hl & _) Hws. rewrite execs_app.
  destruct (lk_execs_releases ts s Hi) as (s1 & -> & Hi1 & EH & Hsw & Hheld).
  pose proof (Hsw (hd_lock hd)) as Hw. rewrite Hl in Hw. cbn in Hw.
  destruct (lk_mem s1 !! hd_lock hd) as [lk1|] eqn:Hl1; [|done].
  injection Hw as _ _ Hw. rewrite Hws in Hw.
  assert (Hwait : waiting s1 h hd lk1) by (split; [by rewrite EH|split; [done|rewrite Hw; set_solver]]).
  destruct (lock_blocked_spec _ _ Hi1 h hd lk1 ahead behind Hwait Hw) as (p & q & Hb & Hp & Hq).
  assert (Hfree : p = NULL <-> forall h' hd', held s h' hd' -> hd_lock hd' = hd_lock hd -> conflicts (hd_task hd) (hd_write hd) hd' -> hd_task hd' ∈ ts).
  { rewrite Hp. split.
    - intros Hno h' hd' Hd El Hc. destruct (decide (hd_task hd' ∈ ts)) as [|Hn]; [done|]. exfalso.
      destruct (proj2 (Hheld h' hd') (conj Hd Hn)) as (Hhd' & lk' & Hl' & Hin). rewrite El, Hl1 in Hl'. injection Hl' as <-. by apply (Hno h' hd').
    - intros Hall h' hd' Hin Hhd' Hc.
      destruct (lo_hold _ _ _ (li_lock _ _ Hi1 _ _ Hl1) h') as (hd2 & Hhd2 & Elk); [set_solver|].
      rewrite Hhd' in Hhd2. injection Hhd2 as <-.
      assert (held s1 h' hd') as [H' Hno]%Hheld by (split; [done|exists lk1; by rewrite Elk]).
      apply Hno. by apply (Hall h'). }
  rewrite EH in Hq. cbn. rewrite Hb. cbn. destruct (Z.eqb_spec p NULL) as [->|Hn]; [destruct q|]; cbn [negb andb].
  - eexists. split; [done|]. rewrite <- Hfree, <- Hq. split; [|by intros [_ ?]]. intros Hhd. exfalso. by eapply held_waiting.
  - destruct (lock_grant_ok s1 h hd lk1 Hi1 Hwait (proj1 Hp eq_refl)) as (s2 & _ & Hg & _ & Hheld2 & _). rewrite Hg. cbn.
    exists s2. split; [done|]. by rewrite <- Hfree, <- Hq.
  - eexists. split; [done|]. rewrite <- Hfree. split; [|by intros [? _]]. intros Hhd. exfalso. by eapply held_waiting.
Qed.

(** *** Keys *)

(** A word value and a pointer value never share a lock: whatever the
    values and spaces, the two calls lock under different keys. *)
Theorem lock_spaces_disjoint (sp1 sp2 : Z) : word_space sp1 <> ptr_space sp2.
Proof.
  unfold word_space, ptr_space, FILC_ASYNC_DEP_POINTER, u32. intros E.
  apply (f_equal (fun z => Z.testbit z 2)) in E. revert E.
  rewrite Z.land_spec, Z.lor_spec, <- Z.land_ones, Z.land_spec, Z.lnot_spec by lia.
  change (Z.testbit 4 2) with true. by rewrite orb_true_r, !andb_false_r.
Qed.

(** ** Concrete runs

    Calls 64, 128 and 192 and the key (7, 1): call 64 reads and holds it,
    call 128 asks to write it, then call 192 asks to read it. *)

Definition lk_run (ops : list lk_op) : locks :=
  match lk_execs ops locks_init with Ret s => s | _ => locks_init end.

Definition reader_ops : list lk_op :=
  [Request 64 7 1 FILC_ASYNC_DEP_READ 4096 8192; Grant 8192].
Definition writer_ops : list lk_op :=
  reader_ops ++ [Request 128 7 1 FILC_ASYNC_DEP_WRITE 4160 8256; Grant 8256].
Definition readers_ops : list lk_op :=
  reader_ops ++ [Request 128 7 1 FILC_ASYNC_DEP_READ 4160 8256; Grant 8256].
Definition second_reader_ops : list lk_op :=
  reader_ops ++ [Request 128 7 1 FILC_ASYNC_DEP_READ 4160 8256].
Definition queue_ops : list lk_op :=
  writer_ops ++ [Request 192 7 1 FILC_ASYNC_DEP_READ 4160 8320; Grant 8320].

Ltac lk_waiting := eexists _, _; split; [point|split; [point|point]].
Ltac lk_op_concrete := cbn [lk_op_ok]; first [exact I | lk_waiting | (split_and_all; point)].

Lemma lk_run_reach ops s :
  lk_ops_ok ops locks_init -> lk_execs ops locks_init = Ret s -> lk_reach s.
Proof. intros Hok He. by eapply execs_reach; [apply reach_init|done|]. Qed.

Lemma readers_reach : lk_reach (lk_run readers_ops).
Proof. apply (lk_run_reach readers_ops); [cbn [readers_ops reader_ops app]; ops_concrete lk_op_concrete|point]. Qed.
Lemma writer_reach : lk_reach (lk_run writer_ops).
Proof. apply (lk_run_reach writer_ops); [cbn [writer_ops reader_ops app]; ops_concrete lk_op_concrete|point]. Qed.
Lemma second_reader_reach : lk_reach (lk_run second_reader_ops).
Proof. apply (lk_run_reach second_reader_ops); [cbn [second_reader_ops reader_ops app]; ops_concrete lk_op_concrete|point]. Qed.
Lemma queue_reach : lk_reach (lk_run queue_ops).
Proof. apply (lk_run_reach queue_ops); [cbn [queue_ops writer_ops reader_ops app]; ops_concrete lk_op_concrete|point]. Qed.

Lemma lock_mutual_exclusion_witness :
  held (lk_run readers_ops) 8192 (mk_hold 64 4096 false) /\
  held (lk_run readers_ops) 8256 (mk_hold 128 4096 false) /\ false = false /\ false = false.
Proof.
  assert (H1 : held (lk_run readers_ops) 8192 (mk_hold 64 4096 false))
    by (split; [point|eexists; split; point]).
  assert (H2 : held (lk_run readers_ops) 8256 (mk_hold 128 4096 false))
    by (split; [point|eexists; split; point]).
  split; [exact H1|split; [exact H2|]].
  apply (lock_mutual_exclusion _ _ _ _ _ readers_reach H1 H2); [point|discriminate].
Defined.

Lemma lock_ops_total_witness :
  exists s', lk_exec (Release 64) (lk_run queue_ops) = Ret s'.
Proof. apply (lock_ops_total (lk_run queue_ops) (Release 64) queue_reach I). Defined.

Lemma lock_fifo_witness :
  let s' := lk_run (queue_ops ++ [Release 64; Grant 8256; Release 128; Grant 8320]) in
  held s' 8320 (mk_hold 192 4096 false) /\
  ~ exists lk, waiting s' 8256 (mk_hold 128 4096 true) lk.
Proof.
  intros s'. subst s'.
  match goal with |- held ?s _ _ /\ _ => set (s' := s) end.
  assert (H : held s' 8320 (mk_hold 192 4096 false)) by (split; [point|eexists; split; point]).
  split; [exact H|].
  apply (lock_fifo (lk_run queue_ops) s' [Release 64; Grant 8256; Release 128; Grant 8320]
           8256 8320 (mk_hold 128 4096 true) (mk_hold 192 4096 false) queue_reach).
  - eexists. split; [|split; [|split]];
      [split; [point|split; [point|point]]|split; [point|split; [point|point]]|reflexivity|].
    vm_compute. repeat constructor.
  - split; [discriminate|by right].
  - ops_concrete lk_op_concrete.
  - point.
  - exact H.
Defined.

(** The writer is granted once the reader that holds the lock completes; a
    second reader, while the first still holds it, at once. *)
Lemma lock_progress_witness :
  (exists s', lk_execs (map Release [64] ++ [Grant 8256]) (lk_run writer_ops) = Ret s' /\ held s' 8256 (mk_hold 128 4096 true)) /\
  exists s', lk_execs (map Release [] ++ [Grant 8256]) (lk_run second_reader_ops) = Ret s' /\ held s' 8256 (mk_hold 128 4096 false).
Proof.
  split.
  - edestruct (fun lk => lock_progress (lk_run writer_ops) 8256 (mk_hold 128 4096 true) lk [] [] [64] writer_reach) as (s' & E & H); [split; [point|split; [point|point]]|reflexivity|].
    exists s'. split; [exact E|]. apply H. split; [|intros h' hd' Hin; destruct (not_elem_of_nil _ Hin)].
    intros h' hd' (Hh & lk & Hl & Hin) El _. rewrite El in Hl. vm_compute in Hl. injection Hl as <-.
    apply list_elem_of_singleton in Hin as ->. vm_compute in Hh. injection Hh as <-. left.
  - edestruct (fun lk => lock_progress (lk_run second_reader_ops) 8256 (mk_hold 128 4096 false) lk [] [] [] second_reader_reach) as (s' & E & H); [split; [point|split; [point|point]]|reflexivity|].
    exists s'. split; [exact E|]. apply H. split; [|intros h' hd' Hin; destruct (not_elem_of_nil _ Hin)].
    intros h' hd' (Hh & lk & Hl & Hin) El [_ Hc]. rewrite El in Hl. vm_compute in Hl. injection Hl as <-.
    apply list_elem_of_singleton in Hin as ->. vm_compute in Hh. injection Hh as <-. by destruct Hc.
Defined.

(** A call may be made to wait for itself by way of another.  Two of its
    values have the same space and word (a collision, or one value named
    twice); between its two reads another call queues to write the key.  The
    writer waits for the reader, the reader's second request waits behind the
    writer, and the reader cannot complete, for it is not submitted yet. *)
Definition collision_ops : list lk_op :=
  writer_ops ++ [Request 64 7 1 FILC_ASYNC_DEP_READ 4160 8320].

Lemma collision_reach : lk_reach (lk_run collision_ops).
Proof. apply (lk_run_reach collision_ops); [cbn [collision_ops writer_ops reader_ops app]; ops_concrete lk_op_concrete|point]. Qed.

(** The deadlock that the first-come-first-served order makes of a key
    one call names twice.  A state is reachable in which a call holds a key,
    and its second request for it and another call's write request block each
    other: no turn of either loop changes anything, and only completing the
    first call, which its own second request precedes, would. *)
Theorem lock_collision_deadlock :
  exists s, lk_reach s /\
    held s 8192 (mk_hold 64 4096 false) /\
    lock_blocked 8256 s = Ret (64, false) /\      (* the writer waits for call 64 *)
    lock_blocked 8320 s = Ret (NULL, true) /\     (* call 64 waits behind the writer *)
    lk_exec (Grant 8256) s = Ret s /\ lk_exec (Grant 8320) s = Ret s.
Proof.
  exists (lk_run collision_ops). split; [apply collision_reach|].
  split; [split; [point|eexists; split; point]|].
  split_and!; point.
Qed.
