(* ===== verification/Arena.v ===== *)
(** * Arena: the default allocator of the framework

    [framework/filc_async_arena.c]: a bump allocator over 64 KiB blocks, with
    a block of its own for a request that is larger or more strictly aligned.
    The collector's [zgc_aligned_alloc] is a parameter: given the blocks
    already handed out (address and size) it answers with a new block or NULL.
    Every block stays reachable from [g_blocks], so none is ever reused. *)

From S2P Require Import Prelude.
Open Scope Z_scope.

Definition ARENA_NORMAL_BLOCK : Z := 65536.
Definition ARENA_MAX_ALIGN : Z := 4096.
Definition sizeof_arena_block : Z := 8.

(** An address and a number of bytes. *)
Definition region : Type := ptr * Z.
Definition in_region (r : region) (x : ptr) : Prop := fst r <= x < fst r + snd r.
Definition disjoint_regions (r1 r2 : region) : Prop :=
  fst r1 + snd r1 <= fst r2 \/ fst r2 + snd r2 <= fst r1.

Record arena := mk_arena {
  g_blocks : list region;   (* newest first; the size is the one asked for *)
  g_cur : ptr;
  g_end : ptr;
}.

Definition arena_init : arena := mk_arena [] NULL NULL.

(** [(x + align - 1) & ~(align - 1)] on 64 bits. *)
Definition align_up (x align : Z) : Z := mask_down (u64 (x + align - 1)) (align - 1).

Section Arena.
  Context (zgc_aligned_alloc : list region -> Z -> Z -> ptr).

Definition arena_chain (b : region) (s : arena) : arena :=
  mk_arena (b :: g_blocks s) (g_cur s) (g_end s).

Definition arena_chain_normal (s : arena) : option arena :=
  let size := u64 (sizeof_arena_block + ARENA_NORMAL_BLOCK) in
  let b := zgc_aligned_alloc (g_blocks s) ARENA_MAX_ALIGN size in
  if b =? NULL then None
  else let cur := u64 (b + sizeof_arena_block) in
       Some (mk_arena ((b, size) :: g_blocks s) cur (u64 (cur + ARENA_NORMAL_BLOCK))).

Definition arena_dedicated (size align : Z) (s : arena) : ptr * arena :=
  let n := u64 (sizeof_arena_block + size + align) in
  let b := zgc_aligned_alloc (g_blocks s) align n in
  if b =? NULL then (NULL, s)
  else (align_up (u64 (b + sizeof_arena_block)) align, arena_chain (b, n) s).

Definition arena_alloc_locked (size align : Z) (s : arena) : ptr * arena :=
  let size := if size =? 0 then 1 else size in
  let align := if align <? 1 then 1 else align in
  if negb (Z.land align (align - 1) =? 0) then (NULL, s)
  else if (ARENA_MAX_ALIGN <? align) || (ARENA_NORMAL_BLOCK <? u64 (size + align))
  then arena_dedicated size align s
  else
    let bump s :=
      let aligned := align_up (g_cur s) align in
      (aligned, mk_arena (g_blocks s) (u64 (aligned + size)) (g_end s)) in
    if (g_cur s =? NULL) || (g_end s <? u64 (align_up (g_cur s) align + size))
    then match arena_chain_normal s with
         | None => (NULL, s)
         | Some s => bump s
         end
    else bump s.

(** A sequence of requests (size, alignment) and its answers. *)
Fixpoint arena_run (reqs : list (Z * Z)) (s : arena) : list ptr * arena :=
  match reqs with
  | [] => ([], s)
  | (size, align) :: reqs =>
      let (p, s) := arena_alloc_locked size align s in
      let (ps, s) := arena_run reqs s in
      (p :: ps, s)
  end.
End Arena.

(** ** The allocator in use *)

Inductive alloc_fn := Arena_alloc | User_alloc (f : Z -> Z -> ptr).
Inductive free_fn := Arena_free | User_free (f : ptr -> Z -> unit).

Record filc_async_allocator := mk_allocator {
  al_alloc : option alloc_fn;
  al_free : option free_fn;
}.

Definition g_allocator_init : filc_async_allocator := mk_allocator (Some Arena_alloc) (Some Arena_free).

(** [filc_async_set_allocator]: all NULL restores the arena. *)
Definition filc_async_set_allocator (a : filc_async_allocator) : filc_async_allocator :=
  match al_alloc a, al_free a with
  | None, None => g_allocator_init
  | _, _ => a
  end.

Definition filc_async_alloc zgc (g : filc_async_allocator) (size align : Z) (s : arena)
  : outcome (ptr * arena) :=
  match al_alloc g with
  | None => Trap
  | Some Arena_alloc => mret (arena_alloc_locked zgc size align s)
  | Some (User_alloc f) => mret (f size align, s)
  end.

(** ** Alignment *)

Lemma align_up_spec x k :
  0 <= k <= 63 -> 0 <= x -> x + 2 ^ k - 1 < 2 ^ 64 ->
  x <= align_up x (2 ^ k) < x + 2 ^ k /\ (2 ^ k | align_up x (2 ^ k)).
Proof.
  intros Hk Hx Hb. assert (0 < 2 ^ k) by (apply Z.pow_pos_nonneg; lia).
  unfold align_up. rewrite u64_small by lia. rewrite mask_down_pow2 by lia.
  split; [|apply Z.divide_factor_l].
  pose proof (Z.div_mod (x + 2 ^ k - 1) (2 ^ k) ltac:(lia)).
  pose proof (Z.mod_pos_bound (x + 2 ^ k - 1) (2 ^ k) ltac:(lia)). lia.
Qed.

(** What a request asks for once the zero cases are filled in. *)
Definition req_size (size : Z) : Z := if size =? 0 then 1 else size.
Definition req_align (align : Z) : Z := if align <? 1 then 1 else align.

(** A size and alignment whose sum, with the header, is a [size_t]. *)
Definition req_ok (r : Z * Z) : Prop :=
  0 <= fst r /\ 0 <= snd r /\ sizeof_arena_block + req_size (fst r) + req_align (snd r) < 2 ^ 64.

(** ** What the arena relies on and keeps *)

Definition block_ok (b : region) : Prop := 0 < fst b /\ 0 <= snd b /\ fst b + snd b < 2 ^ 63.

(** The collector's promise: a new block is aligned as asked, lies in the
    user half of the address space, and does not overlap the blocks still in use. *)
Definition zgc_ok (zgc : list region -> Z -> Z -> ptr) : Prop :=
  forall bs align size, (exists k, 0 <= k <= 63 /\ align = 2 ^ k) -> 0 < size < 2 ^ 64 ->
    Forall block_ok bs -> zgc bs align size <> NULL ->
    block_ok (zgc bs align size, size) /\ (align | zgc bs align size) /\
    Forall (disjoint_regions (zgc bs align size, size)) bs.

(** [r] is the part of a block after its header, or a part of that. *)
Definition in_payload (bs : list region) (r : region) : Prop :=
  exists b, b ∈ bs /\ fst b + sizeof_arena_block <= fst r /\ fst r + snd r <= fst b + snd b.

(** The rest of the current block. *)
Definition tail_region (s : arena) : region := (g_cur s, g_end s - g_cur s).

(** [allocs]: the regions handed out so far. *)
Record arena_inv (allocs : list region) (s : arena) : Prop := {
  ai_blocks : Forall block_ok (g_blocks s);
  ai_cur : g_cur s <> NULL -> g_cur s <= g_end s /\ in_payload (g_blocks s) (tail_region s) /\
    Forall (disjoint_regions (tail_region s)) allocs;
  ai_null : g_cur s = NULL -> g_end s = NULL;
  ai_allocs : Forall (fun r => 0 < snd r /\ in_payload (g_blocks s) r) allocs;
  ai_disjoint : ForallOrdPairs disjoint_regions allocs;
}.

Lemma disjoint_regions_comm r1 r2 : disjoint_regions r1 r2 -> disjoint_regions r2 r1.
Proof. unfold disjoint_regions. tauto. Qed.

Lemma in_payload_cons b bs r : in_payload bs r -> in_payload (b :: bs) r.
Proof. intros (b' & Hb & H). exists b'. split; [by right|done]. Qed.

(** A part of a fresh block's payload meets no earlier allocation. *)
Lemma fresh_disjoint bs b allocs r :
  Forall (disjoint_regions b) bs -> Forall (fun a => 0 < snd a /\ in_payload bs a) allocs ->
  fst b + sizeof_arena_block <= fst r -> fst r + snd r <= fst b + snd b ->
  Forall (disjoint_regions r) allocs.
Proof.
  intros Hd Ha Hlo Hhi. eapply Forall_impl; [exact Ha|]. intros a [Hp (b' & Hb' & Hl & Hu)].
  rewrite Forall_forall in Hd. specialize (Hd _ Hb'). unfold disjoint_regions, sizeof_arena_block in *. lia.
Qed.

Lemma arena_init_inv : arena_inv [] arena_init.
Proof. split; cbn; try done; constructor. Qed.

(** ** One allocation *)

Section Alloc.
Context (zgc : list region -> Z -> Z -> ptr) (Hzgc : zgc_ok zgc).

Lemma pow2_pos k : 0 <= k -> 0 < 2 ^ k.
Proof. intros. apply Z.pow_pos_nonneg; lia. Qed.

(** Cutting [size] bytes off the current block. *)
Lemma bump_inv allocs s size k :
  arena_inv allocs s -> g_cur s <> NULL -> 0 <= k <= 62 -> 0 < size < 2 ^ 63 ->
  align_up (g_cur s) (2 ^ k) + size <= g_end s ->
  let a := align_up (g_cur s) (2 ^ k) in
  a <> NULL /\ (2 ^ k | a) /\ u64 (a + size) = a + size /\
  arena_inv ((a, size) :: allocs) (mk_arena (g_blocks s) (u64 (a + size)) (g_end s)).
Proof.
  intros Hi Hc Hk Hs Hfit. destruct (ai_cur _ _ Hi Hc) as (Hce & (b & Hb & Hlo & Hhi) & Hd).
  pose proof (proj1 (Forall_forall _ _) (ai_blocks _ _ Hi) b Hb) as (Hb0 & Hb1 & Hb2).
  cbn in Hlo, Hhi. unfold sizeof_arena_block in *.
  assert (2 ^ k <= 2 ^ 62) by (apply Z.pow_le_mono_r; lia).
  destruct (align_up_spec (g_cur s) k) as [Ha Hdiv]; [lia..|]. cbn.
  set (a := align_up (g_cur s) (2 ^ k)) in *. unfold NULL in *. rewrite (u64_small (a + size)) by lia.
  split; [lia|]. split; [done|]. split; [done|]. split; cbn; try apply Hi.
  - intros _. split; [lia|]. unfold tail_region. cbn. split; [exists b; split; [done|cbn; unfold sizeof_arena_block; lia]|].
    constructor; [unfold disjoint_regions; cbn; lia|].
    eapply Forall_impl; [exact Hd|]. unfold disjoint_regions, tail_region. cbn. lia.
  - unfold NULL. lia.
  - constructor; [|apply Hi]. split; [cbn; lia|]. exists b. split; [done|]. cbn. unfold sizeof_arena_block. lia.
  - constructor; [|apply Hi]. eapply Forall_impl; [exact Hd|].
    unfold disjoint_regions, tail_region. cbn. lia.
Qed.

Lemma chain_normal_inv allocs s s' :
  arena_inv allocs s -> arena_chain_normal zgc s = Some s' ->
  arena_inv allocs s' /\ g_cur s' <> NULL /\ g_end s' = g_cur s' + ARENA_NORMAL_BLOCK /\
  (ARENA_MAX_ALIGN | g_cur s' - sizeof_arena_block).
Proof.
  intros Hi H. unfold arena_chain_normal in H. unfold ARENA_NORMAL_BLOCK, sizeof_arena_block, NULL in *.
  rewrite (u64_small (8 + 65536)) in H by lia. destruct (Z.eqb_spec (zgc (g_blocks s) ARENA_MAX_ALIGN (8 + 65536)) 0) as [|Hn]; [done|].
  injection H as <-. destruct (Hzgc (g_blocks s) ARENA_MAX_ALIGN (8 + 65536)) as (Hb & Hal & Hd);
    [exists 12; done|lia|apply Hi|done|]. set (b := zgc _ _ _) in *.
  pose proof Hb as (Hb0 & _ & Hb2). cbn in Hb0, Hb2. cbn. rewrite (u64_small (b + 8)) by lia. rewrite (u64_small (b + 8 + _)) by lia.
  assert (Hin : in_payload ((b, 8 + 65536) :: g_blocks s) (b + 8, 65536))
    by (exists (b, 8 + 65536); cbn; unfold sizeof_arena_block; split; [left|lia]).
  split; [|split; [lia|split; [done|by replace (b + 8 - 8) with b by lia]]]. split; cbn.
  - constructor; [done|apply Hi].
  - intros _. split; [lia|]. unfold tail_region. cbn. replace (b + 8 + 65536 - (b + 8)) with 65536 by lia.
    split; [done|]. eapply (fresh_disjoint _ (b, 8 + 65536)); [exact Hd|apply Hi|cbn; unfold sizeof_arena_block; lia..].
  - unfold NULL. lia.
  - eapply Forall_impl; [apply (ai_allocs _ _ Hi)|]. cbn. intros r [? ?]. split; [done|by apply in_payload_cons].
  - apply Hi.
Qed.

Lemma dedicated_inv allocs s size k p s' :
  arena_inv allocs s -> 0 <= k <= 63 -> 0 < size -> 8 + size + 2 ^ k < 2 ^ 64 ->
  arena_dedicated zgc size (2 ^ k) s = (p, s') ->
  p = NULL /\ s' = s /\ zgc (g_blocks s) (2 ^ k) (8 + size + 2 ^ k) = NULL \/
  p <> NULL /\ (2 ^ k | p) /\ arena_inv ((p, size) :: allocs) s'.
Proof.
  intros Hi Hk Hs Hb. unfold arena_dedicated, sizeof_arena_block. pose proof (pow2_pos k ltac:(lia)).
  rewrite u64_small by lia. destruct (Z.eqb_spec (zgc (g_blocks s) (2 ^ k) (8 + size + 2 ^ k)) NULL) as [|Hn];
    intros [= <- <-]; [by left|right].
  destruct (Hzgc (g_blocks s) (2 ^ k) (8 + size + 2 ^ k)) as (Hbk & Hal & Hd);
    [by exists k|lia|apply Hi|done|]. set (b := zgc _ _ _) in *.
  pose proof Hbk as (Hb0 & _ & Hb2). cbn in Hb0, Hb2. rewrite (u64_small (b + 8)) by lia.
  destruct (align_up_spec (b + 8) k) as [Ha Hdiv]; [lia..|]. set (a := align_up _ _) in *.
  unfold NULL in *. split; [lia|]. split; [done|].
  assert (Hf : Forall (disjoint_regions (a, size)) allocs).
  { eapply (fresh_disjoint _ (b, 8 + size + 2 ^ k)); [exact Hd|apply Hi|cbn; unfold sizeof_arena_block; lia..]. }
  split; cbn.
  - constructor; [done|apply Hi].
  - intros Hc. destruct (ai_cur _ _ Hi Hc) as (? & Hin & Hdis). split; [done|]. split; [by apply in_payload_cons|].
    constructor; [|done]. destruct Hin as (b' & Hb' & Hlo & Hhi). rewrite Forall_forall in Hd.
    specialize (Hd _ Hb'). unfold disjoint_regions, tail_region, sizeof_arena_block in *. cbn in *. lia.
  - apply Hi.
  - constructor.
    + split; [done|]. exists (b, 8 + size + 2 ^ k). cbn. unfold sizeof_arena_block. split; [left|lia].
    + eapply Forall_impl; [apply (ai_allocs _ _ Hi)|]. cbn. intros r [? ?]. split; [done|by apply in_payload_cons].
  - constructor; [done|apply Hi].
Qed.
End Alloc.

Section AllocOk.
Context (zgc : list region -> Z -> Z -> ptr) (Hzgc : zgc_ok zgc).

(** The collector has no block for this request. *)
Definition asks_refused (s : arena) (size align : Z) : Prop :=
  zgc (g_blocks s) ARENA_MAX_ALIGN (sizeof_arena_block + ARENA_NORMAL_BLOCK) = NULL \/
  zgc (g_blocks s) align (sizeof_arena_block + size + align) = NULL.

Lemma arena_alloc_ok allocs s size align p s' :
  arena_inv allocs s -> req_ok (size, align) -> arena_alloc_locked zgc size align s = (p, s') ->
  p = NULL /\ s' = s /\ ((~ exists k, 0 <= k /\ req_align align = 2 ^ k) \/
                         asks_refused s (req_size size) (req_align align)) \/
  p <> NULL /\ (req_align align | p) /\ arena_inv ((p, req_size size) :: allocs) s'.
Proof.
  intros Hi (Hs0 & Ha0 & Hb) Hal. cbn [fst snd] in Hs0, Ha0, Hb. unfold arena_alloc_locked in Hal.
  fold (req_size size) (req_align align) in Hal.
  assert (Hs : 0 < req_size size) by (unfold req_size; destruct (Z.eqb_spec size 0); lia).
  assert (Ha : 0 < req_align align) by (unfold req_align; destruct (Z.ltb_spec align 1); lia).
  set (size1 := req_size size) in *. set (align1 := req_align align) in *. clearbody size1 align1.
  unfold sizeof_arena_block in Hb. rewrite u64_small in Hal by lia.
  pose proof (land_pred_pow2 align1 Ha) as Hpow. destruct (Z.eqb_spec (Z.land align1 (align1 - 1)) 0) as [E|E]; cbn [negb] in Hal.
  2: { injection Hal as <- <-. left. split; [done|]. split; [done|]. left. intros Hk. by apply E, Hpow. }
  apply Hpow in E as (k & Hk & ->). clear Hpow.
  assert (Hk' : k < 64) by (apply (Z.pow_lt_mono_r_iff 2); lia).
  destruct ((ARENA_MAX_ALIGN <? 2 ^ k) || (ARENA_NORMAL_BLOCK <? size1 + 2 ^ k)) eqn:Ebig.
  { destruct (dedicated_inv zgc Hzgc allocs s size1 k p s') as [(-> & -> & Hz)|H]; try done; [lia..|left|by right].
    split; [done|]. split; [done|]. right. by right. }
  apply orb_false_iff in Ebig as [E1%Z.ltb_ge E2%Z.ltb_ge]. unfold ARENA_MAX_ALIGN, ARENA_NORMAL_BLOCK in E1, E2.
  assert (Hk12 : k <= 12) by (apply (Z.pow_le_mono_r_iff 2); lia).
  assert (Hbump : forall s1, arena_inv allocs s1 -> g_cur s1 <> NULL -> align_up (g_cur s1) (2 ^ k) + size1 <= g_end s1 ->
    (align_up (g_cur s1) (2 ^ k), mk_arena (g_blocks s1) (u64 (align_up (g_cur s1) (2 ^ k) + size1)) (g_end s1)) = (p, s') ->
    p <> NULL /\ (2 ^ k | p) /\ arena_inv ((p, size1) :: allocs) s').
  { intros s1 Hi1 Hc1 Hfit [= <- <-]. destruct (bump_inv allocs s1 size1 k Hi1 Hc1) as (? & ? & _ & ?); [lia|lia|done|].
    done. }
  assert (Hroom : forall s1, arena_inv allocs s1 -> g_cur s1 <> NULL ->
    g_cur s1 <= align_up (g_cur s1) (2 ^ k) < g_cur s1 + 2 ^ k /\ 0 < g_cur s1 /\ g_end s1 < 2 ^ 63 /\ g_cur s1 <= g_end s1).
  { intros s1 Hi1 Hc1. destruct (ai_cur _ _ Hi1 Hc1) as (? & (b & Hbb & Hlo & Hhi) & _).
    pose proof (proj1 (Forall_forall _ _) (ai_blocks _ _ Hi1) b Hbb) as (? & ? & ?).
    unfold tail_region, sizeof_arena_block in *. cbn in Hlo, Hhi.
    destruct (align_up_spec (g_cur s1) k) as [? _]; lia. }
  destruct ((g_cur s =? NULL) || _) eqn:Efull.
  - destruct (arena_chain_normal zgc s) as [s1|] eqn:Ech.
    + right. destruct (chain_normal_inv zgc Hzgc allocs s s1 Hi Ech) as (Hi1 & Hc1 & He1 & _).
      destruct (Hroom s1 Hi1 Hc1). unfold ARENA_NORMAL_BLOCK in He1.
      apply (Hbump s1); [done|done|lia|done].
    + injection Hal as <- <-. left. split; [done|]. split; [done|]. right. unfold arena_chain_normal in Ech.
      destruct (Z.eqb_spec (zgc (g_blocks s) ARENA_MAX_ALIGN (u64 (sizeof_arena_block + ARENA_NORMAL_BLOCK))) NULL); [|done].
      by left.
  - apply orb_false_iff in Efull as [Hc%Z.eqb_neq Hfit%Z.ltb_ge]. right.
    destruct (Hroom s Hi Hc). rewrite u64_small in Hfit by lia. by apply (Hbump s).
Qed.

(** The regions a run of requests hands out, the last one first. *)
Fixpoint granted (reqs : list (Z * Z)) (ps : list ptr) (acc : list region) : list region :=
  match reqs, ps with
  | r :: reqs, p :: ps => granted reqs ps (if p =? NULL then acc else (p, req_size (fst r)) :: acc)
  | _, _ => acc
  end.

Lemma arena_run_inv reqs allocs s ps s' :
  arena_inv allocs s -> Forall req_ok reqs -> arena_run zgc reqs s = (ps, s') ->
  arena_inv (granted reqs ps allocs) s' /\
  Forall2 (fun r p => p <> NULL -> (req_align (snd r) | p)) reqs ps.
Proof.
  revert allocs s ps. induction reqs as [|[size align] reqs IH]; intros allocs s ps Hi Hr H; cbn in H.
  - injection H as <- <-. by split.
  - apply Forall_cons in Hr as [Hr0 Hr]. destruct (arena_alloc_locked zgc size align s) as [p s1] eqn:E1.
    destruct (arena_run zgc reqs s1) as [ps1 s2] eqn:E2. injection H as <- <-. cbn.
    destruct (arena_alloc_ok allocs s size align p s1 Hi Hr0 E1) as [(-> & -> & _)|(Hp & Hdiv & Hi1)].
    + cbn. destruct (IH allocs s ps1 Hi Hr E2) as [? ?]. split; [done|]. by constructor.
    + destruct (Z.eqb_spec p NULL); [done|]. destruct (IH _ s1 ps1 Hi1 Hr E2). split; [done|]. by constructor.
Qed.
End AllocOk.

(** C39: no two live allocations overlap.  Whatever requests are made, in any
    order, each answer other than NULL is aligned as asked, lies with all its
    bytes in the payload of a block the arena keeps reachable, and overlaps
    no other answer; provided no request is so large that its size and
    alignment, with the block header, do not fit a [size_t]. *)
Theorem arena_allocations_disjoint (zgc : list region -> Z -> Z -> ptr) (reqs : list (Z * Z)) (ps : list ptr) (s : arena) :
  zgc_ok zgc -> Forall req_ok reqs -> arena_run zgc reqs arena_init = (ps, s) ->
  Forall2 (fun r p => p <> NULL -> (req_align (snd r) | p)) reqs ps /\
  Forall (in_payload (g_blocks s)) (granted reqs ps []) /\
  ForallOrdPairs disjoint_regions (granted reqs ps []).
Proof.
  intros Hz Hr H. destruct (arena_run_inv zgc Hz reqs [] _ ps s arena_init_inv Hr H) as [Hi Hal].
  split; [done|]. split; [|apply Hi]. eapply Forall_impl; [apply (ai_allocs _ _ Hi)|]. by intros r [_ ?].
Qed.

(** When an allocation answers NULL.  In every state the arena can be in,
    a request whose alignment is not a power of two (0 counts as 1) is refused
    and changes nothing; every other request is refused only when the
    collector has no block for it, and then too nothing changes. *)
Theorem arena_alloc_refuses (zgc : list region -> Z -> Z -> ptr) (reqs : list (Z * Z)) (size align : Z) :
  zgc_ok zgc -> Forall req_ok reqs -> req_ok (size, align) ->
  let s := snd (arena_run zgc reqs arena_init) in
  let r := arena_alloc_locked zgc size align s in
  ((~ exists k, 0 <= k /\ req_align align = 2 ^ k) -> fst r = NULL) /\
  ((exists k, 0 <= k /\ req_align align = 2 ^ k) -> fst r = NULL ->
     asks_refused zgc s (req_size size) (req_align align)) /\
  (fst r = NULL -> snd r = s).
Proof.
  intros Hz Hrs Hr. destruct (arena_run zgc reqs arena_init) as [ps s] eqn:E. cbn.
  destruct (arena_run_inv zgc Hz reqs [] _ ps s arena_init_inv Hrs E) as [Hi _].
  destruct (arena_alloc_locked zgc size align s) as [p s'] eqn:E1. cbn.
  pose proof (arena_alloc_ok zgc Hz _ s size align p s' Hi Hr E1) as Hcase.
  split; [|split; [by destruct Hcase as [(_ & _ & [?|?])|[? _]]|by destruct Hcase as [(_ & -> & _)|[? _]]]].
  intros Hn. unfold arena_alloc_locked in E1. fold (req_align align) in E1. fold (req_size size) in E1.
  destruct (Z.eqb_spec (Z.land (req_align align) (req_align align - 1)) 0) as [E2|E2].
  - exfalso. apply Hn, land_pred_pow2; [|done]. unfold req_align. destruct (Z.ltb_spec align 1); lia.
  - cbn in E1. by injection E1 as <- _.
Qed.

(** ** A collector *)

(** Blocks one after the other, from address 4096 up. *)
Definition bump_zgc (bs : list region) (align size : Z) : ptr :=
  let top := foldr (fun b m => Z.max (fst b + snd b) m) 4096 bs in
  let p := align_up top align in
  if p + size <? 2 ^ 63 then p else NULL.

Lemma bump_zgc_ok : zgc_ok bump_zgc.
Proof.
  intros bs align size (k & Hk & ->) Hs Hbs. unfold bump_zgc. set (top := foldr _ _ _).
  assert (Htop : 4096 <= top < 2 ^ 63 /\ Forall (fun b => fst b + snd b <= top) bs).
  { unfold top. clear top. induction Hbs as [|b bs (? & ? & ?) _ [IH1 IH2]]; cbn; [done|].
    split; [lia|]. constructor; [lia|]. eapply Forall_impl; [exact IH2|]. cbn. lia. }
  clearbody top. destruct Htop as [Htop Hall].
  assert (2 ^ k <= 2 ^ 63) by (apply Z.pow_le_mono_r; lia).
  destruct (align_up_spec top k) as [Ha Hd]; [lia..|]. destruct (Z.ltb_spec (align_up top (2 ^ k) + size) (2 ^ 63)); [|done].
  intros _. split; [split; cbn; lia|]. split; [done|].
  eapply Forall_impl; [exact Hall|]. unfold disjoint_regions. cbn. lia.
Qed.

Lemma arena_allocations_disjoint_witness :
  let reqs := [(16, 8); (3, 1); (8, 64); (8, 3); (100000, 16); (8, 8192)] in
  let r := arena_run bump_zgc reqs arena_init in
  fst r = [4104; 4120; 4160; 0; 69664; 180224] /\
  ForallOrdPairs disjoint_regions (granted reqs (fst r) []).
Proof.
  intros reqs r. split; [vm_compute; reflexivity|].
  apply (arena_allocations_disjoint bump_zgc reqs (fst r) (snd r) bump_zgc_ok).
  - repeat constructor; cbn; lia.
  - apply surjective_pairing.
Defined.

Lemma arena_alloc_refuses_witness :
  asks_refused bump_zgc (snd (arena_run bump_zgc [(16, 8)] arena_init)) (req_size (2 ^ 63)) (req_align 16).
Proof.
  refine (proj1 (proj2 (arena_alloc_refuses bump_zgc [(16, 8)] (2 ^ 63) 16 bump_zgc_ok _ _)) _ _).
  - repeat constructor; cbn; lia.
  - repeat constructor; cbn; lia.
  - exists 4. split; [lia|reflexivity].
  - vm_compute. reflexivity.
Defined.

(** The bound on sizes is needed.  [size + align] is computed in 64 bits;
    for a size of [2^64 - 1] and alignment 1 it is 0, the request is taken for
    a small one, the bump pointer moves back by one byte, and the next
    allocation overlaps the one before: the three answers here are not NULL
    and the first and the third share a byte. *)
Theorem arena_size_wraps :
  let ps := fst (arena_run bump_zgc [(16, 1); (2 ^ 64 - 1, 1); (16, 1)] arena_init) in
  ps = [4104; 4120; 4119] /\ ~ disjoint_regions (4104, 16) (4119, 16).
Proof. split; [vm_compute; reflexivity|]. unfold disjoint_regions. cbn. lia. Qed.
