(* ===== verification/Native.v ===== *)
(** * Native: the pending flag in an object's header

    [framework/filc_async_native.c].  The flag is one bit of the flags in the
    object's aux word; other threads change other flags of the same word at
    the same time, so the word is updated by compare-and-swap.  Fil-C's own
    functions on aux words are parameters with the laws the code relies on:
    an aux word is a pair of flags and a pointer. *)

From S2P Require Import Prelude.
Open Scope Z_scope.

Definition FILC_OBJECT_FLAG_ASYNC_PENDING : Z := 64.

(** What the code uses of Fil-C's headers. *)
Class FilcAux := {
  filc_aux_get_flags : Z -> Z;
  filc_aux_get_ptr : Z -> ptr;
  filc_aux_create : Z -> ptr -> Z;
  FILC_OBJECT_FLAG_READONLY : Z;
  flag_bits : Z;             (* width of the flags *)
}.

Class FilcAuxLaws `{FilcAux} := {
  flag_bits_pending : 6 < flag_bits;
  aux_flags_range a : 0 <= filc_aux_get_flags a < 2 ^ flag_bits;
  aux_flags_create f p : 0 <= f < 2 ^ flag_bits -> filc_aux_get_flags (filc_aux_create f p) = f;
  aux_ptr_create f p : 0 <= f < 2 ^ flag_bits -> filc_aux_get_ptr (filc_aux_create f p) = p;
  aux_create_get a : filc_aux_create (filc_aux_get_flags a) (filc_aux_get_ptr a) = a;
}.

Section Native.
  Context `{FilcAux}.

(** The flags a call of [filc_native_zasync_set_pending] aims for. *)
Definition next_flags (pending flags : Z) : Z :=
  let set := (pending =? 1) || ((pending =? 2) && (Z.land flags FILC_OBJECT_FLAG_READONLY =? 0)) in
  if set then Z.lor flags FILC_OBJECT_FLAG_ASYNC_PENDING
  else Z.land flags (Z.lnot FILC_OBJECT_FLAG_ASYNC_PENDING).

(** What happens in one round between the load and the compare-and-swap: the
    other threads change the word by [i_step]; a weak compare-and-swap may
    also fail for no reason. *)
Record interference := mk_interference { i_step : Z -> Z; i_spurious : bool }.

(** The loop.  [sched] is the interference of the rounds to come; when it is
    used up nobody interferes.  Returns the final word and what is left of
    [sched]. *)
Fixpoint set_pending_loop (pending : Z) (sched : list interference) (aux : Z)
  : Z * list interference :=
  let flags := filc_aux_get_flags aux in
  let next := next_flags pending flags in
  if next =? flags then (aux, sched)
  else
    match sched with
    | [] => (filc_aux_create next (filc_aux_get_ptr aux), [])
    | i :: sched =>
        let now := i_step i aux in
        if (now =? aux) && negb (i_spurious i)
        then (filc_aux_create next (filc_aux_get_ptr aux), sched)
        else set_pending_loop pending sched now
    end.

Definition filc_native_zasync_set_pending (object : ptr) (pending : Z) (sched : list interference)
  (aux : Z) : Z * list interference :=
  if object =? NULL then (aux, sched) else set_pending_loop pending sched aux.

(** The access hook: what [filc_resolve_pending] does, in order. *)
Inductive hook_event :=
  | Lock_top_native_frame
  | Push_frame
  | Push_native_frame
  | Call_resolver (resolver object : ptr)
  | Pop_native_frame
  | Pop_frame
  | Unlock_top_native_frame.

(** [top]: the thread's top native frame, if any, and whether it is locked. *)
Definition filc_resolve_pending (lower : ptr) (aux : Z) (resolver : ptr) (top : option bool)
  : list hook_event :=
  if lower =? NULL then []
  else if Z.land (filc_aux_get_flags aux) FILC_OBJECT_FLAG_ASYNC_PENDING =? 0 then []
  else if resolver =? NULL then []
  else
    let was_top_native_frame_unlocked := match top with Some locked => negb locked | None => false end in
    (if was_top_native_frame_unlocked then [Lock_top_native_frame] else []) ++
    [Push_frame; Push_native_frame; Call_resolver resolver lower; Pop_native_frame; Pop_frame] ++
    (if was_top_native_frame_unlocked then [Unlock_top_native_frame] else []).

(** ** What the flag update promises *)

(** The update as one indivisible step. *)
Definition set_pending_atomic (pending aux : Z) : Z :=
  filc_aux_create (next_flags pending (filc_aux_get_flags aux)) (filc_aux_get_ptr aux).

Definition interfere (sched : list interference) (aux : Z) : Z :=
  fold_left (fun a i => i_step i a) sched aux.
End Native.

Section Laws.
Context `{FilcAuxLaws}.

Lemma next_flags_same pending aux :
  next_flags pending (filc_aux_get_flags aux) = filc_aux_get_flags aux ->
  set_pending_atomic pending aux = aux.
Proof. intros E. unfold set_pending_atomic. rewrite E. apply aux_create_get. Qed.

(** C40: the update is atomic and loses nothing.  Whatever other threads do
    to the header between the load and the compare-and-swap of each round,
    the call ends, and the word it leaves is the one that a single
    indivisible update would leave at some point of that interleaving: all
    the interference before that point is applied, none after it is
    undone. *)
Theorem set_pending_linearizable (object : ptr) (pending aux : Z) (sched : list interference) :
  object <> NULL ->
  exists before rest aux1, sched = before ++ rest /\ aux1 = interfere before aux /\
    filc_native_zasync_set_pending object pending sched aux = (set_pending_atomic pending aux1, rest).
Proof.
  intros Ho. unfold filc_native_zasync_set_pending. destruct (Z.eqb_spec object NULL); [done|].
  revert aux. induction sched as [|i sched IH]; intros aux; cbn;
    destruct (Z.eqb_spec (next_flags pending (filc_aux_get_flags aux)) (filc_aux_get_flags aux)) as [E|E].
  - exists [], [], aux. by rewrite (next_flags_same _ _ E).
  - by exists [], [], aux.
  - exists [], (i :: sched), aux. by rewrite (next_flags_same _ _ E).
  - destruct (Z.eqb_spec (i_step i aux) aux) as [Ei|Ei]; cbn.
    + destruct (i_spurious i); cbn.
      * destruct (IH (i_step i aux)) as (l & rest & a & -> & Ha & Hr). exists (i :: l), rest, a. by rewrite Hr.
      * exists [i], sched, aux. cbn. by rewrite Ei.
    + destruct (IH (i_step i aux)) as (l & rest & a & -> & Ha & Hr). exists (i :: l), rest, a. by rewrite Hr.
Qed.

Lemma pending_bit n : Z.testbit FILC_OBJECT_FLAG_ASYNC_PENDING n = (n =? 6).
Proof.
  change FILC_OBJECT_FLAG_ASYNC_PENDING with (2 ^ 6).
  destruct (Z.eqb_spec n 6) as [->|Hn]; [done|]. apply Z.pow2_bits_false. done.
Qed.

(** The new flags still fit. *)
Lemma next_flags_range pending aux :
  0 <= next_flags pending (filc_aux_get_flags aux) < 2 ^ flag_bits.
Proof.
  pose proof (aux_flags_range aux) as Hr. pose proof flag_bits_pending as Hb.
  set (f := filc_aux_get_flags aux) in *. clearbody f.
  assert (Hlow : forall x, 0 <= x -> (forall n, flag_bits <= n -> Z.testbit x n = false) -> 0 <= x < 2 ^ flag_bits).
  { intros x Hx Hn. split; [done|]. destruct (Z.lt_ge_cases x (2 ^ flag_bits)) as [|Hge]; [done|exfalso].
    assert (0 < 2 ^ flag_bits) by (apply Z.pow_pos_nonneg; lia).
    assert (flag_bits <= Z.log2 x) by (apply Z.log2_le_pow2; lia).
    specialize (Hn (Z.log2 x) ltac:(done)). rewrite Z.bit_log2 in Hn; [done|lia]. }
  assert (Hhigh : forall n, flag_bits <= n -> Z.testbit f n = false).
  { intros n Hn. destruct (Z.eq_dec f 0) as [->|]; [apply Z.bits_0|]. apply Z.bits_above_log2; [lia|].
    apply Z.log2_lt_pow2; [lia|]. eapply Z.lt_le_trans; [apply Hr|]. apply Z.pow_le_mono_r; lia. }
  unfold next_flags. destruct (_ || _).
  - apply Hlow; [apply Z.lor_nonneg; unfold FILC_OBJECT_FLAG_ASYNC_PENDING; lia|]. intros n Hn.
    rewrite Z.lor_spec, pending_bit, Hhigh by done. cbn. apply Z.eqb_neq. lia.
  - apply Hlow; [apply Z.land_nonneg; lia|]. intros n Hn. by rewrite Z.land_spec, Hhigh.
Qed.

(** What one update changes.  The pointer half of the word and every
    flag but the pending one stay; the pending flag ends set for pending = 1,
    set for pending = 2 exactly when the object is not read-only, and clear
    for pending = 0. *)
Theorem set_pending_flags (pending aux : Z) :
  pending = 0 \/ pending = 1 \/ pending = 2 ->
  let aux' := set_pending_atomic pending aux in
  filc_aux_get_ptr aux' = filc_aux_get_ptr aux /\
  (forall n, 0 <= n -> n <> 6 -> Z.testbit (filc_aux_get_flags aux') n = Z.testbit (filc_aux_get_flags aux) n) /\
  Z.testbit (filc_aux_get_flags aux') 6 =
    ((pending =? 1) || ((pending =? 2) && (Z.land (filc_aux_get_flags aux) FILC_OBJECT_FLAG_READONLY =? 0))).
Proof.
  intros Hp aux'. unfold aux', set_pending_atomic.
  rewrite aux_ptr_create, aux_flags_create by apply next_flags_range. unfold next_flags.
  split; [done|]. set (set := (pending =? 1) || _). split.
  - intros n Hn Hn6. destruct set.
    + rewrite Z.lor_spec, pending_bit. destruct (Z.eqb_spec n 6); [done|]. by rewrite orb_false_r.
    + rewrite Z.land_spec, Z.lnot_spec, pending_bit by done. destruct (Z.eqb_spec n 6); [done|].
      by rewrite andb_true_r.
  - destruct set.
    + by rewrite Z.lor_spec, pending_bit, orb_true_r.
    + by rewrite Z.land_spec, Z.lnot_spec, pending_bit, andb_false_r.
Qed.

(** The access hook.  The resolver is called, with the object, exactly
    when the object exists, its pending flag is set and a resolver is
    registered. *)
Theorem resolve_pending_calls (lower aux resolver : Z) (top : option bool) :
  (exists r o, Call_resolver r o ∈ filc_resolve_pending lower aux resolver top) <->
  lower <> NULL /\ resolver <> NULL /\ Z.testbit (filc_aux_get_flags aux) 6 = true.
Proof.
  assert (Hbit : Z.land (filc_aux_get_flags aux) FILC_OBJECT_FLAG_ASYNC_PENDING = 0 <->
                 Z.testbit (filc_aux_get_flags aux) 6 = false).
  { split.
    - intros E. apply (f_equal (fun z => Z.testbit z 6)) in E. rewrite Z.land_spec, pending_bit in E.
      by rewrite andb_true_r, Z.bits_0 in E.
    - intros E. apply Z.bits_inj'. intros n Hn. rewrite Z.land_spec, pending_bit, Z.bits_0.
      destruct (Z.eqb_spec n 6) as [->|]; [by rewrite E|by rewrite andb_false_r]. }
  unfold filc_resolve_pending. destruct (Z.eqb_spec lower NULL) as [|Hl].
  { split; [intros (? & ? & ?%not_elem_of_nil)|intros (? & _)]; done. }
  destruct (Z.eqb_spec (Z.land (filc_aux_get_flags aux) FILC_OBJECT_FLAG_ASYNC_PENDING) 0) as [E|E].
  { apply Hbit in E. split; [intros (? & ? & ?%not_elem_of_nil); done|]. intros (_ & _ & E2). congruence. }
  destruct (Z.eqb_spec resolver NULL) as [|Hr].
  { split; [intros (? & ? & ?%not_elem_of_nil)|intros (_ & ? & _)]; done. }
  split.
  - intros _. split_and!; [done|done|]. apply not_false_is_true. intros E2. by apply E, Hbit.
  - intros _. exists resolver, lower. set_solver.
Qed.
End Laws.

(** ** An aux word with 7 flag bits below the pointer *)

#[export] Instance word_aux : FilcAux := {|
  filc_aux_get_flags a := a mod 2 ^ 7;
  filc_aux_get_ptr a := a / 2 ^ 7;
  filc_aux_create f p := 2 ^ 7 * p + f;
  FILC_OBJECT_FLAG_READONLY := 2;
  flag_bits := 7;
|}.

#[export] Instance word_aux_laws : FilcAuxLaws.
Proof.
  split; cbn -[Z.mul Z.pow Z.div Z.modulo].
  - lia.
  - intros a. apply Z.mod_pos_bound. lia.
  - intros f p Hf. rewrite Z.add_comm, (Z.mul_comm _ p), Z.mod_add by lia. by apply Z.mod_small.
  - intros f p Hf. rewrite (Z.mul_comm _ p), Z.div_add_l by lia. rewrite Z.div_small by done. lia.
  - intros a. symmetry. apply Z.div_mod. lia.
Qed.

(** Another thread sets flag 1 in the first round; the second round's
    compare-and-swap fails for no reason. *)
Lemma set_pending_linearizable_witness :
  let sched := [mk_interference (fun a => Z.lor a 1) false; mk_interference id true] in
  filc_native_zasync_set_pending 4096 1 sched (2 ^ 7 * 5) = (2 ^ 7 * 5 + 65, []) /\
  exists before rest aux1, sched = before ++ rest /\ aux1 = interfere before (2 ^ 7 * 5) /\
    filc_native_zasync_set_pending 4096 1 sched (2 ^ 7 * 5) = (set_pending_atomic 1 aux1, rest).
Proof.
  intros sched. split; [vm_compute; reflexivity|].
  apply (set_pending_linearizable 4096 1 (2 ^ 7 * 5) sched). discriminate.
Defined.

Lemma set_pending_flags_witness :
  Z.testbit (filc_aux_get_flags (set_pending_atomic 2 (2 ^ 7 * 5 + 2))) 6 = false.
Proof. refine (proj2 (proj2 (set_pending_flags 2 (2 ^ 7 * 5 + 2) _))). by right; right. Defined.

Lemma resolve_pending_calls_witness :
  filc_resolve_pending 4096 65 8192 (Some true) <> [] /\
  exists r o, Call_resolver r o ∈ filc_resolve_pending 4096 65 8192 (Some true).
Proof.
  split; [vm_compute; discriminate|].
  apply (proj2 (resolve_pending_calls 4096 65 8192 (Some true))). split_and!; [discriminate|discriminate|reflexivity].
Defined.
