(* ===== verification/Marks.v ===== *)
(** * Marks: the pending buffers

    The pending marks of [framework/filc_async.c]: which call owns which
    object, as its producer (a write mark) or as a reader.  [mk_mem] are the
    mark records, [mk_buckets] the hash table of the marks in force, [mk_free]
    the free list (through [owner_next]), [mk_owned] the [marks] list of each
    task, and [mk_pending] the objects, by their lower bound, whose header
    carries the pending flag (the file Native has the header update itself).

    A Fil-C pointer ([fptr]) is its address with the bounds of its object, as
    [zgetlower] and [zgetupper] give them.  The code that waits (for the
    owner of a mark) is cut where it gives up [g_lock]; the loops are in the
    file Framework. *)

From S2P Require Import Prelude Buckets Handles.
Open Scope Z_scope.

Definition MARK_BUCKET_BITS : Z := 11.
Definition PENDING_CLEAR : Z := 0.
Definition PENDING_SET : Z := 1.
Definition PENDING_READERS : Z := 2.
Definition UINT64_MAX : Z := 2 ^ 64 - 1.

Record mark := mk_mark {
  m_buf : fptr;
  m_lower : ptr;
  m_upper : ptr;
  m_generation : Z;
  m_owner : ptr;     (* NULL when no task owns the mark *)
  m_write : bool;
}.

Record marks := mk_marks {
  mk_mem : gmap ptr mark;
  mk_buckets : gmap Z (list ptr);
  mk_free : list ptr;
  mk_owned : gmap ptr (list ptr);
  mk_pending : gset ptr;
  g_resolver_set : bool;
}.

Definition marks_init : marks := mk_marks ∅ ∅ [] ∅ ∅ false.

Definition task_marks (s : marks) (t : ptr) : list ptr := default [] (mk_owned s !! t).

Definition mark_bucket (lower : ptr) : Z := hash_bits lower MARK_BUCKET_BITS.

(** The walk of one bucket for the first mark that satisfies [P]. *)
Fixpoint first_mark (mem : gmap ptr mark) (P : mark -> bool) (l : list ptr) : outcome (option ptr) :=
  match l with
  | [] => mret None
  | x :: l => m ← deref (mem !! x); if P m then mret (Some x) else first_mark mem P l
  end.

Definition bucket_first (P : mark -> bool) (lower : ptr) (s : marks) : outcome (option ptr) :=
  first_mark (mk_mem s) P (chain (mk_buckets s) (mark_bucket lower)).

Definition overlaps (lower upper : ptr) (m : mark) : bool := (lower <? m_upper m) && (m_lower m <? upper).

Definition mark_find (lower upper : ptr) : marks -> outcome (option ptr) :=
  bucket_first (overlaps lower upper) lower.

Definition writer_find (lower upper : ptr) : marks -> outcome (option ptr) :=
  bucket_first (fun m => overlaps lower upper m && m_write m) lower.

(** ** The calls active on a thread *)

Definition MAX_ACTIVE : Z := 32.

(** [g_active], innermost call first; [g_nactive] is its length. *)
Definition active_push (t : ptr) (act : list ptr) : outcome (list ptr) :=
  if Z.of_nat (length act) =? MAX_ACTIVE then Fatal "annotated calls nested too deeply"
  else mret (t :: act).
Definition active_pop (act : list ptr) : list ptr := tail act.
Definition is_active (act : list ptr) (t : ptr) : bool := bool_decide (t ∈ act).

(** ** Finding *)

Definition mark_find_other (act : list ptr) (lower upper t : ptr) : marks -> outcome (option ptr) :=
  bucket_first (fun m => overlaps lower upper m && ((t =? NULL) || negb (m_owner m =? t)) &&
                         (m_write m || negb (is_active act (m_owner m)))) lower.

Definition mark_owned (lower t : ptr) : marks -> outcome (option ptr) :=
  bucket_first (fun m => (m_lower m =? lower) && (m_owner m =? t)) lower.

(** The owner [wait_buffer_locked] waits for next, or NULL. *)
Definition owner_of (s : marks) (x : option ptr) : outcome ptr :=
  match x with
  | None => mret NULL
  | Some x => m ← deref (mk_mem s !! x); mret (m_owner m)
  end.

Definition buffer_owner (task running_body : ptr) (b : fptr) (s : marks) : outcome ptr :=
  x ← bucket_first (fun m => overlaps (f_lower b) (f_upper b) m && m_write m && negb (m_owner m =? NULL) &&
                             negb (m_owner m =? task) && negb (m_owner m =? running_body)) (f_lower b) s;
  owner_of s x.

(** [wait_access_locked]: whether an active call owns the object, then the
    owner to wait for next, or NULL. *)
Definition access_own (act : list ptr) (b : fptr) (s : marks) : outcome bool :=
  x ← bucket_first (fun m => overlaps (f_lower b) (f_upper b) m && negb (m_owner m =? NULL) &&
                             is_active act (m_owner m)) (f_lower b) s;
  mret (match x with Some _ => true | None => false end).

Definition access_owner (act : list ptr) (own : bool) (b : fptr) (s : marks) : outcome ptr :=
  x ← bucket_first (fun m => overlaps (f_lower b) (f_upper b) m && negb (m_owner m =? NULL) &&
                             negb (is_active act (m_owner m)) && (m_write m || negb own)) (f_lower b) s;
  owner_of s x.

(** ** Changing *)

Definition set_pending_of (p : gset ptr) (s : marks) : marks :=
  mk_marks (mk_mem s) (mk_buckets s) (mk_free s) (mk_owned s) p (g_resolver_set s).
Definition set_mk_mem (mem : gmap ptr mark) (s : marks) : marks :=
  mk_marks mem (mk_buckets s) (mk_free s) (mk_owned s) (mk_pending s) (g_resolver_set s).

(** A mark record, with its generation: off the free list, or a new one. *)
Definition mark_record (fresh : ptr) (s : marks) : outcome (ptr * Z * list ptr) :=
  match mk_free s with
  | x :: free => m ← deref (mk_mem s !! x); mret (x, m_generation m, free)
  | [] => x ← alloc_or_die fresh; mret (x, 0, [])
  end.

Section Marks.
  Context (readonly : ptr -> bool).   (* the read-only objects, by lower bound *)

(** [zasync_set_pending] on the header of the object [b] points into. *)
Definition zasync_set_pending (b : fptr) (pending : Z) (s : marks) : marks :=
  if f_lower b =? NULL then s
  else if (pending =? PENDING_SET) || ((pending =? PENDING_READERS) && negb (readonly (f_lower b)))
  then set_pending_of ({[f_lower b]} ∪ mk_pending s) s
  else set_pending_of (mk_pending s ∖ {[f_lower b]}) s.

Definition mark_make_write (x : ptr) (s : marks) : outcome marks :=
  m ← deref (mk_mem s !! x);
  if m_write m then mret s
  else
    w ← writer_find (m_lower m) (m_upper m) s;
    let s := match w with None => zasync_set_pending (m_buf m) PENDING_SET s | Some _ => s end in
    mret (set_mk_mem (<[x := mk_mark (m_buf m) (m_lower m) (m_upper m) (m_generation m) (m_owner m) true]> (mk_mem s)) s).

Definition mark_add (b : fptr) (owner : ptr) (write : bool) (fresh : ptr) (s : marks) : outcome marks :=
  let lower := f_lower b in
  let upper := f_upper b in
  let s := mk_marks (mk_mem s) (mk_buckets s) (mk_free s) (mk_owned s) (mk_pending s) true in
  found ← (if write then writer_find lower upper s else mark_find lower upper s);
  let s := match found with
           | None => zasync_set_pending b (if write then PENDING_SET else PENDING_READERS) s
           | Some _ => s
           end in
  '(x, gen, free) ← mark_record fresh s;
  if gen =? UINT64_MAX then Fatal "pending mark generation overflow"
  else
    mret (mk_marks (<[x := mk_mark b lower upper (gen + 1) owner write]> (mk_mem s))
            (chain_push (mark_bucket lower) x (mk_buckets s)) free
            (if owner =? NULL then mk_owned s else <[owner := x :: task_marks s owner]> (mk_owned s))
            (mk_pending s) (g_resolver_set s)).

(** The last mark clears the flag.  When the last write mark goes and readers
    remain, the flag stays only if the object is writable. *)
Definition drop_flag (m : mark) (any w : option ptr) (s : marks) : marks :=
  match any with
  | None => zasync_set_pending (m_buf m) PENDING_CLEAR s
  | Some _ =>
      match w with
      | None => if m_write m then zasync_set_pending (m_buf m) PENDING_READERS s else s
      | Some _ => s
      end
  end.

Definition mark_remove (x : ptr) (s : marks) : outcome marks :=
  m ← deref (mk_mem s !! x);
  buckets ← chain_unlink (mark_bucket (m_lower m)) x (mk_buckets s);
  owned ← (if m_owner m =? NULL then mret (mk_owned s)
           else l ← deref (unlink x (task_marks s (m_owner m))); mret (<[m_owner m := l]> (mk_owned s)));
  let s := mk_marks (mk_mem s) buckets (mk_free s) owned (mk_pending s) (g_resolver_set s) in
  any ← mark_find (m_lower m) (m_upper m) s;
  w ← writer_find (m_lower m) (m_upper m) s;
  let s := drop_flag m any w s in
  mret (mk_marks (<[x := mk_mark fnull (m_lower m) (m_upper m) (m_generation m) NULL false]> (mk_mem s))
          (mk_buckets s) (x :: mk_free s) (mk_owned s) (mk_pending s) (g_resolver_set s)).

(** ** The marking calls *)

(** One turn of the loop of [filc_async_mark_pending], and what follows it:
    the task to wait for, or a mark without an owner taken away ([Again]), or
    the mark made. *)
Inductive mark_turn := Wait_for (owner : ptr) | Again | Marked.

Definition mark_pending_turn (act : list ptr) (t : ptr) (b : fptr) (fresh : ptr) (s : marks)
  : outcome (mark_turn * marks) :=
  other ← mark_find_other act (f_lower b) (f_upper b) t s;
  match other with
  | Some x =>
      m ← deref (mk_mem s !! x);
      if m_owner m =? NULL then s ← mark_remove x s; mret (Again, s)
      else mret (Wait_for (m_owner m), s)
  | None =>
      own ← (if t =? NULL then mret None else mark_owned (f_lower b) t s);
      s ← match own with Some x => mark_make_write x s | None => mark_add b t true fresh s end;
      mret (Marked, s)
  end.

Definition filc_async_mark_shared (t : ptr) (b : fptr) (fresh : ptr) (s : marks) : outcome marks :=
  if (f_addr b =? NULL) || (t =? NULL) then mret s
  else own ← mark_owned (f_lower b) t s;
       match own with Some x => mark_make_write x s | None => mark_add b t true fresh s end.

Definition filc_async_mark_input (t : ptr) (b : fptr) (fresh : ptr) (s : marks) : outcome marks :=
  if (f_addr b =? NULL) || (t =? NULL) then mret s
  else own ← mark_owned (f_lower b) t s;
       match own with Some _ => mret s | None => mark_add b t false fresh s end.

Definition filc_async_mark_resolved (b : fptr) (s : marks) : outcome marks :=
  if f_addr b =? NULL then mret s
  else x ← bucket_first (fun m => (m_lower m =? f_lower b) && m_write m) (f_lower b) s;
       match x with Some x => mark_remove x s | None => mret s end.

Definition filc_async_resolve_buffer (t : ptr) (b : fptr) (s : marks) : outcome marks :=
  if f_addr b =? NULL then mret s
  else x ← mark_owned (f_lower b) t s;
       match x with Some x => mark_remove x s | None => mret s end.

Definition filc_async_is_pending (b : fptr) (s : marks) : outcome bool :=
  if f_addr b =? NULL then mret false
  else w ← writer_find (f_lower b) (f_upper b) s;
       mret (match w with Some _ => true | None => false end).

(** [while (t->marks) mark_remove(t->marks)], the loop of
    [filc_async_complete]. *)
Fixpoint remove_marks (fuel : nat) (t : ptr) (s : marks) : outcome marks :=
  match task_marks s t with
  | [] => mret s
  | x :: _ => match fuel with
              | O => NoFuel
              | S fuel => s ← mark_remove x s; remove_marks fuel t s
              end
  end.

(** ** The operations as steps

    What one thread does between taking [g_lock] and giving it up; [act] are
    the calls active on the thread. *)
Inductive mk_op :=
  | Mark_pending (act : list ptr) (t : ptr) (b : fptr) (fresh : ptr)
  | Mark_shared (t : ptr) (b : fptr) (fresh : ptr)
  | Mark_input (t : ptr) (b : fptr) (fresh : ptr)
  | Mark_resolved (b : fptr)
  | Resolve_buffer (t : ptr) (b : fptr)
  | Drop_marks (t : ptr).

Definition mk_exec (op : mk_op) (s : marks) : outcome marks :=
  match op with
  | Mark_pending act t b fresh => '(_, s) ← mark_pending_turn act t b fresh s; mret s
  | Mark_shared t b fresh => filc_async_mark_shared t b fresh s
  | Mark_input t b fresh => filc_async_mark_input t b fresh s
  | Mark_resolved b => filc_async_mark_resolved b s
  | Resolve_buffer t b => filc_async_resolve_buffer t b s
  | Drop_marks t => remove_marks (length (task_marks s t)) t s
  end.
End Marks.

(** ** Invariant *)

(** The marks in force. *)
Definition mark_live (s : marks) : gset ptr := dom (mk_mem s) ∖ list_to_set (mk_free s).
Definition mark_key (mem : gmap ptr mark) (x : ptr) : Z :=
  match mem !! x with Some m => mark_bucket (m_lower m) | None => 0 end.

(** The record [x] is a mark in force, [m], on the object at [lower]. *)
Definition mark_on (s : marks) (lower x : ptr) (m : mark) : Prop :=
  x ∈ mark_live s /\ mk_mem s !! x = Some m /\ m_lower m = lower.

(** Two ranges are one object's or do not meet. *)
Definition same_or_apart (l1 u1 l2 u2 : ptr) : Prop := l1 < u2 -> l2 < u1 -> l1 = l2 /\ u1 = u2.

Definition mark_ok (m : mark) : Prop :=
  f_addr (m_buf m) <> NULL /\ 0 < m_lower m < m_upper m /\ f_lower (m_buf m) = m_lower m.

(** A pointer to a live, non-empty object: it is one of the marked objects or
    meets none of them. *)
Definition buf_ok (s : marks) (b : fptr) : Prop :=
  f_addr b <> NULL /\ 0 < f_lower b < f_upper b /\
  forall l x m, mark_on s l x m -> same_or_apart (f_lower b) (f_upper b) (m_lower m) (m_upper m).

Section Inv.
Context (readonly : ptr -> bool).

(** The flag an object should carry: it has a write mark, or it is writable
    and has a mark. *)
Definition flagged (s : marks) (lower : ptr) : Prop :=
  exists x m, mark_on s lower x m /\ (m_write m = true \/ readonly lower = false).

Record marks_inv (s : marks) : Prop := {
  mi_tab : tab_ok (mark_key (mk_mem s)) (mk_buckets s) (mark_live s);
  mi_free : NoDup (mk_free s) /\ forall x, x ∈ mk_free s ->
    exists m, mk_mem s !! x = Some m /\ m_buf m = fnull;
  mi_mark : forall l x m, mark_on s l x m -> mark_ok m;
  mi_range : forall l1 l2 x y m1 m2, mark_on s l1 x m1 -> mark_on s l2 y m2 ->
    same_or_apart l1 (m_upper m1) l2 (m_upper m2);
  mi_owned : forall t, t <> NULL -> NoDup (task_marks s t) /\
    forall x, x ∈ task_marks s t <-> exists l m, mark_on s l x m /\ m_owner m = t;
  mi_one : forall l x y m1 m2, mark_on s l x m1 -> mark_on s l y m2 ->
    m_owner m1 = m_owner m2 -> m_owner m1 <> NULL -> x = y;
  mi_flag : forall l, l ∈ mk_pending s <-> flagged s l;
  mi_resolver : mark_live s <> ∅ -> g_resolver_set s = true;
}.

Lemma marks_init_inv : marks_inv marks_init.
Proof.
  assert (Hno : forall l x m, ~ mark_on marks_init l x m).
  { intros l x m (_ & H & _). cbn in H. by rewrite lookup_empty in H. }
  split; cbn.
  - apply tab_ok_empty.
  - split; [constructor|]. by intros x ?%not_elem_of_nil.
  - intros l x m H. by destruct (Hno l x m).
  - intros l1 l2 x y m1 m2 H. by destruct (Hno l1 x m1).
  - intros t _. unfold task_marks. cbn. rewrite lookup_empty. cbn. split; [constructor|].
    intros x. split; [by intros ?%not_elem_of_nil|]. intros (l & m & H & _). by destruct (Hno l x m).
  - intros l x y m1 m2 H. by destruct (Hno l x m1).
  - intros l. split; [set_solver|]. intros (x & m & H & _). by destruct (Hno l x m).
  - by intros [].
Qed.
End Inv.

(** *** Finding in a bucket *)

Lemma first_mark_spec mem P l :
  (forall x, x ∈ l -> is_Some (mem !! x)) ->
  exists r, first_mark mem P l = Ret r /\
    match r with
    | Some x => x ∈ l /\ exists m, mem !! x = Some m /\ P m = true
    | None => forall x m, x ∈ l -> mem !! x = Some m -> P m = false
    end.
Proof.
  induction l as [|x l IH]; intros Hs; cbn.
  - eexists. split; [done|]. by intros ? ? ?%not_elem_of_nil.
  - destruct (Hs x ltac:(left)) as [m Hm]. rewrite Hm. cbn. destruct (P m) eqn:E.
    + eexists. split; [done|]. split; [left|by exists m].
    + destruct IH as (r & -> & Hr); [intros; apply Hs; by right|]. exists r. split; [done|].
      destruct r as [y|]; [destruct Hr; split; [by right|done]|].
      intros y m' [->|Hy]%elem_of_cons Hl; [congruence|by eapply Hr].
Qed.

(** Searching for a mark of the object at [lower] with property [Q]. *)
Lemma bucket_first_spec S s P Q lower :
  tab_ok (mark_key (mk_mem s)) (mk_buckets s) S -> (forall x, x ∈ S -> is_Some (mk_mem s !! x)) ->
  (forall x m, x ∈ S -> mk_mem s !! x = Some m -> P m = (m_lower m =? lower) && Q m) ->
  exists r, bucket_first P lower s = Ret r /\
    match r with
    | Some x => exists m, x ∈ S /\ mk_mem s !! x = Some m /\ m_lower m = lower /\ Q m = true
    | None => forall x m, x ∈ S -> mk_mem s !! x = Some m -> m_lower m = lower -> Q m = false
    end.
Proof.
  intros Htab Hmem HP. unfold bucket_first.
  assert (Hch : forall x, x ∈ chain (mk_buckets s) (mark_bucket lower) <-> x ∈ S /\ mark_key (mk_mem s) x = mark_bucket lower)
    by (intros x; apply (tab_ok_elem (mark_key (mk_mem s)) _ _ _ _ Htab)).
  destruct (first_mark_spec (mk_mem s) P (chain (mk_buckets s) (mark_bucket lower))) as (r & -> & Hr).
  { intros x [Hx _]%Hch. by apply Hmem. }
  exists r. split; [done|]. destruct r as [x|].
  - destruct Hr as ([Hx _]%Hch & m & Hm & HPm). rewrite (HP x m Hx Hm) in HPm.
    apply andb_true_iff in HPm as [E%Z.eqb_eq HQ]. by exists m.
  - intros x m Hx Hm E. specialize (Hr x m). rewrite (HP x m Hx Hm), E, Z.eqb_refl in Hr. cbn in Hr.
    apply Hr; [|done]. apply Hch. split; [done|]. unfold mark_key. by rewrite Hm, E.
Qed.

Lemma bucket_first_ext P P' lower s :
  (forall m, P m = P' m) -> bucket_first P lower s = bucket_first P' lower s.
Proof.
  intros HP. unfold bucket_first. induction (chain _ _) as [|x l IH]; cbn; [done|].
  destruct (mk_mem s !! x) as [m|]; cbn; [|done]. by rewrite HP, IH.
Qed.

Lemma overlaps_same lower upper m :
  0 < lower < upper -> 0 < m_lower m < m_upper m -> same_or_apart lower upper (m_lower m) (m_upper m) ->
  overlaps lower upper m = (m_lower m =? lower).
Proof.
  intros Hb Hm Hs. unfold overlaps, same_or_apart in *.
  destruct (Z.ltb_spec lower (m_upper m)), (Z.ltb_spec (m_lower m) upper), (Z.eqb_spec (m_lower m) lower); cbn; lia.
Qed.

Section Ops.
Context (readonly : ptr -> bool).
Abbreviation marks_inv := (marks_inv readonly).
Abbreviation flagged := (flagged readonly).
Abbreviation zasync_set_pending := (zasync_set_pending readonly).

Lemma live_lookup s x : x ∈ mark_live s -> is_Some (mk_mem s !! x).
Proof. unfold mark_live. by intros [?%elem_of_dom _]%elem_of_difference. Qed.

Lemma mark_on_live s x m : x ∈ mark_live s -> mk_mem s !! x = Some m -> mark_on s (m_lower m) x m.
Proof. by split. Qed.

Lemma find_at s P Q lower :
  marks_inv s -> (forall x m, mark_on s (m_lower m) x m -> P m = (m_lower m =? lower) && Q m) ->
  exists r, bucket_first P lower s = Ret r /\
    match r with
    | Some x => exists m, mark_on s lower x m /\ Q m = true
    | None => forall x m, mark_on s lower x m -> Q m = false
    end.
Proof.
  intros Hi HP. destruct (bucket_first_spec (mark_live s) s P Q lower) as (r & -> & Hr).
  - apply Hi.
  - apply live_lookup.
  - intros x m Hx Hm. apply (HP x). by apply mark_on_live.
  - exists r. split; [done|]. destruct r as [x|].
    + destruct Hr as (m & ? & ? & ? & ?). by exists m.
    + intros x m (? & ? & ?). by apply (Hr x).
Qed.

Lemma find_over s b Q :
  marks_inv s -> buf_ok s b ->
  exists r, bucket_first (fun m => overlaps (f_lower b) (f_upper b) m && Q m) (f_lower b) s = Ret r /\
    match r with
    | Some x => exists m, mark_on s (f_lower b) x m /\ Q m = true
    | None => forall x m, mark_on s (f_lower b) x m -> Q m = false
    end.
Proof.
  intros Hi (_ & Hb & Hr). apply find_at; [done|]. intros x m Hm.
  rewrite overlaps_same; [done|done| |by eapply Hr]. apply (mi_mark _ _ Hi _ _ _ Hm).
Qed.

(** What a header update does to the set of flagged objects. *)
Lemma set_pending_elem b p s l :
  f_lower b <> NULL ->
  l ∈ mk_pending (zasync_set_pending b p s) <->
  if decide (l = f_lower b)
  then p = PENDING_SET \/ p = PENDING_READERS /\ readonly l = false
  else l ∈ mk_pending s.
Proof.
  intros Hn. unfold Marks.zasync_set_pending. destruct (Z.eqb_spec (f_lower b) NULL); [done|].
  destruct ((p =? PENDING_SET) || _) eqn:E; cbn; case_decide as El.
  - split; [|set_solver]. intros _. apply orb_true_iff in E as [?%Z.eqb_eq|E]; [by left|right].
    apply andb_true_iff in E as [?%Z.eqb_eq ?%negb_true_iff]. by subst l.
  - set_solver.
  - split; [set_solver|]. apply orb_false_iff in E as [E1%Z.eqb_neq E2].
    intros [|[-> Hr]]; [done|]. subst l. by rewrite Hr in E2.
  - set_solver.
Qed.

Lemma set_pending_frame b p s :
  mk_mem (zasync_set_pending b p s) = mk_mem s /\ mk_buckets (zasync_set_pending b p s) = mk_buckets s /\
  mk_free (zasync_set_pending b p s) = mk_free s /\ mk_owned (zasync_set_pending b p s) = mk_owned s /\
  g_resolver_set (zasync_set_pending b p s) = g_resolver_set s.
Proof. unfold Marks.zasync_set_pending. by repeat case_match. Qed.

(** The mark made a write mark. *)
Definition written (m : mark) : mark :=
  mk_mark (m_buf m) (m_lower m) (m_upper m) (m_generation m) (m_owner m) true.

Lemma writer_find_spec s l x m :
  marks_inv s -> mark_on s l x m ->
  exists r, writer_find (m_lower m) (m_upper m) s = Ret r /\
    match r with
    | Some y => exists m', mark_on s l y m' /\ m_write m' = true
    | None => forall y m', mark_on s l y m' -> m_write m' = false
    end.
Proof.
  intros Hi Hm. pose proof Hm as (_ & _ & El). unfold writer_find. rewrite El.
  destruct (find_at s (fun m' => overlaps l (m_upper m) m' && m_write m') m_write l Hi) as (r & -> & Hr).
  - intros y m' Hm'. f_equal. apply overlaps_same.
    + rewrite <- El. apply (mi_mark _ _ Hi _ _ _ Hm).
    + apply (mi_mark _ _ Hi _ _ _ Hm').
    + apply (mi_range _ _ Hi _ _ _ _ _ _ Hm Hm').
  - by exists r.
Qed.

Lemma mark_make_write_ok s l x m :
  marks_inv s -> mark_on s l x m ->
  exists s', mark_make_write readonly x s = Ret s' /\ marks_inv s' /\
    (forall l' y m', mark_on s' l' y m' <->
       if decide (y = x) then l' = l /\ m' = written m else mark_on s l' y m') /\
    mk_owned s' = mk_owned s.
Proof.
  intros Hi Hm. pose proof Hm as (Hlive & Hl & El). unfold mark_make_write. rewrite Hl. cbn.
  destruct (m_write m) eqn:Hw.
  { exists s. split; [done|]. split; [done|]. split; [|done]. intros l' y m'. case_decide as E; [subst y|done].
    split; [|intros [-> ->]; by destruct m; cbn in *; subst].
    intros (_ & Hy & El'). rewrite Hl in Hy. injection Hy as <-. split; [congruence|]. by destruct m; cbn in *; subst. }
  destruct (writer_find_spec s l x m Hi Hm) as (r & -> & Hr). cbn.
  set (s1 := match r with None => _ | Some _ => _ end).
  assert (Hs1 : mk_mem s1 = mk_mem s /\ mk_buckets s1 = mk_buckets s /\ mk_free s1 = mk_free s /\
            mk_owned s1 = mk_owned s /\ g_resolver_set s1 = g_resolver_set s)
    by (unfold s1; destruct r; [done|apply set_pending_frame]).
  destruct Hs1 as (E1 & E2 & E3 & E4 & E5).
  assert (Hlower : f_lower (m_buf m) = l) by (rewrite <- El; apply (mi_mark _ _ Hi _ _ _ Hm)).
  assert (Hpos : 0 < l) by (rewrite <- El; apply (mi_mark _ _ Hi _ _ _ Hm)).
  set (s2 := set_mk_mem _ s1). exists s2. split; [done|].
  assert (Hlv : mark_live s2 = mark_live s).
  { unfold mark_live. cbn. rewrite E1, E3. rewrite dom_insert_lookup_L by (by eexists). done. }
  assert (Hon : forall l' y m', mark_on s2 l' y m' <->
       if decide (y = x) then l' = l /\ m' = written m else mark_on s l' y m').
  { intros l' y m'. unfold mark_on. rewrite Hlv. cbn. rewrite E1, lookup_insert.
    destruct (decide (x = y)) as [->|Hne]; [rewrite decide_True by done|rewrite decide_False by done; done].
    split; [intros (_ & [= <-] & <-); done|]. intros [-> ->]. done. }
  split; [|split; [done|by cbn]].
  (* every mark of the new state is one of the old state but for the write bit *)
  assert (Hold : forall l' y m', mark_on s2 l' y m' -> exists m0, mark_on s l' y m0 /\ m_buf m' = m_buf m0 /\
      m_lower m' = m_lower m0 /\ m_upper m' = m_upper m0 /\ m_owner m' = m_owner m0).
  { intros l' y m' H%Hon. case_decide as E; [|by exists m']. destruct H as [-> ->]. subst y. by exists m. }
  split; cbn; try (rewrite ?E1, ?E2, ?E3, ?E5, ?Hlv; apply Hi).
  - rewrite Hlv, E1, E2. eapply tab_ok_ext; [|apply Hi]. intros y Hy. unfold mark_key. rewrite lookup_insert.
    case_decide as E; [subst y; by rewrite Hl|done].
  - rewrite E1, E3. split; [apply Hi|]. intros y Hy. rewrite lookup_insert.
    rewrite decide_False; [by apply Hi|]. intros ->. unfold mark_live in Hlive. set_solver.
  - intros l' y m' (m0 & H0 & Eb & Elo & Eup & _)%Hold. unfold mark_ok. rewrite Eb, Elo, Eup. by eapply Hi.
  - intros l1 l2 y1 y2 m1 m2 (m01 & H1 & _ & _ & Eu1 & _)%Hold (m02 & H2 & _ & _ & Eu2 & _)%Hold.
    rewrite Eu1, Eu2. by eapply Hi.
  - intros t Ht. unfold task_marks. cbn. rewrite E4. destruct (mi_owned _ _ Hi t Ht) as [Hnd Hin]. split; [done|].
    intros y. unfold task_marks in Hin. rewrite Hin. split.
    + intros (l' & m' & H' & Eo). destruct (decide (y = x)) as [->|Hne].
      * exists l, (written m). split; [apply Hon; by rewrite decide_True|]. cbn.
        destruct H' as (_ & H' & _). congruence.
      * exists l', m'. split; [apply Hon; by rewrite decide_False|done].
    + intros (l' & m' & (m0 & H0 & _ & _ & _ & Eo)%Hold & Et). exists l', m0. split; [done|congruence].
  - intros l' y1 y2 m1 m2 (m01 & H1 & _ & _ & _ & Eo1)%Hold (m02 & H2 & _ & _ & _ & Eo2)%Hold. rewrite Eo1, Eo2.
    by apply (mi_one _ _ Hi l').
  - intros l'. assert (Hflag : l' ∈ mk_pending s1 <-> if decide (l' = l) then True else l' ∈ mk_pending s).
    { unfold s1. destruct r as [y|].
      - case_decide as E; [|done]. subst l'. split; [done|]. intros _. apply (mi_flag _ _ Hi).
        destruct Hr as (m' & Hm' & Hwr). exists y, m'. by split; [|left].
      - rewrite set_pending_elem by (rewrite Hlower; unfold NULL; lia). rewrite Hlower.
        case_decide; [|done]. split; [done|]. by left. }
    rewrite Hflag. destruct (decide (l' = l)) as [->|Hne].
    + split; [|done]. intros _. exists x, (written m). split; [apply Hon; by rewrite decide_True|by left].
    + rewrite (mi_flag _ _ Hi). unfold Marks.flagged. split; intros (y & m' & Hy & Hf); exists y, m'; (split; [|done]).
      * apply Hon. rewrite decide_False; [done|]. intros ->. destruct Hy as (_ & Hy & Ely).
        rewrite Hl in Hy. injection Hy as <-. congruence.
      * apply Hon in Hy. case_decide; [|done]. by destruct Hy.
Qed.

(** *** A new mark *)

Lemma mark_record_ok s fresh :
  marks_inv s -> fresh <> NULL -> mk_mem s !! fresh = None ->
  exists x gen free, mark_record fresh s = Ret (x, gen, free) /\
    (x ∉ mark_live s) /\ (x ∉ free) /\ NoDup free /\
    (forall y, y <> x -> (y ∈ free <-> y ∈ mk_free s)) /\
    ((exists m, mk_mem s !! x = Some m /\ gen = m_generation m) \/ x = fresh /\ gen = 0).
Proof.
  intros Hi Hf Hm. destruct (mi_free _ _ Hi) as [Hnd Hfree]. unfold mark_record, alloc_or_die.
  destruct (mk_free s) as [|x free] eqn:Efr.
  - destruct (Z.eqb_spec fresh NULL); [done|]. cbn. exists fresh, 0, []. split; [done|].
    split; [|split; [apply not_elem_of_nil|split; [constructor|split; [done|by right]]]].
    intros [H%elem_of_dom _]%elem_of_difference. rewrite Hm in H. by destruct H.
  - destruct (Hfree x ltac:(left)) as (m & Hx & _). rewrite Hx. cbn. apply NoDup_cons in Hnd as [Hn Hnd].
    exists x, (m_generation m), free. split; [done|]. split; [unfold mark_live; rewrite Efr; set_solver|].
    split; [done|]. split; [done|]. split; [|left; by exists m]. intros y Hy. rewrite elem_of_cons. naive_solver.
Qed.

(** Adding [m1] at [x], whatever the way the flag was brought up to date. *)
Lemma marks_inv_add s x m1 free pending :
  marks_inv s -> x ∉ mark_live s -> mark_ok m1 ->
  (forall l y m, mark_on s l y m -> same_or_apart (m_lower m1) (m_upper m1) l (m_upper m)) ->
  (m_owner m1 <> NULL -> forall y m, mark_on s (m_lower m1) y m -> m_owner m <> m_owner m1) ->
  x ∉ free -> NoDup free -> (forall y, y <> x -> (y ∈ free <-> y ∈ mk_free s)) ->
  (forall l, l ∈ pending <-> l ∈ mk_pending s \/
     l = m_lower m1 /\ (m_write m1 = true \/ readonly l = false)) ->
  let s' := mk_marks (<[x := m1]> (mk_mem s)) (chain_push (mark_bucket (m_lower m1)) x (mk_buckets s)) free
    (if m_owner m1 =? NULL then mk_owned s else <[m_owner m1 := x :: task_marks s (m_owner m1)]> (mk_owned s))
    pending true in
  marks_inv s' /\
  (forall l y m, mark_on s' l y m <-> y = x /\ l = m_lower m1 /\ m = m1 \/ mark_on s l y m) /\
  (forall t, t <> NULL -> task_marks s' t = if decide (t = m_owner m1) then x :: task_marks s t else task_marks s t).
Proof.
  intros Hi Hx Hok Hrange Hown Hxf Hnd Hfr Hflag s'.
  assert (Hlv : mark_live s' = {[x]} ∪ mark_live s).
  { apply set_eq. intros y. unfold mark_live. cbn. rewrite dom_insert_L.
    destruct (decide (y = x)) as [->|Hy]; [set_solver|]. specialize (Hfr y Hy). set_solver. }
  assert (Hon : forall l y m, mark_on s' l y m <-> y = x /\ l = m_lower m1 /\ m = m1 \/ mark_on s l y m).
  { intros l y m. unfold mark_on. rewrite Hlv, elem_of_union, elem_of_singleton. cbn. rewrite lookup_insert.
    destruct (decide (x = y)) as [<-|]; naive_solver. }
  assert (Htm : forall t, t <> NULL -> task_marks s' t = if decide (t = m_owner m1) then x :: task_marks s t else task_marks s t).
  { intros t Ht. unfold task_marks. cbn. destruct (Z.eqb_spec (m_owner m1) NULL) as [Eo|Eo].
    - by rewrite decide_False by congruence.
    - rewrite lookup_insert. destruct (decide (m_owner m1 = t)) as [<-|];
        [by rewrite decide_True by done|by rewrite decide_False by congruence]. }
  split; [|done]. split; cbn.
  - rewrite Hlv. replace (mark_bucket (m_lower m1)) with (mark_key (<[x:=m1]> (mk_mem s)) x)
      by (unfold mark_key; by rewrite lookup_insert_eq).
    apply tab_ok_push; [|done]. eapply tab_ok_ext; [|apply Hi]. intros y Hy. unfold mark_key.
    rewrite lookup_insert_ne; [done|]. by intros ->.
  - split; [done|]. intros y Hy. destruct (decide (y = x)) as [->|Hne]; [done|].
    rewrite lookup_insert_ne by done. apply (proj2 (mi_free _ _ Hi)). by apply Hfr.
  - intros l y m [(-> & -> & ->)|H]%Hon; [done|by eapply Hi].
  - intros l1 l2 y1 y2 m2 m3 [(-> & -> & ->)|H1]%Hon [(-> & -> & ->)|H2]%Hon; [done| | |by eapply Hi].
    + by eapply Hrange.
    + pose proof (Hrange _ _ _ H1) as Hr. unfold same_or_apart in *. lia.
  - intros t Ht. rewrite Htm by done. destruct (mi_owned _ _ Hi t Ht) as [Hndt Hin]. case_decide as E.
    + assert (Hnew : x ∉ task_marks s t) by (intros (l & m & (? & _) & _)%Hin; done).
      split; [by apply NoDup_cons|]. intros y. rewrite elem_of_cons, Hin. split.
      * intros [->|(l & m & H & Ho)]; [exists (m_lower m1), m1; split; [apply Hon; by left|done]|].
        exists l, m. split; [apply Hon; by right|done].
      * intros (l & m & [(-> & _)|H]%Hon & Ho); [by left|right; by exists l, m].
    + split; [done|]. intros y. rewrite Hin. split; intros (l & m & H & Ho); exists l, m; (split; [|done]).
      * apply Hon. by right.
      * apply Hon in H as [(-> & -> & ->)|H]; [congruence|done].
  - intros l y1 y2 m2 m3 [(-> & -> & ->)|H1]%Hon [(-> & E2 & ->)|H2]%Hon Ho Hn; [done| | |by apply (mi_one _ _ Hi l y1 y2 m2 m3)].
    + exfalso. by apply (Hown Hn y2 m3).
    + subst l. exfalso. apply (Hown ltac:(congruence) y1 m2); done.
  - intros l. rewrite Hflag, (mi_flag _ _ Hi). split.
    + intros [(y & m & H & Hw)|[-> Hw]]; [exists y, m; split; [apply Hon; by right|done]|].
      exists x, m1. split; [apply Hon; by left|done].
    + intros (y & m & [(-> & -> & ->)|H]%Hon & Hw); [by right|left; by exists y, m].
  - done.
Qed.

(** Searching for the mark that makes the flag update of [mark_add]
    unnecessary. *)
Lemma mark_add_find s b (write : bool) :
  marks_inv s -> buf_ok s b ->
  exists r, (if write then writer_find (f_lower b) (f_upper b) s else mark_find (f_lower b) (f_upper b) s) = Ret r /\
    match r with
    | Some y => exists m, mark_on s (f_lower b) y m /\ (write = true -> m_write m = true)
    | None => forall y m, mark_on s (f_lower b) y m -> write = true /\ m_write m = false
    end.
Proof.
  intros Hi Hb. destruct write.
  - destruct (find_over s b m_write Hi Hb) as (r & Hr & Hs). exists r. split; [exact Hr|].
    destruct r; naive_solver.
  - destruct (find_at s (overlaps (f_lower b) (f_upper b)) (fun _ : mark => true) (f_lower b) Hi) as (r & Hr & Hs).
    + intros x m Hm. rewrite andb_true_r. destruct Hb as (_ & Hb & Hrange).
      apply overlaps_same; [done| |by eapply Hrange]. apply (mi_mark _ _ Hi _ _ _ Hm).
    + exists r. split; [exact Hr|]. destruct r as [y|]; [destruct Hs as (m & ? & _); by exists m|].
      intros y m H. by specialize (Hs y m H).
Qed.

Definition room (s : marks) : Prop := forall x m, mk_mem s !! x = Some m -> m_generation m < UINT64_MAX.

Lemma mark_add_ok s b owner write fresh :
  marks_inv s -> buf_ok s b -> fresh <> NULL -> mk_mem s !! fresh = None -> room s ->
  (owner <> NULL -> forall x m, mark_on s (f_lower b) x m -> m_owner m <> owner) ->
  exists s' x gen, mark_add readonly b owner write fresh s = Ret s' /\ marks_inv s' /\ (x ∉ mark_live s) /\
    (forall l y m, mark_on s' l y m <->
       y = x /\ l = f_lower b /\ m = mk_mark b (f_lower b) (f_upper b) gen owner write \/ mark_on s l y m) /\
    (forall t, t <> NULL -> task_marks s' t = if decide (t = owner) then x :: task_marks s t else task_marks s t).
Proof.
  intros Hi Hb Hf Hfm Hgen Hown. pose proof Hb as (Haddr & Hpos & Hrange). unfold mark_add.
  destruct (mark_add_find s b write Hi Hb) as (r & Hfind & Hr).
  set (s0 := mk_marks (mk_mem s) _ _ _ _ true).
  change (if write then writer_find (f_lower b) (f_upper b) s0 else mark_find (f_lower b) (f_upper b) s0)
    with (if write then writer_find (f_lower b) (f_upper b) s else mark_find (f_lower b) (f_upper b) s).
  rewrite Hfind. cbn [mbind outcome_bind].
  set (p := if write then PENDING_SET else PENDING_READERS).
  set (s1 := match r with None => _ | Some _ => _ end).
  assert (Hs1 : mk_mem s1 = mk_mem s /\ mk_buckets s1 = mk_buckets s /\ mk_free s1 = mk_free s /\
            mk_owned s1 = mk_owned s /\ g_resolver_set s1 = true)
    by (unfold s1; destruct r; [done|exact (set_pending_frame b p s0)]).
  destruct Hs1 as (E1 & E2 & E3 & E4 & E5).
  assert (Hflag1 : forall l, l ∈ mk_pending s1 <-> l ∈ mk_pending s \/ l = f_lower b /\ (write = true \/ readonly l = false)).
  { intros l. unfold s1. destruct r as [y|].
    - cbn. split; [by left|]. intros [|[-> Hw]]; [done|]. destruct Hr as (m & Hm & Hmw).
      apply (mi_flag _ _ Hi). exists y, m. split; [done|]. destruct Hw; [left; auto|by right].
    - rewrite set_pending_elem by (unfold NULL; lia). cbn. unfold p. case_decide as El.
      + split.
        * intros H. right. split; [done|]. destruct write; [by left|]. right. by destruct H as [|[_ ?]].
        * intros [Hl|[_ Hw]]; [|destruct write; [by left|right; split; [done|by destruct Hw]]].
          subst l. apply (mi_flag _ _ Hi) in Hl as (y & m & Hm & Hw). destruct (Hr _ _ Hm) as [-> Hmw].
          by left.
      + split; [by left|]. intros [|[]]; done. }
  pose proof (mark_record_ok s fresh Hi Hf Hfm) as (x & gen & free & Hrec & Hx & Hxf & Hnd & Hfr & Hgx).
  assert (mark_record fresh s1 = mark_record fresh s) as -> by (unfold mark_record; by rewrite E1, E3).
  rewrite Hrec. cbn [mbind outcome_bind].
  assert (Hg : gen < UINT64_MAX) by (destruct Hgx as [(m & Hm & ->)|[_ ->]]; [by eapply Hgen|done]).
  destruct (Z.eqb_spec gen UINT64_MAX); [lia|]. set (m1 := mk_mark b (f_lower b) (f_upper b) (gen + 1) owner write).
  destruct (marks_inv_add s x m1 free (mk_pending s1) Hi Hx) as (Hi' & Hon & Htm); try done.
  { intros l y m (H1 & H2 & <-). by apply (Hrange (m_lower m) y). }
  eexists _, x, (gen + 1). split; [done|]. rewrite E1, E2, E5.
  unfold task_marks in *. rewrite E4. by split_and!.
Qed.

(** *** Removing a mark *)

(** Removing the mark [x], whatever the way the flag was brought up to date. *)
Lemma marks_inv_remove s l x m buckets owned pending :
  marks_inv s -> mark_on s l x m ->
  tab_ok (mark_key (mk_mem s)) buckets (mark_live s ∖ {[x]}) ->
  (forall t, t <> NULL -> if decide (t = m_owner m)
     then unlink x (task_marks s t) = owned !! t else task_marks s t = default [] (owned !! t)) ->
  (forall l', l' ∈ pending <-> exists y m', mark_on s l' y m' /\ y <> x /\ (m_write m' = true \/ readonly l' = false)) ->
  let s' := mk_marks (<[x := mk_mark fnull (m_lower m) (m_upper m) (m_generation m) NULL false]> (mk_mem s))
    buckets (x :: mk_free s) owned pending (g_resolver_set s) in
  marks_inv s' /\ (forall l' y m', mark_on s' l' y m' <-> mark_on s l' y m' /\ y <> x).
Proof.
  intros Hi Hm Htab Hown Hflag s'. pose proof Hm as (Hlive & Hl & El).
  assert (Hlv : mark_live s' = mark_live s ∖ {[x]}).
  { unfold mark_live. cbn. rewrite dom_insert_lookup_L by (by eexists). set_solver. }
  assert (Hon : forall l' y m', mark_on s' l' y m' <-> mark_on s l' y m' /\ y <> x).
  { intros l' y m'. unfold mark_on. rewrite Hlv, elem_of_difference, elem_of_singleton. cbn. rewrite lookup_insert.
    destruct (decide (x = y)) as [<-|]; naive_solver. }
  split; [|done]. split; cbn.
  - rewrite Hlv. eapply tab_ok_ext; [|done]. intros y Hy. unfold mark_key. rewrite lookup_insert_ne; [done|]. set_solver.
  - destruct (mi_free _ _ Hi) as [Hnd Hfr]. unfold mark_live in Hlive. split; [apply NoDup_cons; split; [set_solver|done]|].
    intros y Hy. rewrite lookup_insert. case_decide as E; [by eexists|].
    apply elem_of_cons in Hy as [->|Hy]; [done|by apply Hfr].
  - intros l' y m' [H _]%Hon. by eapply Hi.
  - intros l1 l2 y1 y2 m1 m2 [H1 _]%Hon [H2 _]%Hon. by eapply Hi.
  - intros t Ht. unfold task_marks at 1 2. cbn. specialize (Hown t Ht).
    destruct (mi_owned _ _ Hi t Ht) as [Hnd Hin]. case_decide as E.
    + assert (x ∈ task_marks s t) as Hx by (apply Hin; by exists l, m).
      destruct (unlink_Some _ _ Hx) as [l1 Hl1]. rewrite <- Hown, Hl1. cbn.
      split; [exact (unlink_NoDup _ _ _ Hnd Hl1)|]. intros y. rewrite (unlink_elem _ _ _ y Hnd Hl1), Hin. split.
      * intros [(l' & m' & H & Ho) Hne]. exists l', m'. by rewrite Hon.
      * intros (l' & m' & [H Hne]%Hon & Ho). split; [by exists l', m'|done].
    + rewrite <- Hown. split; [done|]. intros y. rewrite Hin. split; intros (l' & m' & H & Ho); exists l', m'.
      * rewrite Hon. split; [|done]. split; [done|]. intros ->. destruct H as (_ & H & _). congruence.
      * by apply Hon in H as [? _].
  - intros l' y1 y2 m1 m2 [H1 _]%Hon [H2 _]%Hon. by apply (mi_one _ _ Hi l').
  - intros l'. rewrite Hflag. unfold Marks.flagged. split.
    + intros (y & m' & H & Hne & Hw). exists y, m'. by rewrite Hon.
    + intros (y & m' & [H Hne]%Hon & Hw). by exists y, m'.
  - rewrite Hlv. intros Hne. apply (mi_resolver _ _ Hi). set_solver.
Qed.

(** The header update of [mark_remove] leaves the flag the remaining marks call for. *)
Lemma mark_remove_flag s l x m (any w : option ptr) s1 :
  marks_inv s -> mark_on s l x m -> mk_pending s1 = mk_pending s ->
  match any with Some y => exists m', mark_on s l y m' /\ y <> x
               | None => forall y m', mark_on s l y m' -> y = x end ->
  match w with Some y => exists m', mark_on s l y m' /\ y <> x /\ m_write m' = true
             | None => forall y m', mark_on s l y m' -> y <> x -> m_write m' = false end ->
  forall l', l' ∈ mk_pending (drop_flag readonly m any w s1) <-> exists y m', mark_on s l' y m' /\ y <> x /\ (m_write m' = true \/ readonly l' = false).
Proof.
  intros Hi Hm E1 Hany Hw l'. unfold drop_flag. pose proof Hm as (Hlive & Hl & El).
  destruct (mi_mark _ _ Hi _ _ _ Hm) as (_ & Hpos & Hbuf).
  assert (Hother : l' <> l -> l' ∈ mk_pending s <-> exists y m', mark_on s l' y m' /\ y <> x /\ (m_write m' = true \/ readonly l' = false)).
  { intros Hne. rewrite (mi_flag _ _ Hi). split; intros (y & m' & H & H'); exists y, m'; [|tauto].
    split; [done|]. split; [|done]. intros ->. destruct H as (_ & H & ?). congruence. }
  destruct any as [y|].
  - destruct w as [z|]; [|destruct (m_write m) eqn:Emw].
    + rewrite E1. destruct (decide (l' = l)) as [->|]; [|by apply Hother]. rewrite (mi_flag _ _ Hi).
      destruct Hw as (m' & Hz & Hzx & Hzw). split; [|intros (y1 & m1 & H & _ & ?); by exists y1, m1].
      intros _. exists z, m'. auto.
    + rewrite set_pending_elem by (unfold NULL; lia). rewrite Hbuf, El, E1. case_decide as E; [subst l'|by apply Hother].
      destruct Hany as (m' & Hy & Hyx). split.
      * intros [|[_ ?]]; [done|]. exists y, m'. auto.
      * intros (y1 & m1 & H & Hne & [Hw1|?]); [|by right]. by rewrite (Hw y1 m1) in Hw1.
    + rewrite E1. destruct (decide (l' = l)) as [->|]; [|by apply Hother]. rewrite (mi_flag _ _ Hi).
      split; [|intros (y1 & m1 & H & _ & ?); by exists y1, m1]. intros (y1 & m1 & H & Hw1).
      destruct Hw1 as [Hw1|Hr]; [|destruct Hany as (m' & Hy & Hyx); exists y, m'; auto].
      exists y1, m1. split; [done|]. split; [|by left]. intros ->. destruct H as (_ & H & _). congruence.
  - rewrite set_pending_elem by (unfold NULL; lia). rewrite Hbuf, El, E1. case_decide as E; [subst l'|by apply Hother].
    split; [intros [|[]]; done|]. intros (y1 & m1 & H & Hne & _). by destruct Hne; eapply Hany.
Qed.

Lemma mark_remove_ok s l x m :
  marks_inv s -> mark_on s l x m ->
  exists s', mark_remove readonly x s = Ret s' /\ marks_inv s' /\
    (forall l' y m', mark_on s' l' y m' <-> mark_on s l' y m' /\ y <> x) /\
    (forall t, t <> NULL -> if decide (t = m_owner m)
       then unlink x (task_marks s t) = Some (task_marks s' t) else task_marks s' t = task_marks s t) /\
    (room s -> room s') /\ dom (mk_mem s') = dom (mk_mem s).
Proof.
  intros Hi Hm. pose proof Hm as (Hlive & Hl & El). unfold mark_remove. rewrite Hl. cbn [deref mbind outcome_bind].
  destruct (tab_ok_unlink _ _ _ x (mi_tab _ _ Hi) Hlive) as (b & Hb & Htab). unfold mark_key in Hb at 1.
  rewrite Hl in Hb. rewrite Hb. cbn [mbind outcome_bind].
  assert (Howned : exists owned, (if m_owner m =? NULL then mret (mk_owned s)
      else l ← deref (unlink x (task_marks s (m_owner m))); mret (<[m_owner m:=l]> (mk_owned s))) = Ret owned /\
    forall t, t <> NULL -> if decide (t = m_owner m)
     then unlink x (task_marks s t) = owned !! t else task_marks s t = default [] (owned !! t)).
  { destruct (Z.eqb_spec (m_owner m) NULL) as [Eo|Eo].
    - eexists. split; [done|]. intros t Ht. by rewrite decide_False by congruence.
    - destruct (unlink_Some x (task_marks s (m_owner m))) as [l1 Hl1].
      { apply (mi_owned _ _ Hi); [done|]. by exists l, m. }
      rewrite Hl1. cbn. eexists. split; [done|]. intros t Ht. rewrite lookup_insert.
      destruct (decide (m_owner m = t)) as [<-|]; [by rewrite decide_True by done|by rewrite decide_False by congruence]. }
  destruct Howned as (owned & -> & Hown). cbn [mbind outcome_bind]. set (s1 := mk_marks (mk_mem s) b _ _ _ _).
  assert (Hov : forall Q y m', y ∈ mark_live s ∖ {[x]} -> mk_mem s1 !! y = Some m' ->
      overlaps (m_lower m) (m_upper m) m' && Q = (m_lower m' =? m_lower m) && Q).
  { intros Q y m' Hy Hm'. f_equal. assert (mark_on s (m_lower m') y m') by (split; [set_solver|done]).
    apply overlaps_same; [by eapply Hi..|]. by eapply (mi_range _ _ Hi). }
  destruct (bucket_first_spec (mark_live s ∖ {[x]}) s1 (overlaps (m_lower m) (m_upper m)) (fun _ => true) (m_lower m))
    as (any & Hf1 & Hany); [done|intros; apply live_lookup; set_solver|intros y m' H1 H2; rewrite <- (Hov true y) by done; by rewrite andb_true_r|].
  destruct (bucket_first_spec (mark_live s ∖ {[x]}) s1 (fun m' => overlaps (m_lower m) (m_upper m) m' && m_write m') m_write (m_lower m))
    as (w & Hf2 & Hw); [done|intros; apply live_lookup; set_solver|intros y m'; by apply (Hov (m_write m'))|].
  unfold mark_find, writer_find. rewrite Hf1. cbn [mbind outcome_bind]. rewrite Hf2. cbn [mbind outcome_bind]. rewrite El in *.
  pose proof (mark_remove_flag s l x m any w s1 Hi Hm eq_refl) as Hflag.
  set (s2 := drop_flag readonly m any w s1) in *.
  assert (Hs2 : mk_mem s2 = mk_mem s /\ mk_buckets s2 = b /\ mk_free s2 = mk_free s /\ mk_owned s2 = owned /\ g_resolver_set s2 = g_resolver_set s).
  { unfold s2, drop_flag. destruct any, w, (m_write m); try done; exact (set_pending_frame _ _ s1). }
  destruct Hs2 as (E1 & E2 & E3 & E4 & E5).
  destruct (marks_inv_remove s l x m b owned (mk_pending s2) Hi Hm Htab Hown) as [Hi' Hon].
  { apply Hflag.
    - destruct any as [y|]; [destruct Hany as (m' & Hy & Hm' & Ey & _); exists m'; split; [split; [set_solver|done]|set_solver]|].
      intros y m' (Hy & Hm' & Ey). destruct (decide (y = x)); [done|]. specialize (Hany y m' ltac:(set_solver) Hm' Ey). done.
    - destruct w as [y|]; [destruct Hw as (m' & Hy & Hm' & Ey & ?); exists m'; split; [split; [set_solver|done]|set_solver]|].
      intros y m' (Hy & Hm' & Ey) Hne. apply (Hw y m'); [set_solver|done|done]. }
  rewrite El in Hi', Hon. eexists. split; [done|]. rewrite E1, E2, E3, E4, E5. split; [exact Hi'|]. split; [exact Hon|]. cbn. split_and!.
  - intros t Ht. specialize (Hown t Ht). unfold task_marks at 2 3. cbn. case_decide as E.
    + destruct (unlink_Some x (task_marks s t)) as [l1 Hl1]; [apply (mi_owned _ _ Hi t Ht); exists l, m; by split|].
      rewrite <- Hown, Hl1. done.
    + by rewrite <- Hown.
  - intros Hr y m' Hy. cbn in Hy. rewrite lookup_insert in Hy. case_decide; [injection Hy as <-; exact (Hr x m Hl)|exact (Hr y m' Hy)].
  - by rewrite dom_insert_lookup_L by (by eexists).
Qed.

(** *** The calls *)

Lemma mark_owned_ok s b t :
  marks_inv s ->
  exists r, mark_owned (f_lower b) t s = Ret r /\
    match r with
    | Some x => exists m, mark_on s (f_lower b) x m /\ m_owner m = t
    | None => forall x m, mark_on s (f_lower b) x m -> m_owner m <> t
    end.
Proof.
  intros Hi. destruct (find_at s (fun m => (m_lower m =? f_lower b) && (m_owner m =? t)) (fun m => m_owner m =? t) (f_lower b) Hi)
    as (r & Hr & Hs); [done|]. exists r. split; [exact Hr|]. destruct r as [x|].
  - destruct Hs as (m & ? & ?%Z.eqb_eq). by exists m.
  - intros x m Hm. by apply Z.eqb_neq, (Hs x).
Qed.

(** Every mark but the ones at [xs] is as before. *)
Definition others_kept (P : ptr -> Prop) (s s' : marks) : Prop :=
  forall l y m, ~ P y -> mark_on s' l y m <-> mark_on s l y m.

(** What the marking calls leave: [t] has one mark on the object, a write
    mark if [write] asks for it or it was one already; the other marks are as
    before. *)
Definition marked (s s' : marks) (b : fptr) (t : ptr) (write : bool) : Prop :=
  exists x m, mark_on s' (f_lower b) x m /\ m_owner m = t /\ (write = true -> m_write m = true) /\
    (forall l m1, mark_on s l x m1 -> l = f_lower b /\ m_owner m1 = t /\ (m_write m1 = true -> m_write m = true)) /\
    forall l y m', y <> x -> mark_on s' l y m' <-> mark_on s l y m'.

Lemma mark_own_ok s b t (write : bool) fresh own :
  marks_inv s -> buf_ok s b -> fresh <> NULL -> mk_mem s !! fresh = None -> room s -> t <> NULL ->
  mark_owned (f_lower b) t s = Ret own ->
  exists s', match own with
      | Some x => if write then mark_make_write readonly x s else mret s
      | None => mark_add readonly b t write fresh s
      end = Ret s' /\ marks_inv s' /\ marked s s' b t write.
Proof.
  intros Hi Hb Hf Hfm Hroom Ht Hown. destruct (mark_owned_ok s b t Hi) as (r & Hr & Hs).
  rewrite Hown in Hr. injection Hr as <-. destruct own as [x|].
  - destruct Hs as (m & Hm & Ho). destruct write.
    + destruct (mark_make_write_ok s _ x m Hi Hm) as (s' & -> & Hi' & Hon & _). exists s'. split; [done|].
      split; [done|]. exists x, (written m). split; [apply Hon; by rewrite decide_True|]. split; [done|]. split; [done|]. split; [|intros l y m' Hy].
      { intros l m1 (_ & Hm1 & El). destruct Hm as (_ & Hm & El'). rewrite Hm in Hm1. injection Hm1 as <-. split; [congruence|done]. }
       rewrite Hon. by rewrite decide_False.
    + exists s. split; [done|]. split; [done|]. exists x, m. split; [done|]. split; [done|]. split; [done|]. split; [|done].
      intros l m1 (_ & Hm1 & El). destruct Hm as (_ & Hm & El'). rewrite Hm in Hm1. injection Hm1 as <-. split; [congruence|done].
  - destruct (mark_add_ok s b t write fresh Hi Hb Hf Hfm Hroom) as (s' & x & gen & -> & Hi' & Hx & Hon & _); [done|].
    exists s'. split; [done|]. split; [done|]. exists x, (mk_mark b (f_lower b) (f_upper b) gen t write).
    split; [apply Hon; by left|]. split; [done|]. split; [done|].
    split; [by intros l m1 (? & _)|]. intros l y m' Hy. rewrite Hon. naive_solver.
Qed.

(** What another call's mark must be for [t] not to wait for it. *)
Definition not_in_the_way (act : list ptr) (t : ptr) (m : mark) : Prop :=
  t <> NULL /\ m_owner m = t \/ m_write m = false /\ m_owner m ∈ act.

Lemma mark_find_other_ok s act b t :
  marks_inv s -> buf_ok s b ->
  exists r, mark_find_other act (f_lower b) (f_upper b) t s = Ret r /\
    match r with
    | Some x => exists m, mark_on s (f_lower b) x m /\ ~ not_in_the_way act t m
    | None => forall x m, mark_on s (f_lower b) x m -> not_in_the_way act t m
    end.
Proof.
  intros Hi Hb. set (Q := fun m => ((t =? NULL) || negb (m_owner m =? t)) && (m_write m || negb (is_active act (m_owner m)))).
  destruct (find_over s b Q Hi Hb) as (r & Hr & Hs). exists r.
  assert (HQ : forall m, Q m = false <-> not_in_the_way act t m).
  { intros m. unfold Q, not_in_the_way, is_active. destruct (Z.eqb_spec t NULL), (Z.eqb_spec (m_owner m) t), (m_write m); cbn;
      try case_bool_decide; cbn; naive_solver. }
  split.
  - rewrite <- Hr. apply bucket_first_ext. intros m. unfold Q. by rewrite andb_assoc.
  - destruct r as [x|].
    + destruct Hs as (m & Hm & Hq). exists m. split; [done|]. rewrite <- HQ. congruence.
    + intros x m Hm. apply HQ. by apply (Hs x).
Qed.

(** One turn of the loop: the three ways it can go. *)
Definition turn_spec (act : list ptr) (t : ptr) (b : fptr) (s : marks) (r : mark_turn) (s' : marks) : Prop :=
  match r with
  | Wait_for owner => s' = s /\ owner <> NULL /\
      exists x m, mark_on s (f_lower b) x m /\ m_owner m = owner /\ ~ not_in_the_way act t m
  | Again => exists x m, mark_on s (f_lower b) x m /\ m_owner m = NULL /\
      forall l y m', mark_on s' l y m' <-> mark_on s l y m' /\ y <> x
  | Marked => marked s s' b t true /\ forall x m, mark_on s (f_lower b) x m -> not_in_the_way act t m
  end.

Lemma mark_pending_turn_ok s act t b fresh :
  marks_inv s -> buf_ok s b -> fresh <> NULL -> mk_mem s !! fresh = None -> room s -> NULL ∉ act ->
  exists r s', mark_pending_turn readonly act t b fresh s = Ret (r, s') /\ marks_inv s' /\ turn_spec act t b s r s'.
Proof.
  intros Hi Hb Hf Hfm Hroom Hact. unfold mark_pending_turn.
  destruct (mark_find_other_ok s act b t Hi Hb) as (r & -> & Hr). cbn [mbind outcome_bind]. destruct r as [x|].
  - destruct Hr as (m & Hm & Hno). pose proof Hm as (_ & Hl & _). rewrite Hl. cbn [deref mbind outcome_bind].
    destruct (Z.eqb_spec (m_owner m) NULL) as [Eo|Eo].
    + destruct (mark_remove_ok s _ x m Hi Hm) as (s' & -> & Hi' & Hon & _). eexists Again, s'. split; [done|].
      split; [done|]. by exists x, m.
    + eexists (Wait_for _), s. split; [done|]. split; [done|]. split; [done|]. split; [done|]. by exists x, m.
  - destruct (Z.eqb_spec t NULL) as [->|Ht]; cbn [mret outcome_ret mbind outcome_bind].
    + destruct (mark_add_ok s b NULL true fresh Hi Hb Hf Hfm Hroom) as (s' & x & gen & -> & Hi' & Hx & Hon & _); [done|].
      eexists Marked, s'. split; [done|]. split; [done|]. split; [|done].
      exists x, (mk_mark b (f_lower b) (f_upper b) gen NULL true). split; [apply Hon; by left|].
      split; [done|]. split; [done|]. split; [by intros l m1 (? & _)|]. intros l y m' Hy. rewrite Hon. naive_solver.
    + destruct (mark_owned_ok s b t Hi) as (own & Eown & _). rewrite Eown. cbn [mbind outcome_bind].
      destruct (mark_own_ok s b t true fresh own Hi Hb Hf Hfm Hroom Ht Eown) as (s' & Es & Hi' & Hmk).
      rewrite Es. eexists Marked, s'. by split.
Qed.

Lemma filc_async_mark_shared_ok s t b fresh :
  marks_inv s -> buf_ok s b -> fresh <> NULL -> mk_mem s !! fresh = None -> room s -> t <> NULL ->
  exists s', filc_async_mark_shared readonly t b fresh s = Ret s' /\ marks_inv s' /\ marked s s' b t true.
Proof.
  intros Hi Hb Hf Hfm Hroom Ht. unfold filc_async_mark_shared.
  destruct (Z.eqb_spec (f_addr b) NULL); [by destruct Hb|]. destruct (Z.eqb_spec t NULL); [done|]. cbn.
  destruct (mark_owned_ok s b t Hi) as (own & Eown & _). rewrite Eown. cbn.
  by apply (mark_own_ok s b t true fresh own).
Qed.

Lemma filc_async_mark_input_ok s t b fresh :
  marks_inv s -> buf_ok s b -> fresh <> NULL -> mk_mem s !! fresh = None -> room s -> t <> NULL ->
  exists s', filc_async_mark_input readonly t b fresh s = Ret s' /\ marks_inv s' /\ marked s s' b t false.
Proof.
  intros Hi Hb Hf Hfm Hroom Ht. unfold filc_async_mark_input.
  destruct (Z.eqb_spec (f_addr b) NULL); [by destruct Hb|]. destruct (Z.eqb_spec t NULL); [done|]. cbn.
  destruct (mark_owned_ok s b t Hi) as (own & Eown & _). rewrite Eown. cbn.
  apply (mark_own_ok s b t false fresh own); done.
Qed.

(** Taking one mark off, or finding none. *)
Definition one_less (s s' : marks) (l : ptr) (Q : mark -> Prop) : Prop :=
  (s' = s /\ forall x m, mark_on s l x m -> ~ Q m) \/
  exists x m, mark_on s l x m /\ Q m /\ forall l' y m', mark_on s' l' y m' <-> mark_on s l' y m' /\ y <> x.

Lemma remove_found_ok s l (r : option ptr) (Q : mark -> Prop) :
  marks_inv s ->
  match r with Some x => exists m, mark_on s l x m /\ Q m | None => forall x m, mark_on s l x m -> ~ Q m end ->
  exists s', match r with Some x => mark_remove readonly x s | None => mret s end = Ret s' /\
    marks_inv s' /\ one_less s s' l Q.
Proof.
  intros Hi Hr. destruct r as [x|].
  - destruct Hr as (m & Hm & HQ). destruct (mark_remove_ok s l x m Hi Hm) as (s' & -> & Hi' & Hon & _).
    exists s'. split; [done|]. split; [done|]. right. by exists x, m.
  - exists s. split; [done|]. split; [done|]. by left.
Qed.

Lemma filc_async_mark_resolved_ok s b :
  marks_inv s -> f_addr b <> NULL ->
  exists s', filc_async_mark_resolved readonly b s = Ret s' /\ marks_inv s' /\
    one_less s s' (f_lower b) (fun m => m_write m = true).
Proof.
  intros Hi Hb. unfold filc_async_mark_resolved. destruct (Z.eqb_spec (f_addr b) NULL); [done|].
  destruct (find_at s (fun m => (m_lower m =? f_lower b) && m_write m) m_write (f_lower b) Hi) as (r & -> & Hs); [done|].
  apply remove_found_ok; [done|]. destruct r; [done|]. intros x m Hm. rewrite (Hs x m Hm). done.
Qed.

Lemma filc_async_resolve_buffer_ok s t b :
  marks_inv s -> f_addr b <> NULL ->
  exists s', filc_async_resolve_buffer readonly t b s = Ret s' /\ marks_inv s' /\
    one_less s s' (f_lower b) (fun m => m_owner m = t).
Proof.
  intros Hi Hb. unfold filc_async_resolve_buffer. destruct (Z.eqb_spec (f_addr b) NULL); [done|].
  destruct (mark_owned_ok s b t Hi) as (r & -> & Hs). apply remove_found_ok; [done|]. by destruct r.
Qed.

(** The loop that drops every mark of a task ends, and drops just those. *)
Lemma remove_marks_ok t s n :
  marks_inv s -> t <> NULL -> (length (task_marks s t) <= n)%nat ->
  exists s', remove_marks readonly n t s = Ret s' /\ marks_inv s' /\
    (forall l y m, mark_on s' l y m <-> mark_on s l y m /\ m_owner m <> t) /\
    task_marks s' t = [] /\ (forall t', t' <> NULL -> t' <> t -> task_marks s' t' = task_marks s t') /\
    (room s -> room s') /\ dom (mk_mem s') = dom (mk_mem s).
Proof.
  intros Hi Ht. revert s Hi.
  assert (Hdone : forall s, marks_inv s -> task_marks s t = [] ->
    forall l y m, mark_on s l y m <-> mark_on s l y m /\ m_owner m <> t).
  { intros s Hi E l y m. split; [|tauto]. intros Hm. split; [done|]. intros Ho.
    assert (y ∈ task_marks s t) as Hy by (apply (mi_owned _ _ Hi t Ht); by exists l, m).
    rewrite E in Hy. by apply not_elem_of_nil in Hy. }
  induction n as [|n IH]; intros s Hi Hn; cbn.
  - destruct (task_marks s t) as [|x xs] eqn:E; [|cbn in Hn; lia]. exists s. split_and!; try done. by apply Hdone.
  - destruct (task_marks s t) as [|x xs] eqn:E.
    { exists s. split_and!; try done. by apply Hdone. }
    assert (x ∈ task_marks s t) as (l & m & Hm & Ho)%(mi_owned _ _ Hi t Ht) by (rewrite E; left).
    destruct (mark_remove_ok s l x m Hi Hm) as (s1 & -> & Hi1 & Hon & Htm & Hrm & Hdom). cbn [mbind outcome_bind].
    pose proof (Htm t Ht) as Ht1. rewrite decide_True, E in Ht1 by done. cbn in Ht1. rewrite Z.eqb_refl in Ht1.
    injection Ht1 as Ht1. destruct (IH s1 Hi1) as (s' & -> & Hi' & Hon' & Hz & Hoth & Hrm' & Hdom').
    { rewrite <- Ht1. cbn in Hn. lia. }
    exists s'. split; [done|]. split; [done|]. split; [|split; [done|split; [|split; [tauto|congruence]]]].
    + intros l' y m'. rewrite Hon', Hon. split; [tauto|]. intros [H Hne]. split; [|done]. split; [done|].
      intros ->. destruct H as (_ & H & _), Hm as (_ & Hm & _). congruence.
    + intros t' Hn' Hne. rewrite Hoth by done. pose proof (Htm t' Hn') as Ht'.
      rewrite decide_False in Ht' by congruence. done.
Qed.
End Ops.

Section Waiting.
Context (readonly : ptr -> bool).

Lemma owner_of_ok s lower (r : option ptr) (Q : mark -> bool) :
  marks_inv readonly s -> (forall m, Q m = true -> m_owner m <> NULL) ->
  match r with
  | Some x => exists m, mark_on s lower x m /\ Q m = true
  | None => forall x m, mark_on s lower x m -> Q m = false
  end ->
  exists p, owner_of s r = Ret p /\
    (p = NULL <-> forall x m, mark_on s lower x m -> Q m = false) /\
    (p <> NULL -> exists x m, mark_on s lower x m /\ Q m = true /\ m_owner m = p).
Proof.
  intros Hi HQ Hr. destruct r as [x|]; cbn.
  - destruct Hr as (m & Hm & Hq). pose proof Hm as (_ & Hl & _). rewrite Hl. cbn. exists (m_owner m).
    split; [done|]. split; [|intros _; by exists x, m]. split; [intros E; by destruct (HQ m)|].
    intros Hno. by rewrite (Hno x m Hm) in Hq.
  - exists NULL. split; [done|]. split; [done|]. by intros [].
Qed.

(** The marks a program access must wait for. *)
Definition access_waits (act : list ptr) (own : bool) (m : mark) : bool :=
  negb (m_owner m =? NULL) && negb (is_active act (m_owner m)) && (m_write m || negb own).

Lemma access_owner_ok s act own b :
  marks_inv readonly s -> buf_ok s b ->
  exists p, access_owner act own b s = Ret p /\
    (p = NULL <-> forall x m, mark_on s (f_lower b) x m -> access_waits act own m = false) /\
    (p <> NULL -> exists x m, mark_on s (f_lower b) x m /\ access_waits act own m = true /\ m_owner m = p).
Proof.
  intros Hi Hb. unfold access_owner.
  rewrite (bucket_first_ext _ (fun m => overlaps (f_lower b) (f_upper b) m && access_waits act own m))
    by (intros m; unfold access_waits; by rewrite !andb_assoc).
  destruct (find_over readonly s b (access_waits act own) Hi Hb) as (r & Hr & Hs).
  rewrite Hr. cbn [mbind outcome_bind]. eapply owner_of_ok; [done| |done].
  intros m [[Hn%negb_true_iff%Z.eqb_neq _]%andb_true_iff _]%andb_true_iff. done.
Qed.

Lemma access_own_ok s act b :
  marks_inv readonly s -> buf_ok s b -> NULL ∉ act ->
  exists own, access_own act b s = Ret own /\
    (own = true <-> exists x m, mark_on s (f_lower b) x m /\ m_owner m ∈ act).
Proof.
  intros Hi Hb Hact. unfold access_own.
  rewrite (bucket_first_ext _ (fun m => overlaps (f_lower b) (f_upper b) m &&
    (negb (m_owner m =? NULL) && is_active act (m_owner m)))) by (intros m; by rewrite !andb_assoc).
  destruct (find_over readonly s b (fun m => negb (m_owner m =? NULL) && is_active act (m_owner m)) Hi Hb) as (r & Hr & Hs).
  rewrite Hr. cbn. eexists. split; [done|]. unfold is_active in Hs. destruct r as [x|].
  - split; [|done]. intros _. destruct Hs as (m & Hm & [_ Ha%bool_decide_eq_true]%andb_true_iff). by exists x, m.
  - split; [done|]. intros (x & m & Hm & Ha). specialize (Hs x m Hm). rewrite (bool_decide_true _ Ha) in Hs.
    destruct (Z.eqb_spec (m_owner m) NULL) as [E|E]; [by rewrite E in Ha|done].
Qed.

Definition buffer_waits (task running_body : ptr) (m : mark) : bool :=
  m_write m && negb (m_owner m =? NULL) && negb (m_owner m =? task) && negb (m_owner m =? running_body).

Lemma buffer_owner_ok s task running_body b :
  marks_inv readonly s -> buf_ok s b ->
  exists p, buffer_owner task running_body b s = Ret p /\
    (p = NULL <-> forall x m, mark_on s (f_lower b) x m -> buffer_waits task running_body m = false) /\
    (p <> NULL -> exists x m, mark_on s (f_lower b) x m /\ buffer_waits task running_body m = true /\ m_owner m = p).
Proof.
  intros Hi Hb. unfold buffer_owner.
  rewrite (bucket_first_ext _ (fun m => overlaps (f_lower b) (f_upper b) m && buffer_waits task running_body m))
    by (intros m; unfold buffer_waits; by rewrite !andb_assoc).
  destruct (find_over readonly s b (buffer_waits task running_body) Hi Hb) as (r & Hr & Hs).
  rewrite Hr. cbn [mbind outcome_bind]. eapply owner_of_ok; [done| |done].
  intros m [[[_ Hn%negb_true_iff%Z.eqb_neq]%andb_true_iff _]%andb_true_iff _]%andb_true_iff. done.
Qed.
End Waiting.

(** ** Runs *)

Section Runs.
Context (readonly : ptr -> bool).

(** A new record's address, and records that have not been used 2^64 - 1
    times. *)
Definition fresh_ok (s : marks) (fresh : ptr) : Prop :=
  fresh <> NULL /\ mk_mem s !! fresh = None /\ room s.

(** What the steps rely on. *)
Definition mk_op_ok (op : mk_op) (s : marks) : Prop :=
  match op with
  | Mark_pending act t b fresh => buf_ok s b /\ fresh_ok s fresh /\ (NULL ∉ act)
  | Mark_shared t b fresh | Mark_input t b fresh =>
      f_addr b = NULL \/ t = NULL \/ buf_ok s b /\ fresh_ok s fresh
  | Mark_resolved b => True
  | Resolve_buffer t b => True
  | Drop_marks t => t <> NULL
  end.

Abbreviation mk_reach := (reach (mk_exec readonly) mk_op_ok marks_init).

Lemma mk_exec_ok s op :
  marks_inv readonly s -> mk_op_ok op s -> exists s', mk_exec readonly op s = Ret s' /\ marks_inv readonly s'.
Proof.
  intros Hi Hop. destruct op as [act t b fresh|t b fresh|t b fresh|b|t b|t]; cbn.
  - destruct Hop as (Hb & (Hf & Hfm & Hroom) & Hact).
    destruct (mark_pending_turn_ok readonly s act t b fresh) as (r & s' & -> & Hi' & _); try done. by exists s'.
  - destruct (decide (f_addr b = NULL \/ t = NULL)) as [Hn|Hn].
    { exists s. split; [|done]. unfold filc_async_mark_shared. destruct (Z.eqb_spec (f_addr b) NULL), (Z.eqb_spec t NULL); naive_solver. }
    destruct Hop as [?|[?|(Hb & Hf & Hfm & Hroom)]]; [naive_solver..|].
    destruct (filc_async_mark_shared_ok readonly s t b fresh) as (s' & -> & Hi' & _); try done; [naive_solver|by exists s'].
  - destruct (decide (f_addr b = NULL \/ t = NULL)) as [Hn|Hn].
    { exists s. split; [|done]. unfold filc_async_mark_input. destruct (Z.eqb_spec (f_addr b) NULL), (Z.eqb_spec t NULL); naive_solver. }
    destruct Hop as [?|[?|(Hb & Hf & Hfm & Hroom)]]; [naive_solver..|].
    destruct (filc_async_mark_input_ok readonly s t b fresh) as (s' & -> & Hi' & _); try done; [naive_solver|by exists s'].
  - destruct (decide (f_addr b = NULL)) as [E|E].
    { exists s. unfold filc_async_mark_resolved. rewrite E. done. }
    destruct (filc_async_mark_resolved_ok readonly s b Hi E) as (s' & -> & Hi' & _). by exists s'.
  - destruct (decide (f_addr b = NULL)) as [E|E].
    { exists s. unfold filc_async_resolve_buffer. rewrite E. done. }
    destruct (filc_async_resolve_buffer_ok readonly s t b Hi E) as (s' & -> & Hi' & _). by exists s'.
  - destruct (remove_marks_ok readonly t s _ Hi Hop (le_n _)) as (s' & -> & Hi' & _). by exists s'.
Qed.

Lemma mk_reach_inv s : mk_reach s -> marks_inv readonly s.
Proof. apply reach_inv; [apply mk_exec_ok|apply marks_init_inv]. Qed.

(** The task an operation marks for. *)
Definition mk_op_task (op : mk_op) : ptr :=
  match op with
  | Mark_pending _ t _ _ | Mark_shared t _ _ | Mark_input t _ _ => t
  | _ => NULL
  end.

(** Only a marking call for a task gives it marks. *)
Lemma mk_exec_owner s op s' l x m :
  marks_inv readonly s -> mk_op_ok op s -> mk_exec readonly op s = Ret s' -> mark_on s' l x m ->
  m_owner m = mk_op_task op \/ mark_on s l x m.
Proof.
  intros Hi Hop He Hm.
  assert (Hmarked : forall b t w, marked s s' b t w -> m_owner m = t \/ mark_on s l x m).
  { intros b t w (y & m0 & Hy & Ho & _ & _ & Hk). destruct (decide (x = y)) as [->|Hne]; [left|right; by apply Hk].
    destruct Hy as (_ & Hy & _), Hm as (_ & Hm & _). congruence. }
  assert (Hless : forall l' Q, one_less s s' l' Q -> mark_on s l x m).
  { intros l' Q [[-> _]|(y & m0 & _ & _ & Hk)]; [done|by apply Hk]. }
  destruct op as [act t b fresh|t b fresh|t b fresh|b|t b|t]; cbn [mk_exec mk_op_task] in *.
  - destruct Hop as (Hb & (Hf & Hfm & Hroom) & Hact).
    destruct (mark_pending_turn_ok readonly s act t b fresh) as (r & s1 & E & _ & Hr); try done.
    rewrite E in He. cbn in He. injection He as ->. destruct r; cbn in Hr.
    + destruct Hr as (-> & _). by right.
    + destruct Hr as (y & m0 & _ & _ & Hk). right. by apply Hk.
    + by eapply Hmarked, Hr.
  - destruct (decide (f_addr b = NULL \/ t = NULL)) as [Hn|Hn].
    { unfold filc_async_mark_shared in He. destruct (Z.eqb_spec (f_addr b) NULL), (Z.eqb_spec t NULL); try (by injection He as ->; right); naive_solver. }
    destruct Hop as [?|[?|(Hb & Hf & Hfm & Hroom)]]; [naive_solver..|].
    destruct (filc_async_mark_shared_ok readonly s t b fresh) as (s1 & E & _ & Hr); try done; [naive_solver|].
    rewrite E in He. injection He as ->. by eapply Hmarked.
  - destruct (decide (f_addr b = NULL \/ t = NULL)) as [Hn|Hn].
    { unfold filc_async_mark_input in He. destruct (Z.eqb_spec (f_addr b) NULL), (Z.eqb_spec t NULL); try (by injection He as ->; right); naive_solver. }
    destruct Hop as [?|[?|(Hb & Hf & Hfm & Hroom)]]; [naive_solver..|].
    destruct (filc_async_mark_input_ok readonly s t b fresh) as (s1 & E & _ & Hr); try done; [naive_solver|].
    rewrite E in He. injection He as ->. by eapply Hmarked.
  - right. destruct (decide (f_addr b = NULL)) as [E|E].
    { unfold filc_async_mark_resolved in He. rewrite E in He. by injection He as ->. }
    destruct (filc_async_mark_resolved_ok readonly s b Hi E) as (s1 & E1 & _ & Hr).
    rewrite E1 in He. injection He as ->. by eapply Hless.
  - right. destruct (decide (f_addr b = NULL)) as [E|E].
    { unfold filc_async_resolve_buffer in He. rewrite E in He. by injection He as ->. }
    destruct (filc_async_resolve_buffer_ok readonly s t b Hi E) as (s1 & E1 & _ & Hr).
    rewrite E1 in He. injection He as ->. by eapply Hless.
  - right. destruct (remove_marks_ok readonly t s _ Hi Hop (le_n _)) as (s1 & E1 & _ & Hon & _).
    rewrite E1 in He. injection He as ->. by apply Hon in Hm as [? _].
Qed.

(** C5: the header flag.  In every reachable state an object's header
    carries the pending flag exactly when some call is producing the object
    or, if the program could store into it, some call is reading it: the
    access hook stops every access that has to wait and no other object. *)
Theorem pending_flag_exact (s : marks) (lower : ptr) :
  mk_reach s -> lower ∈ mk_pending s <->
    exists x m, mark_on s lower x m /\ (m_write m = true \/ readonly lower = false).
Proof. intros Hi%mk_reach_inv. apply (mi_flag _ _ Hi). Qed.

(** The marking operations never fail.  From every reachable state
    every marking call returns: no walk falls off a chain. *)
Theorem mark_ops_total (s : marks) (op : mk_op) :
  mk_reach s -> mk_op_ok op s -> exists s', mk_exec readonly op s = Ret s'.
Proof. intros Hi%mk_reach_inv Hop. destruct (mk_exec_ok s op Hi Hop) as (s' & ? & _). by exists s'. Qed.

(** Exclusive write marks.  When [filc_async_mark_pending] stops
    looping, the call has a write mark on the object, and every other mark
    on it is the call's own or a read mark of a call active on this thread;
    as long as it goes on it has found a mark that is neither, and waits
    for that mark's owner or takes the ownerless mark away. *)
Theorem mark_pending_exclusive (s : marks) (act : list ptr) (t : ptr) (b : fptr) (fresh : ptr) :
  mk_reach s -> mk_op_ok (Mark_pending act t b fresh) s ->
  exists r s', mark_pending_turn readonly act t b fresh s = Ret (r, s') /\
  match r with
  | Marked => exists x m, mark_on s' (f_lower b) x m /\ m_owner m = t /\ m_write m = true /\
      forall y m', mark_on s' (f_lower b) y m' -> y <> x ->
        t <> NULL /\ m_owner m' = t \/ m_write m' = false /\ m_owner m' ∈ act
  | Wait_for owner => s' = s /\ owner <> NULL /\ owner <> t /\
      exists x m, mark_on s (f_lower b) x m /\ m_owner m = owner
  | Again => exists x m, mark_on s (f_lower b) x m /\ m_owner m = NULL /\
      forall l y m', mark_on s' l y m' <-> mark_on s l y m' /\ y <> x
  end.
Proof.
  intros Hi%mk_reach_inv (Hb & (Hf & Hfm & Hroom) & Hact).
  destruct (mark_pending_turn_ok readonly s act t b fresh) as (r & s' & -> & Hi' & Hr); try done.
  exists r, s'. split; [done|]. destruct r as [owner| |]; cbn in Hr.
  - destruct Hr as (-> & Ho & x & m & Hm & Hmo & Hno). split; [done|]. split; [done|]. split; [|by exists x, m].
    intros ->. apply Hno. by left.
  - destruct Hr as (x & m & ? & ? & ?). by exists x, m.
  - destruct Hr as [(x & m & Hm & Ho & Hw & _ & Hk) Hall]. exists x, m. split; [done|]. split; [done|]. split; [auto|].
    intros y m' Hy Hne. apply Hk in Hy; [|done]. exact (Hall y m' Hy).
Qed.

(** A completed call owns nothing.  Dropping a task's marks ends (with
    as many rounds as it has marks), leaves it none, and leaves every other
    task's marks as they were. *)
Theorem drop_marks_exact (s : marks) (t : ptr) :
  mk_reach s -> t <> NULL ->
  exists s', mk_exec readonly (Drop_marks t) s = Ret s' /\ task_marks s' t = [] /\
    (forall l x m, mark_on s' l x m <-> mark_on s l x m /\ m_owner m <> t).
Proof.
  intros Hi%mk_reach_inv Ht. destruct (remove_marks_ok readonly t s _ Hi Ht (le_n _)) as (s' & He & _ & Hon & Hz & _).
  by exists s'.
Qed.

(** [filc_async_is_pending] answers whether some call is producing the
    object its argument points into. *)
Theorem is_pending_spec (s : marks) (b : fptr) :
  mk_reach s -> buf_ok s b ->
  exists r, filc_async_is_pending b s = Ret r /\
    (r = true <-> exists x m, mark_on s (f_lower b) x m /\ m_write m = true).
Proof.
  intros Hi%mk_reach_inv Hb. unfold filc_async_is_pending. destruct (Z.eqb_spec (f_addr b) NULL); [by destruct Hb|].
  destruct (find_over readonly s b m_write Hi Hb) as (r & Hr & Hs). unfold writer_find. rewrite Hr. cbn.
  eexists. split; [done|]. destruct r as [x|].
  - split; [|done]. intros _. destruct Hs as (m & ? & ?). by exists x, m.
  - split; [done|]. intros (x & m & Hm & Hw). by rewrite (Hs x m Hm) in Hw.
Qed.
End Runs.

(** ** Concrete runs

    Objects at 4096 and 8192, the second read-only; calls 64, 128 and 192. *)

#[export] Instance same_or_apart_dec l1 u1 l2 u2 : Decision (same_or_apart l1 u1 l2 u2).
Proof. unfold same_or_apart. apply _. Defined.

Lemma room_check s : map_Forall (fun _ m => m_generation m < UINT64_MAX) (mk_mem s) -> room s.
Proof. intros H x m Hx. exact (H x m Hx). Qed.

Lemma buf_ok_check s b :
  f_addr b <> NULL -> 0 < f_lower b < f_upper b ->
  map_Forall (fun _ m => same_or_apart (f_lower b) (f_upper b) (m_lower m) (m_upper m)) (mk_mem s) -> buf_ok s b.
Proof. intros Ha Hb H. split; [done|]. split; [done|]. intros l x m (_ & Hx & _). exact (H x m Hx). Qed.

Definition ro_8192 (l : ptr) : bool := l =? 8192.
Definition buf_a : fptr := mk_fptr 4100 4096 4160.
Definition buf_r : fptr := mk_fptr 8192 8192 8200.

Ltac mk_buf := apply buf_ok_check; [point|split; point|point].
Ltac mk_fresh := split; [point|split; [point|apply room_check; point]].
Ltac mk_op_concrete :=
  cbn [mk_op_ok];
  first [ exact I | discriminate | (right; right; split; [mk_buf|mk_fresh])
        | (split; [mk_buf|split; [mk_fresh|point]]) ].

Abbreviation mk_reach_ro := (reach (mk_exec ro_8192) mk_op_ok marks_init).

Definition mk_run (ops : list mk_op) : marks :=
  match execs (mk_exec ro_8192) ops marks_init with Ret s => s | _ => marks_init end.

Lemma mk_run_reach ops s :
  ops_ok (mk_exec ro_8192) mk_op_ok ops marks_init -> execs (mk_exec ro_8192) ops marks_init = Ret s -> mk_reach_ro s.
Proof. intros Hok He. by eapply execs_reach; [apply reach_init|done|]. Qed.

(** Calls 64 and 192 read the first object and the read-only one, call 128
    waits to produce the first. *)
Definition marks_ops : list mk_op := [Mark_input 64 buf_a 16384; Mark_input 192 buf_r 16448].
Definition marks_a : marks := mk_run marks_ops.

Lemma marks_a_reach : mk_reach_ro marks_a.
Proof. apply (mk_run_reach marks_ops); [unfold marks_ops; ops_concrete mk_op_concrete|point]. Qed.

Lemma pending_flag_exact_witness : 4096 ∈ mk_pending marks_a /\ ~ 8192 ∈ mk_pending marks_a.
Proof.
  split; [apply (pending_flag_exact ro_8192 marks_a 4096 marks_a_reach)|].
  - exists 16384. eexists. split; [split; [point|split; point]|by right].
  - intros H. apply (pending_flag_exact ro_8192 marks_a 8192 marks_a_reach) in H as (x & m & (Hl & Hx & E) & [Hw|Hr]); [|done].
    apply (bool_decide_unpack (map_Forall (fun _ m => m_write m = false) (mk_mem marks_a))) in Hx; [congruence|].
    vm_compute. done.
Defined.

Lemma mark_ops_total_witness : exists s', mk_exec ro_8192 (Drop_marks 64) marks_a = Ret s'.
Proof. apply (mark_ops_total ro_8192 marks_a (Drop_marks 64) marks_a_reach). discriminate. Defined.

Lemma mark_pending_exclusive_witness :
  mark_pending_turn ro_8192 [] 128 buf_a 16512 marks_a = Ret (Wait_for 64, marks_a) /\
  exists r s', mark_pending_turn ro_8192 [64] 128 buf_a 16512 marks_a = Ret (r, s').
Proof.
  split; [vm_compute; reflexivity|].
  destruct (mark_pending_exclusive ro_8192 marks_a [64] 128 buf_a 16512 marks_a_reach) as (r & s' & H & _).
  - split; [mk_buf|split; [mk_fresh|]]. point.
  - by exists r, s'.
Defined.

Lemma drop_marks_exact_witness :
  exists s', mk_exec ro_8192 (Drop_marks 64) marks_a = Ret s' /\ task_marks s' 64 = [].
Proof.
  destruct (drop_marks_exact ro_8192 marks_a 64 marks_a_reach) as (s' & H1 & H2 & _); [discriminate|].
  by exists s'.
Defined.

Lemma is_pending_spec_witness :
  exists r, filc_async_is_pending buf_a marks_a = Ret r.
Proof.
  destruct (is_pending_spec ro_8192 marks_a buf_a marks_a_reach) as (r & H & _); [mk_buf|]. by exists r.
Defined.
