(* ===== verification/Joins.v ===== *)
(** * Joins: the snapshot of [filc_async_wait_all]

    What [filc_async_wait_all] reads from the mark table under [g_lock]: it
    counts the write marks of the listed objects, then lists each once with
    its generation.  A record of a mark is used again for another object, so
    an entry is pending as long as the record is in use with the generation
    it had: [ages] is what every operation on the table keeps, and what makes
    that test exact.  The join task itself is in the files Framework and
    JoinPoll. *)

From S2P Require Import Prelude Buckets Handles Marks.
Open Scope Z_scope.

(** [struct join_entry] *)
Record join_entry := mk_entry { e_mark : ptr; e_generation : Z }.

#[export] Instance join_entry_eq_dec : EqDecision join_entry.
Proof. solve_decision. Defined.

Definition SIZE_MAX : Z := 2 ^ 64 - 1.

(** [(SIZE_MAX - sizeof(struct join_state)) / sizeof(struct join_entry)] *)
Definition max_entries : Z := (SIZE_MAX - 8) / 16.

Definition in_use (m : mark) : bool := negb (f_addr (m_buf m) =? NULL).

Definition join_entry_pending (e : join_entry) (s : marks) : outcome bool :=
  m ← deref (mk_mem s !! e_mark e);
  mret (in_use m && (m_generation m =? e_generation e)).

(** [m->lower == lower && m->write] *)
Definition produces (lower : ptr) (m : mark) : bool := (m_lower m =? lower) && m_write m.

(** The walk of one bucket that counts. *)
Fixpoint count_producers (mem : gmap ptr mark) (lower : ptr) (l : list ptr) (capacity : Z) : outcome Z :=
  match l with
  | [] => mret capacity
  | x :: l =>
      m ← deref (mem !! x);
      if negb (produces lower m) then count_producers mem lower l capacity
      else if capacity =? max_entries then Fatal "wait_all: too many pending marks"
      else count_producers mem lower l (capacity + 1)
  end.

Fixpoint capacity_loop (snapshot : list fptr) (capacity : Z) (s : marks) : outcome Z :=
  match snapshot with
  | [] => mret capacity
  | b :: snapshot =>
      capacity ← (if f_addr b =? NULL then mret capacity
                  else count_producers (mk_mem s) (f_lower b) (chain (mk_buckets s) (mark_bucket (f_lower b))) capacity);
      capacity_loop snapshot capacity s
  end.

(** The walk of one bucket that lists. *)
Fixpoint add_producers (mem : gmap ptr mark) (lower : ptr) (l : list ptr) (entries : list join_entry)
  : outcome (list join_entry) :=
  match l with
  | [] => mret entries
  | x :: l =>
      m ← deref (mem !! x);
      add_producers mem lower l
        (if negb (produces lower m) then entries
         else if existsb (fun e => e_mark e =? x) entries then entries
         else entries ++ [mk_entry x (m_generation m)])
  end.

Fixpoint snapshot_loop (snapshot : list fptr) (entries : list join_entry) (s : marks) : outcome (list join_entry) :=
  match snapshot with
  | [] => mret entries
  | b :: snapshot =>
      entries ← (if f_addr b =? NULL then mret entries
                 else add_producers (mk_mem s) (f_lower b) (chain (mk_buckets s) (mark_bucket (f_lower b))) entries);
      snapshot_loop snapshot entries s
  end.

(** Whether some entry is pending. *)
Fixpoint any_pending (entries : list join_entry) (s : marks) : outcome bool :=
  match entries with
  | [] => mret false
  | e :: entries => p ← join_entry_pending e s; if (p : bool) then mret true else any_pending entries s
  end.

(** ** The snapshot is the producers *)

Definition producers (mem : gmap ptr mark) (lower : ptr) (l : list ptr) : list ptr :=
  List.filter (fun x => match mem !! x with Some m => produces lower m | None => false end) l.

Definition in_mem (mem : gmap ptr mark) (l : list ptr) : Prop := forall x, x ∈ l -> is_Some (mem !! x).

Lemma in_mem_cons mem x l : in_mem mem (x :: l) -> is_Some (mem !! x) /\ in_mem mem l.
Proof. intros H. split; [apply H; left|]. intros y Hy. apply H. by right. Qed.

Lemma count_producers_ok mem lower l : forall capacity,
  in_mem mem l -> capacity + Z.of_nat (length l) < max_entries ->
  count_producers mem lower l capacity = Ret (capacity + Z.of_nat (length (producers mem lower l))).
Proof.
  unfold producers. induction l as [|x l IH]; intros capacity Hm Hc; cbn [count_producers List.filter length] in *.
  - by rewrite Z.add_0_r.
  - apply in_mem_cons in Hm as [[m Hx] Hm]. rewrite Hx. cbn [deref mbind outcome_bind]. destruct (produces lower m); cbn [negb].
    + destruct (Z.eqb_spec capacity max_entries); [lia|]. rewrite IH by (done || lia). cbn [length]. f_equal. lia.
    + apply IH; [done|lia].
Qed.

(** What listing the records [l] does to the entries. *)
Record listed (mem : gmap ptr mark) (l : list ptr) (es es' : list join_entry) : Prop := {
  ls_elem : forall e, e ∈ es' <-> e ∈ es \/ e_mark e ∈ l /\ (forall e0, e0 ∈ es -> e_mark e0 <> e_mark e) /\
    exists m, mem !! e_mark e = Some m /\ e_generation e = m_generation m;
  ls_nodup : NoDup (map e_mark es) -> NoDup (map e_mark es');
  ls_length : (length es' <= length es + length l)%nat;
}.

Lemma existsb_mark x es : existsb (fun e => e_mark e =? x) es = true <-> exists e, e ∈ es /\ e_mark e = x.
Proof.
  rewrite existsb_exists. split; intros (e & He & Hx); exists e; (split; [by apply list_elem_of_In|]); by apply Z.eqb_eq.
Qed.

Lemma add_producers_ok mem lower l : forall es,
  in_mem mem l -> exists es', add_producers mem lower l es = Ret es' /\ listed mem (producers mem lower l) es es'.
Proof.
  induction l as [|x l IH]; intros es Hm; cbn [add_producers].
  - exists es. split; [done|]. split; cbn; [|done|lia]. intros e. split; [by left|]. intros [|(H & _)]; [done|]. by apply not_elem_of_nil in H.
  - apply in_mem_cons in Hm as [[m Hx] Hm]. rewrite Hx. cbn [deref mbind outcome_bind]. unfold producers. cbn [List.filter]. rewrite Hx.
    fold (producers mem lower l). destruct (produces lower m); cbn [negb]; [|apply (IH es Hm)].
    destruct (existsb _ es) eqn:Ex.
    + destruct (IH es Hm) as (es' & -> & H). exists es'. split; [done|]. apply existsb_mark in Ex as (e0 & He0 & E0).
      destruct H as [H1 H2 H3]. split; [|done|cbn; lia]. intros e. rewrite H1, elem_of_cons. split; [tauto|].
      intros [|([E|] & Hn & Hg)]; [by left| |by right]. destruct (Hn e0 He0). congruence.
    + destruct (IH (es ++ [mk_entry x (m_generation m)]) Hm) as (es' & -> & [H1 H2 H3]). exists es'. split; [done|].
      assert (Hno : forall e, e ∈ es -> e_mark e <> x).
      { intros e He E. assert (existsb (fun e => e_mark e =? x) es = true) by (apply existsb_mark; by exists e). congruence. }
      split.
      * intros e. rewrite H1, elem_of_app, list_elem_of_singleton, elem_of_cons. split.
        -- intros [[?| ->]|(? & Hn & Hg)]; [by left|right; cbn; split; [by left|split; [done|by exists m]]|right].
           split; [by right|]. split; [|done]. intros e0 He0. apply Hn, elem_of_app. by left.
        -- intros [|([E|Hin] & Hn & m' & Hm' & Hg)]; [by left; left| |].
           ++ left. right. destruct e as [x' g']. cbn in *. subst x'. rewrite Hx in Hm'. injection Hm' as <-. by subst.
           ++ destruct (decide (e_mark e = x)) as [E|E].
              { left. right. destruct e as [x' g']. cbn in *. subst x'. rewrite Hx in Hm'. injection Hm' as <-. by subst. }
              right. split; [done|]. split; [|by exists m']. intros e0 [He0| ->%list_elem_of_singleton]%elem_of_app; [by apply Hn|cbn; congruence].
      * intros Hnd. apply H2. rewrite map_app. apply NoDup_app. split; [done|]. split; [|apply NoDup_singleton].
        intros y Hy%list_elem_of_In%in_map_iff Hy2. apply list_elem_of_singleton in Hy2 as ->.
        destruct Hy as (e & E & He%list_elem_of_In). by apply (Hno e).
      * rewrite length_app in H3. cbn in *. lia.
Qed.

Lemma listed_trans mem l1 l2 es es1 es2 :
  listed mem l1 es es1 -> listed mem l2 es1 es2 -> listed mem (l1 ++ l2) es es2.
Proof.
  intros [A1 A2 A3] [B1 B2 B3]. split; [|auto|rewrite length_app; lia].
  intros e. rewrite B1, A1, elem_of_app. split.
  - intros [[?|(? & Hn & Hg)]|(? & Hn & Hg)]; [by left|right; tauto|right]. split; [by right|]. split; [|done].
    intros e0 He0. apply Hn, A1. by left.
  - intros [?|([Hin|Hin] & Hn & Hg)]; [by left; left|left; right; tauto|].
    destruct (existsb (fun e0 => e_mark e0 =? e_mark e) es1) eqn:Ex.
    + apply existsb_mark in Ex as (e0 & He0 & E). left. apply A1 in He0 as He1.
      destruct He1 as [He1|(Hl & Hn0 & m & Hm & Hg0)]; [by destruct (Hn e0 He1)|]. right. split; [by rewrite <- E|]. by split.
    + right. split; [done|]. split; [|done]. intros e0 He0 E.
      assert (existsb (fun e0 => e_mark e0 =? e_mark e) es1 = true) by (apply existsb_mark; by exists e0). congruence.
Qed.

Section Snapshot.
Context (readonly : ptr -> bool).
Abbreviation marks_inv := (marks_inv readonly).

Definition bucket_of (s : marks) (b : fptr) : list ptr := chain (mk_buckets s) (mark_bucket (f_lower b)).

(** The write marks of one listed object; NULL names none. *)
Definition producers_of (s : marks) (b : fptr) : list ptr :=
  if f_addr b =? NULL then [] else producers (mk_mem s) (f_lower b) (bucket_of s b).

Lemma bucket_live s b x : marks_inv s -> x ∈ bucket_of s b -> x ∈ mark_live s.
Proof. intros Hi Hx. by apply (tab_ok_elem _ _ _ _ _ (mi_tab _ _ Hi)) in Hx as [? _]. Qed.

Lemma bucket_in_mem s b : marks_inv s -> in_mem (mk_mem s) (bucket_of s b).
Proof. intros Hi x Hx. by apply live_lookup, (bucket_live s b). Qed.

(** The producers of [b] are the write marks in force on its object. *)
Lemma producers_of_elem s b x :
  marks_inv s -> x ∈ producers_of s b <-> f_addr b <> NULL /\ exists m, mark_on s (f_lower b) x m /\ m_write m = true.
Proof.
  intros Hi. unfold producers_of. destruct (Z.eqb_spec (f_addr b) NULL) as [E|E].
  - split; [by intros ?%not_elem_of_nil|tauto].
  - unfold producers. rewrite list_elem_of_In, filter_In, <- list_elem_of_In. split.
    + intros [Hx Hp]. split; [done|]. pose proof (bucket_live s b x Hi Hx) as Hl. destruct (mk_mem s !! x) as [m|] eqn:Em; [|done].
      apply andb_prop in Hp as [Ep%Z.eqb_eq ?]. exists m. by split.
    + intros (_ & m & (Hl & Em & Ep) & Hw). rewrite Em. unfold produces. rewrite Ep, Z.eqb_refl, Hw. split; [|done].
      apply (tab_ok_elem _ _ _ _ _ (mi_tab _ _ Hi)). split; [done|]. unfold mark_key. by rewrite Em, Ep.
Qed.

Lemma bucket_length s b : marks_inv s -> (length (bucket_of s b) <= size (mark_live s))%nat.
Proof.
  intros Hi. rewrite <- (size_list_to_set (C := gset ptr)) by (apply (tab_ok_NoDup _ _ _ _ (mi_tab _ _ Hi))).
  apply subseteq_size. intros x. rewrite elem_of_list_to_set. by apply bucket_live.
Qed.

Lemma producers_length mem lower l : (length (producers mem lower l) <= length l)%nat.
Proof. apply filter_length_le. Qed.

Lemma capacity_loop_ok s snapshot : forall capacity,
  marks_inv s -> capacity + Z.of_nat (length snapshot * size (mark_live s)) < max_entries ->
  capacity_loop snapshot capacity s = Ret (capacity + Z.of_nat (length (concat (map (producers_of s) snapshot)))).
Proof.
  induction snapshot as [|b snapshot IH]; intros capacity Hi Hc; cbn [capacity_loop map concat length] in *.
  - by rewrite Z.add_0_r.
  - pose proof (bucket_length s b Hi). pose proof (producers_length (mk_mem s) (f_lower b) (bucket_of s b)).
    rewrite length_app. unfold producers_of at 1. destruct (f_addr b =? NULL).
    + cbn [mret outcome_ret mbind outcome_bind]. rewrite IH by (done || lia). done.
    + unfold bucket_of in *. rewrite count_producers_ok by (try apply (bucket_in_mem s b); done || lia). cbn [mbind outcome_bind].
      rewrite IH by (done || lia). f_equal. lia.
Qed.

Lemma snapshot_loop_ok s snapshot : forall es,
  marks_inv s -> exists es', snapshot_loop snapshot es s = Ret es' /\ listed (mk_mem s) (concat (map (producers_of s) snapshot)) es es'.
Proof.
  induction snapshot as [|b snapshot IH]; intros es Hi; cbn [snapshot_loop map concat].
  - exists es. split; [done|]. split; cbn; [|done|lia]. intros e. split; [by left|]. intros [|(H & _)]; [done|]. by apply not_elem_of_nil in H.
  - unfold producers_of at 1. destruct (f_addr b =? NULL); [apply (IH es Hi)|].
    destruct (add_producers_ok (mk_mem s) (f_lower b) (bucket_of s b) es (bucket_in_mem s b Hi)) as (es1 & E1 & H1).
    unfold bucket_of in E1 at 1. rewrite E1. cbn [mbind outcome_bind]. destruct (IH es1 Hi) as (es2 & -> & H2). exists es2. split; [done|]. by eapply listed_trans.
Qed.

(** The whole snapshot: each producer once, with its generation. *)
Definition snapshot_of (s : marks) (snapshot : list fptr) (es : list join_entry) : Prop :=
  NoDup (map e_mark es) /\
  forall e, e ∈ es <-> exists b m, b ∈ snapshot /\ f_addr b <> NULL /\ mark_on s (f_lower b) (e_mark e) m /\
                         m_write m = true /\ m_generation m = e_generation e.

Lemma snapshot_exact s snapshot :
  marks_inv s -> exists es, snapshot_loop snapshot [] s = Ret es /\ snapshot_of s snapshot es /\
    (length es <= length (concat (map (producers_of s) snapshot)))%nat /\
    (es = [] <-> concat (map (producers_of s) snapshot) = []).
Proof.
  intros Hi. destruct (snapshot_loop_ok s snapshot [] Hi) as (es & E & [H1 H2 H3]). exists es. split; [done|].
  split; [split; [by apply H2, NoDup_nil|]|split; [cbn in H3; lia|]].
  2: { split; [|intros E0; rewrite E0 in H3; destruct es; [done|cbn in H3; lia]]. intros ->.
    destruct (concat (map (producers_of s) snapshot)) as [|x l] eqn:Ec; [done|]. exfalso.
    assert (Hx : x ∈ concat (map (producers_of s) snapshot)) by (rewrite Ec; left). rewrite list_elem_of_In, in_concat in Hx.
    destruct Hx as (l0 & Hl & Hin). apply in_map_iff in Hl as (b & <- & _).
    apply list_elem_of_In, (producers_of_elem s b _ Hi) in Hin as (_ & m & (_ & Hm & _) & _).
    apply (not_elem_of_nil (mk_entry x (m_generation m))), H1. right. split; [left|]. split; [by intros ? ?%not_elem_of_nil|by exists m]. }
  intros e. rewrite H1. split.
  - intros [?%not_elem_of_nil|(Hin & _ & m & Hm & Hg)]; [done|].
    rewrite list_elem_of_In, in_concat in Hin. destruct Hin as (l & Hl & Hin). apply in_map_iff in Hl as (b & <- & Hb).
    apply list_elem_of_In, (producers_of_elem s b _ Hi) in Hin as (Ha & m' & Hon & Hw).
    exists b, m. pose proof Hon as (_ & Hm' & _). rewrite Hm in Hm'. injection Hm' as <-. rewrite list_elem_of_In. by split_and!.
  - intros (b & m & Hb & Ha & Hon & Hw & Hg). right. pose proof Hon as (_ & Hm & _).
    split; [|split; [by intros ? ?%not_elem_of_nil|by exists m]].
    rewrite list_elem_of_In, in_concat. exists (producers_of s b). split; [apply in_map_iff; exists b; by rewrite <- list_elem_of_In|].
    rewrite <- list_elem_of_In. apply producers_of_elem; [done|]. split; [done|]. by exists m.
Qed.
End Snapshot.

(** ** Generations *)

(** A record never goes back to an earlier generation, and within one
    generation it is the same mark until it goes: it may become a write mark,
    nothing else. *)
Definition aged (m m' : mark) : Prop :=
  m_generation m <= m_generation m' /\
  (m_generation m' = m_generation m -> in_use m' = true ->
   in_use m = true /\ m_lower m' = m_lower m /\ m_owner m' = m_owner m /\ (m_write m = true -> m_write m' = true)).

Definition ages (s s' : marks) : Prop :=
  forall x m, mk_mem s !! x = Some m -> exists m', mk_mem s' !! x = Some m' /\ aged m m'.

Lemma aged_refl m : aged m m.
Proof. split; [lia|auto]. Qed.

Lemma ages_refl s : ages s s.
Proof. intros x m Hx. exists m. split; [done|apply aged_refl]. Qed.

Lemma ages_trans s1 s2 s3 : ages s1 s2 -> ages s2 s3 -> ages s1 s3.
Proof.
  intros H1 H2 x m Hx. destruct (H1 x m Hx) as (m' & Hx' & L1 & K1). destruct (H2 x m' Hx') as (m'' & Hx'' & L2 & K2).
  exists m''. split; [done|]. split; [lia|]. intros E Hu. destruct (K2 ltac:(lia) Hu) as (Hu' & ? & ? & ?).
  destruct (K1 ltac:(lia) Hu') as (? & ? & ? & ?). split_and!; [done|congruence|congruence|auto].
Qed.

Lemma ages_same_mem s s' : mk_mem s' = mk_mem s -> ages s s'.
Proof. intros E x m Hx. exists m. rewrite E. split; [done|apply aged_refl]. Qed.

(** Writing one record. *)
Lemma ages_insert s s' x m' :
  mk_mem s' = <[x := m']> (mk_mem s) -> (forall m, mk_mem s !! x = Some m -> aged m m') -> ages s s'.
Proof.
  intros E Ha y m Hy. rewrite E, lookup_insert. case_decide as Exy; [subst y; exists m'; split; [done|by apply Ha]|].
  exists m. split; [done|apply aged_refl].
Qed.

Section Ages.
Context (readonly : ptr -> bool).

Lemma set_pending_mem b p s : mk_mem (zasync_set_pending readonly b p s) = mk_mem s.
Proof. unfold zasync_set_pending. by repeat case_match. Qed.

Lemma mark_make_write_ages x s s' : mark_make_write readonly x s = Ret s' -> ages s s'.
Proof.
  unfold mark_make_write. intros (m & Hm & E)%bind_Ret_inv. apply deref_Ret in Hm. destruct (m_write m) eqn:Hw; [injection E as <-; apply ages_refl|].
  apply bind_Ret_inv in E as (w & _ & E). injection E as <-.
  eapply (ages_insert s _ x (written m)); [cbn; destruct w; rewrite ?set_pending_mem; done|].
  intros m0 Hm0. rewrite Hm in Hm0. injection Hm0 as <-. split; [cbn; lia|]. intros _ Hu. by split_and!.
Qed.

Lemma mark_add_ages b owner write fresh s s' :
  mk_mem s !! fresh = None -> mark_add readonly b owner write fresh s = Ret s' -> ages s s'.
Proof.
  intros Hf. unfold mark_add. set (s0 := mk_marks _ _ _ _ _ true). intros (r & _ & E)%bind_Ret_inv.
  set (s1 := match r with None => _ | Some _ => _ end) in E.
  assert (E1 : mk_mem s1 = mk_mem s) by (unfold s1; destruct r; rewrite ?set_pending_mem; done).
  apply bind_Ret_inv in E as ([[x gen] free] & Hr & E).
  destruct (gen =? UINT64_MAX); [done|]. injection E as <-. rewrite E1.
  eapply (ages_insert s _ x); [done|]. intros m Hm. unfold mark_record in Hr. rewrite E1 in Hr. destruct (mk_free s1) as [|y fr].
  - apply bind_Ret_inv in Hr as (z & Hz & Hr). injection Hr as <- <- <-. unfold alloc_or_die in Hz.
    destruct (fresh =? NULL); [done|]. injection Hz as <-. congruence.
  - apply bind_Ret_inv in Hr as (m0 & Hm0%deref_Ret & Hr). injection Hr as <- <- <-. rewrite Hm in Hm0. injection Hm0 as <-.
    split; cbn; [lia|]. intros ?. lia.
Qed.

Lemma mark_remove_ages x s s' : mark_remove readonly x s = Ret s' -> ages s s'.
Proof.
  unfold mark_remove. intros (m & Hm%deref_Ret & E)%bind_Ret_inv. apply bind_Ret_inv in E as (bk & _ & E).
  apply bind_Ret_inv in E as (ow & _ & E). apply bind_Ret_inv in E as (any & _ & E). apply bind_Ret_inv in E as (w & _ & E).
  injection E as <-. eapply (ages_insert s _ x).
  - cbn. unfold drop_flag. by destruct any, w, (m_write m); rewrite ?set_pending_mem.
  - intros m0 Hm0. rewrite Hm in Hm0. injection Hm0 as <-. split; [cbn; lia|]. by intros _ ?.
Qed.

Lemma remove_found_ages (r : option ptr) s s' :
  match r with Some x => mark_remove readonly x s | None => mret s end = Ret s' -> ages s s'.
Proof. destruct r; [apply mark_remove_ages|intros [= <-]; apply ages_refl]. Qed.

Lemma remove_marks_ages t n : forall s s', remove_marks readonly n t s = Ret s' -> ages s s'.
Proof.
  induction n as [|n IH]; intros s s'; cbn; destruct (task_marks s t) as [|x xs]; try done; try (intros [= <-]; apply ages_refl).
  intros (s1 & E1%mark_remove_ages & E)%bind_Ret_inv. eapply ages_trans; [exact E1|by apply IH].
Qed.

(** The address a marking operation may take for a new record. *)
Definition mk_op_fresh (op : mk_op) (s : marks) : Prop :=
  match op with
  | Mark_pending _ _ _ fresh => mk_mem s !! fresh = None
  | Mark_shared t b fresh | Mark_input t b fresh => f_addr b = NULL \/ t = NULL \/ mk_mem s !! fresh = None
  | _ => True
  end.

Lemma mk_op_ok_fresh op s : mk_op_ok op s -> mk_op_fresh op s.
Proof. unfold mk_op_ok, mk_op_fresh, fresh_ok. destruct op; tauto. Qed.

Lemma mk_exec_ages op s s' : mk_op_fresh op s -> mk_exec readonly op s = Ret s' -> ages s s'.
Proof.
  intros Hf. destruct op as [act t b fresh|t b fresh|t b fresh|b|t b|t]; cbn in *.
  - intros ([r s1] & E & E')%bind_Ret_inv. injection E' as ->. unfold mark_pending_turn in E.
    apply bind_Ret_inv in E as ([x|] & _ & E).
    + apply bind_Ret_inv in E as (m & _ & E). destruct (m_owner m =? NULL); [|injection E as _ <-; apply ages_refl].
      apply bind_Ret_inv in E as (s2 & E1 & E). injection E as _ <-. by eapply mark_remove_ages.
    + apply bind_Ret_inv in E as (own & _ & E). apply bind_Ret_inv in E as (s2 & E1 & E). injection E as _ <-.
      destruct own; [by eapply mark_make_write_ages|by eapply mark_add_ages].
  - unfold filc_async_mark_shared. destruct (Z.eqb_spec (f_addr b) NULL), (Z.eqb_spec t NULL); cbn; try (intros [= <-]; apply ages_refl).
    intros ([x|] & _ & E)%bind_Ret_inv; [by eapply mark_make_write_ages|]. eapply mark_add_ages; [|exact E]. tauto.
  - unfold filc_async_mark_input. destruct (Z.eqb_spec (f_addr b) NULL), (Z.eqb_spec t NULL); cbn; try (intros [= <-]; apply ages_refl).
    intros ([x|] & _ & E)%bind_Ret_inv; [injection E as <-; apply ages_refl|]. eapply mark_add_ages; [|exact E]. tauto.
  - unfold filc_async_mark_resolved. destruct (f_addr b =? NULL); [intros [= <-]; apply ages_refl|].
    intros (r & _ & E)%bind_Ret_inv. by eapply remove_found_ages.
  - unfold filc_async_resolve_buffer. destruct (f_addr b =? NULL); [intros [= <-]; apply ages_refl|].
    intros (r & _ & E)%bind_Ret_inv. by eapply remove_found_ages.
  - apply remove_marks_ages.
Qed.
End Ages.

(** ** Entries *)

Definition entry_pending (s : marks) (e : join_entry) : bool :=
  match mk_mem s !! e_mark e with Some m => in_use m && (m_generation m =? e_generation e) | None => false end.
Definition known (s : marks) (e : join_entry) : Prop := is_Some (mk_mem s !! e_mark e).

Lemma join_entry_pending_ok s e : known s e -> join_entry_pending e s = Ret (entry_pending s e).
Proof. unfold join_entry_pending, entry_pending. by intros [m ->]. Qed.

Lemma known_ages s s' e : ages s s' -> known s e -> known s' e.
Proof. intros Ha [m Hm]. destruct (Ha _ _ Hm) as (m' & ? & _). by exists m'. Qed.

(** Only the first generation a record has can be an entry's. *)
Definition entry_made (s : marks) (e : join_entry) : Prop :=
  exists m, mk_mem s !! e_mark e = Some m /\ e_generation e <= m_generation m.

Lemma entry_made_ages s s' e : ages s s' -> entry_made s e -> entry_made s' e.
Proof. intros Ha (m & Hm & Hg). destruct (Ha _ _ Hm) as (m' & ? & ? & _). exists m'. split; [done|lia]. Qed.

Lemma entry_made_known s e : entry_made s e -> known s e.
Proof. intros (m & ? & _). by exists m. Qed.

(** A mark that is gone does not come back. *)
Lemma gone_ages s s' e :
  ages s s' -> entry_made s e -> entry_pending s e = false -> entry_pending s' e = false.
Proof.
  intros Ha (m & Hm & Hg) Hp. unfold entry_pending in *. destruct (Ha _ _ Hm) as (m' & -> & Hl & Hk). rewrite Hm in Hp.
  destruct (in_use m') eqn:Eu; [|done]. destruct (Z.eqb_spec (m_generation m') (e_generation e)) as [E|]; [|done].
  destruct (Hk ltac:(lia) eq_refl) as (Hu & _). rewrite Hu in Hp. cbn in Hp. destruct (Z.eqb_spec (m_generation m) (e_generation e)); [done|lia].
Qed.

(** A mark still pending is the one listed. *)
Lemma still_ages s s' e m :
  ages s s' -> mk_mem s !! e_mark e = Some m -> m_generation m = e_generation e -> entry_pending s' e = true ->
  exists m', mk_mem s' !! e_mark e = Some m' /\ in_use m' = true /\ m_generation m' = e_generation e /\
    m_lower m' = m_lower m /\ m_owner m' = m_owner m /\ (m_write m = true -> m_write m' = true).
Proof.
  intros Ha Hm Hg Hp. unfold entry_pending in Hp. destruct (Ha _ _ Hm) as (m' & Hm' & Hl & Hk). rewrite Hm' in Hp.
  apply andb_prop in Hp as [Hu Ep%Z.eqb_eq]. destruct (Hk ltac:(lia) Hu) as (_ & ? & ? & ?). exists m'. by split_and!.
Qed.

Lemma any_pending_ok s es :
  Forall (known s) es -> any_pending es s = Ret (existsb (entry_pending s) es).
Proof.
  induction 1 as [|e es He _ IH]; cbn; [done|]. rewrite (join_entry_pending_ok s e He). cbn.
  destruct (entry_pending s e); [done|]. by rewrite IH.
Qed.

Lemma existsb_pending s es : existsb (entry_pending s) es = false <-> Forall (fun e => entry_pending s e = false) es.
Proof.
  rewrite Forall_forall. split.
  - intros H e He. destruct (entry_pending s e) eqn:E; [|done].
    assert (existsb (entry_pending s) es = true) by (apply existsb_exists; exists e; by rewrite <- list_elem_of_In). congruence.
  - intros H. destruct (existsb _ es) eqn:E; [|done]. apply existsb_exists in E as (e & He%list_elem_of_In & Hp). by rewrite H in Hp.
Qed.

Section Live.
Context (readonly : ptr -> bool).

(** A record in use is a mark in force. *)
Lemma in_use_live s x m : marks_inv readonly s -> mk_mem s !! x = Some m -> in_use m = true <-> x ∈ mark_live s.
Proof.
  intros Hi Hm. unfold in_use. split.
  - intros Hu. unfold mark_live. apply elem_of_difference. split; [by apply elem_of_dom|].
    intros Hf%elem_of_list_to_set. destruct (proj2 (mi_free _ _ Hi) x Hf) as (m' & Hm' & E). rewrite Hm in Hm'. injection Hm' as <-.
    by rewrite E in Hu.
  - intros Hl. destruct (mi_mark _ _ Hi _ _ _ (mark_on_live s x m Hl Hm)) as (Ha & _). by destruct (Z.eqb_spec (f_addr (m_buf m)) NULL).
Qed.
End Live.
