(* ===== verification/Meta.v ===== *)
(** * Meta: the descriptors of annotated functions and their startup check

    [filc_async_meta], [dependencies_ok] and [filc_async_validate_table] of
    [framework/filc_async.c].  A runtime's [validate] and a validator the
    program installs are functions of the model's user. *)

From S2P Require Import Prelude Locks.
Open Scope Z_scope.

Definition FILC_ASYNC_DEP_NONE : Z := 0.
Definition FILC_ASYNC_DEP_NAMESPACE_SHIFT : Z := 8.
Definition FILC_ASYNC_DEP_NAMESPACE_MASK : Z := 0x00FFFFFF.

Record meta_arg := mk_meta_arg { ma_kind : Z; ma_dependency : Z }.

Record meta := mk_meta {
  me_name : string;
  me_nargs : Z;
  me_noped_args : Z;
  me_flags : Z;
  me_result : Z;
  me_runtime : ptr;        (* NULL when the annotation names none *)
  me_args : list meta_arg;
  me_opts : option (list string);   (* NULL, or the options up to the NULL that ends them *)
}.

(** The kinds of the arguments. *)
Definition FILC_ASYNC_ARG_IGNORED : Z := 0.
Definition FILC_ASYNC_ARG_BUFFER_IN : Z := 2.
Definition FILC_ASYNC_ARG_BUFFER_OUT : Z := 3.
Definition FILC_ASYNC_ARG_PENDING : Z := 5.

(** How far a runtime's poll may go for a task still running. *)
Inductive filc_async_poll_mode := FILC_ASYNC_POLL_CHECK | FILC_ASYNC_POLL_PROGRESS | FILC_ASYNC_POLL_BLOCK.

(** The check of one argument. *)
Definition dependency_ok (dep : Z) : bool :=
  let mode := Z.land dep (Z.lor FILC_ASYNC_DEP_READ FILC_ASYNC_DEP_WRITE) in
  if mode =? Z.lor FILC_ASYNC_DEP_READ FILC_ASYNC_DEP_WRITE then false
  else if negb (Z.land dep (u32 (Z.lnot
            (Z.lor (Z.lor (Z.lor FILC_ASYNC_DEP_POINTER FILC_ASYNC_DEP_READ) FILC_ASYNC_DEP_WRITE)
               (u32 (Z.shiftl FILC_ASYNC_DEP_NAMESPACE_MASK FILC_ASYNC_DEP_NAMESPACE_SHIFT))))) =? 0) then false
  else negb ((mode =? FILC_ASYNC_DEP_NONE) && negb (dep =? FILC_ASYNC_DEP_NONE)).

(** The loop over [args], [n] of them from the [i]-th on: an index past the
    array is a trap. *)
Fixpoint dependencies_from (n : nat) (i : nat) (args : list meta_arg) : outcome bool :=
  match n with
  | O => mret true
  | S n => a ← deref (args !! i);
           if dependency_ok (ma_dependency a) then dependencies_from n (S i) args else mret false
  end.

Definition dependencies_ok (m : meta) : outcome bool :=
  if me_nargs m <? me_noped_args m then mret false
  else dependencies_from (Z.to_nat (me_nargs m)) 0 (me_args m).

Section Validate.
  Context (validator : option (meta -> bool)).      (* [g_validator] *)
  Context (runtime_validate : ptr -> meta -> bool).  (* [runtime->validate] *)

(** The table is a list of descriptors ended by NULL. *)
Fixpoint filc_async_validate_table (metas : list meta) : outcome unit :=
  match metas with
  | [] => mret tt
  | m :: metas =>
      if me_runtime m =? NULL then Fatal "function names no runtime"
      else
        let ok := match validator with Some v => v m | None => runtime_validate (me_runtime m) m end in
        deps ← dependencies_ok m;
        if negb deps || negb ok then Fatal "function cannot be registered on this runtime"
        else filc_async_validate_table metas
  end.
End Validate.

(** ** The encoding of a dependency *)

(** A dependency says nothing, or reads or writes a value of a space, by
    object identity or by number. *)
Inductive dependency :=
  | No_dep
  | Dep (write pointer : bool) (namespace : Z).

Definition dep_encode (d : dependency) : Z :=
  match d with
  | No_dep => 0
  | Dep write pointer namespace =>
      (if write then FILC_ASYNC_DEP_WRITE else FILC_ASYNC_DEP_READ) +
      (if pointer then FILC_ASYNC_DEP_POINTER else 0) + 2 ^ FILC_ASYNC_DEP_NAMESPACE_SHIFT * namespace
  end.

Definition dep_wf (d : dependency) : Prop :=
  match d with No_dep => True | Dep _ _ namespace => 0 <= namespace <= FILC_ASYNC_DEP_NAMESPACE_MASK end.

Lemma dep_mode_mod dep : Z.land dep (Z.lor FILC_ASYNC_DEP_READ FILC_ASYNC_DEP_WRITE) = dep mod 4.
Proof. change (Z.lor _ _) with (Z.ones 2). by rewrite Z.land_ones. Qed.

Lemma dep_rest_mod dep :
  Z.land dep (u32 (Z.lnot
            (Z.lor (Z.lor (Z.lor FILC_ASYNC_DEP_POINTER FILC_ASYNC_DEP_READ) FILC_ASYNC_DEP_WRITE)
               (u32 (Z.shiftl FILC_ASYNC_DEP_NAMESPACE_MASK FILC_ASYNC_DEP_NAMESPACE_SHIFT)))))
  = 8 * ((dep / 8) mod 32).
Proof.
  change (u32 (Z.lnot _)) with (Z.shiftl (Z.ones 5) 3).
  replace (Z.land dep (Z.shiftl (Z.ones 5) 3)) with (Z.shiftl (Z.land (Z.shiftr dep 3) (Z.ones 5)) 3).
  - rewrite Z.land_ones, Z.shiftl_mul_pow2, Z.shiftr_div_pow2 by lia.
    change (2 ^ 3) with 8. change (2 ^ 5) with 32. lia.
  - apply Z.bits_inj'. intros n Hn. rewrite Z.land_spec.
    destruct (Z.lt_ge_cases n 3).
    + rewrite !Z.shiftl_spec_low by done. by rewrite andb_false_r.
    + rewrite !Z.shiftl_spec_high by lia. rewrite Z.land_spec, Z.shiftr_spec by lia.
      by replace (n - 3 + 3) with n by lia.
Qed.

Lemma dependency_ok_iff dep :
  0 <= dep < 2 ^ 32 ->
  dependency_ok dep = true <-> dep = 0 \/ (dep mod 4 = 1 \/ dep mod 4 = 2) /\ (dep / 8) mod 32 = 0.
Proof.
  intros Hd. unfold dependency_ok. rewrite dep_mode_mod, dep_rest_mod.
  change (Z.lor FILC_ASYNC_DEP_READ FILC_ASYNC_DEP_WRITE) with 3. unfold FILC_ASYNC_DEP_NONE.
  destruct (Z.eq_dec dep 0) as [->|Hn]; [cbn; tauto|].
  destruct (Z.eqb_spec dep 0); [done|].
  pose proof (Z.mod_pos_bound dep 4 ltac:(lia)) as H4. pose proof (Z.mod_pos_bound (dep / 8) 32 ltac:(lia)) as H32.
  set (x := dep mod 4) in *. set (y := (dep / 8) mod 32) in *. clearbody x y.
  destruct (Z.eqb_spec x 3), (Z.eqb_spec (8 * y) 0), (Z.eqb_spec x 0); cbn; split; intros H; try discriminate; lia.
Qed.

Lemma dep_encode_ok d : dep_wf d -> 0 <= dep_encode d < 2 ^ 32 /\ dependency_ok (dep_encode d) = true.
Proof.
  intros Hwf. destruct d as [|w p ns]; [done|]. cbn in Hwf. unfold dep_encode.
  unfold FILC_ASYNC_DEP_NAMESPACE_MASK, FILC_ASYNC_DEP_READ, FILC_ASYNC_DEP_WRITE, FILC_ASYNC_DEP_POINTER in *.
  change (2 ^ FILC_ASYNC_DEP_NAMESPACE_SHIFT) with 256.
  set (low := (if w then 2 else 1) + (if p then 4 else 0)). change (_ + _ + 256 * ns) with (low + 256 * ns).
  assert (Hlow : 0 <= low < 8 /\ (low mod 4 = 1 \/ low mod 4 = 2)) by (unfold low; clear; destruct w, p; vm_compute; intuition discriminate).
  assert (Hr : 0 <= low + 256 * ns < 2 ^ 32) by lia. split; [exact Hr|]. apply (dependency_ok_iff _ Hr). right.
  replace (low + 256 * ns) with (low + (64 * ns) * 4) by lia. rewrite Z.mod_add by lia.
  replace (low + 64 * ns * 4) with (low + (32 * ns) * 8) by lia. rewrite Z.div_add by lia.
  rewrite (Z.div_small low 8) by lia.
  rewrite Z.add_0_l, (Z.mul_comm 32), Z.mod_mul by lia. tauto.
Qed.

(** The startup check of dependency words.  Of all 32-bit words the
    check lets through exactly the encodings of a dependency: nothing, or one
    of read and write, the pointer bit, and a 24-bit namespace, with every
    other bit clear. *)
Theorem dependency_ok_encodings (dep : Z) :
  0 <= dep < 2 ^ 32 -> dependency_ok dep = true <-> exists d, dep_wf d /\ dep = dep_encode d.
Proof.
  intros Hd. rewrite dependency_ok_iff by done. split.
  - intros [->|[Hm Hr]]; [by exists No_dep|].
    exists (Dep (bool_decide (dep mod 4 = 2)) (bool_decide ((dep / 4) mod 2 = 1)) (dep / 256)).
    assert (Hdec : dep = dep mod 4 + 4 * ((dep / 4) mod 2) + 8 * ((dep / 8) mod 32) + 256 * (dep / 256)).
    { clear -Hd. assert (dep / 8 = dep / 4 / 2) by (by rewrite Z.div_div).
      assert (dep / 256 = dep / 8 / 32) by (by rewrite Z.div_div).
      pose proof (Z.div_mod dep 4 ltac:(lia)). pose proof (Z.div_mod (dep / 4) 2 ltac:(lia)).
      pose proof (Z.div_mod (dep / 8) 32 ltac:(lia)). lia. }
    cbn. unfold FILC_ASYNC_DEP_NAMESPACE_MASK, FILC_ASYNC_DEP_READ, FILC_ASYNC_DEP_WRITE, FILC_ASYNC_DEP_POINTER. split.
    + split; [apply Z.div_pos; lia|]. apply Z.lt_succ_r, Z.div_lt_upper_bound; lia.
    + pose proof (Z.mod_pos_bound (dep / 4) 2 ltac:(lia)). change (2 ^ FILC_ASYNC_DEP_NAMESPACE_SHIFT) with 256.
      repeat case_bool_decide; lia.
  - intros (d & Hwf & ->). by apply dependency_ok_iff, dep_encode_ok.
Qed.

Lemma dependencies_from_spec n i args :
  (i + n <= length args)%nat ->
  exists r, dependencies_from n i args = Ret r /\
    (r = true <-> forall j a, (i <= j < i + n)%nat -> args !! j = Some a -> dependency_ok (ma_dependency a) = true).
Proof.
  revert i. induction n as [|n IH]; intros i Hn; cbn.
  - exists true. split; [done|]. split; [|done]. intros _ j a Hj. lia.
  - destruct (lookup_lt_is_Some_2 args i ltac:(lia)) as [a Ha]. rewrite Ha. cbn.
    destruct (dependency_ok (ma_dependency a)) eqn:E.
    + destruct (IH (S i) ltac:(lia)) as (r & -> & Hr). exists r. split; [done|]. rewrite Hr. split.
      * intros H j b Hj Hb. destruct (decide (j = i)) as [->|]; [congruence|]. apply (H j); [lia|done].
      * intros H j b Hj. apply H. lia.
    + exists false. split; [done|]. split; [done|]. intros H. by rewrite (H i a ltac:(lia) Ha) in E.
Qed.

(** A descriptor as the compiler lays it out. *)
Definition meta_wf (m : meta) : Prop := Z.of_nat (length (me_args m)) = me_nargs m.

(** What a program must give for every annotated function. *)
Definition registrable (validator : option (meta -> bool)) (runtime_validate : ptr -> meta -> bool) (m : meta) : Prop :=
  me_runtime m <> NULL /\ me_noped_args m <= me_nargs m /\
  Forall (fun a => dependency_ok (ma_dependency a) = true) (me_args m) /\
  match validator with Some v => v m | None => runtime_validate (me_runtime m) m end = true.

(** The startup check.  A program starts exactly when every annotated
    function names a runtime, has well-formed dependencies and no more noped
    arguments than arguments, and is accepted by the installed validator or,
    when there is none, by its own runtime; otherwise the check reports a
    fatal error (it never traps). *)
Theorem validate_table_spec (validator : option (meta -> bool)) (runtime_validate : ptr -> meta -> bool) (metas : list meta) :
  Forall meta_wf metas ->
  (filc_async_validate_table validator runtime_validate metas = Ret tt <->
     Forall (registrable validator runtime_validate) metas) /\
  (filc_async_validate_table validator runtime_validate metas = Ret tt \/
     exists msg, filc_async_validate_table validator runtime_validate metas = Fatal msg).
Proof.
  assert (Hdeps : forall m, meta_wf m -> exists r, dependencies_ok m = Ret r /\
    (r = true <-> me_noped_args m <= me_nargs m /\ Forall (fun a => dependency_ok (ma_dependency a) = true) (me_args m))).
  { intros m Hwf. unfold dependencies_ok. destruct (Z.ltb_spec (me_nargs m) (me_noped_args m)).
    - exists false. split; [done|]. split; [done|lia].
    - destruct (dependencies_from_spec (Z.to_nat (me_nargs m)) 0 (me_args m)) as (r & -> & Hr); [unfold meta_wf in Hwf; lia|].
      exists r. split; [done|]. rewrite Hr, Forall_lookup. split.
      + intros H0. split; [lia|]. intros j a Ha. apply (H0 j); [|done]. apply lookup_lt_Some in Ha. unfold meta_wf in Hwf. lia.
      + intros [_ H0] j a _. apply H0. }
  induction 1 as [|m metas Hm _ IH]; cbn; [split; [by split|by left]|].
  destruct (Z.eqb_spec (me_runtime m) NULL) as [E|E].
  { split; [|right; by eexists]. split; [done|]. intros [(? & _) _]%Forall_cons. done. }
  destruct (Hdeps m Hm) as (r & -> & Hr). cbn. set (ok := match validator with Some v => v m | None => _ end).
  assert (Hreg : registrable validator runtime_validate m <-> r = true /\ ok = true)
    by (unfold registrable; fold ok; tauto).
  rewrite Forall_cons, Hreg. destruct r, ok; cbn; try (split; [split; [done|naive_solver]|right; by eexists]).
  split; [|apply IH]. rewrite (proj1 IH). tauto.
Qed.

(** ** Concrete descriptors *)

Definition meta_read : meta :=
  mk_meta "read" 2 1 0 0 4096 [mk_meta_arg 1 (dep_encode (Dep false false 77)); mk_meta_arg 3 0] None.

Lemma dependency_ok_encodings_witness : exists d, dep_wf d /\ 19717 = dep_encode d.
Proof. apply (dependency_ok_encodings 19717); [lia|]. vm_compute. reflexivity. Defined.

Lemma validate_table_spec_witness : Forall (registrable None (fun _ _ => true)) [meta_read].
Proof.
  apply (validate_table_spec None (fun _ _ => true) [meta_read]).
  - constructor; [vm_compute; reflexivity|constructor].
  - vm_compute. reflexivity.
Defined.
