(* ===== verification/Framework.v ===== *)
(** * Framework: tasks, their completion, and the calls that wait

    The tasks of [framework/filc_async.c] over the components of the files
    Handles, RunList, Locks and Marks.  [fw] is the state [g_lock] guards.
    [fw_op] are the critical sections: what a thread does between taking the
    lock and giving it up.  The calls that wait give the lock up inside their
    loops; a [round] says what the other threads and the polled runtime do
    meanwhile, as a list of critical sections, so a loop is a function of the
    rounds to come, and [NoFuel] when they end before it does. *)

From S2P Require Import Prelude Buckets Handles RunList Locks Marks Joins Meta.
Open Scope Z_scope.

Record task := mk_task {
  t_meta : option meta;      (* None for a task a runtime starts itself *)
  t_runtime : ptr;
  t_staged_args : ptr;
  t_state : Z;               (* 0 done, 1 running, 2 failed *)
  t_result : Z;
}.

Record fw := mk_fw {
  f_tasks : gmap ptr task;
  f_running : runlist;
  f_handles : handles;
  f_locks : locks;
  f_marks : marks;
  f_staged : gmap ptr (list Z);   (* the cells of the staged arguments *)
  g_submitted : Z;
  g_completed : Z;
  g_failed : Z;
  g_pending_resolves : Z;
  g_lock_waits : Z;
  g_hook_resolves : Z;
  f_joins : gmap ptr (list join_entry);   (* the [runtime_data] of the wait_all tasks *)
}.

Definition fw_init : fw :=
  mk_fw ∅ runlist_init handles_init locks_init marks_init ∅ 0 0 0 0 0 0 ∅.

Definition set_tasks (m : gmap ptr task) (s : fw) : fw :=
  mk_fw m (f_running s) (f_handles s) (f_locks s) (f_marks s) (f_staged s) (g_submitted s)
    (g_completed s) (g_failed s) (g_pending_resolves s) (g_lock_waits s) (g_hook_resolves s) (f_joins s).
Definition set_running (r : runlist) (s : fw) : fw :=
  mk_fw (f_tasks s) r (f_handles s) (f_locks s) (f_marks s) (f_staged s) (g_submitted s)
    (g_completed s) (g_failed s) (g_pending_resolves s) (g_lock_waits s) (g_hook_resolves s) (f_joins s).
Definition set_handles (h : handles) (s : fw) : fw :=
  mk_fw (f_tasks s) (f_running s) h (f_locks s) (f_marks s) (f_staged s) (g_submitted s)
    (g_completed s) (g_failed s) (g_pending_resolves s) (g_lock_waits s) (g_hook_resolves s) (f_joins s).
Definition set_locks (l : locks) (s : fw) : fw :=
  mk_fw (f_tasks s) (f_running s) (f_handles s) l (f_marks s) (f_staged s) (g_submitted s)
    (g_completed s) (g_failed s) (g_pending_resolves s) (g_lock_waits s) (g_hook_resolves s) (f_joins s).
Definition set_marks (k : marks) (s : fw) : fw :=
  mk_fw (f_tasks s) (f_running s) (f_handles s) (f_locks s) k (f_staged s) (g_submitted s)
    (g_completed s) (g_failed s) (g_pending_resolves s) (g_lock_waits s) (g_hook_resolves s) (f_joins s).
Definition set_staged (m : gmap ptr (list Z)) (s : fw) : fw :=
  mk_fw (f_tasks s) (f_running s) (f_handles s) (f_locks s) (f_marks s) m (g_submitted s)
    (g_completed s) (g_failed s) (g_pending_resolves s) (g_lock_waits s) (g_hook_resolves s) (f_joins s).
Definition set_task_counts (submitted completed failed : Z) (s : fw) : fw :=
  mk_fw (f_tasks s) (f_running s) (f_handles s) (f_locks s) (f_marks s) (f_staged s) submitted
    completed failed (g_pending_resolves s) (g_lock_waits s) (g_hook_resolves s) (f_joins s).
Definition set_wait_counts (resolves waits hooks : Z) (s : fw) : fw :=
  mk_fw (f_tasks s) (f_running s) (f_handles s) (f_locks s) (f_marks s) (f_staged s)
    (g_submitted s) (g_completed s) (g_failed s) resolves waits hooks (f_joins s).

Definition set_joins (m : gmap ptr (list join_entry)) (s : fw) : fw :=
  mk_fw (f_tasks s) (f_running s) (f_handles s) (f_locks s) (f_marks s) (f_staged s) (g_submitted s)
    (g_completed s) (g_failed s) (g_pending_resolves s) (g_lock_waits s) (g_hook_resolves s) m.

Inductive counter := Pending_resolves | Lock_waits | Hook_resolves.

Definition count (c : counter) (s : fw) : fw :=
  match c with
  | Pending_resolves => set_wait_counts (u64 (g_pending_resolves s + 1)) (g_lock_waits s) (g_hook_resolves s) s
  | Lock_waits => set_wait_counts (g_pending_resolves s) (u64 (g_lock_waits s + 1)) (g_hook_resolves s) s
  | Hook_resolves => set_wait_counts (g_pending_resolves s) (g_lock_waits s) (u64 (g_hook_resolves s + 1)) s
  end.

(** ** Starting and completing tasks *)

(** [task_start]; [fresh] and [fresh_table] are the allocator's answers. *)
Definition task_start (rt : ptr) (m : option meta) (staged_args fresh fresh_table : ptr) (s : fw)
  : outcome (ptr * fw) :=
  if rt =? NULL then Fatal "a task has no runtime"
  else
    t ← alloc_or_die fresh;
    let s := set_tasks (<[t := mk_task m rt staged_args 1 0]> (f_tasks s)) s in
    r ← running_add t (f_running s);
    h ← handle_add fresh_table t (f_handles s);
    let s := set_handles h (set_running r s) in
    mret (t, match m with
             | Some _ => set_task_counts (u64 (g_submitted s + 1)) (g_completed s) (g_failed s) s
             | None => s
             end).

Definition filc_async_begin (m : option meta) (staged_args fresh fresh_table : ptr) (s : fw) : outcome (ptr * fw) :=
  match m with
  | None => Fatal "filc_async_begin: no descriptor"
  | Some me => task_start (me_runtime me) m staged_args fresh fresh_table s
  end.

Definition filc_async_task_new (rt fresh fresh_table : ptr) (s : fw) : outcome (ptr * fw) :=
  task_start rt None NULL fresh fresh_table s.

(** [memset(staged_args, 0, nargs * 16)]: clears the first [n] cells. *)
Definition clear_cells (n : nat) (cells : list Z) : list Z := replicate (min n (length cells)) 0 ++ drop n cells.

Section Fw.
  Context (readonly : ptr -> bool).

Definition filc_async_complete (t : ptr) (result : Z) (s : fw) : outcome fw :=
  if t =? NULL then mret s
  else
    tk ← deref (f_tasks s !! t);
    if negb (t_state tk =? 1) then mret s
    else
      let cleared := match t_meta tk with
                     | Some m => if t_staged_args tk =? NULL then None else Some (me_nargs m)
                     | None => None
                     end in
      let tk' := mk_task (t_meta tk) (t_runtime tk)
                   (match cleared with Some _ => NULL | None => t_staged_args tk end)
                   (if result <? 0 then 2 else 0) result in
      let s := set_tasks (<[t := tk']> (f_tasks s)) s in
      let s := match t_meta tk with
               | Some _ => set_task_counts (g_submitted s) (u64 (g_completed s + 1))
                             (if result <? 0 then u64 (g_failed s + 1) else g_failed s) s
               | None => s
               end in
      k ← remove_marks readonly (length (task_marks (f_marks s) t)) t (f_marks s);
      l ← locks_release t (f_locks s);
      r ← running_remove t (f_running s);
      let s := set_running r (set_locks l (set_marks k s)) in
      mret (match cleared with
            | Some nargs => set_staged (alter (clear_cells (Z.to_nat nargs)) (t_staged_args tk) (f_staged s)) s
            | None => s
            end).

(** [struct filc_async_result_s] without its handle. *)
Record result_s := mk_result { r_result : Z; r_state : Z }.

Definition result_fill (tk : task) : result_s := mk_result (t_result tk) (t_state tk).

(** The second half of [filc_async_poll]: fill the result, retire a finished
    task. *)
Definition poll_deliver (t : ptr) (s : fw) : outcome (bool * result_s * fw) :=
  tk ← deref (f_tasks s !! t);
  if t_state tk =? 1 then mret (false, result_fill tk, s)
  else h ← retire_task t (t_state tk) (f_handles s);
       mret (true, result_fill tk, set_handles h s).

(** The end of [filc_async_wait]. *)
Definition wait_deliver (t : ptr) (s : fw) : outcome (result_s * fw) :=
  tk ← deref (f_tasks s !! t);
  h ← retire_task t (t_state tk) (f_handles s);
  mret (result_fill tk, set_handles h s).

(** ** wait_all *)

Definition gc_alloc_or_die (fresh : ptr) : outcome ptr := if fresh =? NULL then Fatal "out of memory" else Ret fresh.

(** What [filc_async_wait_all] does under [g_lock], for the objects of
    [snapshot]; [rt] is [g_join_runtime], and [state], [fresh] and
    [fresh_mark] are the allocators' answers.  The entries have room for
    [capacity] of them. *)
Definition join_start (rt : ptr) (snapshot : list fptr) (token : fptr) (state fresh fresh_mark : ptr) (s : fw) : outcome fw :=
  capacity ← capacity_loop snapshot 0 (f_marks s);
  if capacity =? 0 then mret s
  else
    _ ← gc_alloc_or_die state;
    entries ← snapshot_loop snapshot [] (f_marks s);
    if capacity <? Z.of_nat (length entries) then Trap
    else
      t ← gc_alloc_or_die fresh;
      k ← mark_add readonly token t true fresh_mark (f_marks s);
      r ← running_add t (f_running s);
      mret (set_running r (set_marks k (set_joins (<[t := entries]> (f_joins s))
              (set_tasks (<[t := mk_task None rt NULL 1 0]> (f_tasks s)) s)))).

(** ** The critical sections *)

Inductive fw_op :=
  | Start (rt : ptr) (m : option meta) (staged_args fresh fresh_table : ptr)
  | Complete (t : ptr) (result : Z)
  | Lock_op (op : lk_op)
  | Mark_op (op : mk_op)
  | Deliver (t : ptr)
  | Count (c : counter)
  | Wait_all (rt : ptr) (snapshot : list fptr) (token : fptr) (state fresh fresh_mark : ptr)
  | Clear_join (t : ptr).

Definition fw_exec (op : fw_op) (s : fw) : outcome fw :=
  match op with
  | Start rt m staged_args fresh fresh_table =>
      '(_, s) ← task_start rt m staged_args fresh fresh_table s; mret s
  | Complete t result => filc_async_complete t result s
  | Lock_op op => l ← lk_exec op (f_locks s); mret (set_locks l s)
  | Mark_op op => k ← mk_exec readonly op (f_marks s); mret (set_marks k s)
  | Deliver t => '(_, _, s) ← poll_deliver t s; mret s
  | Count c => mret (count c s)
  | Wait_all rt snapshot token state fresh fresh_mark => join_start rt snapshot token state fresh fresh_mark s
  | Clear_join t => mret (set_joins (delete t (f_joins s)) s)
  end.

Definition fw_execs : list fw_op -> fw -> outcome fw := execs fw_exec.

(** ** Waiting *)

(** While [g_lock] is given up once: what happens during the poll of a
    runtime, whether the poll says the task is done, and what happens while
    [wait_changed] sleeps if it is called. *)
Record round := mk_round { during_poll : list fw_op; poll_done : bool; during_wait : list fw_op }.

Definition task_state (s : fw) (t : ptr) : outcome Z := tk ← deref (f_tasks s !! t); mret (t_state tk).

Definition wait_changed (sched : list round) (s : fw) : outcome (fw * list round) :=
  match sched with
  | [] => NoFuel
  | r :: sched => s ← fw_execs (during_wait r) s; mret (s, sched)
  end.

(** One round of the loop of [wait_for]: unlock, poll, lock, and wait for a
    change if the poll says no and the task still runs. *)
Definition wait_round (t : ptr) (r : round) (s : fw) : outcome fw :=
  s ← fw_execs (during_poll r) s;
  st ← task_state s t;
  if negb (poll_done r) && (st =? 1) then fw_execs (during_wait r) s else mret s.

Fixpoint wait_for (sched : list round) (t : ptr) (s : fw) : outcome (fw * list round) :=
  st ← task_state s t;
  if negb (st =? 1) then mret (s, sched)
  else
    match sched with
    | [] => NoFuel
    | r :: sched => s ← wait_round t r s; wait_for sched t s
    end.

(** [lock_take] after the request is queued: its loop, then the grant.
    [waited]: the wait has been counted. *)
Fixpoint lock_loop (fuel : nat) (sched : list round) (h : ptr) (waited : bool) (s : fw)
  : outcome (fw * list round) :=
  '(holder, queued_behind) ← lock_blocked h (f_locks s);
  if (holder =? NULL) && negb queued_behind
  then l ← lock_grant h (f_locks s); mret (set_locks l s, sched)
  else
    match fuel with
    | O => NoFuel
    | S fuel =>
        let s := if waited then s else count Lock_waits s in
        '(s, sched) ← (if holder =? NULL then wait_changed sched s else wait_for sched holder s);
        lock_loop fuel sched h true s
    end.

Definition lock_take (fuel : nat) (sched : list round) (t : ptr) (value space mode : Z)
  (fresh_lock fresh_hold : ptr) (s : fw) : outcome (fw * list round) :=
  '(h, l) ← lock_enqueue t value space mode fresh_lock fresh_hold (f_locks s);
  lock_loop fuel sched h false (set_locks l s).

Definition filc_async_lock_word fuel sched (t : ptr) (value space mode : Z) fresh_lock fresh_hold (s : fw) :=
  lock_take fuel sched t value (word_space space) mode fresh_lock fresh_hold s.

Definition filc_async_lock_ptr fuel sched (t : ptr) (p : fptr) (space mode : Z) fresh_lock fresh_hold (s : fw) :=
  lock_take fuel sched t (if f_addr p =? NULL then NULL else f_lower p) (ptr_space space) mode
    fresh_lock fresh_hold s.

(** [filc_async_mark_pending]; [act]: the calls active on this thread. *)
Fixpoint mark_pending_loop (fuel : nat) (sched : list round) (act : list ptr) (t : ptr) (b : fptr)
  (fresh : ptr) (s : fw) : outcome (fw * list round) :=
  '(turn, k) ← mark_pending_turn readonly act t b fresh (f_marks s);
  let s := set_marks k s in
  match turn with
  | Marked => mret (s, sched)
  | _ =>
      match fuel with
      | O => NoFuel
      | S fuel =>
          '(s, sched) ← match turn with
                        | Wait_for owner => wait_for sched owner s
                        | _ => mret (s, sched)
                        end;
          mark_pending_loop fuel sched act t b fresh (count Pending_resolves s)
      end
  end.

Definition filc_async_mark_pending fuel sched act (t : ptr) (b : fptr) (fresh : ptr) (s : fw)
  : outcome (fw * list round) :=
  if f_addr b =? NULL then mret (s, sched) else mark_pending_loop fuel sched act t b fresh s.

Fixpoint wait_buffer_locked (fuel : nat) (sched : list round) (task running_body : ptr) (b : fptr) (s : fw)
  : outcome (fw * list round) :=
  owner ← buffer_owner task running_body b (f_marks s);
  if owner =? NULL then mret (s, sched)
  else match fuel with
       | O => NoFuel
       | S fuel => '(s, sched) ← wait_for sched owner s;
                   wait_buffer_locked fuel sched task running_body b s
       end.

Definition filc_async_wait_buffer fuel sched (task running_body : ptr) (b : fptr) (s : fw) :=
  if f_addr b =? NULL then mret (s, sched) else wait_buffer_locked fuel sched task running_body b s.

Fixpoint wait_access_loop (fuel : nat) (sched : list round) (act : list ptr) (own : bool) (b : fptr) (s : fw)
  : outcome (fw * list round) :=
  owner ← access_owner act own b (f_marks s);
  if owner =? NULL then mret (s, sched)
  else match fuel with
       | O => NoFuel
       | S fuel => '(s, sched) ← wait_for sched owner s;
                   wait_access_loop fuel sched act own b s
       end.

Definition wait_access_locked fuel sched (act : list ptr) (b : fptr) (s : fw) : outcome (fw * list round) :=
  own ← access_own act b (f_marks s);
  wait_access_loop fuel sched act own b s.

Definition resolve_access fuel sched (act : list ptr) (b : fptr) (s : fw) :=
  wait_access_locked fuel sched act b (count Hook_resolves s).

Definition filc_async_wait_access fuel sched (act : list ptr) (b : fptr) (s : fw) :=
  if f_addr b =? NULL then mret (s, sched) else wait_access_locked fuel sched act b s.

(** ** Delivery *)

(** [polled]: what happens while the lock is given up to poll the runtime. *)
Definition filc_async_poll (polled : list fw_op) (pending : ptr) (s : fw)
  : outcome (bool * option result_s * fw) :=
  if pending =? NULL then mret (false, None, s)
  else
    let t := find_task pending (f_handles s) in
    if t =? NULL then mret (false, None, s)
    else
      st ← task_state s t;
      s ← (if st =? 1 then fw_execs polled s else mret s);
      '(done, out, s) ← poll_deliver t s;
      mret (done, Some out, s).

Definition filc_async_wait (sched : list round) (pending : ptr) (s : fw)
  : outcome (option result_s * fw * list round) :=
  if pending =? NULL then mret (None, s, sched)
  else
    let t := find_task pending (f_handles s) in
    if t =? NULL then mret (None, s, sched)
    else
      '(s, sched) ← wait_for sched t s;
      '(out, s) ← wait_deliver t s;
      mret (Some out, s, sched).

(** The six counts of [filc_async_get_stats], after its walk of the running
    tasks, oldest first; [polls]: what happens during each poll. *)
Record filc_async_stats := mk_stats {
  tasks_submitted : Z; tasks_completed : Z; tasks_failed : Z;
  pending_resolves : Z; lock_waits : Z; hook_resolves : Z;
}.

Fixpoint stats_walk (fuel : nat) (polls : list (list fw_op)) (t : ptr) (s : fw) : outcome fw :=
  if t =? NULL then mret s
  else
    match fuel with
    | O => NoFuel
    | S fuel =>
        st ← task_state s t;
        s ← (if st =? 1 then fw_execs (default [] (head polls)) s else mret s);
        n ← deref (rl_nodes (f_running s) !! t);
        stats_walk fuel (if st =? 1 then tail polls else polls) (newer n) s
    end.

Definition filc_async_get_stats (fuel : nat) (polls : list (list fw_op)) (s : fw)
  : outcome (filc_async_stats * fw) :=
  s ← stats_walk fuel polls (g_oldest (f_running s)) s;
  mret (mk_stats (g_submitted s) (g_completed s) (g_failed s)
          (g_pending_resolves s) (g_lock_waits s) (g_hook_resolves s), s).
End Fw.

(** ** Invariant *)

Definition running (s : fw) (t : ptr) : Prop := exists tk, f_tasks s !! t = Some tk /\ t_state tk = 1.

(** The counts of annotated calls. *)
Definition annotated (tk : task) : Prop := is_Some (t_meta tk).
Definition finished (tk : task) : Prop := is_Some (t_meta tk) /\ t_state tk <> 1.
Definition failed (tk : task) : Prop := is_Some (t_meta tk) /\ t_state tk = 2.

Definition tasks_with (P : task -> Prop) `{forall tk, Decision (P tk)} (s : fw) : Z :=
  Z.of_nat (size (filter (fun kt : ptr * task => P kt.2) (f_tasks s))).

#[export] Instance annotated_dec tk : Decision (annotated tk).
Proof. unfold annotated. apply _. Defined.
#[export] Instance finished_dec tk : Decision (finished tk).
Proof. unfold finished. apply _. Defined.
#[export] Instance failed_dec tk : Decision (failed tk).
Proof. unfold failed. apply _. Defined.

(** A task's result: none while it runs; then the state says its sign. *)
Definition task_ok (tk : task) : Prop :=
  t_state tk = 1 /\ t_result tk = 0 \/ t_state tk = if t_result tk <? 0 then 2 else 0.

Section Inv.
Context (readonly : ptr -> bool).

Record fw_inv (s : fw) : Prop := {
  fi_running : exists l h, rl_inv (f_running s) l h /\
    (forall t, t ∈ l <-> running s t) /\ (forall t, t ∈ h <-> is_Some (f_tasks s !! t));
  fi_handles : handles_ok (f_handles s);
  fi_handled : forall t, t ∈ h_handled (f_handles s) -> is_Some (f_tasks s !! t);
  fi_locks : locks_inv ∅ (f_locks s);
  fi_marks : marks_inv readonly (f_marks s);
  fi_holds : forall h hd, held (f_locks s) h hd -> running s (hd_task hd);
  fi_waits : forall h hd lk, waiting (f_locks s) h hd lk -> running s (hd_task hd);
  fi_owns : forall l x m, mark_on (f_marks s) l x m -> m_owner m <> NULL -> running s (m_owner m);
  fi_tasks : map_Forall (fun _ tk => task_ok tk) (f_tasks s);
  fi_submitted : g_submitted s = u64 (tasks_with annotated s);
  fi_completed : g_completed s = u64 (tasks_with finished s);
  fi_failed : g_failed s = u64 (tasks_with failed s);
}.

(** What each critical section relies on: fresh addresses, locks and marks
    taken for a call that is still running, and a call submitted, and so
    completed, only when it has its locks. *)
Definition fw_op_ok (op : fw_op) (s : fw) : Prop :=
  match op with
  | Start rt m staged_args fresh fresh_table =>
      rt <> NULL /\ is_addr fresh /\ f_tasks s !! fresh = None /\ fresh_table <> NULL
  | Complete t result => t = NULL \/ is_Some (f_tasks s !! t) /\
      forall h hd lk, waiting (f_locks s) h hd lk -> hd_task hd <> t
  | Lock_op op => lk_op_ok op (f_locks s) /\
      match op with
      | Request t _ _ _ _ _ => running s t
      | Grant h => forall hd, lk_holds (f_locks s) !! h = Some hd -> running s (hd_task hd)
      | Release _ => False
      end
  | Mark_op op => mk_op_ok op (f_marks s) /\ (mk_op_task op = NULL \/ running s (mk_op_task op)) /\
      match op with Drop_marks _ => False | _ => True end
  | Deliver t => is_Some (f_tasks s !! t)
  | Count _ => True
  | Wait_all rt snapshot token state fresh fresh_mark =>
      rt <> NULL /\ state <> NULL /\ is_addr fresh /\ f_tasks s !! fresh = None /\ buf_ok (f_marks s) token /\
      fresh_ok (f_marks s) fresh_mark /\ Z.of_nat (length snapshot * size (mark_live (f_marks s))) < max_entries
  | Clear_join _ => True
  end.

Lemma fw_init_inv : fw_inv fw_init.
Proof.
  split; cbn.
  - exists [], []. split; [apply rl_inv_init|]. unfold running. cbn. split; intros t.
    + split; [by intros ?%not_elem_of_nil|]. intros (tk & Ht & _). by rewrite lookup_empty in Ht.
    + rewrite lookup_empty. split; [by intros ?%not_elem_of_nil|by intros [? ?]].
  - apply handles_init_ok.
  - set_solver.
  - apply locks_inv_init.
  - apply marks_init_inv.
  - intros h hd (Hh & _). cbn in Hh. by rewrite lookup_empty in Hh.
  - intros h hd lk (Hh & _). cbn in Hh. by rewrite lookup_empty in Hh.
  - intros l x m (_ & Hm & _). cbn in Hm. by rewrite lookup_empty in Hm.
  - apply map_Forall_empty.
  - done.
  - done.
  - done.
Qed.

(** *** Counting *)

(** *** The operations *)

Lemma running_insert (m : gmap ptr task) (t : ptr) tk u :
  (exists tku, <[t := tk]> m !! u = Some tku /\ t_state tku = 1) <->
  if decide (u = t) then t_state tk = 1 else exists tku, m !! u = Some tku /\ t_state tku = 1.
Proof.
  rewrite lookup_insert. destruct (decide (t = u)) as [->|Hne].
  - rewrite decide_True by done. split; [by intros (? & [= <-] & ?)|]. intros ?. by exists tk.
  - by rewrite decide_False by congruence.
Qed.

Lemma task_start_ok s rt m staged_args fresh fresh_table :
  fw_inv s -> fw_op_ok (Start rt m staged_args fresh fresh_table) s ->
  exists s', task_start rt m staged_args fresh fresh_table s = Ret (fresh, s') /\ fw_inv s' /\
    f_tasks s' = <[fresh := mk_task m rt staged_args 1 0]> (f_tasks s) /\
    h_handled (f_handles s') = {[fresh]} ∪ h_handled (f_handles s).
Proof.
  intros Hi (Hrt & Haddr & Hnew & Htbl). assert (Hnn : fresh <> NULL) by (unfold is_addr, NULL in *; lia).
  destruct (fi_running _ Hi) as (l & h & Hrl & Hl & Hh).
  assert (Hfh : fresh ∉ h) by (rewrite Hh, Hnew; by intros [? ?]).
  destruct (rl_inv_add _ l h fresh Hrl Hnn Hfh) as (r & Hr & Hrl').
  destruct (handle_add_ok fresh_table fresh (f_handles s) (fi_handles _ Hi) Htbl Haddr) as (hs & Hhs & Hhok & Hhand).
  { intros Hin. destruct (fi_handled _ Hi _ Hin). congruence. }
  unfold task_start, alloc_or_die. destruct (Z.eqb_spec rt NULL); [done|]. destruct (Z.eqb_spec fresh NULL); [done|].
  cbn [mbind outcome_bind f_running f_handles set_tasks]. rewrite Hr. cbn [mbind outcome_bind]. rewrite Hhs. cbn [mbind outcome_bind].
  set (tk := mk_task m rt staged_args 1 0).
  set (submitted := match m with Some _ => u64 (g_submitted s + 1) | None => g_submitted s end).
  set (s' := mk_fw (<[fresh := tk]> (f_tasks s)) r hs (f_locks s) (f_marks s) (f_staged s) submitted
               (g_completed s) (g_failed s) (g_pending_resolves s) (g_lock_waits s) (g_hook_resolves s) (f_joins s)).
  exists s'. split; [unfold s', submitted; by destruct m|].
  assert (Hrun : forall u, running s' u <-> u = fresh \/ running s u).
  { intros u. unfold running at 1. cbn [f_tasks s']. rewrite running_insert. case_decide as E; [subst u; cbn; tauto|].
    unfold running. tauto. }
  split; [|done]. split; cbn [f_tasks f_running f_handles f_locks f_marks g_submitted g_completed g_failed s'].
  - exists (l ++ [fresh]), (h ++ [fresh]). split; [done|]. split; intros u.
    + rewrite Hrun, elem_of_app, list_elem_of_singleton, Hl. tauto.
    + rewrite elem_of_app, list_elem_of_singleton, Hh, dom_insert_Some. tauto.
  - done.
  - intros u. rewrite Hhand, dom_insert_Some. intros [->%elem_of_singleton|Hu]%elem_of_union; [by left|right].
    by apply (fi_handled _ Hi).
  - apply Hi.
  - apply Hi.
  - intros hh hd Hd. apply Hrun. right. by eapply fi_holds.
  - intros hh hd lk Hd. apply Hrun. right. by eapply fi_waits.
  - intros l0 x k Hk Hn. apply Hrun. right. by eapply fi_owns.
  - apply map_Forall_insert_2; [by left|apply Hi].
  - unfold tasks_with. cbn [f_tasks s']. rewrite (map_count_fresh annotated) by done. unfold submitted, annotated. cbn.
    destruct m; cbn.
    + rewrite (fi_submitted _ Hi). apply u64_add_idemp_l.
    + rewrite Z.add_0_r. apply Hi.
  - unfold tasks_with. cbn [f_tasks s']. rewrite (map_count_fresh finished) by done.
    rewrite decide_False by (intros [_ H1]; by apply H1). rewrite Z.add_0_r. apply Hi.
  - unfold tasks_with. cbn [f_tasks s']. rewrite (map_count_fresh failed) by done.
    rewrite decide_False by (intros [_ H1]; done). rewrite Z.add_0_r. apply Hi.
Qed.

Lemma running_addr s t : fw_inv s -> is_Some (f_tasks s !! t) -> t <> NULL.
Proof.
  intros Hi Ht ->. destruct (fi_running _ Hi) as (l & h & Hrl & _ & Hh).
  by apply (ri_null _ _ _ Hrl), Hh.
Qed.

(** The record of a task once it is completed with [result]. *)
Definition completed (tk : task) (result : Z) : task :=
  mk_task (t_meta tk) (t_runtime tk)
    (match t_meta tk with Some _ => NULL | None => t_staged_args tk end)
    (if result <? 0 then 2 else 0) result.

(** What completing [t] changes. *)
Record completes (t : ptr) (result : Z) (s s' : fw) : Prop := {
  co_tasks : exists tk, f_tasks s !! t = Some tk /\ f_tasks s' = <[t := completed tk result]> (f_tasks s);
  co_handles : f_handles s' = f_handles s;
  co_marks : forall l x m, mark_on (f_marks s') l x m <-> mark_on (f_marks s) l x m /\ m_owner m <> t;
  co_held : forall h hd, held (f_locks s') h hd <-> held (f_locks s) h hd /\ hd_task hd <> t;
  co_list : task_marks (f_marks s') t = [] /\ task_holds (f_locks s') t = [];
  co_waiting : same_waiters (f_locks s) (f_locks s') /\ lk_holds (f_locks s') = lk_holds (f_locks s);
  co_staged : forall tk m, f_tasks s !! t = Some tk -> t_meta tk = Some m -> t_staged_args tk <> NULL ->
    f_staged s' = alter (clear_cells (Z.to_nat (me_nargs m))) (t_staged_args tk) (f_staged s);
}.

Lemma complete_not_running s t result tk :
  f_tasks s !! t = Some tk -> t_state tk <> 1 -> filc_async_complete readonly t result s = Ret s.
Proof.
  intros Ht Hst. unfold filc_async_complete. destruct (t =? NULL); [done|]. rewrite Ht. cbn.
  by destruct (Z.eqb_spec (t_state tk) 1).
Qed.

Lemma filc_async_complete_ok s t result :
  fw_inv s -> running s t -> (forall h hd lk, waiting (f_locks s) h hd lk -> hd_task hd <> t) ->
  exists s', filc_async_complete readonly t result s = Ret s' /\ fw_inv s' /\ completes t result s s'.
Proof.
  intros Hi (tk & Htk & Hst) Hnw. assert (Hn : t <> NULL) by (apply (running_addr s); [done|by eexists]).
  destruct (fi_running _ Hi) as (l & h & Hrl & Hl & Hh).
  assert (Htl : t ∈ l) by (apply Hl; by exists tk).
  destruct (unlink_Some _ _ Htl) as [l' Hl'].
  destruct (rl_inv_remove _ l l' h t Hrl Hl') as (r & Hr & Hrl' & _).
  destruct (remove_marks_ok readonly t (f_marks s) _ (fi_marks _ Hi) Hn (le_n _))
    as (k & Hk & Hki & Hkon & Hkz & _).
  destruct (locks_release_ok (f_locks s) t (fi_locks _ Hi)) as (lk & Hlk & Hlki & HlkH & Hlkw & Hlkz & _).
  pose proof (locks_release_held (f_locks s) t lk) as Hheld.
  unfold filc_async_complete. destruct (Z.eqb_spec t NULL); [done|]. rewrite Htk. cbn [deref mbind outcome_bind].
  rewrite Hst. cbn [Z.eqb negb Pos.eqb].
  set (cleared := match t_meta tk with Some m => if t_staged_args tk =? NULL then None else Some (me_nargs m) | None => None end).
  assert (Htk' : mk_task (t_meta tk) (t_runtime tk) (match cleared with Some _ => NULL | None => t_staged_args tk end)
      (if result <? 0 then 2 else 0) result = completed tk result).
  { unfold completed, cleared. f_equal. destruct (t_meta tk); [|done]. by destruct (Z.eqb_spec (t_staged_args tk) NULL). }
  rewrite Htk'.
  set (c' := match t_meta tk with Some _ => u64 (g_completed s + 1) | None => g_completed s end).
  set (f' := match t_meta tk with Some _ => if result <? 0 then u64 (g_failed s + 1) else g_failed s | None => g_failed s end).
  set (s' := mk_fw (<[t := completed tk result]> (f_tasks s)) r (f_handles s) lk k
     (match cleared with Some nargs => alter (clear_cells (Z.to_nat nargs)) (t_staged_args tk) (f_staged s) | None => f_staged s end)
     (g_submitted s) c' f' (g_pending_resolves s) (g_lock_waits s) (g_hook_resolves s) (f_joins s)).
  exists s'.
  assert (Hrun : forall u, running s' u <-> running s u /\ u <> t).
  { intros u. unfold running at 1. cbn [f_tasks s']. rewrite running_insert. case_decide as E.
    - subst u. cbn. split; [|tauto]. by destruct (result <? 0).
    - unfold running. tauto. }
  split; [|split].
  - unfold s', c', f'. destruct (t_meta tk) as [m|]; cbn; rewrite Hk; cbn; rewrite Hlk; cbn; rewrite Hr; cbn; by destruct cleared.
  - split; cbn [f_tasks f_running f_handles f_locks f_marks g_submitted g_completed g_failed s'].
    + exists l', h. split; [done|]. split.
      * intros u. rewrite Hrun, <- Hl. apply unlink_elem; [apply (ri_rep _ _ _ Hrl)|done].
      * intros u. rewrite Hh, dom_insert_Some. split; [by right|]. by intros [->|]; [eexists|].
    + apply Hi.
    + intros u Hu. apply dom_insert_Some. right. by apply (fi_handled _ Hi).
    + done.
    + done.
    + intros hh hd [Hd Hne]%Hheld; [|apply Hi|done]. apply Hrun. split; [|done]. by eapply fi_holds.
    + intros hh hd lk0 (Hh0 & Hl0 & Hin). pose proof (Hlkw (hd_lock hd)) as Hq. rewrite Hl0 in Hq.
      destruct (lk_mem (f_locks s) !! hd_lock hd) as [lk1|] eqn:El; [|done]. injection Hq as _ _ Hq.
      assert (Hw1 : waiting (f_locks s) hh hd lk1) by (split; [by rewrite <- HlkH|split; [done|by rewrite <- Hq]]).
      apply Hrun. split; [by eapply fi_waits|by eapply Hnw].
    + intros l0 x m [Hm Hne]%Hkon Ho. apply Hrun. split; [|done]. by eapply fi_owns.
    + apply map_Forall_insert_2; [|apply Hi]. right. cbn. done.
    + unfold tasks_with. cbn [f_tasks s']. rewrite (map_count_insert annotated _ t tk) by done.
      rewrite (fi_submitted _ Hi). unfold annotated. cbn. unfold tasks_with, annotated. f_equal. destruct (decide _); lia.
    + unfold tasks_with. cbn [f_tasks s']. rewrite (map_count_insert finished _ t tk) by done.
      rewrite (decide_False (P := finished tk)) by (intros [_ H1]; by apply H1).
      unfold c'. rewrite (fi_completed _ Hi). destruct (t_meta tk) as [m|] eqn:Em.
      * rewrite decide_True by (split; cbn; [by rewrite Em|by destruct (result <? 0)]).
        rewrite u64_add_idemp_l. f_equal. unfold tasks_with. lia.
      * rewrite decide_False by (intros [[? H1] _]; cbn in H1; congruence). f_equal. unfold tasks_with. lia.
    + unfold tasks_with. cbn [f_tasks s']. rewrite (map_count_insert failed _ t tk) by done.
      rewrite (decide_False (P := failed tk)) by (intros [_ H1]; congruence).
      unfold f'. rewrite (fi_failed _ Hi). destruct (t_meta tk) as [m|] eqn:Em; [destruct (result <? 0) eqn:Er|].
      * rewrite decide_True by (split; cbn; [by rewrite Em|by rewrite Er]). rewrite u64_add_idemp_l. f_equal. unfold tasks_with. lia.
      * rewrite decide_False by (intros [_ H1]; cbn in H1; by rewrite Er in H1). f_equal. unfold tasks_with. lia.
      * rewrite decide_False by (intros [[? H1] _]; cbn in H1; congruence). f_equal. unfold tasks_with. lia.
  - split; cbn [f_tasks f_running f_handles f_locks f_marks f_staged s']; try done.
    + by exists tk.
    + intros h0 hd. apply Hheld; [apply Hi|done].
    + intros tk0 m E Em Hs0. rewrite Htk in E. injection E as <-. unfold cleared. rewrite Em.
      by destruct (Z.eqb_spec (t_staged_args tk) NULL).
Qed.

Lemma lock_op_inv s l' :
  fw_inv s -> locks_inv ∅ l' -> (forall h hd, held l' h hd -> running s (hd_task hd)) ->
  (forall h hd lk, waiting l' h hd lk -> running s (hd_task hd)) -> fw_inv (set_locks l' s).
Proof. intros [] Hl Hh Hw. by split. Qed.

Lemma mark_op_inv s k' :
  fw_inv s -> marks_inv readonly k' ->
  (forall l x m, mark_on k' l x m -> m_owner m <> NULL -> running s (m_owner m)) -> fw_inv (set_marks k' s).
Proof. intros [] Hl Hh. by split. Qed.

Lemma count_inv s c : fw_inv s -> fw_inv (count c s).
Proof. intros []. destruct c; by split. Qed.

(** Delivering a finished task retires its handle. *)
Lemma retire_inv s t tk :
  fw_inv s -> f_tasks s !! t = Some tk -> t_state tk <> 1 ->
  exists h', retire_task t (t_state tk) (f_handles s) = Ret h' /\ fw_inv (set_handles h' s) /\
    h_handled h' = h_handled (f_handles s) ∖ {[t]}.
Proof.
  intros Hi Ht Hst. destruct (retire_task_ok t (t_state tk) (f_handles s) (fi_handles _ Hi)) as (h' & Hr & Hok & Hh).
  destruct (Z.eqb_spec (t_state tk) 1); [done|]. exists h'. split; [done|]. split; [|done].
  pose proof (fi_handled _ Hi) as Hsub. destruct Hi. split; try done. cbn. intros u Hu. apply Hsub. rewrite Hh in Hu. set_solver.
Qed.

Lemma poll_deliver_ok s t :
  fw_inv s -> is_Some (f_tasks s !! t) ->
  exists tk s', f_tasks s !! t = Some tk /\
    poll_deliver t s = Ret (negb (t_state tk =? 1), result_fill tk, s') /\ fw_inv s' /\
    f_tasks s' = f_tasks s /\
    h_handled (f_handles s') = if t_state tk =? 1 then h_handled (f_handles s) else h_handled (f_handles s) ∖ {[t]}.
Proof.
  intros Hi [tk Ht]. unfold poll_deliver. rewrite Ht. cbn. exists tk. destruct (Z.eqb_spec (t_state tk) 1) as [E|E].
  - by exists s.
  - destruct (retire_inv s t tk Hi Ht E) as (h' & -> & Hi' & Hh). by eexists.
Qed.

(** What starting a join task changes. *)
Record join_started (rt : ptr) (tok : fptr) (fresh : ptr) (es : list join_entry) (s s' : fw) : Prop := {
  js_tasks : f_tasks s' = <[fresh := mk_task None rt NULL 1 0]> (f_tasks s);
  js_handles : f_handles s' = f_handles s;
  js_locks : f_locks s' = f_locks s;
  js_joins : f_joins s' = <[fresh := es]> (f_joins s);
  js_marks : exists x gen, (x ∉ mark_live (f_marks s)) /\ forall l y m, mark_on (f_marks s') l y m <->
    y = x /\ l = f_lower tok /\ m = mk_mark tok (f_lower tok) (f_upper tok) gen fresh true \/ mark_on (f_marks s) l y m;
  js_ages : ages (f_marks s) (f_marks s');
}.

Lemma join_start_ok s rt snap tok st fresh fm :
  fw_inv s -> fw_op_ok (Wait_all rt snap tok st fresh fm) s ->
  exists s' es, join_start readonly rt snap tok st fresh fm s = Ret s' /\ fw_inv s' /\ snapshot_of (f_marks s) snap es /\
    ((es = [] /\ s' = s) \/ (es <> [] /\ join_started rt tok fresh es s s')).
Proof.
  intros Hi (Hrt & Hst & Haddr & Hnew & Hb & (Hfm & Hfn & Hroom) & Hcap).
  assert (Hnn : fresh <> NULL) by (unfold is_addr, NULL in *; lia). pose proof (fi_marks _ Hi) as Hmi.
  unfold join_start. rewrite (capacity_loop_ok readonly) by done. cbn [mbind outcome_bind].
  destruct (snapshot_exact readonly _ snap Hmi) as (es & Es & Hsn & Hle & Hnil).
  set (c := length (concat (map (producers_of (f_marks s)) snap))) in *. change (0 + Z.of_nat c) with (Z.of_nat c).
  destruct (Z.eqb_spec (Z.of_nat c) 0) as [Ec|Ec].
  { exists s, es. split; [done|]. split; [done|]. split; [done|]. left. split; [|done]. apply Hnil, length_zero_iff_nil. lia. }
  unfold gc_alloc_or_die. destruct (Z.eqb_spec st NULL); [done|]. destruct (Z.eqb_spec fresh NULL); [done|]. rewrite Es. cbn [mbind outcome_bind].
  destruct (Z.ltb_spec (Z.of_nat c) (Z.of_nat (length es))); [lia|].
  assert (Hown : forall x m, mark_on (f_marks s) (f_lower tok) x m -> m_owner m <> fresh).
  { intros x m Hm E. destruct (fi_owns _ Hi _ _ _ Hm ltac:(congruence)) as (tk & Htk & _). congruence. }
  destruct (mark_add_ok readonly (f_marks s) tok fresh true fm Hmi Hb Hfm Hfn Hroom) as (k & x & gen & Ek & Hki & Hx & Hon & _); [done|].
  rewrite Ek. cbn [mbind outcome_bind].
  destruct (fi_running _ Hi) as (l & h & Hrl & Hl & Hh). assert (Hfh : fresh ∉ h) by (rewrite Hh, Hnew; by intros [? ?]).
  destruct (rl_inv_add _ l h fresh Hrl Hnn Hfh) as (r & Hr & Hrl'). rewrite Hr. cbn [mbind outcome_bind mret outcome_ret].
  eexists _, es. split; [done|]. split; [|split; [done|right]].
  2: { split; [intros E; apply Ec; apply Hnil in E; unfold c; by rewrite E|]. split; cbn; try done; [by exists x, gen|]. by eapply mark_add_ages. }
  set (tk := mk_task None rt NULL 1 0). set (s' := set_running _ _).
  assert (Hrun : forall u, running s' u <-> u = fresh \/ running s u).
  { intros u. unfold running at 1. cbn [f_tasks s' set_running set_marks set_joins set_tasks]. rewrite running_insert. case_decide as E; [subst u; cbn; tauto|].
    unfold running. tauto. }
  split; cbn [f_tasks f_running f_handles f_locks f_marks g_submitted g_completed g_failed s' set_running set_marks set_joins set_tasks].
  - exists (l ++ [fresh]), (h ++ [fresh]). split; [done|]. split; intros u.
    + rewrite Hrun, elem_of_app, list_elem_of_singleton, Hl. tauto.
    + rewrite elem_of_app, list_elem_of_singleton, Hh, dom_insert_Some. tauto.
  - apply Hi.
  - intros u Hu. rewrite dom_insert_Some. right. by apply (fi_handled _ Hi).
  - apply Hi.
  - done.
  - intros hh hd Hd. apply Hrun. right. by eapply fi_holds.
  - intros hh hd lk Hd. apply Hrun. right. by eapply fi_waits.
  - intros l0 y m [(-> & -> & ->)|Hm]%Hon Ho; apply Hrun; [by left|right]. by eapply fi_owns.
  - apply map_Forall_insert_2; [by left|apply Hi].
  - unfold tasks_with. change (f_tasks s') with (<[fresh := tk]> (f_tasks s)). rewrite (map_count_fresh annotated) by done.
    rewrite decide_False by (by intros [? ?]). rewrite Z.add_0_r. apply Hi.
  - unfold tasks_with. change (f_tasks s') with (<[fresh := tk]> (f_tasks s)). rewrite (map_count_fresh finished) by done.
    rewrite decide_False by (by intros [[? ?] _]). rewrite Z.add_0_r. apply Hi.
  - unfold tasks_with. change (f_tasks s') with (<[fresh := tk]> (f_tasks s)). rewrite (map_count_fresh failed) by done.
    rewrite decide_False by (by intros [[? ?] _]). rewrite Z.add_0_r. apply Hi.
Qed.

(** The running list after a join starts. *)
Lemma join_start_running rt snap tok st fresh fm s s' :
  join_start readonly rt snap tok st fresh fm s = Ret s' ->
  f_locks s' = f_locks s /\ (f_running s' = f_running s \/ running_add fresh (f_running s) = Ret (f_running s')).
Proof.
  unfold join_start. intros (cap & _ & He)%bind_Ret_inv. destruct (cap =? 0); [injection He as <-; auto|].
  apply bind_Ret_inv in He as (? & _ & He). apply bind_Ret_inv in He as (es & _ & He). destruct (cap <? _); [done|].
  apply bind_Ret_inv in He as (t & Ht & He). apply bind_Ret_inv in He as (k & _ & He). apply bind_Ret_inv in He as (r & Hr & He).
  unfold gc_alloc_or_die in Ht. destruct (fresh =? NULL); [done|]. injection Ht as ->. injection He as <-. cbn. auto.
Qed.

Lemma set_joins_inv s m : fw_inv s -> fw_inv (set_joins m s).
Proof. intros []. by split. Qed.

Lemma fw_exec_ok s op :
  fw_inv s -> fw_op_ok op s -> exists s', fw_exec readonly op s = Ret s' /\ fw_inv s'.
Proof.
  intros Hi Hop. destruct op as [rt m sa fresh ft|t result|op|op|t|c|jrt snap tok jst jfr jfm|jt]; cbn.
  - destruct (task_start_ok s rt m sa fresh ft Hi Hop) as (s' & -> & Hi' & _). by exists s'.
  - destruct Hop as [->|[[tk Ht] Hnw]]; [by exists s|]. destruct (decide (t_state tk = 1)) as [E|E].
    + destruct (filc_async_complete_ok s t result Hi) as (s' & -> & Hi' & _); [by exists tk|done|by exists s'].
    + rewrite (complete_not_running s t result tk) by done. by exists s.
  - destruct Hop as [Hlk Hop]. destruct (lk_exec_ok _ _ (fi_locks _ Hi) Hlk) as (l' & He & Hl'). rewrite He. cbn.
    eexists. split; [done|]. apply lock_op_inv; [done|done| |].
    + intros h hd Hh.
      apply (lk_exec_held_inv _ _ _ _ _ (fi_locks _ Hi) Hlk He) in Hh as [Hh|[-> Hh]]; [by eapply fi_holds|by apply Hop].
    + intros h hd lk Hw. destruct (lk_exec_new_waiting _ _ _ _ _ _ (fi_locks _ Hi) Hlk He Hw) as [[lk0 Hw0]|Hnew];
        [by eapply fi_waits|]. by destruct op; [rewrite Hnew|..].
  - destruct Hop as (Hmk & Hrun & _). destruct (mk_exec_ok readonly _ _ (fi_marks _ Hi) Hmk) as (k' & He & Hk'). rewrite He. cbn.
    eexists. split; [done|]. apply mark_op_inv; [done|done|]. intros l x m Hm Hn.
    destruct (mk_exec_owner readonly _ _ _ _ _ _ (fi_marks _ Hi) Hmk He Hm) as [Ho|Hold]; [|by eapply fi_owns].
    destruct Hrun as [E|Hrun]; [congruence|by rewrite Ho].
  - destruct (poll_deliver_ok s t Hi Hop) as (tk & s' & _ & -> & Hi' & _). by exists s'.
  - eexists. split; [done|]. by apply count_inv.
  - destruct (join_start_ok s jrt snap tok jst jfr jfm Hi Hop) as (s' & es & -> & Hi' & _). by exists s'.
  - eexists. split; [done|]. by apply set_joins_inv.
Qed.

Abbreviation fw_reach := (reach (fw_exec readonly) fw_op_ok fw_init).
Abbreviation fw_ops_ok := (ops_ok (fw_exec readonly) fw_op_ok).

Lemma fw_reach_inv s : fw_reach s -> fw_inv s.
Proof. apply reach_inv; [apply fw_exec_ok|apply fw_init_inv]. Qed.

Lemma fw_execs_ok ops s : fw_inv s -> fw_ops_ok ops s -> exists s', fw_execs readonly ops s = Ret s' /\ fw_inv s'.
Proof. apply execs_total, fw_exec_ok. Qed.
End Inv.

(** ** What happens to a task *)

Section Tasks.
Context (readonly : ptr -> bool).
Abbreviation fw_inv := (fw_inv readonly).
Abbreviation fw_reach := (reach (fw_exec readonly) fw_op_ok fw_init).
Abbreviation fw_ops_ok := (ops_ok (fw_exec readonly) fw_op_ok).

(** Every critical section keeps the tasks it does not complete. *)
Lemma fw_exec_task s op s' t tk :
  fw_inv s -> fw_op_ok op s -> fw_exec readonly op s = Ret s' -> f_tasks s !! t = Some tk ->
  exists tk', f_tasks s' !! t = Some tk' /\ t_meta tk' = t_meta tk /\ (t_state tk <> 1 -> tk' = tk).
Proof.
  intros Hi Hop He Ht.
  assert (Hsame : f_tasks s' = f_tasks s -> exists tk', f_tasks s' !! t = Some tk' /\ t_meta tk' = t_meta tk /\ (t_state tk <> 1 -> tk' = tk)).
  { intros ->. by exists tk. }
  destruct op as [rt m sa fresh ft|u result|op|op|u|c|jrt snap tok jst jfr jfm|jt]; cbn in He.
  - destruct (task_start_ok readonly s rt m sa fresh ft Hi Hop) as (s1 & E & _ & Et & _). rewrite E in He. cbn in He.
    injection He as ->. rewrite Et. destruct Hop as (_ & _ & Hnew & _). rewrite lookup_insert_ne by congruence. by exists tk.
  - destruct Hop as [->|[[tku Hu] Hnw]]; [cbn in He; injection He as <-; by apply Hsame|].
    destruct (decide (t_state tku = 1)) as [E|E].
    + destruct (filc_async_complete_ok readonly s u result Hi) as (s1 & E1 & _ & Hc); [by exists tku|done|].
      rewrite E1 in He. injection He as ->. destruct (co_tasks _ _ _ _ Hc) as (tk1 & H1 & ->). rewrite Hu in H1. injection H1 as <-.
      rewrite lookup_insert. case_decide as Eut; [|by exists tk]. subst u. rewrite Ht in Hu. injection Hu as <-.
      eexists. split; [done|]. split; [done|]. done.
    + rewrite (complete_not_running readonly s u result tku) in He by done. injection He as <-. by apply Hsame.
  - inv_ret. by apply Hsame.
  - inv_ret. by apply Hsame.
  - destruct (poll_deliver_ok readonly s u Hi Hop) as (tku & s1 & _ & E & _ & Et & _). rewrite E in He. cbn in He.
    injection He as ->. by apply Hsame.
  - injection He as <-. apply Hsame. by destruct c.
  - destruct (join_start_ok readonly s jrt snap tok jst jfr jfm Hi Hop) as (s1 & es & E & _ & _ & [[_ ->]|[_ Hj]]); rewrite E in He; injection He as <-; [by apply Hsame|].
    rewrite (js_tasks _ _ _ _ _ _ Hj). destruct Hop as (_ & _ & _ & Hnew & _). rewrite lookup_insert_ne by congruence. by exists tk.
  - injection He as <-. by apply Hsame.
Qed.

Lemma fw_execs_task ops s s' t tk :
  fw_inv s -> fw_ops_ok ops s -> fw_execs readonly ops s = Ret s' -> f_tasks s !! t = Some tk ->
  exists tk', f_tasks s' !! t = Some tk' /\ t_meta tk' = t_meta tk /\ (t_state tk <> 1 -> tk' = tk).
Proof.
  revert s tk. induction ops as [|op ops IH]; intros s tk Hi Hok He Ht; cbn in *.
  - injection He as <-. by exists tk.
  - destruct Hok as [Hop Hok]. apply bind_Ret_inv in He as (s1 & H1 & He).
    destruct (fw_exec_ok readonly s op Hi Hop) as (s1' & H1' & Hi1). rewrite H1 in H1'. injection H1' as <-.
    destruct (fw_exec_task s op s1 t tk Hi Hop H1 Ht) as (tk1 & Ht1 & Em & Hst).
    destruct (IH s1 tk1 Hi1 (Hok s1 H1) He Ht1) as (tk2 & Ht2 & Em2 & Hst2).
    exists tk2. split; [done|]. split; [congruence|]. intros Hn. rewrite (Hst Hn) in Hst2. auto.
Qed.

(** A handle once retired is not found again. *)
Lemma fw_exec_handled s op s' t :
  fw_inv s -> fw_op_ok op s -> fw_exec readonly op s = Ret s' -> is_Some (f_tasks s !! t) ->
  t ∉ h_handled (f_handles s) -> t ∉ h_handled (f_handles s').
Proof.
  intros Hi Hop He Ht Hn. destruct op as [rt m sa fresh ft|u result|op|op|u|c|jrt snap tok jst jfr jfm|jt]; cbn in He.
  - destruct (task_start_ok readonly s rt m sa fresh ft Hi Hop) as (s1 & E & _ & _ & Eh). rewrite E in He. cbn in He.
    injection He as ->. rewrite Eh. destruct Hop as (_ & _ & Hnew & _). intros [->%elem_of_singleton|]%elem_of_union; [|done].
    rewrite Hnew in Ht. by destruct Ht.
  - destruct Hop as [->|[[tku Hu] Hnw]]; [cbn in He; by injection He as <-|].
    destruct (decide (t_state tku = 1)) as [E|E].
    + destruct (filc_async_complete_ok readonly s u result Hi) as (s1 & E1 & _ & Hc); [by exists tku|done|].
      rewrite E1 in He. injection He as ->. by rewrite (co_handles _ _ _ _ Hc).
    + rewrite (complete_not_running readonly s u result tku) in He by done. by injection He as <-.
  - by inv_ret.
  - by inv_ret.
  - destruct (poll_deliver_ok readonly s u Hi Hop) as (tku & s1 & _ & E & _ & _ & Eh). rewrite E in He. cbn in He.
    injection He as ->. rewrite Eh. destruct (t_state tku =? 1); set_solver.
  - injection He as <-. by destruct c.
  - destruct (join_start_ok readonly s jrt snap tok jst jfr jfm Hi Hop) as (s1 & es & E & _ & _ & [[_ ->]|[_ Hj]]); rewrite E in He; injection He as <-; [done|].
    by rewrite (js_handles _ _ _ _ _ _ Hj).
  - by injection He as <-.
Qed.

Lemma fw_execs_handled ops s s' t :
  fw_inv s -> fw_ops_ok ops s -> fw_execs readonly ops s = Ret s' -> is_Some (f_tasks s !! t) ->
  t ∉ h_handled (f_handles s) -> t ∉ h_handled (f_handles s').
Proof.
  revert s. induction ops as [|op ops IH]; intros s Hi Hok He Ht Hn; cbn in *.
  - by injection He as <-.
  - destruct Hok as [Hop Hok]. apply bind_Ret_inv in He as (s1 & H1 & He).
    destruct (fw_exec_ok readonly s op Hi Hop) as (s1' & H1' & Hi1). rewrite H1 in H1'. injection H1' as <-.
    apply (IH s1 Hi1 (Hok s1 H1) He).
    + destruct Ht as [tk Ht]. destruct (fw_exec_task s op s1 t tk Hi Hop H1 Ht) as (tk1 & ? & _). by eexists.
    + by apply (fw_exec_handled s op s1 t).
Qed.

Lemma task_state_ok s t tk : f_tasks s !! t = Some tk -> task_state s t = Ret (t_state tk).
Proof. unfold task_state. by intros ->. Qed.

Lemma find_task_known s t : fw_inv s ->
  find_task t (f_handles s) = if decide (t ∈ h_handled (f_handles s)) then t else NULL.
Proof. intros Hi. apply find_task_ok, Hi. Qed.

(** C1: completion is final.  Whatever happens after a running call has
    been completed with [result], other completions of it included, it
    keeps that result and the state it gives: done (0), or failed (2) when
    it is negative. *)
Theorem completion_final (s s1 s2 : fw) (t : ptr) (result : Z) (ops : list fw_op) :
  fw_reach s -> fw_op_ok (Complete t result) s -> running s t -> filc_async_complete readonly t result s = Ret s1 ->
  fw_ops_ok ops s1 -> fw_execs readonly ops s1 = Ret s2 ->
  exists tk, f_tasks s2 !! t = Some tk /\ t_result tk = result /\
    t_state tk = if result <? 0 then 2 else 0.
Proof.
  intros Hi%fw_reach_inv Hop Hr He Hok Hes.
  assert (Hnw : forall h hd lk, waiting (f_locks s) h hd lk -> hd_task hd <> t).
  { destruct Hop as [->|[_ ?]]; [|done]. destruct Hr as (? & ? & _). by destruct (running_addr readonly s NULL Hi). }
  destruct (filc_async_complete_ok readonly s t result Hi Hr Hnw) as (s1' & E & Hi1 & Hc). rewrite He in E. injection E as <-.
  destruct (co_tasks _ _ _ _ Hc) as (tk & Ht & Et).
  assert (Ht1 : f_tasks s1 !! t = Some (completed tk result)) by (rewrite Et; apply lookup_insert_eq).
  destruct (fw_execs_task ops s1 s2 t _ Hi1 Hok Hes Ht1) as (tk2 & Ht2 & _ & E2).
  rewrite E2 in Ht2 by (cbn; by destruct (result <? 0)). by eexists.
Qed.

(** What completing a call does.  Completing a running call records
    the result, gives back every lock and every mark of the call and no
    other, keeps the queues and the undelivered handle, and clears the
    staged arguments of an annotated call; completing it again, or
    completing NULL, changes nothing. *)
Theorem complete_exact (s : fw) (t : ptr) (result : Z) :
  fw_reach s -> fw_op_ok (Complete t result) s ->
  exists s', filc_async_complete readonly t result s = Ret s' /\
    (running s t -> completes t result s s') /\ (~ running s t -> s' = s) /\
    forall result2, filc_async_complete readonly t result2 s' = Ret s'.
Proof.
  intros Hi%fw_reach_inv Hop. destruct (decide (t = NULL)) as [->|Hn].
  { exists s. split; [done|]. split; [|done]. intros (? & H0 & _). by destruct (running_addr readonly s NULL Hi). }
  destruct Hop as [|[[tk Ht] Hnw]]; [done|]. destruct (decide (t_state tk = 1)) as [E|E].
  - destruct (filc_async_complete_ok readonly s t result Hi) as (s' & He & Hi' & Hc); [by exists tk|done|].
    exists s'. split; [done|]. split; [done|]. split; [intros Hr; by destruct Hr; exists tk|]. intros result2.
    destruct (co_tasks _ _ _ _ Hc) as (tk0 & _ & Et). apply (complete_not_running readonly s' t result2 (completed tk0 result)).
    + rewrite Et. apply lookup_insert_eq.
    + cbn. by destruct (result <? 0).
  - exists s. split; [by apply (complete_not_running readonly s t result tk)|]. split; [intros (tk' & ? & ?); congruence|].
    split; [done|]. intros result2. by apply (complete_not_running readonly s t result2 tk).
Qed.

(** C2: a call that is not running owns nothing.  In every reachable state
    a call that holds a dependency lock, has a request in a lock's queue, or
    owns a pending mark is still running: completing a call releases all it
    held, so nothing ever waits for a finished call.  (A call is completed
    only after it is submitted, so not while its stub still has a request
    queued: the assumption on [Complete] in [fw_op_ok].) *)
Theorem owners_are_running (s : fw) :
  fw_reach s ->
  (forall h hd, held (f_locks s) h hd -> running s (hd_task hd)) /\
  (forall h hd lk, waiting (f_locks s) h hd lk -> running s (hd_task hd)) /\
  (forall l x m, mark_on (f_marks s) l x m -> m_owner m <> NULL -> running s (m_owner m)).
Proof. intros Hi%fw_reach_inv. split_and!; apply Hi. Qed.

(** A completion is delivered once.  When [filc_async_poll] returns
    true it has filled in the call's final result; from then on, whatever
    happens, polling the same handle returns false and changes nothing. *)
Theorem poll_delivers_once (s s1 s2 : fw) (t : ptr) (out : option result_s) (polled ops polled2 : list fw_op) :
  fw_reach s -> fw_ops_ok polled s ->
  filc_async_poll readonly polled t s = Ret (true, out, s1) ->
  fw_ops_ok ops s1 -> fw_execs readonly ops s1 = Ret s2 ->
  (exists tk, f_tasks s2 !! t = Some tk /\ t_state tk <> 1 /\ out = Some (result_fill tk)) /\
  filc_async_poll readonly polled2 t s2 = Ret (false, None, s2).
Proof.
  intros Hi%fw_reach_inv Hok He Hok2 Hes. unfold filc_async_poll in He. rewrite (find_task_known s t Hi) in He.
  destruct (Z.eqb_spec t NULL) as [|Hn]; [done|]. case_decide as Hin; [|done].
  destruct (Z.eqb_spec t NULL); [done|]. destruct (fi_handled _ _ Hi t Hin) as [tk Ht].
  rewrite (task_state_ok s t tk Ht) in He. cbn [mbind outcome_bind] in He.
  apply bind_Ret_inv in He as (s0 & H0 & He).
  assert (fw_inv s0 /\ exists tk0, f_tasks s0 !! t = Some tk0) as [Hi0 [tk0 Ht0]].
  { destruct (t_state tk =? 1); [|injection H0 as <-; eauto].
    destruct (fw_execs_ok readonly polled s Hi Hok) as (s0' & E0 & Hi0). rewrite H0 in E0. injection E0 as <-.
    split; [done|]. destruct (fw_execs_task polled s s0 t tk Hi Hok H0 Ht) as (tk0 & ? & _). by exists tk0. }
  destruct (poll_deliver_ok readonly s0 t Hi0) as (tk1 & s1' & Ht1 & E1 & Hi1 & Et & Eh); [by exists tk0|].
  rewrite E1 in He. cbn in He. injection He as Hd <- ->. apply negb_true_iff in Hd. rewrite Hd in Eh.
  apply Z.eqb_neq in Hd. assert (Ht2 : f_tasks s1 !! t = Some tk1) by (by rewrite Et).
  destruct (fw_execs_task ops s1 s2 t tk1 Hi1 Hok2 Hes Ht2) as (tk2 & Htk2 & _ & E2). rewrite (E2 Hd) in Htk2.
  split; [by exists tk1|]. destruct (fw_execs_ok readonly ops s1 Hi1 Hok2) as (s2' & E2' & Hi2). rewrite Hes in E2'. injection E2' as <-.
  unfold filc_async_poll. rewrite (find_task_known s2 t Hi2). destruct (Z.eqb_spec t NULL); [done|].
  rewrite decide_False; [by rewrite Z.eqb_refl|].
  apply (fw_execs_handled ops s1 s2 t Hi1 Hok2 Hes); [by eexists|]. rewrite Eh. set_solver.
Qed.
End Tasks.

(** ** The waiting loops *)

(** States that differ in the three wait counts only. *)
Definition same_but_counts (s1 s2 : fw) : Prop := exists a b c, s2 = set_wait_counts a b c s1.

Section Waits.
Context (readonly : ptr -> bool).
Abbreviation fw_inv := (fw_inv readonly).
Abbreviation fw_reach := (reach (fw_exec readonly) fw_op_ok fw_init).
Abbreviation fw_ops_ok := (ops_ok (fw_exec readonly) fw_op_ok).
Abbreviation fw_execs := (fw_execs readonly).
Abbreviation wait_for := (wait_for readonly).
Abbreviation wait_round := (wait_round readonly).

(** The rounds to come are sequences of operations whose assumptions hold
    where they run, whether a round is spent polling (and then perhaps
    waiting) or only waiting; [K] holds at every turn. *)
Fixpoint sched_ok (K : fw -> Prop) (sched : list round) (s : fw) : Prop :=
  K s /\
  match sched with
  | [] => True
  | r :: sched =>
      (fw_ops_ok (during_poll r) s /\ forall s1, fw_execs (during_poll r) s = Ret s1 ->
         sched_ok K sched s1 /\ fw_ops_ok (during_wait r) s1 /\
         forall s2, fw_execs (during_wait r) s1 = Ret s2 -> sched_ok K sched s2) /\
      (fw_ops_ok (during_wait r) s /\ forall s2, fw_execs (during_wait r) s = Ret s2 -> sched_ok K sched s2)
  end.

(** [ran sched s e]: all the rounds, spent in one way or another, lead from
    [s] to [e]. *)
Inductive ran : list round -> fw -> fw -> Prop :=
  | ran_end s : ran [] s s
  | ran_poll t r sched s s1 e : wait_round t r s = Ret s1 -> ran sched s1 e -> ran (r :: sched) s e
  | ran_wait r sched s s1 e : fw_execs (during_wait r) s = Ret s1 -> ran sched s1 e -> ran (r :: sched) s e
  | ran_count a b c sched s e : ran sched (set_wait_counts a b c s) e -> ran sched s e.

Lemma ran_app sched1 sched2 s s1 e : ran sched1 s s1 -> ran sched2 s1 e -> ran (sched1 ++ sched2) s e.
Proof.
  induction 1; intros; cbn; [done|eapply ran_poll|eapply ran_wait|eapply ran_count]; eauto.
Qed.

Lemma ran_waiting t sched s e : execs (wait_round t) sched s = Ret e -> ran sched s e.
Proof.
  revert s. induction sched as [|r sched IH]; cbn; intros s He; [injection He as <-; constructor|].
  apply bind_Ret_inv in He as (s1 & E1 & He). eapply ran_poll; [exact E1|by apply IH].
Qed.

(** A wait is in vain: from some turn on, reached after the rounds [sched1],
    all the rounds that are left are spent waiting for the call [p], one that
    [P] says must be waited for there, and [p] still runs after the last. *)
Definition in_vain (P : fw -> ptr -> Prop) (sched : list round) (s : fw) : Prop :=
  exists sched1 sched2 s1 e p, sched = sched1 ++ sched2 /\ ran sched1 s s1 /\ P s1 p /\
    execs (wait_round p) sched2 s1 = Ret e /\ running e p.

Lemma in_vain_here (P : fw -> ptr -> Prop) sched s e p :
  P s p -> execs (wait_round p) sched s = Ret e -> running e p -> in_vain P sched s.
Proof. intros. exists [], sched, s, e, p. split_and!; try done. constructor. Qed.

Lemma in_vain_after P sched1 rest s s1 : ran sched1 s s1 -> in_vain P rest s1 -> in_vain P (sched1 ++ rest) s.
Proof.
  intros Hr (c1 & c2 & s2 & e & p & -> & H1 & HP & He & Hp). exists (sched1 ++ c1), c2, s2, e, p.
  split_and!; try done; [by rewrite app_assoc|by eapply ran_app].
Qed.

Lemma in_vain_counts P a b c sched s : in_vain P sched (set_wait_counts a b c s) -> in_vain P sched s.
Proof. intros H. apply (in_vain_after P [] sched s (set_wait_counts a b c s)); [|done]. apply (ran_count a b c). constructor. Qed.

(** Where a wait in vain ends. *)
Lemma in_vain_end P sched s : in_vain P sched s ->
  exists sched1 sched2 s1 e p, sched = sched1 ++ sched2 /\ ran sched1 s s1 /\ P s1 p /\ ran sched2 s1 e /\ running e p.
Proof.
  intros (c1 & c2 & s1 & e & p & -> & H1 & HP & He%ran_waiting & Hp). by exists c1, c2, s1, e, p.
Qed.

(** What a wait leaves behind: a good state, the rounds it did not need, and
    every task that was there. *)
Definition waited (K : fw -> Prop) (sched : list round) (s : fw) (rest : list round) (s' : fw) : Prop :=
  fw_inv s' /\ sched_ok K rest s' /\
  (forall t, is_Some (f_tasks s !! t) -> is_Some (f_tasks s' !! t)) /\
  exists spent, sched = spent ++ rest /\ ran spent s s'.

Lemma waited_refl K sched s : fw_inv s -> sched_ok K sched s -> waited K sched s sched s.
Proof. intros. unfold waited. split_and!; auto. exists []. split; [done|constructor]. Qed.

Lemma waited_in_vain K P sched s rest s' : waited K sched s rest s' -> in_vain P rest s' -> in_vain P sched s.
Proof. intros (_ & _ & _ & spent & -> & Hr). by apply in_vain_after. Qed.

Lemma fw_execs_known ops s s' t :
  fw_inv s -> fw_ops_ok ops s -> fw_execs ops s = Ret s' -> is_Some (f_tasks s !! t) -> is_Some (f_tasks s' !! t).
Proof. intros Hi Hok He [tk Ht]. destruct (fw_execs_task readonly ops s s' t tk Hi Hok He Ht) as (tk' & ? & _). by eexists. Qed.

Lemma wait_round_ok K r sched t s :
  fw_inv s -> sched_ok K (r :: sched) s -> is_Some (f_tasks s !! t) ->
  exists s', wait_round t r s = Ret s' /\ fw_inv s' /\ sched_ok K sched s' /\
    forall u, is_Some (f_tasks s !! u) -> is_Some (f_tasks s' !! u).
Proof.
  intros Hi [_ [[Hok Hnext] _]] Ht. unfold Framework.wait_round.
  destruct (fw_execs_ok readonly _ s Hi Hok) as (s1 & E1 & Hi1). rewrite E1. cbn [mbind outcome_bind].
  destruct (Hnext s1 E1) as (Hs1 & Hok1 & Hnext1). pose proof (fw_execs_known _ _ _ t Hi Hok E1 Ht) as [tk1 Ht1].
  rewrite (task_state_ok s1 t tk1 Ht1). cbn [mbind outcome_bind]. destruct (negb (poll_done r) && (t_state tk1 =? 1)).
  - destruct (fw_execs_ok readonly _ s1 Hi1 Hok1) as (s2 & E2 & Hi2). exists s2. split; [done|].
    split; [done|]. split; [by apply Hnext1|]. intros u Hu.
    eapply fw_execs_known; [exact Hi1|exact Hok1|exact E2|].
    eapply fw_execs_known; [exact Hi|exact Hok|exact E1|done].
  - exists s1. split; [done|]. split; [done|]. split; [done|]. intros u Hu.
    eapply fw_execs_known; [exact Hi|exact Hok|exact E1|done].
Qed.

(** [wait_for] never fails: it returns once the task is not running, or the
    rounds run out with the task still running. *)
Lemma wait_for_ok K sched t s :
  fw_inv s -> sched_ok K sched s -> is_Some (f_tasks s !! t) ->
  (exists s' rest, wait_for sched t s = Ret (s', rest) /\ ~ running s' t /\ waited K sched s rest s' /\
     (running s t -> (length rest < length sched)%nat)) \/
  (wait_for sched t s = NoFuel /\ exists e, execs (wait_round t) sched s = Ret e /\ running e t).
Proof.
  revert s. induction sched as [|r sched IH]; intros s Hi Hok [tk Ht]; cbn [Framework.wait_for];
    rewrite (task_state_ok s t tk Ht); cbn [mbind outcome_bind]; destruct (Z.eqb_spec (t_state tk) 1) as [E|E]; cbn [negb].
  2, 4: left; eexists s, _; split; [done|]; split; [intros (tk' & H1 & H2); congruence|];
    split; [by apply waited_refl|intros (tk' & H1 & H2); congruence].
  - right. split; [done|]. exists s. split; [done|]. by exists tk.
  - destruct (wait_round_ok K r sched t s Hi Hok) as (s1 & E1 & Hi1 & Hok1 & Hk); [by eexists|]. cbn [execs]. rewrite E1.
    cbn [mbind outcome_bind].
    destruct (IH s1 Hi1 Hok1) as [(s' & rest & E2 & Hnr & Hw2 & _)|(E2 & e & He & Hr)]; [apply Hk; by eexists| |].
    + left. exists s', rest. split; [done|]. split; [done|]. destruct Hw2 as (A & B & Hk2 & spent & -> & R).
      split; [|cbn; rewrite length_app; lia]. unfold waited. split_and!; [done|done|auto|]. exists (r :: spent).
      split; [done|]. by eapply ran_poll.
    + right. split; [done|]. by exists e.
Qed.

(** [filc_async_wait] returns.  On a handle not yet delivered, if the
    call is completed at some point of what the runtime and the other
    threads do, the wait returns: with the call's final result, the handle
    retired, and the call no longer running. *)
Theorem wait_returns (s s_end : fw) (t : ptr) (sched : list round) :
  fw_reach s -> sched_ok (fun _ => True) sched s -> t ∈ h_handled (f_handles s) ->
  execs (wait_round t) sched s = Ret s_end -> ~ running s_end t ->
  exists tk s' rest, filc_async_wait readonly sched t s = Ret (Some (result_fill tk), s', rest) /\
    f_tasks s' !! t = Some tk /\ t_state tk <> 1 /\ t ∉ h_handled (f_handles s').
Proof.
  intros Hi%fw_reach_inv Hok Hin He Hend. pose proof (fi_handled _ _ Hi t Hin) as Ht.
  unfold filc_async_wait. rewrite (find_task_known readonly s t Hi), decide_True by done.
  destruct (Z.eqb_spec t NULL) as [E|E]; [by destruct (running_addr readonly s t Hi Ht)|].
  destruct (wait_for_ok _ sched t s Hi Hok Ht) as [(s' & rest & -> & Hnr & (Hi' & _ & Hk & _) & _)|(_ & e & E' & Hr)].
  2: { rewrite He in E'. injection E' as <-. done. }
  cbn [mbind outcome_bind]. destruct (Hk t Ht) as [tk Htk].
  assert (Hst : t_state tk <> 1) by (intros ?; apply Hnr; by exists tk).
  destruct (retire_inv readonly s' t tk Hi' Htk Hst) as (h' & Hr' & _ & Eh).
  unfold wait_deliver. rewrite Htk. cbn [deref mbind outcome_bind]. rewrite Hr'. cbn [mbind outcome_bind mret outcome_ret].
  eexists tk, _, rest. split; [done|]. split; [done|]. split; [done|]. cbn. rewrite Eh. set_solver.
Qed.

(** An active call owns the object of [b]. *)
Definition active_owner (act : list ptr) (b : fptr) (s : fw) : Prop :=
  exists x m, mark_on (f_marks s) (f_lower b) x m /\ m_owner m ∈ act.

(** The calls an access from this thread must wait for: those that own the
    object and are not active on the thread, the ones that only read it
    included, unless an active call owned the object ([own]). *)
Definition must_wait (act : list ptr) (own : Prop) (b : fptr) (s : fw) (p : ptr) : Prop :=
  exists x m, mark_on (f_marks s) (f_lower b) x m /\ m_owner m = p /\ p <> NULL /\ ~ (p ∈ act) /\ (m_write m = true \/ ~ own).

Lemma access_waits_iff act own (Own : Prop) b s x m :
  (own = true <-> Own) -> mark_on (f_marks s) (f_lower b) x m -> access_waits act own m = true -> must_wait act Own b s (m_owner m).
Proof.
  intros Hown Hm Ha. exists x, m. split; [done|]. split; [done|]. unfold access_waits, is_active in Ha.
  apply andb_true_iff in Ha as [[Hn%negb_true_iff Hact%negb_true_iff]%andb_true_iff Hw%orb_true_iff].
  apply Z.eqb_neq in Hn. apply bool_decide_eq_false in Hact. split; [done|]. split; [done|].
  destruct Hw as [|Hw%negb_true_iff]; [by left|right]. intros Ho%Hown. congruence.
Qed.

(** Waiting as an access must: the loop ends with nobody left to wait for,
    or it waits in vain for a call it must wait for. *)
Lemma wait_access_loop_ok fuel sched act own Own b s :
  (own = true <-> Own) ->
  fw_inv s -> sched_ok (fun s => buf_ok (f_marks s) b) sched s -> (length sched <= fuel)%nat ->
  (exists s' rest, wait_access_loop readonly fuel sched act own b s = Ret (s', rest) /\
     forall x m, mark_on (f_marks s') (f_lower b) x m -> access_waits act own m = false) \/
  (wait_access_loop readonly fuel sched act own b s = NoFuel /\ in_vain (must_wait act Own b) sched s).
Proof.
  intros HO. revert sched s. induction fuel as [|fuel IH]; intros sched s Hi Hok Hf; cbn [wait_access_loop];
    (assert (Hb : buf_ok (f_marks s) b) by (by destruct sched; destruct Hok));
    destruct (access_owner_ok readonly _ act own b (fi_marks _ _ Hi) Hb) as (p & -> & Hp0 & Hp1); cbn [mbind outcome_bind];
    destruct (Z.eqb_spec p NULL) as [Ep|Ep].
  1, 3: left; exists s, sched; split; [done|]; by apply Hp0.
  all: destruct (Hp1 Ep) as (x & m & Hm & Ha & <-); pose proof (access_waits_iff act own Own b s x m HO Hm Ha) as Hmust;
    pose proof (fi_owns _ _ Hi _ _ _ Hm Ep) as Hr.
  - right. split; [done|]. eapply in_vain_here; [done| |done]. destruct sched; [done|cbn in Hf; lia].
  - assert (Hk : is_Some (f_tasks s !! m_owner m)) by (destruct Hr as (? & ? & _); by eexists).
    destruct (wait_for_ok _ sched (m_owner m) s Hi Hok Hk) as [(s1 & rest & -> & _ & Hw & Hl)|(-> & e & He & Hre)];
      [|right; split; [done|by eapply in_vain_here]].
    cbn [mbind outcome_bind]. pose proof Hw as (Hi1 & Hok1 & _). specialize (Hl Hr).
    destruct (IH rest s1 Hi1 Hok1 ltac:(lia)) as [(s' & rest' & -> & Hdone)|(-> & Hv)].
    + left. by exists s', rest'.
    + right. split; [done|]. by eapply waited_in_vain.
Qed.

(** C13: an access waits for exactly the calls it must.  Unless one of its
    waits is in vain, that is, a call that owns the object, is not active on
    this thread, and, if an active call owned the object when the access
    began, writes it, is still running when the rounds are spent on waiting
    for it, [filc_async_wait_access] (and the access hook, which does the
    same) returns; and when it returns, no such call owns the object.  What
    the other calls do does not matter.  As many turns as there are rounds
    are enough. *)
Theorem wait_access_returns (s : fw) (sched : list round) (act : list ptr) (b : fptr) (fuel : nat) :
  fw_reach s -> sched_ok (fun s => buf_ok (f_marks s) b) sched s -> ~ (NULL ∈ act) -> (length sched <= fuel)%nat ->
  ~ in_vain (must_wait act (active_owner act b s) b) sched s ->
  exists s' rest, filc_async_wait_access readonly fuel sched act b s = Ret (s', rest) /\
  forall x m, mark_on (f_marks s') (f_lower b) x m ->
    m_owner m = NULL \/ m_owner m ∈ act \/ (m_write m = false /\ active_owner act b s).
Proof.
  intros Hi%fw_reach_inv Hok Hact Hf Hend.
  assert (Hb : buf_ok (f_marks s) b) by (by destruct sched; destruct Hok).
  unfold filc_async_wait_access. destruct (Z.eqb_spec (f_addr b) NULL); [by destruct Hb|].
  unfold wait_access_locked. destruct (access_own_ok readonly _ act b (fi_marks _ _ Hi) Hb Hact) as (own & E & Hown).
  rewrite E. cbn [mbind outcome_bind].
  destruct (wait_access_loop_ok fuel sched act own _ b s Hown Hi Hok Hf) as [(s' & rest & -> & Hdone)|[_ Hv]]; [|done].
  exists s', rest. split; [done|]. intros x m Hm.
  specialize (Hdone x m Hm). unfold access_waits, is_active in Hdone.
  destruct (Z.eqb_spec (m_owner m) NULL); [by left|]. case_bool_decide; [right; by left|].
  destruct (m_write m), own; try done. right. right. split; [done|]. by apply Hown.
Qed.

(** *** Taking a dependency lock *)

(** An operation does not look at the wait counts. *)
Lemma fw_exec_counts op s a b c :
  (forall s', fw_exec readonly op (set_wait_counts a b c s) = Ret s' ->
     exists s0 a' b' c', fw_exec readonly op s = Ret s0 /\ s' = set_wait_counts a' b' c' s0) /\
  (fw_op_ok op s -> fw_op_ok op (set_wait_counts a b c s)).
Proof.
  split; [|by destruct op].
  destruct op as [rt m sa fresh ft|u result|op|op|u|k|jrt snap tok jst jfr jfm|jt]; cbn; intros s' He.
  - unfold task_start in *. destruct (rt =? NULL); [done|]. destruct (alloc_or_die fresh); cbn in *; try done.
    destruct (running_add _ _); cbn in *; try done. destruct (handle_add _ _ _); cbn in *; try done.
    injection He as <-. destruct m; eexists _, a, b, c; by split.
  - unfold filc_async_complete in *. destruct (u =? NULL); [injection He as <-; by eexists s, a, b, c|]. cbn in He.
    destruct (f_tasks s !! u) as [tk|]; cbn in *; [|done]. destruct (negb (t_state tk =? 1)); [injection He as <-; by eexists s, a, b, c|].
    destruct (t_meta tk) as [m|]; cbn in *; destruct (remove_marks _ _ _ _); cbn in *; try done;
      destruct (locks_release _ _); cbn in *; try done; destruct (running_remove _ _); cbn in *; try done; injection He as <-.
    + destruct (t_staged_args tk =? NULL); eexists _, a, b, c; by split.
    + eexists _, a, b, c; by split.
  - destruct (lk_exec op (f_locks s)); cbn in *; try done. injection He as <-. eexists _, a, b, c; by split.
  - destruct (mk_exec readonly op (f_marks s)); cbn in *; try done. injection He as <-. eexists _, a, b, c; by split.
  - unfold poll_deliver in *. cbn in *. destruct (f_tasks s !! u) as [tk|]; cbn in *; [|done].
    destruct (t_state tk =? 1); [injection He as <-; by eexists s, a, b, c|].
    destruct (retire_task _ _ _); cbn in *; try done. injection He as <-. eexists _, a, b, c; by split.
  - injection He as <-. exists (count k s). destruct k; by eexists _, _, _.
  - unfold join_start in *. cbn [f_marks f_running set_wait_counts] in He.
    destruct (capacity_loop snap 0 (f_marks s)) as [cap| | |]; cbn [mbind outcome_bind] in *; try done.
    destruct (cap =? 0); [injection He as <-; by eexists s, a, b, c|].
    destruct (gc_alloc_or_die jst); cbn [mbind outcome_bind] in *; try done. destruct (snapshot_loop _ _ _) as [es| | |]; cbn [mbind outcome_bind] in *; try done.
    destruct (cap <? _); [done|]. destruct (gc_alloc_or_die jfr) as [t| | |]; cbn [mbind outcome_bind] in *; try done.
    destruct (mark_add readonly tok t true jfm (f_marks s)); cbn [mbind outcome_bind] in *; try done. destruct (running_add t (f_running s)); cbn [mbind outcome_bind] in *; try done.
    injection He as <-. eexists _, a, b, c; by split.
  - injection He as <-. eexists _, a, b, c; by split.
Qed.

Lemma fw_execs_counts ops s a b c :
  (forall s', fw_execs ops (set_wait_counts a b c s) = Ret s' ->
     exists s0 a' b' c', fw_execs ops s = Ret s0 /\ s' = set_wait_counts a' b' c' s0) /\
  (fw_ops_ok ops s -> fw_ops_ok ops (set_wait_counts a b c s)).
Proof.
  revert s a b c. induction ops as [|op ops IH]; intros s a b c; cbn.
  - split; [|done]. intros s' [= <-]. by eexists s, a, b, c.
  - destruct (fw_exec_counts op s a b c) as [Hx Hy]. split.
    + intros s' He. apply bind_Ret_inv in He as (s1 & H1 & He). destruct (Hx s1 H1) as (s0 & a' & b' & c' & -> & ->).
      cbn. by apply (IH s0 a' b' c').
    + intros [Hop Hok]. split; [by apply Hy|]. intros s1 H1. destruct (Hx s1 H1) as (s0 & a' & b' & c' & H0 & ->).
      apply IH. by apply Hok.
Qed.

Definition count_blind (K : fw -> Prop) : Prop := forall a b c s, K s -> K (set_wait_counts a b c s).

Lemma sched_ok_counts K sched s a b c :
  count_blind K -> sched_ok K sched s -> sched_ok K sched (set_wait_counts a b c s).
Proof.
  intros HK. revert s a b c. induction sched as [|r sched IH]; intros s a b c [Hk Hr]; (split; [by apply HK|]); [done|].
  destruct Hr as [[Hp Hpn] [Hw Hwn]]. split; (split; [by apply fw_execs_counts|]).
  - intros s1 H1. apply fw_execs_counts in H1 as (s0 & a' & b' & c' & H0 & ->).
    destruct (Hpn s0 H0) as (A & B & C). split; [by apply IH|]. split; [by apply fw_execs_counts|].
    intros s2 H2. apply fw_execs_counts in H2 as (s3 & a2 & b2 & c2 & H3 & ->). by apply IH, C.
  - intros s1 H1. apply fw_execs_counts in H1 as (s0 & a' & b' & c' & H0 & ->). by apply IH, Hwn.
Qed.

Lemma fw_inv_counts a b c s : fw_inv s -> fw_inv (set_wait_counts a b c s).
Proof. intros []. by split. Qed.

(** What every operation of a history keeps may be added to [K]. *)
Lemma sched_ok_and (K W : fw -> Prop) (good : fw_op -> Prop) sched s :
  (forall op s s', fw_inv s -> fw_op_ok op s -> fw_exec readonly op s = Ret s' -> good op -> W s -> W s') ->
  Forall (fun r => Forall good (during_poll r) /\ Forall good (during_wait r)) sched ->
  fw_inv s -> sched_ok K sched s -> W s -> sched_ok (fun s => K s /\ W s) sched s.
Proof.
  intros HW.
  assert (Hops : forall ops s s', fw_inv s -> fw_ops_ok ops s -> Forall good ops -> fw_execs ops s = Ret s' -> W s -> fw_inv s' /\ W s').
  { induction ops as [|op ops IHo]; intros s0 s' Hi Hok Hg He Hw; cbn in *; [injection He as <-; by split|].
    destruct Hok as [Hop Hok]. apply Forall_cons in Hg as [Hg0 Hg]. apply bind_Ret_inv in He as (s1 & H1 & He).
    destruct (fw_exec_ok readonly s0 op Hi Hop) as (s1' & H1' & Hi1). rewrite H1 in H1'. injection H1' as <-.
    apply (IHo s1 s'); auto. by apply (HW op s0 s1). }
  revert s. induction sched as [|r sched IH]; intros s Hg Hi [Hk Hr] Hw; (split; [done|]); [done|].
  apply Forall_cons in Hg as [[Hg1 Hg2] Hg]. destruct Hr as [[Hp Hpn] [Hwo Hwn]]. split.
  - split; [done|]. intros s1 H1. destruct (Hpn s1 H1) as (A & B & C). destruct (Hops _ _ _ Hi Hp Hg1 H1 Hw) as [Hi1 Hw1].
    split; [by apply IH|]. split; [done|]. intros s2 H2. destruct (Hops _ _ _ Hi1 B Hg2 H2 Hw1). by apply IH; [..|apply C|].
  - split; [done|]. intros s1 H1. destruct (Hops _ _ _ Hi Hwo Hg2 H1 Hw). by apply IH; [..|apply Hwn|].
Qed.

(** [h] is [t]'s request, still queued, for the lock of [value] and [space]. *)
Definition requested (h t : ptr) (value space : Z) (write : bool) (s : fw) : Prop :=
  exists hd lk, waiting (f_locks s) h hd lk /\ hd_task hd = t /\ hd_write hd = write /\
    l_value lk = value /\ l_space lk = space.

Lemma requested_kept h t value space write op s s' :
  fw_inv s -> fw_op_ok op s -> fw_exec readonly op s = Ret s' -> op <> Lock_op (Grant h) ->
  requested h t value space write s -> requested h t value space write s'.
Proof.
  intros Hi Hop He Hne (hd & lk & Hw & Ht & Hwr & Hv & Hs).
  assert (Hsame : f_locks s' = f_locks s -> requested h t value space write s').
  { intros E. exists hd, lk. rewrite E. by split. }
  destruct op as [rt m sa fresh ft|u result|op|op|u|k|jrt snap tok jst jfr jfm|jt]; cbn in He.
  - apply Hsame. destruct (task_start_ok readonly s rt m sa fresh ft Hi Hop) as (s1 & E & _). rewrite E in He. injection He as ->.
    unfold task_start in E. destruct (rt =? NULL); [done|]. destruct (alloc_or_die fresh); cbn in E; try done.
    destruct (running_add _ _); cbn in E; try done. destruct (handle_add _ _ _); cbn in E; try done. injection E as _ <-. by destruct m.
  - destruct Hop as [->|[[tku Hu] Hnw]]; [cbn in He; injection He as <-; by apply Hsame|].
    destruct (decide (t_state tku = 1)) as [E|E].
    + destruct (filc_async_complete_ok readonly s u result Hi) as (s1 & E1 & _ & Hc); [by exists tku|done|].
      rewrite E1 in He. injection He as ->. destruct (co_waiting _ _ _ _ Hc) as [Hsw EH]. destruct Hw as (Hh & Hl & Hin).
      pose proof (Hsw (hd_lock hd)) as Hq. rewrite Hl in Hq. cbn in Hq.
      destruct (lk_mem (f_locks s') !! hd_lock hd) as [lk'|] eqn:El; [|done]. injection Hq as Hv' Hs' Hw'.
      exists hd, lk'. split; [|split; [done|split; [done|split; congruence]]]. split; [by rewrite EH|]. split; [done|by rewrite Hw'].
    + rewrite (complete_not_running readonly s u result tku) in He by done. injection He as <-. by apply Hsame.
  - apply bind_Ret_inv in He as (l' & He & E). injection E as <-. destruct Hop as [Hlk _].
    destruct (lk_exec_waiting _ _ _ _ _ _ (fi_locks _ _ Hi) Hlk He Hw) as (lk' & Hl' & Hh' & [Hv' Hs'] & Hc).
    exists hd, lk'. split; [|split; [done|split; [done|split; congruence]]]. split; [done|]. split; [done|].
    destruct Hw as (Hh & Hl & Hin). destruct Hc as [[tl ->]|(h' & -> & Hu & _)]; [set_solver|].
    pose proof (lo_nodup _ _ _ (li_lock _ _ (fi_locks _ _ Hi) _ _ Hl)) as (_ & _ & Hnd)%NoDup_app.
    apply (unlink_elem _ _ _ h Hnd Hu). split; [done|]. congruence.
  - inv_ret. by apply Hsame.
  - destruct (poll_deliver_ok readonly s u Hi Hop) as (tku & s1 & Hu & E & _). rewrite E in He. injection He as ->.
    apply Hsame. unfold poll_deliver in E. rewrite Hu in E. cbn in E. destruct (t_state tku =? 1); [by injection E as <-|].
    destruct (retire_task _ _ _); cbn in E; try done. by injection E as <-.
  - injection He as <-. apply Hsame. by destruct k.
  - apply Hsame. by destruct (join_start_running readonly _ _ _ _ _ _ _ _ He).
  - injection He as <-. by apply Hsame.
Qed.

(** [p] is in the way of [t]'s request [h]: it holds the lock, or asked for
    it before [t] did, in a mode that conflicts with the request's. *)
Definition in_the_way (t h : ptr) (s : fw) (p : ptr) : Prop :=
  exists hd lk h' hd', waiting (f_locks s) h hd lk /\ lk_holds (f_locks s) !! h' = Some hd' /\ hd_task hd' = p /\
    conflicts t (hd_write hd) hd' /\
    (h' ∈ l_holders lk \/ exists before after, l_waiters lk = before ++ h :: after /\ h' ∈ before).

(** The loop's test: what it means to wait for [holder], or behind a
    request. *)
Lemma lock_blocked_running s h t value space write :
  fw_inv s -> requested h t value space write s ->
  exists hd lk holder q, waiting (f_locks s) h hd lk /\ lock_blocked h (f_locks s) = Ret (holder, q) /\
    (holder <> NULL -> running s holder /\ in_the_way t h s holder) /\
    (q = true -> exists p, running s p /\ in_the_way t h s p) /\
    (holder = NULL -> forall h' hd', h' ∈ l_holders lk -> lk_holds (f_locks s) !! h' = Some hd' ->
       ~ conflicts (hd_task hd) (hd_write hd) hd').
Proof.
  intros Hi (hd & lk & Hw & Ht & Hwr & Hv & Hs). pose proof Hw as (Hh & Hl & (ws1 & ws2 & Hws)%list_elem_of_split).
  pose proof (fi_locks _ _ Hi) as Hli.
  assert (Hok : lock_ok (lk_holds (f_locks s)) (hd_lock hd) lk) by exact (li_lock _ _ Hli _ _ Hl).
  exists hd, lk. unfold lock_blocked. rewrite Hh. cbn [deref mbind outcome_bind]. rewrite Hl. cbn [deref mbind outcome_bind].
  destruct (lock_conflict_spec ∅ _ Hli _ lk (hd_task hd) (hd_write hd) Hl) as (p & -> & Hp0 & Hp1). cbn [mbind outcome_bind].
  assert (Hnd : NoDup (l_waiters lk)) by (pose proof (lo_nodup _ _ _ Hok) as Hn; by apply NoDup_app in Hn as (_ & _ & ?)).
  rewrite Hws, ahead_of_split by (rewrite Hws in Hnd; apply NoDup_app in Hnd as (_ & Hd & _); intros Hin; apply (Hd h Hin); left).
  cbn [mbind outcome_bind].
  destruct (find_conflict_spec (lk_holds (f_locks s)) (hd_task hd) (hd_write hd) ws1) as (c & -> & Hc).
  { intros x Hx. destruct (lo_hold _ _ _ Hok x) as (hx & ? & _); [rewrite Hws; set_solver|by eexists]. }
  cbn [mbind outcome_bind mret outcome_ret]. eexists p, _. split; [done|]. split; [done|]. split; [|split].
  - intros Hn. destruct (Hp1 Hn) as (h' & hd' & Hin & Hhd' & Hconf & <-).
    split; [|exists hd, lk, h', hd'; rewrite <- Ht; split_and!; try done; by left].
    apply (fi_holds _ _ Hi h'). split; [done|]. exists lk. split; [|done].
    destruct (lo_hold _ _ _ Hok h') as (hx & Hx & Ex); [set_solver|]. rewrite Hhd' in Hx. injection Hx as <-. by rewrite Ex.
  - intros Hq. destruct c as [hd'|]; [|done]. destruct Hc as [Hconf (h' & Hin & Hhd')].
    exists (hd_task hd'). split; [|exists hd, lk, h', hd'; rewrite <- Ht; split_and!; try done; right; by exists ws1, ws2]. apply (fi_waits _ _ Hi h' hd' lk). split; [done|].
    split; [|rewrite Hws; set_solver].
    destruct (lo_hold _ _ _ Hok h') as (hx & Hx & Ex); [rewrite Hws; set_solver|]. rewrite Hhd' in Hx. injection Hx as <-.
    by rewrite Ex.
  - intros ->. by apply Hp0.
Qed.

(** The request was granted: [t] holds the lock of the key. *)
Definition holds_key (h t : ptr) (value space : Z) (write : bool) (s : fw) : Prop :=
  exists hd, held (f_locks s) h hd /\ hd_task hd = t /\ hd_write hd = write /\
    hold_key (f_locks s) hd = Some (value, space).

(** The turn that grants. *)
Lemma lock_turn_grant h t value space write s :
  fw_inv s -> running s t -> requested h t value space write s -> lock_blocked h (f_locks s) = Ret (NULL, false) ->
  exists l, lock_grant h (f_locks s) = Ret l /\ fw_inv (set_locks l s) /\ holds_key h t value space write (set_locks l s).
Proof.
  intros Hi Hr Hreq Hbl.
  destruct (lock_blocked_running s h t value space write Hi Hreq) as (hd & lk & holder & q & Hw & Hbl' & _ & _ & Hfree).
  rewrite Hbl in Hbl'. injection Hbl' as <- <-. destruct Hreq as (hd' & lk' & Hw' & Ht & Hwr & Hv & Hs).
  assert (hd' = hd /\ lk' = lk) as [-> ->].
  { destruct Hw as (A & B & _), Hw' as (A' & B' & _). rewrite A in A'. injection A' as <-. rewrite B in B'. by injection B' as <-. }
  destruct (lock_grant_ok _ h hd lk (fi_locks _ _ Hi) Hw (Hfree eq_refl)) as (l1 & ws & Hg & Hl1 & Hheld & _ & EH & EM).
  exists l1. split; [done|]. split.
  - destruct (fw_exec_ok readonly s (Lock_op (Grant h)) Hi) as (s' & E & Hi').
    + split; [by exists hd, lk|]. intros hd0 H0. destruct Hw as (H1 & _). rewrite H1 in H0. injection H0 as <-. by rewrite Ht.
    + cbn in E. rewrite Hbl in E. cbn in E. rewrite Hg in E. cbn in E. by injection E as ->.
  - exists hd. split; [done|]. split; [done|]. split; [done|]. unfold hold_key. cbn. rewrite EM, lookup_insert_eq. cbn. by rewrite Hv, Hs.
Qed.

(** The turn of [h] that grants: a state where [W] holds, and the grant. *)
Definition granted_in (h t : ptr) (value space : Z) (write : bool) (W : fw -> Prop) (s' : fw) : Prop :=
  fw_inv s' /\ running s' t /\ holds_key h t value space write s' /\
  exists s0, fw_inv s0 /\ W s0 /\ fw_op_ok (Lock_op (Grant h)) s0 /\ fw_exec readonly (Lock_op (Grant h)) s0 = Ret s'.

Lemma granted_in_turn h t value space write (W : fw -> Prop) s :
  fw_inv s -> running s t -> requested h t value space write s -> W s -> lock_blocked h (f_locks s) = Ret (NULL, false) ->
  exists l, lock_grant h (f_locks s) = Ret l /\ granted_in h t value space write W (set_locks l s).
Proof.
  intros Hi Hr Hreq HW Hbl. destruct (lock_turn_grant h t value space write s Hi Hr Hreq Hbl) as (l & Hg & Hi' & Hkey).
  exists l. split; [done|]. split; [done|]. split; [done|]. split; [done|]. exists s. split; [done|]. split; [done|].
  destruct Hreq as (hd & lk & Hw & Ht & _). split.
  - split; [by exists hd, lk|]. intros hd0 H0. destruct Hw as (H1 & _). rewrite H1 in H0. injection H0 as <-. by rewrite Ht.
  - cbn [fw_exec lk_exec]. rewrite Hbl. cbn [mbind outcome_bind Z.eqb negb andb]. change (NULL =? NULL) with true. cbn [andb negb]. by rewrite Hg.
Qed.

Lemma lock_loop_ok (W : fw -> Prop) fuel sched h t value space write w s :
  count_blind W -> fw_inv s -> sched_ok (fun s => (running s t /\ requested h t value space write s) /\ W s) sched s ->
  (length sched <= fuel)%nat ->
  (exists s' rest, lock_loop readonly fuel sched h w s = Ret (s', rest) /\ granted_in h t value space write W s') \/
  (lock_loop readonly fuel sched h w s = NoFuel /\ in_vain (in_the_way t h) sched s).
Proof.
  intros HWc. revert sched w s. induction fuel as [|fuel IH]; intros sched w s Hi Hok Hf; cbn [lock_loop];
    (assert (Hk : (running s t /\ requested h t value space write s) /\ W s) by (by destruct sched; destruct Hok));
    destruct Hk as [[Hrt Hreq] HW];
    destruct (lock_blocked_running s h t value space write Hi Hreq) as (hd & lk & holder & q & Hw & Hbl & Hh1 & Hq1 & _);
    rewrite Hbl; cbn [mbind outcome_bind]; destruct ((holder =? NULL) && negb q) eqn:Egrant.
  1, 3: apply andb_true_iff in Egrant as [->%Z.eqb_eq ->%negb_true_iff];
    destruct (granted_in_turn h t value space write W s Hi Hrt Hreq HW Hbl) as (l & -> & Hgr);
    cbn [mbind outcome_bind]; left; eexists _, sched; by split.
  all: assert (Hblk : sched = [] -> in_vain (in_the_way t h) sched s) by
    (intros ->; apply andb_false_iff in Egrant as [E%Z.eqb_neq|E%negb_false_iff]; [destruct (Hh1 E) as [Hr Hp]|destruct (Hq1 E) as (p & Hr & Hp)];
     by eapply in_vain_here).
  { right. split; [done|]. apply Hblk. destruct sched; [done|cbn in Hf; lia]. }
  set (s0 := if w then s else count Lock_waits s).
  assert (Hs0 : exists a b c, s0 = set_wait_counts a b c s).
  { unfold s0. destruct w; [|by eexists _, _, _]. exists (g_pending_resolves s), (g_lock_waits s), (g_hook_resolves s). by destruct s. }
  destruct Hs0 as (a & b & c & ->).
  assert (Hi0 : fw_inv (set_wait_counts a b c s)) by (by apply fw_inv_counts).
  assert (Hok0 : sched_ok (fun s => (running s t /\ requested h t value space write s) /\ W s) sched (set_wait_counts a b c s))
    by (apply sched_ok_counts; [intros ? ? ? ? [[? ?] ?]; split; [by split|by apply HWc]|done]).
  destruct (Z.eqb_spec holder NULL) as [Eh|Eh].
  - destruct sched as [|r sched]; cbn [wait_changed]; [right; split; [done|by apply Hblk]|].
    destruct Hok0 as [_ [_ [Hwo Hwn]]]. destruct (fw_execs_ok readonly _ _ Hi0 Hwo) as (s1 & E1 & Hi1). rewrite E1.
    cbn [mbind outcome_bind mret outcome_ret].
    destruct (IH sched true s1 Hi1 (Hwn _ E1)) as [(s' & rest & -> & H')|(-> & Hv)]; [cbn in Hf; lia|left; by exists s', rest|].
    right. split; [done|]. apply (in_vain_counts _ a b c), (in_vain_after _ [r] sched _ s1); [|done]. eapply ran_wait; [exact E1|constructor].
  - destruct (Hh1 Eh) as [Hrh Hway]. assert (Hkn : is_Some (f_tasks (set_wait_counts a b c s) !! holder)) by (destruct Hrh as (? & ? & _); by eexists).
    destruct (wait_for_ok _ sched holder _ Hi0 Hok0 Hkn) as [(s1 & rest & -> & _ & Hw1 & Hl)|(-> & e & He & Hre)].
    2: { right. split; [done|]. apply (in_vain_counts _ a b c). by eapply in_vain_here. }
    cbn [mbind outcome_bind]. pose proof Hw1 as (Hi1 & Hok1 & _). specialize (Hl Hrh).
    destruct (IH rest true s1 Hi1 Hok1 ltac:(lia)) as [(s' & rest' & -> & H')|(-> & Hv)]; [left; by exists s', rest'|].
    right. split; [done|]. apply (in_vain_counts _ a b c). by eapply waited_in_vain.
Qed.

(** [lock_take], for a request nobody else grants; [W] is kept by what the
    others do. *)
Lemma lock_take_ok (W : fw -> Prop) (good : fw_op -> Prop) fuel sched t value space mode fl fh s :
  fw_inv s -> fw_op_ok (Lock_op (Request t value space mode fl fh)) s -> (length sched <= fuel)%nat -> count_blind W ->
  (forall op s s', fw_inv s -> fw_op_ok op s -> fw_exec readonly op s = Ret s' -> good op -> W s -> W s') ->
  (forall h l, lock_enqueue t value space mode fl fh (f_locks s) = Ret (h, l) ->
     W (set_locks l s) /\ sched_ok (fun s => running s t) sched (set_locks l s)) ->
  Forall (fun r => Forall (fun op => op <> Lock_op (Grant fh) /\ good op) (during_poll r) /\
                   Forall (fun op => op <> Lock_op (Grant fh) /\ good op) (during_wait r)) sched ->
  (exists s' rest, lock_take readonly fuel sched t value space mode fl fh s = Ret (s', rest) /\
     granted_in fh t value space (mode =? FILC_ASYNC_DEP_WRITE) W s') \/
  (lock_take readonly fuel sched t value space mode fl fh s = NoFuel /\
   exists l, lock_enqueue t value space mode fl fh (f_locks s) = Ret (fh, l) /\ in_vain (in_the_way t fh) sched (set_locks l s)).
Proof.
  intros Hi Hop Hf HWc HW Henv Hng. destruct (fw_exec_ok readonly s _ Hi Hop) as (s1 & E1 & Hi1).
  destruct Hop as [Hlk Hrt]. cbn in E1.
  destruct (lock_enqueue_ok _ t value space mode fl fh (fi_locks _ _ Hi) Hlk) as (l & hd & lk & E & _ & Hw & Ehd & Hv & Hs & _).
  rewrite E in E1. cbn in E1. injection E1 as <-. destruct (Henv fh l E) as [HW1 Hok].
  unfold lock_take. rewrite E. cbn [mbind outcome_bind].
  assert (Hreq : requested fh t value space (mode =? FILC_ASYNC_DEP_WRITE) (set_locks l s)).
  { exists hd, lk. rewrite Ehd. split; [rewrite <- Ehd; done|]. by split. }
  destruct (lock_loop_ok W fuel sched fh t value space (mode =? FILC_ASYNC_DEP_WRITE) false (set_locks l s) HWc Hi1) as [(s' & rest & -> & H')|(-> & Hvain)].
  - apply (sched_ok_and _ _ good); [done| |done| |done].
    + eapply Forall_impl; [exact Hng|]. intros r [H1 H2]. split; [eapply Forall_impl; [exact H1|]|eapply Forall_impl; [exact H2|]]; by intros op [_ ?].
    + apply (sched_ok_and _ _ (fun op => op <> Lock_op (Grant fh))); try done.
      * intros op s2 s3 Hi2 Hop2 He2 Hg2 Hr2. by eapply requested_kept.
      * eapply Forall_impl; [exact Hng|]. intros r [H1 H2]. split; [eapply Forall_impl; [exact H1|]|eapply Forall_impl; [exact H2|]]; by intros op [? _].
  - done.
  - left. by exists s', rest.
  - right. split; [done|]. by exists l.
Qed.

(** C9: taking a dependency lock.  Unless it waits in vain for a call in the
    way, that is, one that holds the lock, or asked for it earlier, in a
    conflicting mode and that is still running when the rounds are spent on
    waiting for it, [lock_take] returns, and then the call holds the key it
    asked for in the mode it asked for.  What the other calls do does not
    matter, as long as they do not grant this request.  As many turns as
    there are rounds are enough. *)
Theorem lock_take_returns (s : fw) (t : ptr) (value space mode : Z) (fl fh : ptr) (sched : list round) (fuel : nat) :
  fw_reach s -> fw_op_ok (Lock_op (Request t value space mode fl fh)) s -> (length sched <= fuel)%nat ->
  (forall h l, lock_enqueue t value space mode fl fh (f_locks s) = Ret (h, l) ->
     sched_ok (fun s => running s t) sched (set_locks l s) /\
     ~ in_vain (in_the_way t fh) sched (set_locks l s)) ->
  Forall (fun r => Forall (fun op => op <> Lock_op (Grant fh)) (during_poll r) /\
                   Forall (fun op => op <> Lock_op (Grant fh)) (during_wait r)) sched ->
  exists s' rest, lock_take readonly fuel sched t value space mode fl fh s = Ret (s', rest) /\
    holds_key fh t value space (mode =? FILC_ASYNC_DEP_WRITE) s'.
Proof.
  intros Hi%fw_reach_inv Hop Hf Henv Hng.
  destruct (lock_take_ok (fun _ => True) (fun _ => True) fuel sched t value space mode fl fh s Hi Hop Hf)
    as [(s' & rest & He & _ & _ & Hk & _)|(_ & l & El & Hv)]; try done.
  - intros h l El. split; [done|]. by apply (Henv h l El).
  - eapply Forall_impl; [exact Hng|]. intros r [H1 H2]. split; [eapply Forall_impl; [exact H1|]|eapply Forall_impl; [exact H2|]]; by intros op ?.
  - by exists s', rest.
  - by destruct (Henv fh l El) as [_ []].
Qed.
End Waits.

(** ** The statistics *)

Section Stats.
Context (readonly : ptr -> bool).
Abbreviation fw_inv := (fw_inv readonly).
Abbreviation fw_reach := (reach (fw_exec readonly) fw_op_ok fw_init).
Abbreviation fw_ops_ok := (ops_ok (fw_exec readonly) fw_op_ok).
Abbreviation fw_execs := (fw_execs readonly).

(** The history of the running list only grows, by at most one task per
    operation. *)
Lemma fw_exec_history op s s' l h :
  fw_inv s -> fw_op_ok op s -> fw_exec readonly op s = Ret s' -> rl_inv (f_running s) l h ->
  exists l' h', rl_inv (f_running s') l' h' /\ h `prefix_of` h' /\ (length h' <= S (length h))%nat.
Proof.
  intros Hi Hop He Hrl. destruct (fi_running _ _ Hi) as (l0 & h0 & Hrl0 & Hl0 & Hh0).
  assert (l0 = l) as -> by (eapply dll_rep_unique; [exact (ri_rep _ _ _ Hrl0)|exact (ri_rep _ _ _ Hrl)]).
  assert (Hdom : forall u, u ∈ h <-> is_Some (f_tasks s !! u)).
  { intros u. rewrite <- Hh0, (ri_dom _ _ _ Hrl0). apply (ri_dom _ _ _ Hrl). }
  assert (Hsame : f_running s' = f_running s -> exists l' h', rl_inv (f_running s') l' h' /\ h `prefix_of` h' /\ (length h' <= S (length h))%nat).
  { intros ->. exists l, h. split; [done|]. split; [done|lia]. }
  destruct op as [rt m sa fresh ft|u result|op|op|u|k|jrt snap tok jst jfr jfm|jt]; cbn in He.
  - pose proof Hop as (Hrt & Haddr & Hnew & Htbl). assert (Hnn : fresh <> NULL) by (unfold is_addr, NULL in *; lia).
    destruct (rl_inv_add _ l h fresh Hrl Hnn) as (r & Hr & Hrl'); [rewrite Hdom, Hnew; by intros [? ?]|].
    exists (l ++ [fresh]), (h ++ [fresh]). split; [|split; [by apply prefix_app_r|rewrite length_app; cbn; lia]].
    unfold task_start, alloc_or_die in He. destruct (rt =? NULL); [done|]. destruct (fresh =? NULL); [done|]. cbn in He.
    rewrite Hr in He. cbn in He. destruct (handle_add _ _ _); cbn in He; try done. injection He as <-. by destruct m.
  - destruct Hop as [->|[[tk Hu] Hnw]]; [cbn in He; injection He as <-; by apply Hsame|].
    unfold filc_async_complete in He. destruct (u =? NULL); [injection He as <-; by apply Hsame|]. rewrite Hu in He. cbn in He.
    destruct (Z.eqb_spec (t_state tk) 1) as [E|E]; cbn in He; [|injection He as <-; by apply Hsame].
    assert (u ∈ l) as [l' Hl']%unlink_Some by (apply Hl0; by exists tk).
    destruct (rl_inv_remove _ l l' h u Hrl Hl') as (r & Hr & Hrl' & _). exists l', h. split; [|split; [done|lia]].
    destruct (t_meta tk); cbn in He; destruct (remove_marks _ _ _ _); cbn in He; try done;
      destruct (locks_release _ _); cbn in He; try done; rewrite Hr in He; cbn in He; injection He as <-; [|done].
    by destruct (t_staged_args tk =? NULL).
  - inv_ret. by apply Hsame.
  - inv_ret. by apply Hsame.
  - apply Hsame. unfold poll_deliver in He. destruct (f_tasks s !! u) as [tk|]; cbn in He; [|done].
    destruct (t_state tk =? 1); cbn in He; [by injection He as <-|].
    destruct (retire_task _ _ _); cbn in He; try done. by injection He as <-.
  - injection He as <-. apply Hsame. by destruct k.
  - pose proof Hop as (_ & _ & Haddr & Hnew & _). assert (Hnn : jfr <> NULL) by (unfold is_addr, NULL in *; lia).
    destruct (join_start_running readonly _ _ _ _ _ _ _ _ He) as (_ & [E|Hr]); [by apply Hsame|].
    destruct (rl_inv_add _ l h jfr Hrl Hnn) as (r & Hr2 & Hrl'); [rewrite Hdom, Hnew; by intros [? ?]|].
    rewrite Hr in Hr2. injection Hr2 as <-. exists (l ++ [jfr]), (h ++ [jfr]). split; [done|]. split; [by apply prefix_app_r|rewrite length_app; cbn; lia].
  - injection He as <-. by apply Hsame.
Qed.

Lemma fw_execs_history ops s s' l h :
  fw_inv s -> fw_ops_ok ops s -> fw_execs ops s = Ret s' -> rl_inv (f_running s) l h ->
  exists l' h', rl_inv (f_running s') l' h' /\ h `prefix_of` h' /\ (length h' <= length ops + length h)%nat.
Proof.
  revert s l h. induction ops as [|op ops IH]; intros s l h Hi Hok He Hrl; cbn in *.
  - injection He as <-. by exists l, h.
  - destruct Hok as [Hop Hok]. apply bind_Ret_inv in He as (s1 & H1 & He).
    destruct (fw_exec_ok readonly s op Hi Hop) as (s1' & H1' & Hi1). rewrite H1 in H1'. injection H1' as <-.
    destruct (fw_exec_history op s s1 l h Hi Hop H1 Hrl) as (l1 & h1 & Hrl1 & Hp1 & Hn1).
    destruct (IH s1 l1 h1 Hi1 (Hok _ H1) He Hrl1) as (l2 & h2 & Hrl2 & Hp2 & Hn2).
    exists l2, h2. split; [done|]. split; [by etrans|lia].
Qed.

(** The operations of each poll may run where they do. *)
Fixpoint polls_ok (polls : list (list fw_op)) (s : fw) : Prop :=
  match polls with
  | [] => True
  | ops :: polls => fw_ops_ok ops s /\ forall s1, fw_execs ops s = Ret s1 -> polls_ok polls s1
  end.

Lemma stats_walk_ok fuel polls t s l h :
  fw_inv s -> polls_ok polls s -> rl_inv (f_running s) l h ->
  (t = NULL \/ exists i, h !! i = Some t /\ (length h + length (concat polls) - i <= fuel)%nat) ->
  exists s', stats_walk readonly fuel polls t s = Ret s' /\ fw_inv s'.
Proof.
  revert polls t s l h. induction fuel as [|fuel IH]; intros polls t s l h Hi Hok Hrl Ht; cbn [stats_walk];
    (destruct (Z.eqb_spec t NULL) as [->|Hn]; [by exists s|]); destruct Ht as [|(i & Hti & Hf)]; [done| |done|].
  { apply lookup_lt_Some in Hti. lia. }
  destruct (fi_running _ _ Hi) as (l0 & h0 & Hrl0 & _ & Hh0).
  assert (is_Some (f_tasks s !! t)) as [tk Htk].
  { apply Hh0, (ri_dom _ _ _ Hrl0), (ri_dom _ _ _ Hrl). by eapply list_elem_of_lookup_2. }
  rewrite (task_state_ok s t tk Htk). cbn [mbind outcome_bind].
  assert (Hstep : exists s1 l1 h1 polls1, (if t_state tk =? 1 then fw_execs (default [] (head polls)) s else mret s) = Ret s1 /\
    polls1 = (if t_state tk =? 1 then tail polls else polls) /\
    fw_inv s1 /\ polls_ok polls1 s1 /\ rl_inv (f_running s1) l1 h1 /\ h `prefix_of` h1 /\
    (length h1 + length (concat polls1) <= length h + length (concat polls))%nat).
  { destruct (t_state tk =? 1); [|by exists s, l, h, polls].
    destruct polls as [|ops polls]; cbn [head default tail]; [by exists s, l, h, []|].
    destruct Hok as [Hops Hnext]. destruct (fw_execs_ok readonly ops s Hi Hops) as (s1 & E1 & Hi1).
    destruct (fw_execs_history ops s s1 l h Hi Hops E1 Hrl) as (l1 & h1 & Hrl1 & Hp1 & Hn1).
    exists s1, l1, h1, polls. split; [exact E1|]. split; [done|]. split; [done|]. split; [by apply Hnext|].
    split; [done|]. split; [done|]. cbn [concat]. rewrite length_app. lia. }
  destruct Hstep as (s1 & l1 & h1 & polls1 & E1 & <- & Hi1 & Hok1 & Hrl1 & Hp1 & Hn1). rewrite E1. cbn [mbind outcome_bind].
  assert (Ht1 : h1 !! i = Some t) by (by eapply prefix_lookup_Some).
  assert (is_Some (rl_nodes (f_running s1) !! t)) as [n Hnt].
  { apply (ri_dom _ _ _ Hrl1). by eapply list_elem_of_lookup_2. }
  rewrite Hnt. cbn [deref mbind outcome_bind]. apply (IH polls1 (newer n) s1 l1 h1 Hi1 Hok1 Hrl1).
  destruct (decide (newer n = NULL)) as [|Hne]; [by left|right].
  destruct (ri_edge _ _ _ Hrl1 _ _ _ Ht1 Hnt Hne) as (j & Hij & Hj). exists j. split; [done|lia].
Qed.

(** The walk ends, in a good state. *)
Lemma get_stats_ok s fuel polls :
  fw_inv s -> polls_ok polls s -> (size (f_tasks s) + length (concat polls) <= fuel)%nat ->
  exists s', filc_async_get_stats readonly fuel polls s =
    Ret (mk_stats (g_submitted s') (g_completed s') (g_failed s') (g_pending_resolves s') (g_lock_waits s') (g_hook_resolves s'), s') /\ fw_inv s'.
Proof.
  intros Hi Hok Hf. destruct (fi_running _ _ Hi) as (l & h & Hrl & _ & Hh).
  assert (Hlen : length h = size (f_tasks s)).
  { rewrite <- (size_dom (f_tasks s)), <- (size_list_to_set (C := gset ptr) h) by apply (ri_hist _ _ _ Hrl).
    f_equal. apply set_eq. intros t. by rewrite elem_of_list_to_set, Hh, elem_of_dom. }
  destruct (stats_walk_ok fuel polls (g_oldest (f_running s)) s l h Hi Hok Hrl) as (s' & Hw & Hi').
  { rewrite (dr_oldest _ _ (ri_rep _ _ _ Hrl)). destruct l as [|x l]; [by left|right]. cbn.
    assert (x ∈ h) as [i Hx]%list_elem_of_lookup by (apply (ri_sub _ _ _ Hrl); left). exists i. split; [done|lia]. }
  unfold filc_async_get_stats. rewrite Hw. by exists s'.
Qed.

(** The statistics are exact.  [filc_async_get_stats] returns, after
    at most as many steps as there are tasks and things happening during
    its polls; the counts it gives are, modulo 2^64, the numbers of
    annotated calls begun, finished, and finished with a negative result,
    as of the moment it returns. *)
Theorem get_stats_exact (s : fw) (fuel : nat) (polls : list (list fw_op)) :
  fw_reach s -> polls_ok polls s -> (size (f_tasks s) + length (concat polls) <= fuel)%nat ->
  exists st s', filc_async_get_stats readonly fuel polls s = Ret (st, s') /\
    tasks_submitted st = u64 (tasks_with annotated s') /\
    tasks_completed st = u64 (tasks_with finished s') /\
    tasks_failed st = u64 (tasks_with failed s').
Proof.
  intros Hi%fw_reach_inv Hok Hf. destruct (get_stats_ok s fuel polls Hi Hok Hf) as (s' & E & Hi').
  eexists _, s'. split; [exact E|]. cbn. split_and!; apply Hi'.
Qed.
End Stats.

(** ** Concrete runs

    Calls 64 and 128 of one annotated function; call 64 holds the key (7, 1)
    for writing and produces the object at 4096. *)

Lemma no_waiting_check (l : locks) (t : ptr) :
  map_Forall (fun _ lk => Forall (fun h => hd_task <$> lk_holds l !! h <> Some t) (l_waiters lk)) (lk_mem l) ->
  forall h hd lk, waiting l h hd lk -> hd_task hd <> t.
Proof.
  intros H h hd lk (Hh & Hl & Hin). pose proof (H _ _ Hl) as Hf. cbn in Hf. rewrite Forall_forall in Hf.
  specialize (Hf h Hin). rewrite Hh in Hf. cbn in Hf. congruence.
Qed.

Ltac fw_running := eexists; split; point.
Ltac fw_op_concrete := idtac;
  lazymatch goal with
  | |- fw_op_ok (Start _ _ _ _ _) _ => split; [point|split; [split; point|split; point]]
  | |- fw_op_ok (Complete _ _) _ => right; split; [point|apply no_waiting_check; point]
  | |- fw_op_ok (Lock_op (Request _ _ _ _ _ _)) _ => split; [lk_op_concrete|fw_running]
  | |- fw_op_ok (Lock_op (Grant _)) _ =>
      split; [lk_op_concrete|
        let hd := fresh in let E := fresh in intros hd E; vm_compute in E; injection E as <-; fw_running]
  | |- fw_op_ok (Mark_op _) _ =>
      split; [mk_op_concrete|split; [first [left; reflexivity|right; fw_running]|exact I]]
  | |- fw_op_ok (Deliver _) _ => point
  | |- fw_op_ok (Count _) _ => exact I
  end.

Abbreviation fw_reach_ro := (reach (fw_exec ro_8192) fw_op_ok fw_init).

Definition fw_run (ops : list fw_op) : fw :=
  match execs (fw_exec ro_8192) ops fw_init with Ret s => s | _ => fw_init end.

Lemma fw_run_reach ops s :
  ops_ok (fw_exec ro_8192) fw_op_ok ops fw_init -> execs (fw_exec ro_8192) ops fw_init = Ret s -> fw_reach_ro s.
Proof. intros Hok He. by eapply execs_reach; [apply reach_init|done|]. Qed.

Definition begin_ops : list fw_op :=
  [Start 4096 (Some meta_read) NULL 64 20480; Start 4096 (Some meta_read) NULL 128 20480;
   Lock_op (Request 64 7 1 FILC_ASYNC_DEP_WRITE 24576 24640); Lock_op (Grant 24640);
   Mark_op (Mark_pending [] 64 buf_a 28672)].

Definition fw_a : fw := fw_run begin_ops.

Lemma fw_a_reach : fw_reach_ro fw_a.
Proof. apply (fw_run_reach begin_ops); [unfold begin_ops; ops_concrete fw_op_concrete|point]. Qed.

Lemma complete_exact_witness :
  exists s', filc_async_complete ro_8192 64 (-5) fw_a = Ret s' /\ completes 64 (-5) fw_a s'.
Proof.
  destruct (complete_exact ro_8192 fw_a 64 (-5) fw_a_reach) as (s' & He & Hc & _); [fw_op_concrete|].
  exists s'. split; [exact He|]. apply Hc. fw_running.
Defined.

Definition complete_64 (s : fw) : fw :=
  match filc_async_complete ro_8192 64 (-5) s with Ret s => s | _ => s end.

Lemma completion_final_witness :
  exists tk, f_tasks (complete_64 fw_a) !! 64 = Some tk /\ t_result tk = -5 /\ t_state tk = 2.
Proof.
  destruct (completion_final ro_8192 fw_a (complete_64 fw_a) (complete_64 fw_a) 64 (-5) [Complete 64 3] fw_a_reach) as (tk & H).
  - fw_op_concrete.
  - fw_running.
  - point.
  - ops_concrete fw_op_concrete.
  - point.
  - exists tk. exact H.
Defined.

(** Call 64 holds a lock and owns a mark; call 128 has a request queued. *)
Definition queued_ops : list fw_op := begin_ops ++ [Lock_op (Request 128 7 1 FILC_ASYNC_DEP_READ 32768 32832)].

Lemma owners_are_running_witness : running (fw_run queued_ops) 64 /\ running (fw_run queued_ops) 128.
Proof.
  destruct (owners_are_running ro_8192 (fw_run queued_ops)) as (Hh & Hw & Ho).
  - apply (fw_run_reach queued_ops); [unfold queued_ops, begin_ops; cbn [app]; ops_concrete fw_op_concrete|point].
  - split.
    + apply (Hh 24640 (mk_hold 64 24576 true)). split; [point|]. eexists. split; [point|]. vm_compute. left.
    + eapply (Hw 32832 (mk_hold 128 24576 false)). split; [point|]. split; [point|]. vm_compute. left.
Defined.

Definition polled_64 : fw :=
  match filc_async_poll ro_8192 [Complete 64 9] 64 fw_a with Ret (_, _, s) => s | _ => fw_a end.

Lemma poll_delivers_once_witness :
  filc_async_poll ro_8192 [Complete 64 9] 64 fw_a = Ret (true, Some (mk_result 9 0), polled_64) /\
  filc_async_poll ro_8192 [] 64 polled_64 = Ret (false, None, polled_64).
Proof.
  assert (H : filc_async_poll ro_8192 [Complete 64 9] 64 fw_a = Ret (true, Some (mk_result 9 0), polled_64)) by point.
  split; [exact H|].
  apply (poll_delivers_once ro_8192 fw_a polled_64 polled_64 64 _ [Complete 64 9] [] [] fw_a_reach) in H as [_ H].
  - exact H.
  - ops_concrete fw_op_concrete.
  - exact I.
  - reflexivity.
Defined.

Definition round_64 : round := mk_round [Complete 64 9] true [].

Ltac round_cbn := cbn [during_poll during_wait];
  repeat match goal with |- context [?r] => is_const r; lazymatch type of r with round => unfold r end end; cbn [during_poll during_wait].

Ltac sched_concrete tac :=
  lazymatch goal with
  | |- sched_ok _ _ [] _ => split; [tac|exact I]
  | |- sched_ok _ _ (_ :: _) _ =>
      split; [tac|]; split;
      (split; [round_cbn; ops_concrete fw_op_concrete|
        after_call;
        first [ sched_concrete tac
              | (split; [sched_concrete tac|]; split; [round_cbn; ops_concrete fw_op_concrete|];
                 after_call; sched_concrete tac) ]])
  end.

Lemma wait_returns_witness :
  exists tk s' rest, filc_async_wait ro_8192 [round_64] 64 fw_a = Ret (Some (result_fill tk), s', rest) /\
    f_tasks s' !! 64 = Some tk.
Proof.
  destruct (wait_returns ro_8192 fw_a
    (match execs (wait_round ro_8192 64) [round_64] fw_a with Ret s => s | _ => fw_a end) 64 [round_64] fw_a_reach)
    as (tk & s' & rest & H1 & H2 & _).
  - sched_concrete ltac:(exact I).
  - point.
  - point.
  - intros (tk & H1 & H2). vm_compute in H1. injection H1 as <-. discriminate.
  - exists tk, s', rest. split; [exact H1|exact H2].
Defined.

Lemma ran_nil_inv readonly s e : ran readonly [] s e -> exists a b c, e = set_wait_counts a b c s.
Proof.
  intros H. remember (@nil round) as sched eqn:E. induction H; try discriminate.
  - exists (g_pending_resolves s), (g_lock_waits s), (g_hook_resolves s). by destruct s.
  - destruct (IHran E) as (a' & b' & c' & ->). by exists a', b', c'.
Qed.

(** A round after which [P] holds, however it is spent. *)
Definition leaves (readonly : ptr -> bool) (r : round) (s : fw) (P : fw -> Prop) : Prop :=
  forall e, ran readonly [r] s e -> P e.

Lemma leaves_one readonly r s (P : fw -> Prop) :
  (forall a b c t s1, wait_round readonly t r (set_wait_counts a b c s) = Ret s1 -> P s1) ->
  (forall a b c s1, fw_execs readonly (during_wait r) (set_wait_counts a b c s) = Ret s1 -> P s1) ->
  count_blind P -> leaves readonly r s P.
Proof.
  intros Hp Hw HP e H. assert (Hgen : forall sched s0, ran readonly sched s0 e -> sched = [r] ->
    (exists a b c, s0 = set_wait_counts a b c s) -> P e).
  { clear H. intros sched s0 H. induction H as [s0|t r' sched s0 s1 e He H _|r' sched s0 s1 e He H _|a b c sched s0 e H IH];
      intros E (a0 & b0 & c0 & E0); try discriminate.
    - injection E as -> ->. apply ran_nil_inv in H as (a & b & c & ->). subst s0. by eapply HP, Hp.
    - injection E as -> ->. apply ran_nil_inv in H as (a & b & c & ->). subst s0. by eapply HP, Hw.
    - apply IH; [done|]. subst s0. by exists a, b, c. }
  apply (Hgen [r] s H eq_refl). exists (g_pending_resolves s), (g_lock_waits s), (g_hook_resolves s). by destruct s.
Qed.

(** A wait in vain of one round: the call runs after it, and is to be waited
    for after it or before it. *)
Lemma in_vain_one readonly P r s : in_vain readonly P [r] s ->
  exists e p, ran readonly [r] s e /\ running e p /\ (P e p \/ exists a b c, P (set_wait_counts a b c s) p).
Proof.
  intros (c1 & c2 & s1 & e & p & E & H1 & HP & He & Hp). destruct c1 as [|r1 c1]; cbn in E.
  - subst c2. apply ran_nil_inv in H1 as (a & b & c & ->). exists e, p. split; [|split; [done|right; by exists a, b, c]].
    by apply (ran_count _ a b c), (ran_waiting _ p).
  - injection E as <- E. symmetry in E. apply app_eq_nil in E as [-> ->]. cbn in He. injection He as <-. exists s1, p. auto.
Qed.

(** The tasks a state has running, listed. *)
Definition running_list (s : fw) : list ptr :=
  map fst (filter (fun kt : ptr * task => t_state kt.2 = 1) (map_to_list (f_tasks s))).

Lemma running_listed s p : running s p -> p ∈ running_list s.
Proof.
  intros (tk & Ht & Hst). unfold running_list. apply list_elem_of_fmap. exists (p, tk). split; [done|].
  apply list_elem_of_filter. split; [done|]. by apply elem_of_map_to_list.
Qed.

Definition only_128_running (s : fw) : Prop :=
  running_list s = [128] /\ map_Forall (fun _ m => m_owner m <> 128) (mk_mem (f_marks s)).
Definition only_128_after (o : outcome fw) : bool := match o with Ret s => bool_decide (running_list s = [128] /\ map_Forall (fun _ m => m_owner m <> 128) (mk_mem (f_marks s))) | _ => true end.

Lemma only_128_spec s p : only_128_running s -> running s p -> p = 128 /\ forall l x m, mark_on (f_marks s) l x m -> m_owner m <> 128.
Proof.
  intros [E Ho] Hp%running_listed. rewrite E in Hp. split; [by apply list_elem_of_singleton|]. intros l x m (_ & Hm & _). exact (Ho x m Hm).
Qed.

Lemma wait_round_done readonly t r s s1 :
  poll_done r = true -> wait_round readonly t r s = Ret s1 -> fw_execs readonly (during_poll r) s = Ret s1.
Proof.
  unfold wait_round. intros -> He. destruct (fw_execs _ _ _) as [s2| | |]; try discriminate. cbn in He. unfold task_state in He.
  by destruct (f_tasks s2 !! t).
Qed.

(** Another thread completes call 64, whether this one polls or sleeps; call
    128 goes on running. *)
Definition round_free : round := mk_round [Complete 64 9] true [Complete 64 9].

Lemma round_free_leaves s :
  (forall a b c, only_128_after (fw_execs ro_8192 [Complete 64 9] (set_wait_counts a b c s)) = true) -> leaves ro_8192 round_free s only_128_running.
Proof.
  intros H. apply leaves_one; [| |by intros a b c s0].
  - intros a b c t s1 He. apply (wait_round_done _ t round_free _ _ eq_refl) in He. specialize (H a b c). cbn [during_poll round_free] in He. rewrite He in H. exact (bool_decide_eq_true_1 _ H).
  - intros a b c s1 He. specialize (H a b c). cbn [during_wait round_free] in He. rewrite He in H. exact (bool_decide_eq_true_1 _ H).
Qed.

Lemma access_not_in_vain : ~ in_vain ro_8192 (must_wait [] (active_owner [] buf_a fw_a) buf_a) [round_free] fw_a.
Proof.
  intros (e & p & He & Hp & HP)%in_vain_one.
  apply round_free_leaves in He; [|intros a b c; vm_compute; reflexivity].
  destruct (only_128_spec e p He Hp) as [-> Ho]. destruct HP as [(x & m & Hm & Hmo & _)|(a & b & c & x & m & (_ & Hm & _) & Hmo & _)]; [by destruct (Ho _ _ _ Hm)|].
  revert Hm Hmo. apply (bool_decide_unpack (map_Forall (fun _ m => m_owner m <> 128) (mk_mem (f_marks fw_a)))). vm_compute. exact I.
Qed.

Lemma wait_access_returns_witness :
  exists s' rest, filc_async_wait_access ro_8192 1 [round_free] [] buf_a fw_a = Ret (s', rest) /\
    forall x m, mark_on (f_marks s') 4096 x m -> m_owner m = NULL.
Proof.
  destruct (wait_access_returns ro_8192 fw_a [round_free] [] buf_a 1 fw_a_reach) as (s' & rest & H1 & H2).
  - sched_concrete ltac:(cbn beta; mk_buf).
  - point.
  - cbn; lia.
  - exact access_not_in_vain.
  - exists s', rest. split; [exact H1|]. intros x m Hm.
    destruct (H2 x m Hm) as [E|[H|[_ (y & m' & _ & H)]]]; [exact E|destruct (not_elem_of_nil _ H)..].
Defined.

(** Call 128 asks for the key that call 64 holds; while it waits, call 64 is
    completed. *)
Definition take_lock : ptr * locks :=
  match lock_enqueue 128 7 1 FILC_ASYNC_DEP_READ 32768 32832 (f_locks fw_a) with Ret r => r | _ => (NULL, f_locks fw_a) end.
Definition fw_b : fw := set_locks (snd take_lock) fw_a.

Lemma lock_not_in_vain : ~ in_vain ro_8192 (in_the_way 128 32832) [round_free] fw_b.
Proof.
  intros (e & p & He & Hp & HP)%in_vain_one. apply round_free_leaves in He; [|intros a b c; vm_compute; reflexivity].
  destruct (only_128_spec e p He Hp) as [-> _]. destruct HP as [HP|(a & b & c & HP)]; by destruct HP as (hd & lk & h' & hd' & _ & _ & E & [Hne _] & _).
Qed.

Lemma lock_take_returns_witness :
  exists s' rest, lock_take ro_8192 1 [round_free] 128 7 1 FILC_ASYNC_DEP_READ 32768 32832 fw_a = Ret (s', rest) /\
    holds_key 32832 128 7 1 false s'.
Proof.
  apply (lock_take_returns ro_8192 fw_a 128 7 1 FILC_ASYNC_DEP_READ 32768 32832 [round_free] 1 fw_a_reach).
  - fw_op_concrete.
  - cbn; lia.
  - intros h l E.
    assert (E2 : lock_enqueue 128 7 1 FILC_ASYNC_DEP_READ 32768 32832 (f_locks fw_a) = Ret take_lock) by point.
    rewrite E in E2. apply Ret_inj in E2. assert (El : set_locks l fw_a = fw_b) by (unfold fw_b; rewrite <- E2; reflexivity).
    rewrite El. split.
    + sched_concrete ltac:(cbn beta; fw_running).
    + exact lock_not_in_vain.
  - repeat constructor; discriminate.
Defined.

Lemma get_stats_exact_witness :
  exists st s', filc_async_get_stats ro_8192 4 [[Complete 64 (-5)]; []] fw_a = Ret (st, s') /\
    tasks_submitted st = 2 /\ tasks_failed st = u64 (tasks_with failed s').
Proof.
  destruct (get_stats_exact ro_8192 fw_a 4 [[Complete 64 (-5)]; []] fw_a_reach) as (st & s' & H1 & _ & _ & H2).
  - split; [ops_concrete fw_op_concrete|]. intros s1 E. vm_compute in E. injection E as <-. by split.
  - vm_compute. lia.
  - exists st, s'. split; [exact H1|]. split; [|exact H2]. vm_compute in H1. by injection H1 as <- _.
Defined.
