(* ===== verification/JoinPoll.v ===== *)
(** * JoinPoll: wait_all

    [filc_async_wait_all] and [join_poll] of [framework/filc_async.c], over
    the framework's state: the first lists the calls producing the given
    objects and starts a task that owns a write mark on a token, the second
    is that task's runtime.  It polls every producer still pending and
    completes the task when none is.  A [join_round] says what the polled
    runtimes and the other threads do while [g_lock] is given up in one turn
    of its loop. *)

From S2P Require Import Prelude Buckets Handles RunList Locks Marks Joins Meta Framework.
Open Scope Z_scope.

Record join_round := mk_join_round {
  jr_polls : list (list fw_op);   (* during the poll of each producer in turn *)
  jr_unlocked : list fw_op;       (* between the last test and the completion *)
  jr_done : list fw_op;           (* between the completion and the last lock *)
  jr_wait : list fw_op;           (* while [wait_changed] sleeps *)
}.

(** The allocators' answers to one wait_all. *)
Record wait_all_allocs := mk_allocs {
  wa_snapshot : ptr; wa_token : fptr; wa_state : ptr; wa_task : ptr; wa_mark : ptr;
}.

Section Join.
Context (readonly : ptr -> bool).

(** The [n] first pointers of an array. *)
Definition read_array (n : nat) (buffers : option (list fptr)) : outcome (list fptr) :=
  match n with
  | O => mret []
  | _ => l ← deref buffers; if (length l <? n)%nat then Trap else mret (take n l)
  end.

Definition filc_async_wait_all (rt : ptr) (buffers : option (list fptr)) (n : Z) (a : wait_all_allocs) (s : fw)
  : outcome (fptr * fw) :=
  if (bool_decide (buffers = None) && negb (n =? 0)) || (SIZE_MAX / 8 <? n) then Fatal "wait_all: invalid input array"
  else
    _ ← (if n =? 0 then mret NULL else gc_alloc_or_die (wa_snapshot a));
    snapshot ← read_array (Z.to_nat n) buffers;
    if f_addr (wa_token a) =? NULL then Fatal "out of memory"
    else
      s ← join_start readonly rt snapshot (wa_token a) (wa_state a) (wa_task a) (wa_mark a) s;
      mret (wa_token a, s).

(** The loop that polls the producers. *)
Fixpoint poll_producers (polls : list (list fw_op)) (entries : list join_entry) (s : fw) : outcome fw :=
  match entries with
  | [] => mret s
  | e :: entries =>
      p ← join_entry_pending e (f_marks s);
      if negb p then poll_producers polls entries s
      else
        m ← deref (mk_mem (f_marks s) !! e_mark e);
        if m_owner m =? NULL then poll_producers polls entries s
        else
          _ ← deref (f_tasks s !! m_owner m);
          s ← fw_execs readonly (default [] (head polls)) s;
          poll_producers (tail polls) entries s
  end.

Fixpoint join_loop (sched : list join_round) (mode : filc_async_poll_mode) (t : ptr) (data : option (list join_entry)) (s : fw)
  : outcome (bool * fw * list join_round) :=
  st ← task_state s t;
  if negb (st =? 1) then mret (true, s, sched)
  else
    match sched with
    | [] => NoFuel
    | r :: sched =>
        entries ← deref data;
        s ← poll_producers (jr_polls r) entries s;
        pending ← any_pending entries (f_marks s);
        if negb pending then
          s ← fw_execs readonly (jr_unlocked r) s;
          s ← filc_async_complete readonly t 0 s;
          s ← fw_execs readonly (jr_done r) s;
          mret (true, set_joins (delete t (f_joins s)) s, sched)
        else
          match mode with
          | FILC_ASYNC_POLL_BLOCK => s ← fw_execs readonly (jr_wait r) s; join_loop sched mode t data s
          | _ => st ← task_state s t; mret (negb (st =? 1), s, sched)
          end
    end.

Definition join_poll (sched : list join_round) (mode : filc_async_poll_mode) (t : ptr) (s : fw) :=
  join_loop sched mode t (f_joins s !! t) s.
End Join.

(** ** What an operation does to joins *)

Section Steps.
Context (readonly : ptr -> bool).
Abbreviation fw_inv := (fw_inv readonly).

Lemma fw_exec_ages op s s' : fw_inv s -> fw_op_ok op s -> fw_exec readonly op s = Ret s' -> ages (f_marks s) (f_marks s').
Proof.
  intros Hi Hop He. destruct op as [rt m sa fresh ft|u result|op|op|u|c|rt snap tok st fr fm|u]; cbn [fw_exec] in He.
  - apply ages_same_mem. apply bind_Ret_inv in He as ([? s1] & He & E). injection E as ->. unfold task_start in He.
    destruct (rt =? NULL); [done|]. apply bind_Ret_inv in He as (? & _ & He). apply bind_Ret_inv in He as (? & _ & He).
    apply bind_Ret_inv in He as (? & _ & He). injection He as _ <-. by destruct m.
  - unfold filc_async_complete in He. destruct (u =? NULL); [injection He as <-; apply ages_refl|].
    apply bind_Ret_inv in He as (tk & _ & He). destruct (negb _); [injection He as <-; apply ages_refl|].
    apply bind_Ret_inv in He as (k & Hk & He). apply bind_Ret_inv in He as (l & _ & He). apply bind_Ret_inv in He as (r & _ & He).
    apply remove_marks_ages in Hk. injection He as <-. destruct (t_meta tk); [destruct (t_staged_args tk =? NULL)|]; exact Hk.
  - apply bind_Ret_inv in He as (? & _ & He). injection He as <-. apply ages_refl.
  - apply bind_Ret_inv in He as (k & Hk & He). injection He as <-. destruct Hop as (Hok & _).
    eapply mk_exec_ages; [by apply mk_op_ok_fresh|exact Hk].
  - apply ages_same_mem. apply bind_Ret_inv in He as ([[? ?] s1] & He & E). injection E as ->. unfold poll_deliver in He.
    apply bind_Ret_inv in He as (tk & _ & He). destruct (t_state tk =? 1); [by injection He as _ _ <-|].
    apply bind_Ret_inv in He as (? & _ & He). by injection He as _ _ <-.
  - injection He as <-. apply ages_same_mem. by destruct c.
  - destruct (join_start_ok readonly _ _ _ _ _ _ _ Hi Hop) as (s1 & es & E & _ & _ & [[_ ->]|[_ Hj]]); rewrite E in He; injection He as <-;
      [apply ages_refl|apply Hj].
  - injection He as <-. apply ages_refl.
Qed.

(** Only wait_all and the end of [join_poll] change the joins. *)
Lemma fw_exec_joins op s s' : fw_inv s -> fw_op_ok op s -> fw_exec readonly op s = Ret s' ->
  match op with
  | Wait_all rt snap tok st fr fm => f_joins s' = f_joins s \/
      exists es, f_joins s' = <[fr := es]> (f_joins s) /\ snapshot_of (f_marks s) snap es /\ join_started rt tok fr es s s'
  | Clear_join t => f_joins s' = delete t (f_joins s)
  | _ => f_joins s' = f_joins s
  end.
Proof.
  intros Hi Hop He. destruct op as [rt m sa fresh ft|u result|op|op|u|c|rt snap tok st fr fm|u]; cbn [fw_exec] in He.
  - apply bind_Ret_inv in He as ([? s1] & He & E). injection E as ->. unfold task_start in He.
    destruct (rt =? NULL); [done|]. apply bind_Ret_inv in He as (? & _ & He). apply bind_Ret_inv in He as (? & _ & He).
    apply bind_Ret_inv in He as (? & _ & He). injection He as _ <-. by destruct m.
  - unfold filc_async_complete in He. destruct (u =? NULL); [by injection He as <-|].
    apply bind_Ret_inv in He as (tk & _ & He). destruct (negb _); [by injection He as <-|].
    apply bind_Ret_inv in He as (k & _ & He). apply bind_Ret_inv in He as (l & _ & He). apply bind_Ret_inv in He as (r & _ & He).
    injection He as <-. by destruct (t_meta tk); [destruct (t_staged_args tk =? NULL)|].
  - apply bind_Ret_inv in He as (? & _ & He). by injection He as <-.
  - apply bind_Ret_inv in He as (k & _ & He). by injection He as <-.
  - apply bind_Ret_inv in He as ([[? ?] s1] & He & E). injection E as ->. unfold poll_deliver in He.
    apply bind_Ret_inv in He as (tk & _ & He). destruct (t_state tk =? 1); [by injection He as _ _ <-|].
    apply bind_Ret_inv in He as (? & _ & He). by injection He as _ _ <-.
  - injection He as <-. by destruct c.
  - destruct (join_start_ok readonly _ _ _ _ _ _ _ Hi Hop) as (s1 & es & E & _ & Hsn & [[_ ->]|[_ Hj]]); rewrite E in He; injection He as <-;
      [by left|right]. exists es. split; [apply Hj|by split].
  - by injection He as <-.
Qed.

Lemma running_kept op s s' t :
  fw_inv s -> fw_op_ok op s -> fw_exec readonly op s = Ret s' -> running s t -> (forall r, op <> Complete t r) -> running s' t.
Proof.
  intros Hi Hop He (tk & Ht & Hst) Hne. destruct op as [rt m sa fresh ft|u result|op|op|u|c|rt snap tok st fr fm|u]; cbn [fw_exec] in He.
  - destruct (task_start_ok readonly s rt m sa fresh ft Hi Hop) as (s1 & E & _ & Et & _). rewrite E in He. injection He as <-.
    exists tk. rewrite Et. destruct Hop as (_ & _ & Hn & _). rewrite lookup_insert_ne by congruence. done.
  - assert (u <> t) by (intros ->; by eapply Hne). destruct Hop as [->|[[tku Hu] Hnw]]; [cbn in He; injection He as <-; by exists tk|].
    destruct (decide (t_state tku = 1)) as [E|E].
    + destruct (filc_async_complete_ok readonly s u result Hi) as (s1 & E1 & _ & Hc); [by exists tku|done|].
      rewrite E1 in He. injection He as ->. destruct (co_tasks _ _ _ _ Hc) as (tk1 & H1 & Et). exists tk. rewrite Et, lookup_insert_ne; done.
    + rewrite (complete_not_running readonly s u result tku) in He by done. injection He as <-. by exists tk.
  - apply bind_Ret_inv in He as (? & _ & He). injection He as <-. by exists tk.
  - apply bind_Ret_inv in He as (k & _ & He). injection He as <-. by exists tk.
  - destruct (poll_deliver_ok readonly s u Hi Hop) as (tku & s1 & _ & E & _ & Et & _). rewrite E in He. injection He as <-. exists tk. by rewrite Et.
  - injection He as <-. exists tk. by destruct c.
  - destruct (join_start_ok readonly _ _ _ _ _ _ _ Hi Hop) as (s1 & es & E & _ & _ & [[_ ->]|[_ Hj]]); rewrite E in He; injection He as <-; [by exists tk|].
    exists tk. rewrite (js_tasks _ _ _ _ _ _ Hj). destruct Hop as (_ & _ & _ & Hn & _). rewrite lookup_insert_ne by congruence. done.
  - injection He as <-. by exists tk.
Qed.

Lemma fw_exec_waiting op s s' h hd lk :
  fw_inv s -> fw_op_ok op s -> fw_exec readonly op s = Ret s' -> waiting (f_locks s') h hd lk ->
  (exists lk0, waiting (f_locks s) h hd lk0) \/ exists v sp md fl fh, op = Lock_op (Request (hd_task hd) v sp md fl fh).
Proof.
  intros Hi Hop He Hw. assert (Hsame : f_locks s' = f_locks s -> exists lk0, waiting (f_locks s) h hd lk0) by (intros E; rewrite E in Hw; by exists lk).
  destruct op as [rt m sa fresh ft|u result|op|op|u|c|rt snap tok st fr fm|u]; cbn [fw_exec] in He.
  - left. apply Hsame. apply bind_Ret_inv in He as ([? s1] & He & E). injection E as ->. unfold task_start in He.
    destruct (rt =? NULL); [done|]. apply bind_Ret_inv in He as (? & _ & He). apply bind_Ret_inv in He as (? & _ & He).
    apply bind_Ret_inv in He as (? & _ & He). injection He as _ <-. by destruct m.
  - left. destruct Hop as [->|[[tku Hu] Hnw]]; [cbn in He; injection He as <-; by apply Hsame|].
    destruct (decide (t_state tku = 1)) as [E|E].
    + destruct (filc_async_complete_ok readonly s u result Hi) as (s1 & E1 & _ & Hc); [by exists tku|done|].
      rewrite E1 in He. injection He as ->. destruct (co_waiting _ _ _ _ Hc) as [Hsw EH]. destruct Hw as (Hh & Hl & Hin).
      pose proof (Hsw (hd_lock hd)) as Hq. rewrite Hl in Hq. destruct (lk_mem (f_locks s) !! hd_lock hd) as [lk1|] eqn:El; [|done].
      injection Hq as _ _ Hq. exists lk1. split; [by rewrite <- EH|]. split; [done|by rewrite <- Hq].
    + rewrite (complete_not_running readonly s u result tku) in He by done. injection He as <-. by apply Hsame.
  - apply bind_Ret_inv in He as (l' & He & E). injection E as <-. destruct Hop as [Hlk _].
    destruct (lk_exec_new_waiting _ _ _ _ _ _ (fi_locks _ _ Hi) Hlk He Hw) as [?|Hnew]; [by left|right].
    destruct op as [t v sp md fl fh|g|t]; try done. rewrite Hnew. by eexists _, _, _, _, _.
  - left. apply Hsame. apply bind_Ret_inv in He as (k & _ & He). by injection He as <-.
  - left. apply Hsame. apply bind_Ret_inv in He as ([[? ?] s1] & He & E). injection E as ->. unfold poll_deliver in He.
    apply bind_Ret_inv in He as (tk & _ & He). destruct (t_state tk =? 1); [by injection He as _ _ <-|].
    apply bind_Ret_inv in He as (? & _ & He). by injection He as _ _ <-.
  - left. apply Hsame. injection He as <-. by destruct c.
  - left. apply Hsame. by destruct (join_start_running readonly _ _ _ _ _ _ _ _ He).
  - left. apply Hsame. by injection He as <-.
Qed.
End Steps.

(** ** The joins' invariant *)

Section Joins.
Context (readonly : ptr -> bool).
Abbreviation fw_inv := (fw_inv readonly).

Definition gone (s : fw) (e : join_entry) : Prop := entry_pending (f_marks s) e = false.

(** A join completes only when its producers are gone, and never takes a
    dependency lock. *)
Record joins_inv (s : fw) : Prop := {
  ji_join : forall t es, f_joins s !! t = Some es ->
    is_Some (f_tasks s !! t) /\ Forall (entry_made (f_marks s)) es /\ (running s t \/ Forall (gone s) es);
  ji_waits : forall h hd lk, waiting (f_locks s) h hd lk -> f_joins s !! hd_task hd = None;
}.

(** Who completes a join: its own runtime, when nothing is pending.  That
    [join_poll] keeps to this, whatever the threads inside it, is proved in
    the file JoinRun. *)
Definition join_op_ok (op : fw_op) (s : fw) : Prop :=
  fw_op_ok op s /\
  match op with
  | Complete t _ => forall es, f_joins s !! t = Some es -> Forall (gone s) es
  | Clear_join t => ~ running s t
  | Lock_op (Request t _ _ _ _ _) => f_joins s !! t = None
  | _ => True
  end.

Lemma joins_init_inv : joins_inv fw_init.
Proof.
  split; cbn; [by intros t es; rewrite lookup_empty|]. intros h hd lk _. by rewrite lookup_empty.
Qed.

Lemma gone_step s s' e : ages (f_marks s) (f_marks s') -> entry_made (f_marks s) e -> gone s e -> gone s' e.
Proof. apply gone_ages. Qed.

Lemma snapshot_made s snap es : snapshot_of s snap es -> Forall (entry_made s) es.
Proof.
  intros [_ Hs]. rewrite Forall_forall. intros e (b & m & _ & _ & (_ & Hm & _) & _ & Hg)%Hs. exists m. split; [done|lia].
Qed.

Lemma join_kept op s s' t es :
  fw_inv s -> join_op_ok op s -> fw_exec readonly op s = Ret s' -> joins_inv s -> f_joins s !! t = Some es ->
  is_Some (f_tasks s' !! t) /\ Forall (entry_made (f_marks s')) es /\ (running s' t \/ Forall (gone s') es).
Proof.
  intros Hi [Hop Hj] He Hji Hes. destruct (ji_join _ Hji t es Hes) as ([tk Htk] & Hm & Hr).
  pose proof (fw_exec_ages readonly op s s' Hi Hop He) as Ha.
  destruct (fw_exec_task readonly s op s' t tk Hi Hop He Htk) as (tk' & Htk' & _). split; [by exists tk'|].
  assert (Hg : Forall (gone s) es -> Forall (gone s') es).
  { rewrite !Forall_forall in *. intros Hg e Hin. eapply gone_step; [done|by apply Hm|by apply Hg]. }
  split; [eapply Forall_impl; [exact Hm|intros e; by apply entry_made_ages]|].
  destruct Hr as [Hr|Hgone]; [|right; auto].
  destruct op as [| u r | | | | | |]; try (left; by eapply running_kept).
  destruct (decide (u = t)) as [->|Hne]; [right; by apply Hg, Hj|]. left. eapply running_kept; try done. intros r' [= E _]. congruence.
Qed.

Lemma joins_step op s s' :
  fw_inv s -> join_op_ok op s -> fw_exec readonly op s = Ret s' -> joins_inv s -> joins_inv s'.
Proof.
  intros Hi Hjop He Hji. pose proof Hjop as [Hop Hj]. pose proof (fw_exec_joins readonly op s s' Hi Hop He) as Hc.
  assert (Hsub : forall t es, f_joins s' !! t = Some es -> f_joins s !! t = Some es \/
     exists rt snap tok st fm, op = Wait_all rt snap tok st t fm /\ snapshot_of (f_marks s) snap es /\ join_started rt tok t es s s').
  { intros t es. destruct op as [| | | | | |rt snap tok st fr fm|u]; try (rewrite Hc; by left).
    - destruct Hc as [->|(es0 & -> & Hsn & Hst)]; [by left|]. rewrite lookup_insert. case_decide as E; [|by left].
      intros [= <-]. right. subst fr. by eexists _, _, _, _, _.
    - rewrite Hc, lookup_delete. case_decide; [done|by left]. }
  split.
  - intros t es [Hes|(rt & snap & tok & st & fm & -> & Hsn & Hst)]%Hsub; [by eapply join_kept|].
    rewrite (js_tasks _ _ _ _ _ _ Hst), lookup_insert_eq. split; [by eexists|]. split.
    + eapply Forall_impl; [by eapply snapshot_made|]. intros e. apply entry_made_ages. by eapply fw_exec_ages.
    + left. exists (mk_task None rt NULL 1 0). by rewrite (js_tasks _ _ _ _ _ _ Hst), lookup_insert_eq.
  - intros h hd lk Hw. destruct (f_joins s' !! hd_task hd) as [es|] eqn:E; [|done]. exfalso.
    destruct (fw_exec_waiting readonly op s s' h hd lk Hi Hop He Hw) as [[lk0 Hw0]|(v & sp & md & fl & fh & ->)].
    + apply Hsub in E as [E|(rt & snap & tok & st & fm & -> & _)]; [by rewrite (ji_waits _ Hji _ _ _ Hw0) in E|].
      destruct (fi_waits _ _ Hi _ _ _ Hw0) as (tk & Htk & _). destruct Hop as (_ & _ & _ & Hn & _). congruence.
    + apply Hsub in E as [E|(? & ? & ? & ? & ? & [=] & _)]. cbn in Hj. congruence.
Qed.

Abbreviation join_reach := (reach (fw_exec readonly) join_op_ok fw_init).
Abbreviation join_ops_ok := (ops_ok (fw_exec readonly) join_op_ok).

Definition both (s : fw) : Prop := fw_inv s /\ joins_inv s.

Lemma both_step s op : both s -> join_op_ok op s -> exists s', fw_exec readonly op s = Ret s' /\ both s'.
Proof.
  intros [Hi Hj] Hop. destruct (fw_exec_ok readonly s op Hi (proj1 Hop)) as (s' & E & Hi'). exists s'. split; [done|].
  split; [done|]. by apply (joins_step op s s').
Qed.

Lemma join_reach_inv s : join_reach s -> both s.
Proof. apply reach_inv; [apply both_step|split; [apply fw_init_inv|apply joins_init_inv]]. Qed.

(** Runs of operations. *)
Lemma join_execs_ok ops s : both s -> join_ops_ok ops s -> exists s', fw_execs readonly ops s = Ret s' /\ both s'.
Proof. apply execs_total, both_step. Qed.

Lemma join_execs_kept ops : forall s s' t, both s -> join_ops_ok ops s -> fw_execs readonly ops s = Ret s' ->
  ages (f_marks s) (f_marks s') /\ (is_Some (f_tasks s !! t) -> is_Some (f_tasks s' !! t)) /\
  (is_Some (f_tasks s !! t) -> ~ running s t -> ~ running s' t).
Proof.
  induction ops as [|op ops IH]; intros s s' t Hb Hok He; cbn in *.
  - injection He as <-. split; [apply ages_refl|done].
  - destruct Hok as [Hop Hok]. apply bind_Ret_inv in He as (s1 & H1 & He).
    destruct (both_step s op Hb Hop) as (s1' & H1' & Hb1). rewrite H1 in H1'. injection H1' as <-.
    destruct (IH s1 s' t Hb1 (Hok s1 H1) He) as (Ha & Ht & Hr). destruct Hb as [Hi _], Hop as [Hop _].
    assert (Htk : forall tk, f_tasks s !! t = Some tk -> exists tk', f_tasks s1 !! t = Some tk' /\ (t_state tk <> 1 -> tk' = tk)).
    { intros tk Htk. destruct (fw_exec_task readonly s op s1 t tk Hi Hop H1 Htk) as (tk' & ? & _ & ?). by exists tk'. }
    split; [eapply ages_trans; [by eapply fw_exec_ages|done]|]. split.
    + intros [tk (tk' & Hk & _)%Htk]. apply Ht. by exists tk'.
    + intros [tk Hk] Hn. destruct (Htk tk Hk) as (tk' & Hk' & E). apply Hr; [by exists tk'|]. intros (tk2 & H2 & Hs). rewrite Hk' in H2. injection H2 as <-.
      apply Hn. exists tk. split; [done|]. destruct (decide (t_state tk = 1)); [done|]. by rewrite (E n) in Hs.
Qed.

(** *** One join, from its start *)

(** [t] joins [es]: it runs, or its producers are gone. *)
Record tracked (t : ptr) (es : list join_entry) (s : fw) : Prop := {
  tr_made : Forall (entry_made (f_marks s)) es;
  tr_task : is_Some (f_tasks s !! t);
  tr_state : f_joins s !! t = Some es /\ running s t \/
             (f_joins s !! t = Some es \/ f_joins s !! t = None) /\ ~ running s t /\ Forall (gone s) es;
}.

Lemma not_running_kept op s s' t : fw_inv s -> fw_op_ok op s -> fw_exec readonly op s = Ret s' ->
  is_Some (f_tasks s !! t) -> ~ running s t -> ~ running s' t.
Proof.
  intros Hi Hop He [tk Hk] Hn. destruct (fw_exec_task readonly s op s' t tk Hi Hop He Hk) as (tk' & Hk' & _ & E).
  assert (Hs : t_state tk <> 1) by (intros Hs; apply Hn; by exists tk). rewrite (E Hs) in Hk'. intros (tk2 & H2 & Hs2). congruence.
Qed.

Lemma running_dec s t : is_Some (f_tasks s !! t) -> running s t \/ ~ running s t.
Proof.
  intros [tk Hk]. destruct (decide (t_state tk = 1)); [left; by exists tk|right]. intros (tk' & ? & ?). congruence.
Qed.

Lemma tracked_step op s s' t es :
  both s -> join_op_ok op s -> fw_exec readonly op s = Ret s' -> tracked t es s -> tracked t es s'.
Proof.
  intros [Hi Hji] Hjop He [Hm Ht Hst]. pose proof Hjop as [Hop Hj]. pose proof (fw_exec_ages readonly op s s' Hi Hop He) as Ha.
  pose proof (fw_exec_joins readonly op s s' Hi Hop He) as Hc.
  assert (Hjoin : f_joins s' !! t = f_joins s !! t \/ f_joins s' !! t = None /\ ~ running s t).
  { destruct op as [| | | | | |rt snap tok st fr fm|u]; try (rewrite Hc; by left).
    - destruct Hc as [->|(es0 & -> & _)]; [by left|left]. destruct Hop as (_ & _ & _ & Hn & _). apply lookup_insert_ne. intros ->. rewrite Hn in Ht. by destruct Ht.
    - rewrite Hc. destruct (decide (u = t)) as [->|]; [right; by rewrite lookup_delete_eq|left; by apply lookup_delete_ne]. }
  assert (Ht' : is_Some (f_tasks s' !! t)).
  { destruct Ht as [tk Hk]. destruct (fw_exec_task readonly s op s' t tk Hi Hop He Hk) as (tk' & ? & _). by exists tk'. }
  assert (Hg : Forall (gone s) es -> Forall (gone s') es).
  { rewrite !Forall_forall in *. intros Hg e Hin. eapply gone_step; [done|by apply Hm|by apply Hg]. }
  split; [eapply Forall_impl; [exact Hm|intros e; by apply entry_made_ages]|done|].
  destruct Hst as [[Ej Hr]|(Ej & Hn & Hgone)].
  - destruct Hjoin as [E|[_ ?]]; [|done]. rewrite E. destruct (running_dec s' t Ht') as [Hr'|Hr']; [by left|right]. split; [by left|]. split; [done|].
    destruct op as [| u r | | | | | |]; try (destruct Hr'; by eapply running_kept).
    destruct (decide (u = t)) as [->|Hne]; [by apply Hg, Hj|]. destruct Hr'. eapply running_kept; try done. intros r' [= E' _]. congruence.
  - right. split; [|split; [by eapply not_running_kept|by apply Hg]]. destruct Hjoin as [->|[-> _]]; [done|by right].
Qed.

Lemma tracked_execs ops : forall s s' t es,
  both s -> join_ops_ok ops s -> fw_execs readonly ops s = Ret s' -> tracked t es s -> both s' /\ tracked t es s'.
Proof.
  induction ops as [|op ops IH]; intros s s' t es Hb Hok He Htr; cbn in *; [injection He as <-; by split|].
  destruct Hok as [Hop Hok]. apply bind_Ret_inv in He as (s1 & H1 & He).
  destruct (both_step s op Hb Hop) as (s1' & H1' & Hb1). rewrite H1 in H1'. injection H1' as <-.
  apply (IH s1 s' t es); auto. by apply (tracked_step op s).
Qed.

Lemma tracked_start s rt snap tok st t fm s1 es :
  both s -> join_op_ok (Wait_all rt snap tok st t fm) s -> fw_exec readonly (Wait_all rt snap tok st t fm) s = Ret s1 ->
  f_joins s1 !! t = Some es -> tracked t es s1 /\ snapshot_of (f_marks s) snap es.
Proof.
  intros [Hi Hji] Hjop He Ej. pose proof Hjop as [Hop _]. pose proof (joins_step _ _ _ Hi Hjop He Hji) as Hji1.
  destruct (fw_exec_joins readonly _ _ _ Hi Hop He) as [E|(es0 & E & Hsn & Hst)].
  - rewrite E in Ej. destruct (ji_join _ Hji t es Ej) as ([tk Hk] & _). destruct Hop as (_ & _ & _ & Hn & _). congruence.
  - rewrite E, lookup_insert_eq in Ej. injection Ej as ->. split; [|done]. assert (Hk : f_tasks s1 !! t = Some (mk_task None rt NULL 1 0)).
    { by rewrite (js_tasks _ _ _ _ _ _ Hst), lookup_insert_eq. }
    assert (E2 : f_joins s1 !! t = Some es) by (by rewrite E, lookup_insert_eq).
    split; [apply (ji_join _ Hji1 t es E2)|by eexists|]. left. split; [done|]. by eexists.
Qed.

Lemma tracked_known s t es : joins_inv s -> f_joins s !! t = Some es -> tracked t es s.
Proof.
  intros Hji E. destruct (ji_join _ Hji t es E) as (Ht & Hm & Hr). split; [done|done|].
  destruct (running_dec s t Ht) as [Hr'|Hn]; [by left|right]. split; [by left|]. split; [done|]. by destruct Hr.
Qed.

(** *** wait_all *)

Lemma read_array_ok (l : list fptr) : read_array (length l) (Some l) = Ret l.
Proof. destruct l as [|x l]; [done|]. unfold read_array. cbn [length deref mbind outcome_bind]. rewrite Nat.ltb_irrefl.
  apply (f_equal Ret), (firstn_all (x :: l)).
Qed.

(** What wait_all starts.  If no call is producing any of the objects,
    [filc_async_wait_all] returns its token unmarked and changes nothing.
    Otherwise a new running task owns a write mark on the token, and its
    entries are the write marks in force on the objects, each once: they fit
    the array that was sized by counting them. *)
Theorem wait_all_exact (s : fw) (rt : ptr) (buffers : list fptr) (a : wait_all_allocs) :
  join_reach s -> fw_op_ok (Wait_all rt buffers (wa_token a) (wa_state a) (wa_task a) (wa_mark a)) s ->
  wa_snapshot a <> NULL -> Z.of_nat (length buffers) <= SIZE_MAX / 8 ->
  exists s', filc_async_wait_all readonly rt (Some buffers) (Z.of_nat (length buffers)) a s = Ret (wa_token a, s') /\
  ((s' = s /\ forall b x m, b ∈ buffers -> f_addr b <> NULL -> mark_on (f_marks s) (f_lower b) x m -> m_write m = false) \/
   exists es x gen, es <> [] /\ snapshot_of (f_marks s) buffers es /\ f_joins s' !! wa_task a = Some es /\ running s' (wa_task a) /\
     mark_on (f_marks s') (f_lower (wa_token a)) x (mk_mark (wa_token a) (f_lower (wa_token a)) (f_upper (wa_token a)) gen (wa_task a) true)).
Proof.
  intros [Hi _]%join_reach_inv Hop Hsn Hlen. unfold filc_async_wait_all.
  rewrite bool_decide_false by done. cbn [andb orb]. destruct (Z.ltb_spec (SIZE_MAX / 8) (Z.of_nat (length buffers))); [lia|].
  rewrite Nat2Z.id, read_array_ok.
  assert ((if Z.of_nat (length buffers) =? 0 then mret NULL else gc_alloc_or_die (wa_snapshot a)) =
          Ret (if Z.of_nat (length buffers) =? 0 then NULL else wa_snapshot a)) as ->.
  { destruct (_ =? 0); [done|]. unfold gc_alloc_or_die. by destruct (Z.eqb_spec (wa_snapshot a) NULL). }
  cbn [mbind outcome_bind].
  destruct (join_start_ok readonly _ _ _ _ _ _ _ Hi Hop) as (s' & es & E & _ & Hs & Hc). rewrite E.
  destruct Hop as (_ & _ & _ & _ & (Ha & _) & _). destruct (Z.eqb_spec (f_addr (wa_token a)) NULL); [done|]. cbn [mbind outcome_bind].
  exists s'. split; [done|]. destruct Hc as [[-> ->]|[Hne Hst]]; [left|right].
  - split; [done|]. intros b x m Hb Hb0 Hm. destruct (m_write m) eqn:Hw; [|done]. exfalso.
    apply (not_elem_of_nil (mk_entry x (m_generation m))), Hs. by exists b, m.
  - destruct (js_marks _ _ _ _ _ _ Hst) as (x & gen & _ & Hon). exists es, x, gen. split; [done|]. split; [done|].
    split; [by rewrite (js_joins _ _ _ _ _ _ Hst), lookup_insert_eq|]. split; [|apply Hon; by left].
    exists (mk_task None rt NULL 1 0). by rewrite (js_tasks _ _ _ _ _ _ Hst), lookup_insert_eq.
Qed.

(** *** join_poll *)

(** The operations of the rounds to come are allowed where they run. *)
Fixpoint jpolls_ok (polls : list (list fw_op)) (es : list join_entry) (s : fw) : Prop :=
  match es with
  | [] => True
  | e :: es =>
      if entry_pending (f_marks s) e && match mk_mem (f_marks s) !! e_mark e with Some m => negb (m_owner m =? NULL) | None => false end
      then join_ops_ok (default [] (head polls)) s /\ forall s', fw_execs readonly (default [] (head polls)) s = Ret s' -> jpolls_ok (tail polls) es s'
      else jpolls_ok polls es s
  end.

Fixpoint rounds_ok (sched : list join_round) (t : ptr) (es : list join_entry) (s : fw) : Prop :=
  match sched with
  | [] => True
  | r :: sched =>
      jpolls_ok (jr_polls r) es s /\ forall s1, poll_producers readonly (jr_polls r) es s = Ret s1 ->
        (join_ops_ok (jr_unlocked r) s1 /\ forall s2 s3, fw_execs readonly (jr_unlocked r) s1 = Ret s2 ->
           filc_async_complete readonly t 0 s2 = Ret s3 -> join_ops_ok (jr_done r) s3) /\
        join_ops_ok (jr_wait r) s1 /\ forall s2, fw_execs readonly (jr_wait r) s1 = Ret s2 -> rounds_ok sched t es s2
  end.

(** Polling the producers succeeds. *)
Lemma poll_producers_ok es : forall polls s t all,
  both s -> jpolls_ok polls es s -> tracked t all s -> (forall e, e ∈ es -> e ∈ all) ->
  exists s', poll_producers readonly polls es s = Ret s' /\ both s' /\ tracked t all s'.
Proof.
  induction es as [|e es IH]; intros polls s t all Hb Hok Htr Hsub; cbn [poll_producers jpolls_ok] in *; [by exists s|].
  assert (Hk : known (f_marks s) e). { apply entry_made_known. pose proof (tr_made _ _ _ Htr) as Hm. rewrite Forall_forall in Hm. apply Hm, Hsub. left. }
  assert (Hsub' : forall e, e ∈ es -> e ∈ all) by (intros e' ?; apply Hsub; by right).
  rewrite (join_entry_pending_ok _ _ Hk). cbn [mbind outcome_bind]. destruct (entry_pending (f_marks s) e) eqn:Ep; cbn [negb andb] in *; [|by apply IH].
  destruct Hk as [m Hm]. rewrite Hm in *. cbn [deref mbind outcome_bind]. destruct (Z.eqb_spec (m_owner m) NULL) as [Eo|Eo]; cbn [negb] in Hok; [by apply IH|].
  assert (running s (m_owner m)) as (tk & Htk & _).
  { unfold entry_pending in Ep. rewrite Hm in Ep. apply andb_prop in Ep as [Hu _]. apply (in_use_live readonly _ _ _ (fi_marks _ _ (proj1 Hb)) Hm) in Hu.
    eapply (fi_owns _ _ (proj1 Hb)); [by apply mark_on_live|done]. }
  rewrite Htk. cbn [deref mbind outcome_bind]. destruct Hok as [Hok Hnext]. destruct (join_execs_ok _ s Hb Hok) as (s1 & E1 & Hb1). rewrite E1.
  cbn [mbind outcome_bind]. apply IH; [done|by apply Hnext|exact (proj2 (tracked_execs _ s s1 t all Hb Hok E1 Htr))|done].
Qed.

Lemma tracked_known_marks t es s : tracked t es s -> Forall (known (f_marks s)) es.
Proof. intros Htr. eapply Forall_impl; [apply (tr_made _ _ _ Htr)|intros e; apply entry_made_known]. Qed.

(** Completing the join once nothing is pending. *)
Lemma join_complete_ok s t es :
  both s -> tracked t es s -> Forall (gone s) es ->
  exists s', filc_async_complete readonly t 0 s = Ret s' /\ both s' /\ tracked t es s' /\ ~ running s' t /\ Forall (gone s') es.
Proof.
  intros Hb Htr Hg. destruct (tr_state _ _ _ Htr) as [[Ej Hr]|(_ & Hn & _)].
  - assert (Hop : join_op_ok (Complete t 0) s).
    { split; [right; split; [apply Htr|]|intros es' E; congruence]. intros h hd lk Hw Et. pose proof (ji_waits _ (proj2 Hb) _ _ _ Hw). congruence. }
    destruct (both_step s _ Hb Hop) as (s' & E & Hb'). pose proof (tracked_step _ _ _ _ _ Hb Hop E Htr) as Htr'. exists s'. split; [exact E|].
    assert (Hn : ~ running s' t).
    { destruct Hr as (tk & Htk & Hs). destruct (filc_async_complete_ok readonly s t 0 (proj1 Hb)) as (s1 & E1 & _ & Hc); [by exists tk| |].
      - intros h hd lk Hw Et. pose proof (ji_waits _ (proj2 Hb) _ _ _ Hw). congruence.
      - cbn in E. rewrite E1 in E. injection E as ->. destruct (co_tasks _ _ _ _ Hc) as (tk0 & _ & Et). intros (tk2 & H2 & Hs2).
        rewrite Et, lookup_insert_eq in H2. by injection H2 as <-. }
    split_and!; try done. destruct (tr_state _ _ _ Htr') as [[_ ?]|(_ & _ & ?)]; done.
  - exists s. destruct (tr_task _ _ _ Htr) as [tk Htk]. split; [|by split_and!].
    apply (complete_not_running readonly s t 0 tk); [done|]. intros ?. apply Hn. by exists tk.
Qed.

(** What [join_poll] answers. *)
Definition join_answer (t : ptr) (es : list join_entry) (mode : filc_async_poll_mode) (d : bool) (s : fw) : Prop :=
  if d then ~ running s t /\ Forall (gone s) es
  else mode <> FILC_ASYNC_POLL_BLOCK /\ running s t /\ exists e, e ∈ es /\ entry_pending (f_marks s) e = true.

(** One turn: it answers, or it waits because a producer is pending. *)
Lemma join_turn_ok r sched mode t es s :
  both s -> tracked t es s -> rounds_ok (r :: sched) t es s -> running s t ->
  exists s1, poll_producers readonly (jr_polls r) es s = Ret s1 /\ both s1 /\ tracked t es s1 /\
  ((Forall (gone s1) es \/ mode <> FILC_ASYNC_POLL_BLOCK) /\
   (exists d s', join_loop readonly (r :: sched) mode t (Some es) s = Ret (d, s', sched) /\ join_answer t es mode d s') \/
   ~ Forall (gone s1) es /\ mode = FILC_ASYNC_POLL_BLOCK /\ exists s2, fw_execs readonly (jr_wait r) s1 = Ret s2 /\ both s2 /\ tracked t es s2 /\
     rounds_ok sched t es s2 /\ join_loop readonly (r :: sched) mode t (Some es) s = join_loop readonly sched mode t (Some es) s2).
Proof.
  intros Hb Htr [Hp Hnext] (tk & Htk & Hst). destruct (poll_producers_ok es _ s t es Hb Hp Htr ltac:(done)) as (s1 & E1 & Hb1 & Htr1).
  exists s1. split; [done|]. split; [done|]. split; [done|]. destruct (Hnext s1 E1) as ([Hun Hdn] & Hwt & Hrest).
  cbn [join_loop]. rewrite (task_state_ok s t tk Htk). cbn [mbind outcome_bind]. rewrite Hst. cbn [Z.eqb Pos.eqb negb deref mbind outcome_bind].
  rewrite E1. cbn [mbind outcome_bind]. rewrite (any_pending_ok _ _ (tracked_known_marks _ _ _ Htr1)). cbn [mbind outcome_bind].
  destruct (existsb (entry_pending (f_marks s1)) es) eqn:Ex; cbn [negb].
  - apply existsb_exists in Ex as (e & He%list_elem_of_In & Hpe).
    assert (Hng : ~ Forall (gone s1) es) by (rewrite Forall_forall; intros Hg; specialize (Hg e He); unfold gone in Hg; congruence).
    assert (Hrun : running s1 t) by (by destruct (tr_state _ _ _ Htr1) as [[_ ?]|(_ & _ & ?)]).
    assert (Hans : forall m, m <> FILC_ASYNC_POLL_BLOCK -> exists d s', (st ← task_state s1 t; mret (negb (st =? 1), s1, sched)) = Ret (d, s', sched) /\ join_answer t es m d s').
    { intros m Hm. destruct Hrun as (tk1 & Htk1 & Hst1). rewrite (task_state_ok s1 t tk1 Htk1), Hst1. eexists false, s1. split; [done|].
      split; [done|]. split; [by exists tk1|by exists e]. }
    destruct mode; [left; split; [by right|by apply Hans]..|right].
    split; [done|]. split; [done|]. destruct (join_execs_ok _ s1 Hb1 Hwt) as (s2 & E2 & Hb2). exists s2. rewrite E2. split; [done|]. split; [done|].
    split; [exact (proj2 (tracked_execs _ s1 s2 t es Hb1 Hwt E2 Htr1))|]. split; [by apply Hrest|done].
  - left. apply existsb_pending in Ex. split; [by left|]. destruct (join_execs_ok _ s1 Hb1 Hun) as (s2 & E2 & Hb2). rewrite E2. cbn [mbind outcome_bind].
    destruct (tracked_execs _ _ _ t es Hb1 Hun E2 Htr1) as (_ & Htr2).
    assert (Hg2 : Forall (gone s2) es).
    { pose proof (tr_made _ _ _ Htr1) as Hm1. rewrite Forall_forall in *. destruct (join_execs_kept _ s1 s2 t Hb1 Hun E2) as (Ha & _).
      intros e He. eapply gone_step; [exact Ha|by apply Hm1|by apply Ex]. }
    destruct (join_complete_ok s2 t es Hb2 Htr2 Hg2) as (s3 & E3 & Hb3 & Htr3 & Hn3 & Hg3). rewrite E3. cbn [mbind outcome_bind].
    pose proof (Hdn s2 s3 E2 E3) as Hdone. destruct (join_execs_ok _ s3 Hb3 Hdone) as (s4 & E4 & Hb4). rewrite E4. cbn [mbind outcome_bind mret outcome_ret].
    destruct (join_execs_kept _ s3 s4 t Hb3 Hdone E4) as (Ha & _ & Hrk). eexists true, _. split; [done|]. split.
    + intros Hr. apply (Hrk (tr_task _ _ _ Htr3) Hn3). exact Hr.
    + pose proof (tr_made _ _ _ Htr3) as Hm3. rewrite Forall_forall in *. intros e He. apply (gone_step s3 s4); [exact Ha|by apply Hm3|by apply Hg3].
Qed.

(** A turn spent waiting. *)
Definition join_turn (es : list join_entry) (r : join_round) (s : fw) : outcome fw :=
  s ← poll_producers readonly (jr_polls r) es s; fw_execs readonly (jr_wait r) s.

Lemma join_loop_answers sched mode t es : forall s d s' rest,
  both s -> tracked t es s -> rounds_ok sched t es s -> join_loop readonly sched mode t (Some es) s = Ret (d, s', rest) -> join_answer t es mode d s'.
Proof.
  induction sched as [|r sched IH]; intros s d s' rest Hb Htr Hok E.
  - destruct (tr_task _ _ _ Htr) as [tk Htk]. cbn [join_loop] in E. rewrite (task_state_ok s t tk Htk) in E. cbn [mbind outcome_bind] in E.
    destruct (Z.eqb_spec (t_state tk) 1); [done|]. injection E as <- <- <-.
    destruct (tr_state _ _ _ Htr) as [[_ (tk' & ? & ?)]|(_ & ? & ?)]; [congruence|by split].
  - destruct (running_dec s t (tr_task _ _ _ Htr)) as [Hr|Hn].
    + destruct (join_turn_ok r sched mode t es s Hb Htr Hok Hr) as (s1 & _ & _ & _ & [(_ & d0 & s0 & E0 & Ha)|(_ & _ & s2 & _ & Hb2 & Htr2 & Hok2 & E0)]).
      * rewrite E0 in E. injection E as <- <- <-. done.
      * rewrite E0 in E. by eapply IH.
    + destruct (tr_task _ _ _ Htr) as [tk Htk]. cbn [join_loop] in E. rewrite (task_state_ok s t tk Htk) in E. cbn [mbind outcome_bind] in E.
      destruct (Z.eqb_spec (t_state tk) 1); [by destruct Hn; exists tk|]. injection E as <- <- <-.
      destruct (tr_state _ _ _ Htr) as [[_ ?]|(_ & ? & ?)]; [done|by split].
Qed.

(** [join_poll] answers exactly.  It returns true only with the join no
    longer running and every producer it lists gone, and false, in the modes
    that do not block, only while the join runs and some producer is still
    pending. *)
Theorem join_poll_exact (s s' : fw) (t : ptr) (es : list join_entry) (mode : filc_async_poll_mode) (sched rest : list join_round) (d : bool) :
  join_reach s -> f_joins s !! t = Some es -> rounds_ok sched t es s -> join_poll readonly sched mode t s = Ret (d, s', rest) ->
  if d then ~ running s' t /\ Forall (gone s') es
  else mode <> FILC_ASYNC_POLL_BLOCK /\ running s' t /\ exists e, e ∈ es /\ entry_pending (f_marks s') e = true.
Proof.
  intros Hb%join_reach_inv Ej Hok E. unfold join_poll in E. rewrite Ej in E.
  exact (join_loop_answers sched mode t es s d s' rest Hb (tracked_known s t es (proj2 Hb) Ej) Hok E).
Qed.

(** [join_poll] returns.  Without blocking it returns in one turn; when
    it blocks, it returns true in the turn after the producers are gone. *)
Theorem join_poll_returns (s s_end : fw) (t : ptr) (es : list join_entry) (sched : list join_round) (r : join_round) :
  join_reach s -> f_joins s !! t = Some es ->
  (forall mode, mode <> FILC_ASYNC_POLL_BLOCK -> rounds_ok [r] t es s -> exists d s' rest, join_poll readonly [r] mode t s = Ret (d, s', rest)) /\
  (rounds_ok (sched ++ [r]) t es s -> execs (join_turn es) sched s = Ret s_end -> Forall (gone s_end) es ->
   exists s' rest, join_poll readonly (sched ++ [r]) FILC_ASYNC_POLL_BLOCK t s = Ret (true, s', rest)).
Proof.
  intros Hb%join_reach_inv Ej. unfold join_poll. rewrite Ej. pose proof (tracked_known s t es (proj2 Hb) Ej) as Htr. clear Ej.
  assert (Hstop : forall sched mode s, tracked t es s -> ~ running s t -> join_loop readonly sched mode t (Some es) s = Ret (true, s, sched)).
  { intros sched0 mode s0 Htr0 Hn. destruct (tr_task _ _ _ Htr0) as [tk Htk]. destruct sched0; cbn [join_loop]; rewrite (task_state_ok s0 t tk Htk);
      cbn [mbind outcome_bind]; (destruct (Z.eqb_spec (t_state tk) 1); [by destruct Hn; exists tk|done]). }
  split.
  - intros mode Hm Hok. destruct (running_dec s t (tr_task _ _ _ Htr)) as [Hr|Hn]; [|rewrite Hstop by done; by eexists _, _, _].
    destruct (join_turn_ok r [] mode t es s Hb Htr Hok Hr) as (s1 & _ & _ & _ & [(_ & d & s' & -> & _)|(_ & ? & _)]); [by eexists _, _, _|done].
  - revert s Hb Htr. induction sched as [|r0 sched IH]; intros s Hb Htr Hok He Hg; cbn [app] in *;
      (destruct (running_dec s t (tr_task _ _ _ Htr)) as [Hr|Hn]; [|rewrite Hstop by done; by eexists _, _]).
    + cbn in He. injection He as <-. pose proof Hok as [Hp _].
      destruct (join_turn_ok r [] FILC_ASYNC_POLL_BLOCK t es s Hb Htr Hok Hr) as (s1 & E1 & Hb1 & Htr1 & [(_ & d & s' & E & Ha)|(Hng & _)]).
      * rewrite E. destruct d; [by eexists _, _|]. by destruct Ha.
      * destruct Hng. assert (Hsame : poll_producers readonly (jr_polls r) es s = Ret s).
        { clear - Hg Htr. pose proof (tr_made _ _ _ Htr) as Hm. clear Htr. generalize (jr_polls r) as polls. induction es as [|e es' IH]; intros polls; [done|].
          apply Forall_cons in Hg as [Hge Hg]. apply Forall_cons in Hm as [Hme Hm]. cbn [poll_producers].
          rewrite (join_entry_pending_ok _ _ (entry_made_known _ _ Hme)). cbn [mbind outcome_bind]. unfold gone in Hge. rewrite Hge. cbn [negb]. by apply IH. }
        rewrite Hsame in E1. by injection E1 as <-.
    + cbn [execs] in He. apply bind_Ret_inv in He as (s2 & H2 & He). unfold join_turn in H2. apply bind_Ret_inv in H2 as (s1 & E1 & E2).
      destruct (join_turn_ok r0 (sched ++ [r]) FILC_ASYNC_POLL_BLOCK t es s Hb Htr Hok Hr) as (s1' & E1' & _ & _ & [(_ & d & s' & E & Ha)|(_ & _ & s2' & E2' & Hb2 & Htr2 & Hok2 & E)]).
      * rewrite E. destruct d; [by eexists _, _|]. by destruct Ha.
      * rewrite E1 in E1'. injection E1' as <-. rewrite E2 in E2'. injection E2' as <-. rewrite E. by apply IH.
Qed.
End Joins.

(** ** Concrete runs

    Call 64 of Framework's example produces the object at 4096; the join 320
    waits for it and for NULL, with its token at 40960. *)

Ltac join_gone := let es := fresh "es" in let E := fresh "E" in
  intros es E; vm_compute in E; first [discriminate E | injection E as <-; repeat (apply List.Forall_cons; [vm_compute; reflexivity|]); apply List.Forall_nil].
Ltac wait_all_concrete :=
  split; [point|split; [point|split; [split; reflexivity|split; [point|split; [mk_buf|split; [mk_fresh|vm_compute; reflexivity]]]]]].
Ltac join_op_concrete := idtac;
  lazymatch goal with
  | |- join_op_ok (Wait_all _ _ _ _ _ _) _ => split; [wait_all_concrete|exact I]
  | |- join_op_ok (Complete _ _) _ => split; [fw_op_concrete|join_gone]
  | |- join_op_ok (Lock_op (Request _ _ _ _ _ _)) _ => split; [fw_op_concrete|point]
  | |- join_op_ok _ _ => split; [fw_op_concrete|exact I]
  end.

Abbreviation join_reach_ro := (reach (fw_exec ro_8192) join_op_ok fw_init).

Lemma fw_a_join_reach : join_reach_ro fw_a.
Proof.
  apply (execs_reach _ _ _ begin_ops fw_init fw_a); [apply reach_init|unfold begin_ops; ops_concrete join_op_concrete|vm_compute; reflexivity].
Qed.

Definition token_a : fptr := mk_fptr 40960 40960 40976.
Definition join_a_op : fw_op := Wait_all 4112 [buf_a; fnull] token_a 36864 320 28736.
Definition join_a : fw := match fw_exec ro_8192 join_a_op fw_a with Ret s => s | _ => fw_a end.
Definition join_a_entries : list join_entry := [mk_entry 28672 1].

Lemma join_a_ok : join_op_ok join_a_op fw_a.
Proof. unfold join_a_op. join_op_concrete. Qed.

Lemma join_a_exec : fw_exec ro_8192 join_a_op fw_a = Ret join_a.
Proof. vm_compute. reflexivity. Qed.

Lemma join_a_reach : join_reach_ro join_a.
Proof. eapply reach_step; [apply fw_a_join_reach|apply join_a_ok|apply join_a_exec]. Qed.

Lemma mark_a_on : mark_on (f_marks fw_a) 4096 28672 (mk_mark buf_a 4096 4160 1 64 true).
Proof. split; [point|split; [vm_compute; reflexivity|reflexivity]]. Qed.

Lemma wait_all_exact_witness :
  exists s' es, filc_async_wait_all ro_8192 4112 (Some [buf_a; fnull]) 2 (mk_allocs 36800 token_a 36864 320 28736) fw_a = Ret (token_a, s') /\
    f_joins s' !! 320 = Some es /\ es <> [].
Proof.
  destruct (wait_all_exact ro_8192 fw_a 4112 [buf_a; fnull] (mk_allocs 36800 token_a 36864 320 28736) fw_a_join_reach) as (s' & E & H).
  - apply join_a_ok.
  - discriminate.
  - vm_compute. discriminate.
  - exists s'. destruct H as [[_ Hno]|(es & x & gen & Hne & _ & Hj & _)]; [|exists es; split; [exact E|split; [exact Hj|exact Hne]]].
    specialize (Hno buf_a 28672 _ ltac:(left) ltac:(discriminate) mark_a_on). discriminate Hno.
Defined.

(** A turn in which the producer is polled in vain, and one in which its
    runtime completes it. *)
Definition idle_round : join_round := mk_join_round [[]] [] [] [Complete 64 9].
Definition done_round : join_round := mk_join_round [[Complete 64 9]] [] [] [].

Lemma jpolls_one readonly polls e s :
  ops_ok (fw_exec readonly) join_op_ok (default [] (head polls)) s -> jpolls_ok readonly polls [e] s.
Proof. intros H. cbn [jpolls_ok]. by destruct (_ && _). Qed.

Ltac jr_cbn := unfold idle_round, done_round; cbn [jr_polls jr_unlocked jr_done jr_wait head default id from_option].
Ltac rounds_concrete := idtac;
  lazymatch goal with
  | |- rounds_ok _ [] _ _ _ => exact I
  | |- rounds_ok _ (_ :: _) _ _ _ =>
      split; [apply jpolls_one; jr_cbn; ops_concrete join_op_concrete|
        after_call; split; [split; [exact I|intros; exact I]|split; [jr_cbn; ops_concrete join_op_concrete|after_call; rounds_concrete]]]
  end.

Definition answer (o : outcome (bool * fw * list join_round)) : option bool := match o with Ret (d, _, _) => Some d | _ => None end.
Definition answer_state (o : outcome (bool * fw * list join_round)) : fw := match o with Ret (_, s, _) => s | _ => fw_init end.
Definition answer_rest (o : outcome (bool * fw * list join_round)) : list join_round := match o with Ret (_, _, l) => l | _ => [] end.

Lemma answer_eta o d : answer o = Some d -> o = Ret (d, answer_state o, answer_rest o).
Proof. destruct o as [[[d' s] l]| | |]; try discriminate. by intros [= ->]. Qed.

Lemma idle_rounds_ok : rounds_ok ro_8192 [idle_round] 320 join_a_entries join_a.
Proof. rounds_concrete. Qed.

Lemma done_rounds_ok : rounds_ok ro_8192 [done_round] 320 join_a_entries join_a.
Proof. rounds_concrete. Qed.

Lemma idle_done_rounds_ok : rounds_ok ro_8192 ([idle_round] ++ [done_round]) 320 join_a_entries join_a.
Proof. cbn [app]. rounds_concrete. Qed.

Definition idle_poll := join_poll ro_8192 [idle_round] FILC_ASYNC_POLL_PROGRESS 320 join_a.
Definition done_poll := join_poll ro_8192 [done_round] FILC_ASYNC_POLL_PROGRESS 320 join_a.

Lemma join_poll_exact_witness :
  (running (answer_state idle_poll) 320 /\ exists e, e ∈ join_a_entries /\ entry_pending (f_marks (answer_state idle_poll)) e = true) /\
  ~ running (answer_state done_poll) 320 /\ Forall (gone (answer_state done_poll)) join_a_entries.
Proof.
  split.
  - apply (join_poll_exact ro_8192 join_a (answer_state idle_poll) 320 join_a_entries FILC_ASYNC_POLL_PROGRESS [idle_round] (answer_rest idle_poll) false
      join_a_reach).
    + vm_compute. reflexivity.
    + exact idle_rounds_ok.
    + apply (answer_eta (join_poll ro_8192 [idle_round] FILC_ASYNC_POLL_PROGRESS 320 join_a) false). vm_compute. reflexivity.
  - apply (join_poll_exact ro_8192 join_a (answer_state done_poll) 320 join_a_entries FILC_ASYNC_POLL_PROGRESS [done_round] (answer_rest done_poll) true
      join_a_reach).
    + vm_compute. reflexivity.
    + exact done_rounds_ok.
    + apply (answer_eta (join_poll ro_8192 [done_round] FILC_ASYNC_POLL_PROGRESS 320 join_a) true). vm_compute. reflexivity.
Defined.

Definition join_waited : fw := match execs (join_turn ro_8192 join_a_entries) [idle_round] join_a with Ret s => s | _ => join_a end.

Lemma join_poll_returns_witness :
  (exists d s' rest, join_poll ro_8192 [done_round] FILC_ASYNC_POLL_CHECK 320 join_a = Ret (d, s', rest)) /\
  exists s' rest, join_poll ro_8192 ([idle_round] ++ [done_round]) FILC_ASYNC_POLL_BLOCK 320 join_a = Ret (true, s', rest).
Proof.
  split.
  - apply (proj1 (join_poll_returns ro_8192 join_a join_waited 320 join_a_entries [idle_round] done_round join_a_reach ltac:(vm_compute; reflexivity))).
    + discriminate.
    + exact done_rounds_ok.
  - apply (proj2 (join_poll_returns ro_8192 join_a join_waited 320 join_a_entries [idle_round] done_round join_a_reach ltac:(vm_compute; reflexivity))).
    + exact idle_done_rounds_ok.
    + vm_compute. reflexivity.
    + repeat (apply List.Forall_cons; [vm_compute; reflexivity|]). apply List.Forall_nil.
Defined.
