(* ===== verification/JoinRun.v ===== *)
(** * JoinRun: the threads that poll a wait_all

    [join_poll] of [framework/filc_async.c], one critical section at a time.
    Any number of threads may be inside it, for one join or for several;
    a [jpoll] is where one of them stands while it does not hold [g_lock],
    [join_section] is what it does the next time it holds it, and a [jsys] is
    the framework's state with these threads.  What the other threads do in
    between is unrestricted, but for this: a runtime completes only its own
    calls.  So nothing but [join_poll] completes a join, and that it does so
    when no producer is left is a theorem here, which discharges the
    assumption [join_op_ok] of the file JoinPoll. *)

From S2P Require Import Prelude Buckets Handles RunList Locks Marks Joins Meta Framework JoinPoll.
Open Scope Z_scope.

(** Where a thread inside [join_poll] stands. *)
Inductive jpoll :=
  | Top (t : ptr) (mode : filc_async_poll_mode) (data : option (list join_entry))   (* to test the task's state *)
  | Polled (t : ptr) (mode : filc_async_poll_mode) (all rest : list join_entry)     (* polled an owner; [rest] to go *)
  | Unlocked (t : ptr)                                                              (* nothing pending: to complete the task *)
  | Completed (t : ptr)                                                             (* to drop the snapshot *)
  | Returned (done : bool).

Section Join.
Context (readonly : ptr -> bool).

(** The loop over the entries, up to the next owner to poll, and what follows
    it. *)
Fixpoint join_scan (t : ptr) (mode : filc_async_poll_mode) (all rest : list join_entry) (s : fw) : outcome jpoll :=
  match rest with
  | [] =>
      pending ← any_pending all (f_marks s);
      if negb pending then mret (Unlocked t)
      else match mode with
           | FILC_ASYNC_POLL_BLOCK => mret (Top t mode (Some all))
           | _ => st ← task_state s t; mret (Returned (negb (st =? 1)))
           end
  | e :: rest =>
      p ← join_entry_pending e (f_marks s);
      if negb p then join_scan t mode all rest s
      else
        m ← deref (mk_mem (f_marks s) !! e_mark e);
        if m_owner m =? NULL then join_scan t mode all rest s
        else _ ← deref (f_tasks s !! m_owner m); mret (Polled t mode all rest)
  end.

Definition join_section (p : jpoll) (s : fw) : outcome (jpoll * fw) :=
  match p with
  | Top t mode data =>
      st ← task_state s t;
      if negb (st =? 1) then mret (Returned true, s)
      else entries ← deref data; p ← join_scan t mode entries entries s; mret (p, s)
  | Polled t mode all rest => p ← join_scan t mode all rest s; mret (p, s)
  | Unlocked t => s ← filc_async_complete readonly t 0 s; mret (Completed t, s)
  | Completed t => mret (Returned true, set_joins (delete t (f_joins s)) s)
  | Returned done => mret (Returned done, s)
  end.

(** The framework with the threads inside [join_poll], by a number. *)
Record jsys := mk_jsys { sy_fw : fw; sy_polls : gmap nat jpoll }.

Definition jsys_init : jsys := mk_jsys fw_init ∅.

Inductive jevent :=
  | Others (op : fw_op)                                        (* any other critical section *)
  | Enter (i : nat) (t : ptr) (mode : filc_async_poll_mode)    (* a thread calls [join_poll], which reads [t->runtime_data] *)
  | Advance (i : nat).                                         (* its next critical section *)

Definition jexec (ev : jevent) (y : jsys) : outcome jsys :=
  match ev with
  | Others op => s ← fw_exec readonly op (sy_fw y); mret (mk_jsys s (sy_polls y))
  | Enter i t mode =>
      _ ← deref (f_tasks (sy_fw y) !! t);
      mret (mk_jsys (sy_fw y) (<[i := Top t mode (f_joins (sy_fw y) !! t)]> (sy_polls y)))
  | Advance i =>
      p ← deref (sy_polls y !! i);
      '(p, s) ← join_section p (sy_fw y);
      mret (mk_jsys s (<[i := p]> (sy_polls y)))
  end.

(** ** A call of [join_poll] is a run of its sections *)

(** What a thread in [join_poll] does, with what the others do between its
    sections. *)
Inductive poll_run : jpoll -> fw -> jpoll -> fw -> Prop :=
  | pr_done p s : poll_run p s p s
  | pr_section p s p1 s1 p2 s2 : join_section p s = Ret (p1, s1) -> poll_run p1 s1 p2 s2 -> poll_run p s p2 s2
  | pr_others ops p s s1 p2 s2 : fw_execs readonly ops s = Ret s1 -> poll_run p s1 p2 s2 -> poll_run p s p2 s2.

(** The section that scans [rest] and then runs on to [p2]. *)
Definition scan_run (t : ptr) mode all rest s p2 s2 : Prop :=
  exists p, join_scan t mode all rest s = Ret p /\ poll_run p s p2 s2.

Lemma poll_producers_run t mode all p2 s2 rest : forall polls s s1,
  poll_producers readonly polls rest s = Ret s1 -> scan_run t mode all [] s1 p2 s2 -> scan_run t mode all rest s p2 s2.
Proof.
  induction rest as [|e rest IH]; intros polls s s1 He Hrun; cbn [poll_producers] in He; [by injection He as <-|].
  apply bind_Ret_inv in He as (p & Ep & He). unfold scan_run. cbn [join_scan]. rewrite Ep. cbn [mbind outcome_bind].
  destruct (negb p); [by apply (IH polls s s1)|]. apply bind_Ret_inv in He as (m & Em & He). rewrite Em. cbn [mbind outcome_bind].
  destruct (m_owner m =? NULL); [by apply (IH polls s s1)|]. apply bind_Ret_inv in He as (tk & Etk & He). rewrite Etk. cbn [mbind outcome_bind].
  apply bind_Ret_inv in He as (s0 & E0 & He). exists (Polled t mode all rest). split; [done|].
  destruct (IH _ s0 s1 He Hrun) as (p0 & Es & Hp0). eapply pr_others; [exact E0|]. eapply pr_section; [|exact Hp0]. cbn. by rewrite Es.
Qed.

Lemma join_loop_run sched mode t data : forall s d s' rest,
  join_loop readonly sched mode t data s = Ret (d, s', rest) -> poll_run (Top t mode data) s (Returned d) s'.
Proof.
  induction sched as [|r sched IH]; intros s d s' rest He; cbn [join_loop] in He;
    apply bind_Ret_inv in He as (st & Est & He); destruct (negb (st =? 1)) eqn:E; try done.
  1, 2: injection He as <- <- <-; eapply pr_section; [|apply pr_done]; cbn; rewrite Est; cbn; by rewrite E.
  apply bind_Ret_inv in He as (es & Ees & He). destruct data as [es'|]; [injection Ees as ->|done].
  apply bind_Ret_inv in He as (s1 & E1 & He).
  assert (Hscan : scan_run t mode es es s (Returned d) s' -> poll_run (Top t mode (Some es)) s (Returned d) s').
  { intros (p & Ep & Hp). eapply pr_section; [|exact Hp]. cbn [join_section]. rewrite Est. cbn [mbind outcome_bind]. rewrite E. cbn [deref mbind outcome_bind]. by rewrite Ep. }
  apply Hscan. eapply poll_producers_run; [exact E1|]. unfold scan_run. cbn [join_scan].
  apply bind_Ret_inv in He as (pending & Epd & He). rewrite Epd. cbn [mbind outcome_bind]. destruct (negb pending).
  - apply bind_Ret_inv in He as (s2 & E2 & He). apply bind_Ret_inv in He as (s3 & E3 & He). apply bind_Ret_inv in He as (s4 & E4 & He).
    injection He as <- <- <-. exists (Unlocked t). split; [done|]. eapply pr_others; [exact E2|]. eapply pr_section; [cbn; by rewrite E3|].
    eapply pr_others; [exact E4|]. eapply pr_section; [done|apply pr_done].
  - destruct mode.
    1, 2: apply bind_Ret_inv in He as (st1 & Est1 & He); injection He as <- <- <-; rewrite Est1; eexists; split; [done|apply pr_done].
    apply bind_Ret_inv in He as (s2 & E2 & He). eexists. split; [done|]. eapply pr_others; [exact E2|]. by eapply IH.
Qed.
End Join.

(** ** The system's invariant *)

Section System.
Context (readonly : ptr -> bool).
(** The address of [g_join_runtime]. *)
Context (g_join_runtime : ptr).
Abbreviation fw_inv := (fw_inv readonly).
Abbreviation both := (both readonly).
Abbreviation jexec := (jexec readonly).
Abbreviation join_section := (join_section readonly).

(** Only wait_all gives a task the join runtime. *)
Definition made_ok (op : fw_op) : Prop :=
  match op with
  | Start rt _ _ _ _ => rt <> g_join_runtime
  | Wait_all rt _ _ _ _ _ => rt = g_join_runtime
  | _ => True
  end.

(** [t] is not the task of a wait_all. *)
Definition not_join (t : ptr) (s : fw) : Prop := forall tk, f_tasks s !! t = Some tk -> t_runtime tk <> g_join_runtime.

(** What the events rely on.  The others complete only calls of their own
    runtimes, and take dependency locks for annotated calls; [join_poll] is
    called for the task of a wait_all, by a thread that is not inside it. *)
Definition jevent_ok (ev : jevent) (y : jsys) : Prop :=
  match ev with
  | Others op => fw_op_ok op (sy_fw y) /\ made_ok op /\
      match op with
      | Complete t _ | Lock_op (Request t _ _ _ _ _) => not_join t (sy_fw y)
      | Clear_join _ => False
      | _ => True
      end
  | Enter i t _ => (exists tk, f_tasks (sy_fw y) !! t = Some tk /\ t_runtime tk = g_join_runtime) /\
      match sy_polls y !! i with None | Some (Returned _) => True | _ => False end
  | Advance i => is_Some (sy_polls y !! i)
  end.

(** The tasks with the join runtime are those of the joins. *)
Record runtimes (s : fw) : Prop := {
  rt_join : forall t tk, f_tasks s !! t = Some tk -> t_runtime tk = g_join_runtime -> t_state tk = 1 -> is_Some (f_joins s !! t);
  rt_task : forall t es, f_joins s !! t = Some es -> exists tk, f_tasks s !! t = Some tk /\ t_runtime tk = g_join_runtime;
}.

(** Where a thread can stand. *)
Definition poll_ok (p : jpoll) (s : fw) : Prop :=
  match p with
  | Top t _ data => match data with Some es => tracked t es s | None => is_Some (f_tasks s !! t) /\ ~ running s t end
  | Polled t _ all rest => tracked t all s /\ forall e, e ∈ rest -> e ∈ all
  | Unlocked t => exists es, tracked t es s /\ Forall (gone s) es
  | Completed t => is_Some (f_tasks s !! t) /\ ~ running s t
  | Returned _ => True
  end.

Record sys_inv (y : jsys) : Prop := {
  si_both : both (sy_fw y);
  si_runtimes : runtimes (sy_fw y);
  si_polls : map_Forall (fun _ p => poll_ok p (sy_fw y)) (sy_polls y);
}.

(** Where a task comes from. *)
Lemma fw_exec_tasks op s s' t tk' :
  fw_inv s -> fw_op_ok op s -> fw_exec readonly op s = Ret s' -> f_tasks s' !! t = Some tk' ->
  (exists tk, f_tasks s !! t = Some tk /\ t_runtime tk' = t_runtime tk /\ (t_state tk' = 1 -> t_state tk = 1)) \/
  (exists m sa ft, op = Start (t_runtime tk') m sa t ft) \/
  (exists snap tok st fm, op = Wait_all (t_runtime tk') snap tok st t fm /\ is_Some (f_joins s' !! t)).
Proof.
  intros Hi Hop He Ht. assert (Hsame : f_tasks s' = f_tasks s -> exists tk, f_tasks s !! t = Some tk /\ t_runtime tk' = t_runtime tk /\ (t_state tk' = 1 -> t_state tk = 1)).
  { intros E. exists tk'. by rewrite <- E. }
  destruct op as [rt m sa fresh ft|u result|op|op|u|c|rt snap tok st fr fm|u]; cbn [fw_exec] in He.
  - destruct (task_start_ok readonly s rt m sa fresh ft Hi Hop) as (s1 & E & _ & Et & _). rewrite E in He. injection He as <-.
    rewrite Et, lookup_insert in Ht. case_decide as Ef; [|left; by exists tk']. injection Ht as <-. subst fresh. right; left. by eexists _, _, _.
  - left. destruct Hop as [->|[[tku Hu] Hnw]]; [cbn in He; injection He as <-; by apply Hsame|].
    destruct (decide (t_state tku = 1)) as [E|E].
    + destruct (filc_async_complete_ok readonly s u result Hi) as (s1 & E1 & _ & Hc); [by exists tku|done|].
      rewrite E1 in He. injection He as <-. destruct (co_tasks _ _ _ _ Hc) as (tk1 & H1 & Et). rewrite Et, lookup_insert in Ht.
      case_decide as Ef; [|by exists tk']. injection Ht as <-. subst u. exists tk1. split; [done|]. split; [done|]. cbn. by destruct (result <? 0).
    + rewrite (complete_not_running readonly s u result tku) in He by done. injection He as <-. by apply Hsame.
  - left. apply bind_Ret_inv in He as (? & _ & He). injection He as <-. by apply Hsame.
  - left. apply bind_Ret_inv in He as (k & _ & He). injection He as <-. by apply Hsame.
  - left. destruct (poll_deliver_ok readonly s u Hi Hop) as (tku & s1 & _ & E & _ & Et & _). rewrite E in He. injection He as <-. by apply Hsame.
  - left. injection He as <-. apply Hsame. by destruct c.
  - destruct (join_start_ok readonly _ _ _ _ _ _ _ Hi Hop) as (s1 & es & E & _ & _ & [[_ ->]|[_ Hj]]); rewrite E in He; injection He as <-; [left; by apply Hsame|].
    rewrite (js_tasks _ _ _ _ _ _ Hj), lookup_insert in Ht. case_decide as Ef; [|left; by exists tk']. injection Ht as <-. subst fr. right; right.
    eexists _, _, _, _. split; [done|]. rewrite (js_joins _ _ _ _ _ _ Hj), lookup_insert_eq. by eexists.
  - left. injection He as <-. by apply Hsame.
Qed.

Lemma task_kept op s s' t tk :
  fw_inv s -> fw_op_ok op s -> fw_exec readonly op s = Ret s' -> f_tasks s !! t = Some tk ->
  exists tk', f_tasks s' !! t = Some tk' /\ t_runtime tk' = t_runtime tk.
Proof.
  intros Hi Hop He Ht. destruct (fw_exec_task readonly s op s' t tk Hi Hop He Ht) as (tk' & Ht' & _).
  destruct (fw_exec_tasks op s s' t tk' Hi Hop He Ht') as [(tk0 & H0 & E & _)|[(m & sa & ft & ->)|(snap & tok & st & fm & -> & _)]].
  - exists tk'. split; [done|]. congruence.
  - destruct Hop as (_ & _ & Hn & _). congruence.
  - destruct Hop as (_ & _ & _ & Hn & _). congruence.
Qed.

Lemma runtimes_step op s s' :
  fw_inv s -> join_op_ok op s -> made_ok op -> fw_exec readonly op s = Ret s' -> runtimes s -> runtimes s'.
Proof.
  intros Hi [Hop Hjop] Hmade He [Hj Ht]. pose proof (fw_exec_joins readonly op s s' Hi Hop He) as Hc. split.
  - intros t tk' Hk Hrt Hst.
    destruct (fw_exec_tasks op s s' t tk' Hi Hop He Hk) as [(tk & Hk0 & E & Es)|[(m & sa & ft & ->)|(snap & tok & st & fm & -> & Hs)]]; [|cbn in Hmade; congruence|done].
    specialize (Hj t tk Hk0 ltac:(congruence) (Es Hst)). destruct op as [| | | | | |rt snap tok st fr fm|u]; try by rewrite Hc.
    + destruct Hc as [->|(es & -> & _)]; [done|]. apply dom_insert_Some. by right.
    + rewrite Hc. destruct (decide (u = t)) as [->|Hne]; [|by rewrite lookup_delete_ne]. destruct Hjop. exists tk. auto.
  - intros t es Hes. assert (Hold : f_joins s !! t = Some es -> exists tk', f_tasks s' !! t = Some tk' /\ t_runtime tk' = g_join_runtime).
    { intros (tk & Hk & Er)%Ht. destruct (task_kept op s s' t tk Hi Hop He Hk) as (tk' & ? & ?). exists tk'. split; [done|congruence]. }
    destruct op as [| | | | | |rt snap tok st fr fm|u]; try (rewrite Hc in Hes; by apply Hold).
    + destruct Hc as [E|(es0 & E & _ & Hst)]; rewrite E in Hes; [by apply Hold|]. rewrite lookup_insert in Hes. case_decide as Ef; [|by apply Hold].
      subst fr. rewrite (js_tasks _ _ _ _ _ _ Hst), lookup_insert_eq. by eexists.
    + rewrite Hc, lookup_delete in Hes. case_decide; [done|by apply Hold].
Qed.

(** What an operation changes for the threads. *)
Definition steps_to (s s' : fw) : Prop :=
  both s' /\ runtimes s' /\ (forall p, poll_ok p s -> poll_ok p s') /\ (forall t es, tracked t es s -> tracked t es s').

Lemma steps_refl s : both s -> runtimes s -> steps_to s s.
Proof. by unfold steps_to. Qed.

Lemma op_steps op s :
  both s -> runtimes s -> join_op_ok op s -> made_ok op -> exists s', fw_exec readonly op s = Ret s' /\ steps_to s s'.
Proof.
  intros Hb Hr Hop Hm. destruct (both_step readonly s op Hb Hop) as (s' & E & Hb'). exists s'. split; [done|].
  assert (Htr : forall t es, tracked t es s -> tracked t es s') by (intros t es; by apply (tracked_step readonly op s)).
  pose proof Hb as [Hi _]. assert (Hnr : forall t, is_Some (f_tasks s !! t) /\ ~ running s t -> is_Some (f_tasks s' !! t) /\ ~ running s' t).
  { intros t [[tk Hk] Hn]. split; [|eapply not_running_kept; [exact Hi|apply Hop|exact E|by exists tk|done]].
    destruct (fw_exec_task readonly s op s' t tk Hi (proj1 Hop) E Hk) as (tk' & ? & _). by exists tk'. }
  split; [done|]. split; [by apply (runtimes_step op s s')|]. split; [|done].
  intros [t mode [es|]|t mode all rest|t|t|d]; cbn; auto; [by intros [? ?]; split; [apply Htr|]|].
  intros (es & Ht & Hg). exists es. split; [by apply Htr|]. pose proof (tr_made _ _ _ Ht) as Hmade. rewrite Forall_forall in *.
  intros e He. apply (gone_step s s'); [by apply (fw_exec_ages readonly op); [done|apply Hop|]|by apply Hmade|by apply Hg].
Qed.

(** The scan never fails. *)
Lemma join_scan_ok t mode all rest s :
  both s -> tracked t all s -> (forall e, e ∈ rest -> e ∈ all) ->
  exists p, join_scan t mode all rest s = Ret p /\ poll_ok p s.
Proof.
  intros Hb Htr. induction rest as [|e rest IH]; intros Hsub; cbn [join_scan].
  - rewrite (any_pending_ok _ _ (tracked_known_marks _ _ _ Htr)). cbn [mbind outcome_bind].
    destruct (existsb (entry_pending (f_marks s)) all) eqn:Ex; cbn [negb].
    + destruct (tr_task _ _ _ Htr) as [tk Htk]. rewrite (task_state_ok s t tk Htk). destruct mode; eexists; by split.
    + eexists. split; [done|]. exists all. split; [done|]. by apply existsb_pending.
  - assert (Hk : known (f_marks s) e). { pose proof (tracked_known_marks _ _ _ Htr) as Hm. rewrite Forall_forall in Hm. apply Hm, Hsub. left. }
    rewrite (join_entry_pending_ok _ _ Hk). cbn [mbind outcome_bind].
    destruct (entry_pending (f_marks s) e) eqn:Ep; cbn [negb]; [|apply IH; intros ? ?; apply Hsub; by right].
    destruct Hk as [m Hm]. rewrite Hm. cbn [deref mbind outcome_bind].
    destruct (Z.eqb_spec (m_owner m) NULL) as [Eo|Eo]; [apply IH; intros ? ?; apply Hsub; by right|].
    assert (running s (m_owner m)) as (tk & Htk & _).
    { unfold entry_pending in Ep. rewrite Hm in Ep. apply andb_prop in Ep as [Hu _]. apply (in_use_live readonly _ _ _ (fi_marks _ _ (proj1 Hb)) Hm) in Hu.
      eapply (fi_owns _ _ (proj1 Hb)); [by apply mark_on_live|done]. }
    rewrite Htk. eexists. split; [done|]. split; [done|]. intros ? ?; apply Hsub; by right.
Qed.

(** A section of [join_poll] never fails, and completes the join only when
    its producers are gone. *)
Lemma join_section_ok p s :
  both s -> runtimes s -> poll_ok p s ->
  exists p' s', join_section p s = Ret (p', s') /\ steps_to s s' /\ poll_ok p' s'.
Proof.
  intros Hb Hr Hp. pose proof (steps_refl s Hb Hr) as Hs. destruct p as [t mode data|t mode all rest|t|t|d]; cbn [JoinRun.join_section] in *.
  - assert (is_Some (f_tasks s !! t)) as [tk Htk] by (destruct data; [exact (tr_task _ _ _ Hp)|exact (proj1 Hp)]).
    rewrite (task_state_ok s t tk Htk). cbn [mbind outcome_bind]. destruct (Z.eqb_spec (t_state tk) 1) as [E|E]; cbn [negb]; [|by eexists _, _].
    destruct data as [es|]; [|destruct Hp as [_ []]; by exists tk]. cbn [deref mbind outcome_bind].
    destruct (join_scan_ok t mode es es s Hb Hp ltac:(done)) as (p & -> & Hp'). by eexists _, _.
  - destruct Hp as [Htr Hsub]. destruct (join_scan_ok t mode all rest s Hb Htr Hsub) as (p & -> & Hp'). by eexists _, _.
  - destruct Hp as (es & Htr & Hg).
    destruct (join_complete_ok readonly s t es Hb Htr Hg) as (s' & E & _ & Htr' & Hn & _). rewrite E. eexists _, s'. split; [done|].
    split; [|by split; [apply Htr'|]].
    assert (Hop : join_op_ok (Complete t 0) s \/ s' = s).
    { destruct (tr_state _ _ _ Htr) as [[Ej Hrun]|(_ & Hn0 & _)].
      - left. split; [right; split; [apply Htr|]|intros es' Ej'; congruence]. intros h hd lk Hw Et. pose proof (ji_waits _ (proj2 Hb) _ _ _ Hw). congruence.
      - right. destruct (tr_task _ _ _ Htr) as [tk Htk]. rewrite (complete_not_running readonly s t 0 tk) in E; [by injection E as <-|done|]. intros ?. apply Hn0. by exists tk. }
    destruct Hop as [Hop| ->]; [|done]. destruct (op_steps (Complete t 0) s Hb Hr Hop I) as (s1 & E1 & H1). cbn in E1. rewrite E in E1. by injection E1 as <-.
  - eexists _, _. split; [done|]. split; [|done]. destruct (op_steps (Clear_join t) s Hb Hr) as (s1 & E1 & H1); [split; [exact I|exact (proj2 Hp)]|done|]. by injection E1 as <-.
  - by eexists _, _.
Qed.

(** Every event goes through, and keeps the joins. *)
Lemma jexec_ok y ev : sys_inv y -> jevent_ok ev y ->
  exists y', jexec ev y = Ret y' /\ sys_inv y' /\ steps_to (sy_fw y) (sy_fw y').
Proof.
  intros [Hb Hr Hp] Hok. destruct ev as [op|i t mode|i]; cbn [JoinRun.jexec].
  - destruct Hok as (Hop & Hmade & Hx). assert (Hjop : join_op_ok op (sy_fw y)).
    { split; [done|]. destruct op as [|t r|[t ? ? ? ? ?| |]| | | | |t]; try done.
      - intros es (tk & Htk & Er)%(rt_task _ Hr). by destruct (Hx tk Htk).
      - destruct (f_joins (sy_fw y) !! t) as [es|] eqn:E; [|done]. apply (rt_task _ Hr) in E as (tk & Htk & Er). by destruct (Hx tk Htk). }
    destruct (op_steps op (sy_fw y) Hb Hr Hjop Hmade) as (s' & E & Hs). rewrite E. eexists. split; [done|]. split; [|done].
    destruct Hs as (Hb' & Hr' & Hk & _). split; [done|done|]. intros j p Hj. by apply Hk, (Hp j p).
  - destruct Hok as [(tk & Htk & Er) _]. rewrite Htk. eexists. split; [done|]. split; [|by apply steps_refl]. split; [done|done|]. cbn.
    apply map_Forall_insert_2; [|done]. cbn. destruct (f_joins (sy_fw y) !! t) as [es|] eqn:E; [by apply tracked_known; [apply Hb|]|].
    split; [by exists tk|]. intros (tk' & Hk' & Hst). rewrite Htk in Hk'. injection Hk' as <-. destruct (rt_join _ Hr t tk Htk Er Hst). congruence.
  - destruct Hok as [p Hi]. rewrite Hi. cbn [deref mbind outcome_bind]. destruct (join_section_ok p (sy_fw y) Hb Hr (Hp i p Hi)) as (p' & s' & E & Hs & Hp').
    rewrite E. eexists. split; [done|]. split; [|done]. destruct Hs as (Hb' & Hr' & Hk & _). split; [done|done|]. cbn.
    apply map_Forall_insert_2; [done|]. intros j q Hj. by apply Hk, (Hp j q).
Qed.

Lemma sys_init_inv : sys_inv jsys_init.
Proof.
  split; cbn; [split; [apply fw_init_inv|apply joins_init_inv]| |apply map_Forall_empty].
  split; cbn; intros t x; by rewrite lookup_empty.
Qed.

Abbreviation sys_reach := (reach jexec jevent_ok jsys_init).
Abbreviation sys_ops_ok := (ops_ok jexec jevent_ok).

Lemma sys_step y ev : sys_inv y -> jevent_ok ev y -> exists y', jexec ev y = Ret y' /\ sys_inv y'.
Proof. intros Hi Hok. destruct (jexec_ok y ev Hi Hok) as (y' & ? & ? & _). by exists y'. Qed.

Lemma sys_reach_inv y : sys_reach y -> sys_inv y.
Proof. apply reach_inv; [apply sys_step|apply sys_init_inv]. Qed.

Lemma tracked_run evs y y' t es :
  sys_inv y -> sys_ops_ok evs y -> execs jexec evs y = Ret y' -> tracked t es (sy_fw y) -> sys_inv y' /\ tracked t es (sy_fw y').
Proof.
  revert y. induction evs as [|ev evs IH]; intros y Hi Hok He Htr; cbn in *; [injection He as <-; by split|].
  destruct Hok as [Hev Hok]. apply bind_Ret_inv in He as (y1 & H1 & He).
  destruct (jexec_ok y ev Hi Hev) as (y1' & H1' & Hi1 & _ & _ & _ & Hk). rewrite H1 in H1'. injection H1' as <-.
  apply (IH y1); auto.
Qed.

(** C7: wait_all waits for them all.  From a call of wait_all on, any number
    of threads run [join_poll] (whose calls are runs of its sections), their
    sections interleaved with anything the others do, who complete only calls
    of their own runtimes.  Once the wait_all's task is no longer running,
    every write mark that was in force on one of the listed objects when
    wait_all was called has been taken away since: if its record is in force
    again, it is with a later generation. *)
Theorem join_waits_for_all :
  (forall sched mode t s d s' rest, join_poll readonly sched mode t s = Ret (d, s', rest) ->
     poll_run readonly (Top t mode (f_joins s !! t)) s (Returned d) s') /\
  forall (y y1 y2 : jsys) (snap : list fptr) (tok : fptr) (st t fm : ptr) (evs : list jevent),
  let call := Others (Wait_all g_join_runtime snap tok st t fm) in
  sys_reach y -> jevent_ok call y -> jexec call y = Ret y1 ->
  sys_ops_ok evs y1 -> execs jexec evs y1 = Ret y2 -> ~ running (sy_fw y2) t ->
  forall b x m, b ∈ snap -> f_addr b <> NULL -> mark_on (f_marks (sy_fw y)) (f_lower b) x m -> m_write m = true ->
  forall l m', mark_on (f_marks (sy_fw y2)) l x m' -> m_generation m < m_generation m'.
Proof.
  split; [intros sched mode t s d s' rest H; exact (join_loop_run _ _ _ _ _ _ _ _ _ H)|].
  intros y y1 y2 snap tok st t fm evs call Hi%sys_reach_inv Hop He Hok Hes Hn b x m Hin Ha Hm Hw l m' Hm'.
  destruct (jexec_ok y _ Hi Hop) as (y1' & E & Hi1 & _). rewrite He in E. injection E as <-.
  cbn in He. apply bind_Ret_inv in He as (s1 & E1 & He). injection He as <-. destruct Hop as (Hop & _ & _).
  destruct (join_start_ok readonly _ _ _ _ _ _ _ (proj1 (si_both _ Hi)) Hop) as (s1' & es & E & _ & [_ Hsn] & Hc). rewrite E1 in E. injection E as <-.
  assert (He0 : mk_entry x (m_generation m) ∈ es) by (apply Hsn; by exists b, m).
  destruct Hc as [[-> _]|[_ Hst]]; [by apply not_elem_of_nil in He0|].
  assert (Htr : tracked t es s1) by (apply tracked_known; [apply (si_both _ Hi1)|by rewrite (js_joins _ _ _ _ _ _ Hst), lookup_insert_eq]).
  destruct (tracked_run evs _ y2 t es Hi1 Hok Hes Htr) as (Hi2 & [Hmade _ [[_ ?]|(_ & _ & Hg)]]); [done|].
  rewrite Forall_forall in Hg, Hmade. specialize (Hg _ He0). destruct (Hmade _ He0) as (m2 & Hm2 & Hle).
  pose proof Hm' as (Hl & Hx & _). cbn in Hm2, Hle. rewrite Hx in Hm2. injection Hm2 as <-.
  unfold gone, entry_pending in Hg. cbn in Hg. rewrite Hx in Hg.
  rewrite (proj2 (in_use_live readonly _ _ _ (fi_marks _ _ (proj1 (si_both _ Hi2))) Hx) Hl) in Hg. cbn in Hg. apply Z.eqb_neq in Hg. lia.
Qed.
(** *** Every critical section returns *)

(** The critical sections that only read: the searches of the loops that
    wait, of [filc_async_is_pending] and of [lock_take]. *)
Inductive fw_scan :=
  | Access_own (act : list ptr) (b : fptr)
  | Access_owner (act : list ptr) (own : bool) (b : fptr)
  | Buffer_owner (task running_body : ptr) (b : fptr)
  | Is_pending (b : fptr)
  | Lock_blocked (h : ptr)
  | Task_state (t : ptr).

Definition scan (q : fw_scan) (s : fw) : outcome Z :=
  match q with
  | Access_own act b => own ← access_own act b (f_marks s); mret (Z.b2z own)
  | Access_owner act own b => access_owner act own b (f_marks s)
  | Buffer_owner task running_body b => buffer_owner task running_body b (f_marks s)
  | Is_pending b => r ← filc_async_is_pending b (f_marks s); mret (Z.b2z r)
  | Lock_blocked h => '(holder, queued_behind) ← lock_blocked h (f_locks s); mret (Z.b2z ((holder =? NULL) && negb queued_behind))
  | Task_state t => task_state s t
  end.

(** The pointers are into objects, the request is queued, the task exists. *)
Definition scan_ok (q : fw_scan) (s : fw) : Prop :=
  match q with
  | Access_own act b => buf_ok (f_marks s) b /\ ~ (NULL ∈ act)
  | Access_owner _ _ b | Buffer_owner _ _ b => buf_ok (f_marks s) b
  | Is_pending b => f_addr b = NULL \/ buf_ok (f_marks s) b
  | Lock_blocked h => exists hd lk, waiting (f_locks s) h hd lk
  | Task_state t => is_Some (f_tasks s !! t)
  end.

Lemma scan_returns q s : fw_inv s -> scan_ok q s -> exists v, scan q s = Ret v.
Proof.
  intros Hi Hq. pose proof (fi_marks _ _ Hi) as Hm. destruct q as [act b|act own b|tsk body b|b|h|t]; cbn in *.
  - destruct Hq as [Hb Hact]. destruct (access_own_ok readonly _ act b Hm Hb Hact) as (own & -> & _). by eexists.
  - destruct (access_owner_ok readonly _ act own b Hm Hq) as (p & -> & _). by eexists.
  - destruct (buffer_owner_ok readonly _ tsk body b Hm Hq) as (p & -> & _). by eexists.
  - unfold filc_async_is_pending. destruct (Z.eqb_spec (f_addr b) NULL) as [E|E]; [by eexists|]. destruct Hq as [|Hb]; [done|].
    destruct (find_over readonly _ b m_write Hm Hb) as (r & Hr & _). unfold writer_find. rewrite Hr. by eexists.
  - destruct Hq as (hd & lk & Hw). destruct (lock_blocked_running readonly s h (hd_task hd) (l_value lk) (l_space lk) (hd_write hd) Hi) as (? & ? & p & q & _ & -> & _);
      [by exists hd, lk|]. by eexists.
  - destruct Hq as [tk Ht]. rewrite (task_state_ok s t tk Ht). by eexists.
Qed.

(** C35: the critical sections never fail.  In every reachable state of the
    framework, every section that changes it returns, every search of a loop
    that waits returns, and [filc_async_get_stats] comes to the end of its
    walk of the running list, whatever happens during its polls; and every
    section of [join_poll] returns, wherever its threads stand.  So no memory
    is accessed that is not there, no walk is endless, and no fatal error is
    reported. *)
Theorem framework_ops_total :
  (forall s, reach (fw_exec readonly) fw_op_ok fw_init s ->
     (forall op, fw_op_ok op s -> exists s', fw_exec readonly op s = Ret s') /\
     (forall q, scan_ok q s -> exists v, scan q s = Ret v) /\
     (forall fuel polls, polls_ok readonly polls s -> (size (f_tasks s) + length (concat polls) <= fuel)%nat ->
        exists st s', filc_async_get_stats readonly fuel polls s = Ret (st, s'))) /\
  (forall y, sys_reach y -> forall ev, jevent_ok ev y -> exists y', jexec ev y = Ret y').
Proof.
  split.
  - intros s Hi%fw_reach_inv. split; [|split].
    + intros op Hop. destruct (fw_exec_ok readonly s op Hi Hop) as (s' & ? & _). by exists s'.
    + intros q. by apply scan_returns.
    + intros fuel polls Hok Hf. destruct (get_stats_ok readonly s fuel polls Hi Hok Hf) as (s' & E & _). by eexists _, s'.
  - intros y Hi%sys_reach_inv ev Hok. destruct (sys_step y ev Hi Hok) as (y' & ? & _). by exists y'.
Qed.
End System.

(** ** A concrete run

    Call 64 produces the object at 4096; the wait_all 320 waits for it.  Two
    threads poll it: the first looks while call 64 runs and would block; once
    call 64 is completed both find nothing pending, and both complete the
    task, the second to no effect. *)

Definition jrun (evs : list jevent) (y : jsys) : jsys := after y (execs (jexec ro_8192) evs y).

Definition join_begin : list jevent := map Others begin_ops.
Definition join_call : jevent := Others (Wait_all 4112 [buf_a; fnull] token_a 36864 320 28736).
Definition join_evs : list jevent :=
  [Enter 1 320 FILC_ASYNC_POLL_BLOCK; Advance 1; Advance 1; Others (Complete 64 9); Enter 2 320 FILC_ASYNC_POLL_CHECK;
   Advance 1; Advance 2; Advance 1; Advance 2; Advance 2; Advance 1; Others (Mark_op (Mark_pending [] 128 buf_a 28800))].
Definition jsys_a : jsys := jrun join_begin jsys_init.
Definition jsys_b : jsys := jrun [join_call] jsys_a.
Definition jsys_c : jsys := jrun join_evs jsys_b.

Ltac jevent_concrete := idtac;
  lazymatch goal with
  | |- jevent_ok _ (Others ?op) _ =>
      split; [cbn [sy_fw]; lazymatch op with Wait_all _ _ _ _ _ _ => wait_all_concrete | _ => fw_op_concrete end|];
      split; [cbn; first [exact I|reflexivity|discriminate]|];
      first [exact I | (let tk := fresh in let E := fresh in intros tk E; vm_compute in E; first [discriminate E|injection E as <-; discriminate])]
  | |- jevent_ok _ (Enter _ _ _) _ => split; [eexists; split; [vm_compute; reflexivity|reflexivity]|vm_compute; exact I]
  | |- jevent_ok _ (Advance _) _ => vm_compute; eexists; reflexivity
  end.

Lemma jsys_a_reach : reach (jexec ro_8192) (jevent_ok 4112) jsys_init jsys_a.
Proof.
  apply (execs_reach _ _ _ join_begin jsys_init jsys_a); [apply reach_init|unfold join_begin, begin_ops; cbn [map]; ops_concrete jevent_concrete|vm_compute; reflexivity].
Qed.

Lemma join_call_ok : jevent_ok 4112 join_call jsys_a.
Proof. unfold join_call. jevent_concrete. Qed.

Lemma join_call_exec : jexec ro_8192 join_call jsys_a = Ret jsys_b.
Proof. vm_compute. reflexivity. Qed.

Lemma jsys_b_reach : reach (jexec ro_8192) (jevent_ok 4112) jsys_init jsys_b.
Proof. exact (reach_step _ _ _ jsys_a join_call jsys_b jsys_a_reach join_call_ok join_call_exec). Qed.

Lemma join_evs_ok : ops_ok (jexec ro_8192) (jevent_ok 4112) join_evs jsys_b.
Proof. unfold join_evs. ops_concrete jevent_concrete. Qed.

Lemma join_waits_for_all_witness :
  exists m, mark_on (f_marks (sy_fw jsys_a)) 4096 28672 m /\ m_generation m = 1 /\
    forall l m', mark_on (f_marks (sy_fw jsys_c)) l 28672 m' -> 1 < m_generation m'.
Proof.
  exists (mk_mark buf_a 4096 4160 1 64 true). assert (Hm : mark_on (f_marks (sy_fw jsys_a)) 4096 28672 (mk_mark buf_a 4096 4160 1 64 true)).
  { split; [point|split; [vm_compute; reflexivity|reflexivity]]. }
  split; [exact Hm|]. split; [reflexivity|].
  apply (proj2 (join_waits_for_all ro_8192 4112) jsys_a jsys_b jsys_c [buf_a; fnull] token_a 36864 320 28736 join_evs jsys_a_reach) with (b := buf_a) (m := mk_mark buf_a 4096 4160 1 64 true).
  - exact join_call_ok.
  - exact join_call_exec.
  - exact join_evs_ok.
  - vm_compute. reflexivity.
  - intros (tk & Hk & Hs). vm_compute in Hk. injection Hk as <-. discriminate Hs.
  - left.
  - discriminate.
  - exact Hm.
  - reflexivity.
Defined.

(** In this run: a completion, a search, the statistics with a completion
    during the first poll, and a section of [join_poll]. *)
Lemma framework_ops_total_witness :
  (exists s', fw_exec ro_8192 (Complete 128 0) fw_a = Ret s') /\ (exists v, scan (Lock_blocked 24832) (fw_run (begin_ops ++ [Lock_op (Request 128 7 1 FILC_ASYNC_DEP_READ 24768 24832)])) = Ret v) /\
  (exists st s', filc_async_get_stats ro_8192 4 [[Complete 64 (-5)]; []] fw_a = Ret (st, s')) /\
  exists y', jexec ro_8192 (Enter 1 320 FILC_ASYNC_POLL_BLOCK) jsys_b = Ret y'.
Proof.
  destruct (framework_ops_total ro_8192 4112) as [Hf Hj]. split; [|split; [|split]].
  - apply (Hf fw_a fw_a_reach). fw_op_concrete.
  - apply (Hf (fw_run (begin_ops ++ [Lock_op (Request 128 7 1 FILC_ASYNC_DEP_READ 24768 24832)]))).
    + apply (fw_run_reach (begin_ops ++ [Lock_op (Request 128 7 1 FILC_ASYNC_DEP_READ 24768 24832)])); [unfold begin_ops; cbn [app]; ops_concrete fw_op_concrete|point].
    + exists (mk_hold 128 24576 false). eexists. split; [point|]. split; [point|]. vm_compute. left.
  - apply (Hf fw_a fw_a_reach).
    + split; [ops_concrete fw_op_concrete|]. intros s1 E. vm_compute in E. injection E as <-. by split.
    + vm_compute. lia.
  - apply (Hj jsys_b jsys_b_reach). jevent_concrete.
Defined.
