(* ===== verification/Dag.v ===== *)
(** * Dag: the dependency graph of a batch

    [io_uring/fasync_dep.c]: the effect sets of the operations of a batch, which
    pairs conflict ([fasync_access_conflict], [fasync_ops_conflict]), the edges
    ([fasync_build_dag]) and the run of the batch in dependency order
    ([fasync_run_dag]).

    Arrays with a count are lists.  [fasync_run_dag] calls the program's submit
    callback and the request layer; those are the parameters [submit],
    [publish] ([fasync_submit]), [ready] and [result], functions on a state
    [W] of the world. *)

From Stdlib Require Import Sorted.
From S2P Require Import Prelude.
Open Scope Z_scope.

Definition FASYNC_IN : Z := 0.
Definition FASYNC_OUT : Z := 1.
Definition FASYNC_INOUT : Z := 2.

Record access := mk_access { a_buf : fptr; a_len : Z; a_kind : Z; a_resource : Z }.
Abbreviation op_accesses := (list access) (only parsing).

Record range := mk_range { r_lo : ptr; r_hi : ptr }.

(** The object and, should it stick out, the stated bytes. *)
Definition fasync_capability_range (b : fptr) (len : Z) : range :=
  let lower := f_lower b in
  let upper := f_upper b in
  let end_ := u64 (f_addr b + len) in
  mk_range (if f_addr b <? lower then f_addr b else lower) (if upper <? end_ then end_ else upper).

Definition fasync_ranges_disjoint (a b : range) : bool := (r_hi a <=? r_lo b) || (r_hi b <=? r_lo a).

Definition fasync_kind_writes (kind : Z) : bool := (kind =? FASYNC_OUT) || (kind =? FASYNC_INOUT).
Definition fasync_kind_reads (kind : Z) : bool := (kind =? FASYNC_IN) || (kind =? FASYNC_INOUT).

(** The edge kind by the access kinds: 1 true, 2 anti, 3 output, 0 none. *)
Definition edge_kind (a b : Z) : Z :=
  if fasync_kind_writes a && fasync_kind_writes b then 3
  else if fasync_kind_writes a && fasync_kind_reads b then 1
  else if fasync_kind_reads a && fasync_kind_writes b then 2
  else 0.

(** The edge kind, and whether [*auto_disjoint] is set. *)
Definition fasync_access_conflict (a b : access) : Z * bool :=
  if (f_addr (a_buf a) =? NULL) || (f_addr (a_buf b) =? NULL) then
    if negb (f_addr (a_buf a) =? NULL) || negb (f_addr (a_buf b) =? NULL) then (0, false)
    else if negb (a_resource a =? a_resource b) then (0, true)
    else (edge_kind (a_kind a) (a_kind b), false)
  else
    let ra := fasync_capability_range (a_buf a) (a_len a) in
    let rb := fasync_capability_range (a_buf b) (a_len b) in
    if fasync_ranges_disjoint ra rb then (0, true)
    else (edge_kind (a_kind a) (a_kind b), false).

Record conflict_st := mk_conflict_st { c_strongest : Z; c_dissolved : bool; c_declared : bool }.

(** The body of the inner loop of [fasync_ops_conflict]. *)
Definition conflict_step (aa : access) (st : conflict_st) (bb : access) : conflict_st :=
  let declared :=
    (fasync_kind_writes (a_kind aa) && (fasync_kind_writes (a_kind bb) || fasync_kind_reads (a_kind bb))) ||
    (fasync_kind_reads (a_kind aa) && fasync_kind_writes (a_kind bb)) in
  let edge := fst (fasync_access_conflict aa bb) in
  mk_conflict_st (if edge =? 0 then c_strongest st else edge)
    (c_dissolved st || (declared && (edge =? 0)))
    (c_declared st || (declared && negb (edge =? 0))).

(** Whether the operations conflict, and [*auto_disjoint]. *)
Definition fasync_ops_conflict (a b : op_accesses) : bool * bool :=
  let st := fold_left (fun st aa => fold_left (conflict_step aa) b st) a (mk_conflict_st 0 false false) in
  (negb (c_strongest st =? 0), c_dissolved st && negb (c_declared st)).

Record dag_stats := mk_dag_stats {
  d_ops : Z; d_edges : Z; d_declared_edges : Z; d_auto_disjoint_pairs : Z;
  d_read_write_edges : Z; d_write_read_edges : Z; d_write_write_edges : Z;
}.

(** The nested loops that stop at the first access pair with an edge. *)
Definition first_kind (a b : op_accesses) : Z :=
  fold_left (fun k x => fold_left (fun k y => if k =? 0 then fst (fasync_access_conflict x y) else k) b k) a 0.

Definition count_auto (st : dag_stats) : dag_stats :=
  mk_dag_stats (d_ops st) (d_edges st) (d_declared_edges st) (u32 (d_auto_disjoint_pairs st + 1))
    (d_read_write_edges st) (d_write_read_edges st) (d_write_write_edges st).

Definition count_edge (kind : Z) (st : dag_stats) : dag_stats :=
  mk_dag_stats (d_ops st) (u32 (d_edges st + 1)) (u32 (d_declared_edges st + 1)) (d_auto_disjoint_pairs st)
    (if kind =? 1 then u32 (d_read_write_edges st + 1) else d_read_write_edges st)
    (if kind =? 2 then u32 (d_write_read_edges st + 1) else d_write_read_edges st)
    (if kind =? 3 then u32 (d_write_write_edges st + 1) else d_write_write_edges st).

(** [edges[n_edges++] = i * n_ops + j], in [unsigned]. *)
Definition edge_code (n_ops i j : Z) : Z := u32 (i * n_ops + j).
Definition edge_from (n_ops e : Z) : Z := e / n_ops.
Definition edge_to (n_ops e : Z) : Z := e mod n_ops.

(** The pairs of the two loops, in their order. *)
Definition loop_pairs (n : nat) : list (nat * nat) :=
  concat (map (fun i => map (pair i) (seq (S i) (n - S i))) (seq 0 n)).

(** [edges]: those written so far; the result is the return value, the edges
    written and [*stats]. *)
Fixpoint build_dag_loop (ops : list op_accesses) (max_edges : Z) (ps : list (nat * nat))
  (edges : list Z) (local : dag_stats) : Z * list Z * dag_stats :=
  match ps with
  | [] => (Z.of_nat (length edges), edges, local)
  | (i, j) :: ps =>
      let a := nth i ops [] in
      let b := nth j ops [] in
      let '(conflict, auto_disjoint) := fasync_ops_conflict a b in
      let local := if auto_disjoint then count_auto local else local in
      if negb conflict then build_dag_loop ops max_edges ps edges local
      else if max_edges <=? Z.of_nat (length edges) then (0, edges, local)
      else
        build_dag_loop ops max_edges ps
          (edges ++ [edge_code (Z.of_nat (length ops)) (Z.of_nat i) (Z.of_nat j)])
          (count_edge (first_kind a b) local)
  end.

Definition fasync_build_dag (ops : list op_accesses) (max_edges : Z) : Z * list Z * dag_stats :=
  build_dag_loop ops max_edges (loop_pairs (length ops)) []
    (mk_dag_stats (Z.of_nat (length ops)) 0 0 0 0 0 0).

(** ** Resources *)

(** A tracker's resource and its queue of (handle, kind) pairs, [n] of them. *)
Record tracker := mk_tracker { k_resource : Z; k_q : list (Z * Z) }.

(** [fasync_next_resource] is the first component of the result; [mem]: whether
    [malloc] succeeds. *)
Definition fasync_tracker_new (mem : bool) (next_resource : Z) : Z * option tracker :=
  if mem then (u64 (next_resource + 1), Some (mk_tracker next_resource [])) else (next_resource, None).

Definition fasync_tracker_access (k : option tracker) (kind : Z) : access :=
  mk_access fnull 0 kind (match k with Some k => k_resource k | None => 0 end).

(** ** Conflicts *)

Definition kind_ok (k : Z) : Prop := 0 <= k <= 2.

Lemma edge_kind_spec a b :
  kind_ok a -> kind_ok b -> edge_kind a b <> 0 <-> fasync_kind_writes a = true \/ fasync_kind_writes b = true.
Proof.
  intros Ha Hb. assert (Ha' : a = 0 \/ a = 1 \/ a = 2) by (unfold kind_ok in *; lia).
  assert (Hb' : b = 0 \/ b = 1 \/ b = 2) by (unfold kind_ok in *; lia).
  destruct Ha' as [->|[->| ->]], Hb' as [->|[->| ->]]; vm_compute; naive_solver.
Qed.

(** The accesses touch the same thing: one resource, or two objects (with the
    bytes stated beyond them) that overlap. *)
Definition same_target (a b : access) : Prop :=
  if (f_addr (a_buf a) =? NULL) || (f_addr (a_buf b) =? NULL)
  then f_addr (a_buf a) = NULL /\ f_addr (a_buf b) = NULL /\ a_resource a = a_resource b
  else fasync_ranges_disjoint (fasync_capability_range (a_buf a) (a_len a)) (fasync_capability_range (a_buf b) (a_len b)) = false.

Lemma access_conflict_spec a b :
  fst (fasync_access_conflict a b) <> 0 <-> same_target a b /\ edge_kind (a_kind a) (a_kind b) <> 0.
Proof.
  unfold fasync_access_conflict, same_target.
  destruct (Z.eqb_spec (f_addr (a_buf a)) NULL) as [Ea|Ea], (Z.eqb_spec (f_addr (a_buf b)) NULL) as [Eb|Eb]; cbn [orb negb fst]; try naive_solver.
  - destruct (Z.eqb_spec (a_resource a) (a_resource b)); cbn; naive_solver.
  - destruct (fasync_ranges_disjoint _ _); cbn; naive_solver.
Qed.

Definition access_edge (a b : access) : bool := negb (fst (fasync_access_conflict a b) =? 0).

Lemma conflict_row aa b st :
  c_strongest (fold_left (conflict_step aa) b st) <> 0 <->
  c_strongest st <> 0 \/ Exists (fun bb => access_edge aa bb = true) b.
Proof.
  revert st. induction b as [|bb b IH]; intros st; cbn [fold_left]; [rewrite Exists_nil; naive_solver|].
  rewrite IH, Exists_cons. unfold access_edge at 2. cbn [conflict_step c_strongest].
  destruct (Z.eqb_spec (fst (fasync_access_conflict aa bb)) 0); cbn; naive_solver.
Qed.

(** Two operations conflict when some pair of their accesses does. *)
Lemma ops_conflict_spec a b :
  fst (fasync_ops_conflict a b) = true <-> exists aa bb, aa ∈ a /\ bb ∈ b /\ access_edge aa bb = true.
Proof.
  unfold fasync_ops_conflict. cbn [fst]. set (st0 := mk_conflict_st 0 false false).
  assert (H : forall st, c_strongest (fold_left (fun st aa => fold_left (conflict_step aa) b st) a st) <> 0 <->
    c_strongest st <> 0 \/ Exists (fun aa => Exists (fun bb => access_edge aa bb = true) b) a).
  { induction a as [|aa a IH]; intros st; cbn [fold_left]; [rewrite Exists_nil; naive_solver|].
    rewrite IH, conflict_row, Exists_cons. naive_solver. }
  rewrite negb_true_iff, Z.eqb_neq, H, Exists_exists. cbn. setoid_rewrite Exists_exists. naive_solver.
Qed.

(** *** What an edge says

    The specification, by the declared effects alone. *)

Definition Writes (a : access) : Prop := a_kind a = FASYNC_OUT \/ a_kind a = FASYNC_INOUT.
Definition Reads (a : access) : Prop := a_kind a = FASYNC_IN \/ a_kind a = FASYNC_INOUT.

(** The bounds of an access: its object, and the stated bytes beyond it. *)
Definition lowest (a : access) : Z := Z.min (f_addr (a_buf a)) (f_lower (a_buf a)).
Definition highest (a : access) : Z := Z.max (f_upper (a_buf a)) (u64 (f_addr (a_buf a) + a_len a)).

(** Two accesses meet: the same named resource, or overlapping ranges. *)
Definition meets (a b : access) : Prop :=
  f_addr (a_buf a) = NULL /\ f_addr (a_buf b) = NULL /\ a_resource a = a_resource b \/
  f_addr (a_buf a) <> NULL /\ f_addr (a_buf b) <> NULL /\ lowest a < highest b /\ lowest b < highest a.

(** The dependences between an access and a later one: the later one reads
    what the first writes, overwrites what the first reads, or overwrites what
    it writes. *)
Inductive dependence := Write_read | Read_write | Write_write.
#[export] Instance dependence_dec : EqDecision dependence.
Proof. solve_decision. Defined.

(** By their kinds; an access that reads and writes counts as a write. *)
Inductive declared (a b : access) : dependence -> Prop :=
  | declared_ww : Writes a -> Writes b -> declared a b Write_write
  | declared_wr : Writes a -> ~ Writes b -> Reads b -> declared a b Write_read
  | declared_rw : ~ Writes a -> Reads a -> Writes b -> declared a b Read_write.

Definition depends (a b : access) (d : dependence) : Prop := meets a b /\ declared a b d.

(** The dependence of the first pair of accesses that has one. *)
Definition first_dependence (a b : op_accesses) (d : dependence) : Prop :=
  exists x y aa bb, a !! x = Some aa /\ b !! y = Some bb /\ depends aa bb d /\
    forall x' y' aa' bb' d', a !! x' = Some aa' -> b !! y' = Some bb' -> depends aa' bb' d' -> (x < x')%nat \/ (x = x' /\ y <= y')%nat.

(** *** The code agrees with it *)

Definition dep_code (d : dependence) : Z := match d with Write_read => 1 | Read_write => 2 | Write_write => 3 end.
Definition dep_of (k : Z) : dependence := if k =? 1 then Write_read else if k =? 2 then Read_write else Write_write.

Lemma writes_iff a : fasync_kind_writes (a_kind a) = true <-> Writes a.
Proof. unfold fasync_kind_writes, Writes. by rewrite orb_true_iff, !Z.eqb_eq. Qed.

Lemma reads_iff a : fasync_kind_reads (a_kind a) = true <-> Reads a.
Proof. unfold fasync_kind_reads, Reads. by rewrite orb_true_iff, !Z.eqb_eq. Qed.

Lemma edge_kind_declared a b d : edge_kind (a_kind a) (a_kind b) = dep_code d <-> declared a b d.
Proof.
  pose proof (writes_iff a) as Wa. pose proof (writes_iff b) as Wb. pose proof (reads_iff a) as Ra. pose proof (reads_iff b) as Rb.
  unfold edge_kind. destruct (fasync_kind_writes (a_kind a)), (fasync_kind_writes (a_kind b)), (fasync_kind_reads (a_kind a)), (fasync_kind_reads (a_kind b)); cbn [andb];
    (split; [intros E; destruct d; try discriminate E; constructor; naive_solver|intros []; naive_solver]).
Qed.

Lemma edge_kind_some a b : edge_kind (a_kind a) (a_kind b) <> 0 <-> exists d, declared a b d.
Proof.
  split; [|intros [d Hd%edge_kind_declared]; rewrite Hd; by destruct d]. intros Hne.
  assert (Hk : exists d, edge_kind (a_kind a) (a_kind b) = dep_code d).
  { unfold edge_kind in *. repeat case_match; try done; [by exists Write_write|by exists Write_read|by exists Read_write]. }
  destruct Hk as [d Hd%edge_kind_declared]. by exists d.
Qed.

Lemma meets_iff a b : same_target a b <-> meets a b.
Proof.
  unfold same_target, meets, lowest, highest.
  destruct (Z.eqb_spec (f_addr (a_buf a)) NULL) as [Ea|Ea], (Z.eqb_spec (f_addr (a_buf b)) NULL) as [Eb|Eb]; cbn [orb]; try naive_solver.
  unfold fasync_ranges_disjoint, fasync_capability_range. cbn [r_lo r_hi]. rewrite orb_false_iff, !Z.leb_gt.
  destruct (Z.ltb_spec (f_addr (a_buf a)) (f_lower (a_buf a))), (Z.ltb_spec (f_addr (a_buf b)) (f_lower (a_buf b))),
    (Z.ltb_spec (f_upper (a_buf a)) (u64 (f_addr (a_buf a) + a_len a))), (Z.ltb_spec (f_upper (a_buf b)) (u64 (f_addr (a_buf b) + a_len b)));
    (split; [intros [? ?]; right; repeat split; try done; lia|intros [(? & _)|(_ & _ & ? & ?)]; [done|lia]]).
Qed.

Lemma access_conflict_cases a b :
  fst (fasync_access_conflict a b) = edge_kind (a_kind a) (a_kind b) /\ meets a b \/ fst (fasync_access_conflict a b) = 0 /\ ~ meets a b.
Proof.
  rewrite <- meets_iff. unfold fasync_access_conflict, same_target.
  destruct (Z.eqb_spec (f_addr (a_buf a)) NULL) as [Ea|Ea], (Z.eqb_spec (f_addr (a_buf b)) NULL) as [Eb|Eb]; cbn [orb negb fst]; try naive_solver.
  - destruct (Z.eqb_spec (a_resource a) (a_resource b)); cbn; naive_solver.
  - destruct (fasync_ranges_disjoint _ _); cbn; naive_solver.
Qed.

Lemma access_conflict_depends a b d : fst (fasync_access_conflict a b) = dep_code d <-> depends a b d.
Proof.
  unfold depends. destruct (access_conflict_cases a b) as [[-> H]|[-> H]]; [rewrite edge_kind_declared; naive_solver|].
  split; [by destruct d|naive_solver].
Qed.

Lemma access_edge_depends a b : access_edge a b = true <-> exists d, depends a b d.
Proof.
  unfold access_edge. rewrite negb_true_iff, Z.eqb_neq. destruct (access_conflict_cases a b) as [[E H]|[E H]]; rewrite E.
  - rewrite edge_kind_some. split; intros [d Hd]; exists d; [by split|apply Hd].
  - split; [done|]. by intros (d & ? & _).
Qed.

(** A loop that stops at the first nonzero value. *)
Definition first_nonzero {A} (f : A -> Z) (l : list A) : Z := fold_left (fun k y => if k =? 0 then f y else k) l 0.

Lemma fold_nonzero {A} (f : A -> Z) (l : list A) k :
  fold_left (fun k y => if k =? 0 then f y else k) l k = if k =? 0 then first_nonzero f l else k.
Proof.
  destruct (Z.eqb_spec k 0) as [->|Hk]; [done|]. induction l as [|y l IH]; [done|]. cbn [fold_left]. by destruct (Z.eqb_spec k 0).
Qed.

Lemma first_nonzero_spec {A} (f : A -> Z) (l : list A) :
  first_nonzero f l <> 0 -> exists i y, l !! i = Some y /\ f y = first_nonzero f l /\ forall i' y', l !! i' = Some y' -> f y' <> 0 -> (i <= i')%nat.
Proof.
  induction l as [|y l IH]; [done|]. unfold first_nonzero. cbn [fold_left]. rewrite fold_nonzero. change (0 =? 0) with true. cbv iota.
  destruct (Z.eqb_spec (f y) 0) as [E|E]; intros Hn.
  - destruct (IH Hn) as (i & z & Hi & Hz & Hmin). exists (S i), z. split; [done|]. split; [done|]. intros [|i'] y' Hy' Hne; [injection Hy' as <-; done|].
    specialize (Hmin i' y' Hy' Hne). lia.
  - exists 0%nat, y. split; [done|]. split; [done|]. intros; lia.
Qed.

Lemma first_nonzero_in {A} (f : A -> Z) (l : list A) y : y ∈ l -> f y <> 0 -> first_nonzero f l <> 0.
Proof.
  induction 1 as [y l|y z l _ IH]; intros Hy; unfold first_nonzero; cbn [fold_left]; rewrite fold_nonzero; change (0 =? 0) with true; cbv iota.
  - by destruct (Z.eqb_spec (f y) 0).
  - destruct (Z.eqb_spec (f z) 0); [by apply IH|done].
Qed.

Lemma first_kind_rows a b : first_kind a b = first_nonzero (fun x => first_nonzero (fun y => fst (fasync_access_conflict x y)) b) a.
Proof.
  assert (H : forall k, fold_left (fun k x => fold_left (fun k y => if k =? 0 then fst (fasync_access_conflict x y) else k) b k) a k =
    fold_left (fun k x => if k =? 0 then first_nonzero (fun y => fst (fasync_access_conflict x y)) b else k) a k); [|apply H].
  induction a as [|x a IH]; intros k; [done|]. cbn [fold_left]. rewrite IH. f_equal. apply fold_nonzero.
Qed.

(** The kind the statistics count a pair under. *)
Lemma first_kind_dependence a b :
  fst (fasync_ops_conflict a b) = true -> first_dependence a b (dep_of (first_kind a b)) /\ first_kind a b = dep_code (dep_of (first_kind a b)).
Proof.
  intros (aa & bb & Ha & Hb & He)%ops_conflict_spec. rewrite first_kind_rows.
  set (row := fun x => first_nonzero (fun y => fst (fasync_access_conflict x y)) b).
  assert (Hrow : forall x y, y ∈ b -> access_edge x y = true -> row x <> 0).
  { intros x y Hy Hxy. apply (first_nonzero_in _ _ y Hy). by apply Z.eqb_neq, negb_true_iff. }
  destruct (first_nonzero_spec row a) as (x & ax & Hx & Ex & Hminx); [apply (first_nonzero_in row a aa Ha); by apply (Hrow aa bb)|].
  assert (Hne : row ax <> 0) by (rewrite Ex; apply (first_nonzero_in row a aa Ha); by apply (Hrow aa bb)).
  destruct (first_nonzero_spec _ b Hne) as (y & bz & Hy & Ey & Hminy). cbv beta in Ey. fold (row ax) in Ey. rewrite <- Ex, <- Ey.
  assert (Hd : exists d, depends ax bz d) by (apply access_edge_depends, negb_true_iff, Z.eqb_neq; by rewrite Ey).
  destruct Hd as [d Hd]. pose proof (proj2 (access_conflict_depends ax bz d) Hd) as Ed. rewrite Ed.
  assert (Edd : dep_of (dep_code d) = d) by (by destruct d). rewrite Edd. split; [|done].
  exists x, y, ax, bz. split_and!; try done. intros x' y' aa' bb' d' Hx' Hy' Hd'.
  assert (Hed : access_edge aa' bb' = true) by (apply access_edge_depends; by exists d').
  assert (Hxx : (x <= x')%nat) by (apply (Hminx x' aa' Hx'), (Hrow aa' bb'); [by eapply list_elem_of_lookup_2|done]).
  destruct (decide (x = x')) as [<-|]; [right; split; [done|]|left; lia]. rewrite Hx in Hx'. injection Hx' as <-.
  apply (Hminy y' bb' Hy'). by apply Z.eqb_neq, negb_true_iff.
Qed.

(** The pairs made independent: some of their accesses conflict by their
    kinds, and none of those meet. *)
Definition dissolved (a b : op_accesses) : Prop :=
  (exists aa bb d, aa ∈ a /\ bb ∈ b /\ declared aa bb d) /\ forall aa bb d, aa ∈ a -> bb ∈ b -> declared aa bb d -> ~ meets aa bb.

Definition declared_pair (aa bb : access) : bool :=
  (fasync_kind_writes (a_kind aa) && (fasync_kind_writes (a_kind bb) || fasync_kind_reads (a_kind bb))) ||
  (fasync_kind_reads (a_kind aa) && fasync_kind_writes (a_kind bb)).

Lemma declared_pair_iff aa bb : declared_pair aa bb = true <-> exists d, declared aa bb d.
Proof.
  rewrite <- edge_kind_some. unfold declared_pair, edge_kind.
  destruct (fasync_kind_writes (a_kind aa)), (fasync_kind_writes (a_kind bb)), (fasync_kind_reads (a_kind aa)), (fasync_kind_reads (a_kind bb)); done.
Qed.

Definition dissolves (aa bb : access) : bool := declared_pair aa bb && negb (access_edge aa bb).
Definition clashes (aa bb : access) : bool := declared_pair aa bb && access_edge aa bb.

Lemma conflict_flags aa b st :
  c_dissolved (fold_left (conflict_step aa) b st) = c_dissolved st || existsb (dissolves aa) b /\
  c_declared (fold_left (conflict_step aa) b st) = c_declared st || existsb (clashes aa) b.
Proof.
  revert st. induction b as [|bb b IH]; intros st; cbn [fold_left existsb]; [by rewrite !orb_false_r|].
  destruct (IH (conflict_step aa st bb)) as [-> ->]. unfold dissolves, clashes, access_edge, declared_pair. cbn [conflict_step c_dissolved c_declared].
  by rewrite !orb_assoc, negb_involutive.
Qed.

Lemma ops_flags a b :
  snd (fasync_ops_conflict a b) = existsb (fun aa => existsb (dissolves aa) b) a && negb (existsb (fun aa => existsb (clashes aa) b) a).
Proof.
  unfold fasync_ops_conflict. cbn [snd]. set (st0 := mk_conflict_st 0 false false).
  assert (H : forall st, c_dissolved (fold_left (fun st aa => fold_left (conflict_step aa) b st) a st) = c_dissolved st || existsb (fun aa => existsb (dissolves aa) b) a /\
                         c_declared (fold_left (fun st aa => fold_left (conflict_step aa) b st) a st) = c_declared st || existsb (fun aa => existsb (clashes aa) b) a).
  { induction a as [|aa a IH]; intros st; cbn [fold_left existsb]; [by rewrite !orb_false_r|].
    destruct (IH (fold_left (conflict_step aa) b st)) as [-> ->]. destruct (conflict_flags aa b st) as [-> ->]. by rewrite !orb_assoc. }
  by destruct (H st0) as [-> ->].
Qed.

Lemma existsb_pairs (f : access -> access -> bool) a b :
  existsb (fun aa => existsb (f aa) b) a = true <-> exists aa bb, aa ∈ a /\ bb ∈ b /\ f aa bb = true.
Proof.
  rewrite existsb_exists. setoid_rewrite existsb_exists. setoid_rewrite <- list_elem_of_In. naive_solver.
Qed.

Lemma ops_dissolved a b : snd (fasync_ops_conflict a b) = true <-> dissolved a b.
Proof.
  assert (He : forall aa bb d, declared aa bb d -> access_edge aa bb = true <-> meets aa bb).
  { intros aa bb d Hd. rewrite access_edge_depends. unfold depends. naive_solver. }
  rewrite ops_flags, andb_true_iff, negb_true_iff, <- not_true_iff_false, !existsb_pairs. unfold dissolves, clashes, dissolved.
  setoid_rewrite andb_true_iff. setoid_rewrite declared_pair_iff. split.
  - intros [(aa & bb & Ha & Hb & [d Hd] & _) Hn]. split; [by exists aa, bb, d|]. intros aa' bb' d' Ha' Hb' Hd' Hm. apply Hn.
    exists aa', bb'. split_and!; try done; [by exists d'|by apply (He aa' bb' d')].
  - intros [(aa & bb & d & Ha & Hb & Hd) Hn]. split.
    + exists aa, bb. split_and!; try done; [by exists d|]. apply negb_true_iff, not_true_is_false. rewrite (He aa bb d Hd). by apply (Hn aa bb d).
    + intros (aa' & bb' & Ha' & Hb' & [d' Hd'] & Hm). apply (Hn aa' bb' d' Ha' Hb' Hd'). by apply (He aa' bb' d').
Qed.

(** ** Edges *)

Lemma loop_pairs_elem n i j : (i, j) ∈ loop_pairs n <-> (i < j < n)%nat.
Proof.
  unfold loop_pairs. rewrite list_elem_of_In, in_concat. split.
  - intros (l & (k & <- & Hk%in_seq)%in_map_iff & Hp). apply in_map_iff in Hp as (m & [= -> ->] & Hm%in_seq). lia.
  - intros H. eexists. split; [apply in_map_iff; exists i; split; [done|apply in_seq; lia]|]. apply in_map, in_seq. lia.
Qed.

Lemma edge_code_decode n i j :
  n * n <= 2 ^ 32 -> 0 <= i -> i < j < n ->
  edge_from n (edge_code n i j) = i /\ edge_to n (edge_code n i j) = j.
Proof.
  intros Hn Hi Hj. unfold edge_from, edge_to, edge_code. rewrite u32_small by nia.
  rewrite (Z.add_comm _ j), Z.div_add, Z.mod_add, Z.div_small, Z.mod_small by lia. lia.
Qed.

Lemma pairs_code_decode n ps :
  n * n <= 2 ^ 32 -> Forall (fun p : nat * nat => Z.of_nat (fst p) < Z.of_nat (snd p) < n) ps ->
  map (fun e => (Z.to_nat (edge_from n e), Z.to_nat (edge_to n e)))
    (map (fun p => edge_code n (Z.of_nat (fst p)) (Z.of_nat (snd p))) ps) = ps.
Proof.
  intros Hn. induction 1 as [|[i j] ps Hp _ IH]; [done|]. cbn [map fst snd] in *.
  destruct (edge_code_decode n (Z.of_nat i) (Z.of_nat j) Hn ltac:(lia) Hp) as [-> ->]. by rewrite !Nat2Z.id, IH.
Qed.

Section Build.
Context (ops : list op_accesses) (max_edges : Z).

Definition pair_conflict (p : nat * nat) : bool := fst (fasync_ops_conflict (nth (fst p) ops []) (nth (snd p) ops [])).
Definition pair_auto (p : nat * nat) : bool := snd (fasync_ops_conflict (nth (fst p) ops []) (nth (snd p) ops [])).
Definition pair_code (p : nat * nat) : Z := edge_code (Z.of_nat (length ops)) (Z.of_nat (fst p)) (Z.of_nat (snd p)).

Definition pair_kind (p : nat * nat) : Z := first_kind (nth (fst p) ops []) (nth (snd p) ops []).

Definition kind_count (k : Z) (l : list (nat * nat)) : Z := Z.of_nat (length (List.filter (fun p => pair_kind p =? k) l)).

(** The edges [l] and [m] automatically disjoint pairs have been counted. *)
Definition stats_count (l : list (nat * nat)) (m : Z) (st : dag_stats) : Prop :=
  d_ops st = Z.of_nat (length ops) /\ d_edges st = Z.of_nat (length l) /\ d_declared_edges st = Z.of_nat (length l) /\ d_auto_disjoint_pairs st = m /\
  d_read_write_edges st = kind_count 1 l /\ d_write_read_edges st = kind_count 2 l /\ d_write_write_edges st = kind_count 3 l.

Lemma kind_count_snoc k l p : kind_count k (l ++ [p]) = kind_count k l + (if pair_kind p =? k then 1 else 0).
Proof. unfold kind_count. rewrite List.filter_app, length_app. cbn. destruct (pair_kind p =? k); cbn; lia. Qed.

Lemma kind_count_le k l : 0 <= kind_count k l <= Z.of_nat (length l).
Proof. unfold kind_count. pose proof (List.filter_length_le (fun p => pair_kind p =? k) l). lia. Qed.

Lemma count_edge_stats l m p st :
  Z.of_nat (length l) + 1 < 2 ^ 32 -> stats_count l m st -> stats_count (l ++ [p]) m (count_edge (pair_kind p) st).
Proof.
  intros Hl (H1 & H2 & H3 & H4 & H5 & H6 & H7). unfold stats_count, count_edge. cbn. rewrite !kind_count_snoc, length_app, H2, H3, H5, H6, H7. cbn [length].
  pose proof (kind_count_le 1 l). pose proof (kind_count_le 2 l). pose proof (kind_count_le 3 l).
  rewrite !u32_small by lia. destruct (pair_kind p =? 1), (pair_kind p =? 2), (pair_kind p =? 3); repeat split; try done; lia.
Qed.

Lemma build_dag_loop_spec ps : forall edges l local m,
  length edges = length l -> Z.of_nat (length edges) <= max_edges -> Z.of_nat (length edges + length ps) < 2 ^ 32 ->
  stats_count l m local -> 0 <= m -> m + Z.of_nat (length ps) < 2 ^ 32 ->
  let cps := List.filter pair_conflict ps in
  exists r es st, build_dag_loop ops max_edges ps edges local = (r, es, st) /\
    if Z.of_nat (length edges + length cps) <=? max_edges
    then r = Z.of_nat (length edges + length cps) /\ es = edges ++ map pair_code cps /\
         stats_count (l ++ cps) (m + Z.of_nat (length (List.filter pair_auto ps))) st
    else r = 0 /\ es = edges ++ take (Z.to_nat max_edges - length edges) (map pair_code cps).
Proof.
  induction ps as [|[i j] ps IH]; intros edges l local m Hel Hmax Hlen Hst Hm Hlm cps; subst cps; cbn [build_dag_loop List.filter].
  - cbn [length map]. exists (Z.of_nat (length edges)), edges, local. split; [done|]. rewrite Nat.add_0_r.
    destruct (Z.leb_spec (Z.of_nat (length edges)) max_edges); [|lia]. rewrite !app_nil_r, Z.add_0_r. done.
  - cbn [length] in Hlen, Hlm.
    assert (Hauto : pair_auto (i, j) = snd (fasync_ops_conflict (nth i ops []) (nth j ops []))) by done.
    assert (Hconf : pair_conflict (i, j) = fst (fasync_ops_conflict (nth i ops []) (nth j ops []))) by done.
    destruct (fasync_ops_conflict (nth i ops []) (nth j ops [])) as [c au] eqn:Ec. cbn [fst snd] in *. rewrite Hauto, Hconf.
    set (local' := if au then count_auto local else local). set (m' := if au then m + 1 else m).
    assert (Hst' : stats_count l m' local').
    { subst local' m'. destruct au; [|done]. destruct Hst as (?&?&?&Em&?). unfold stats_count. cbn. rewrite Em, u32_small by lia. tauto. }
    assert (Hcount : m' + Z.of_nat (length (List.filter pair_auto ps)) =
      m + Z.of_nat (length (if au then (i, j) :: List.filter pair_auto ps else List.filter pair_auto ps)))
      by (subst m'; destruct au; cbn [length]; lia).
    assert (Hm' : 0 <= m' /\ m' + Z.of_nat (length ps) < 2 ^ 32) by (subst m'; destruct au; lia).
    destruct c; cbn [negb].
    + destruct (Z.leb_spec max_edges (Z.of_nat (length edges))) as [Hfull|Hroom].
      * eexists _, _, _. split; [done|]. cbn [length map]. destruct (Z.leb_spec (Z.of_nat (length edges + S (length (List.filter pair_conflict ps)))) max_edges); [lia|].
        split; [done|]. replace (Z.to_nat max_edges - length edges)%nat with 0%nat by lia. by rewrite take_0, app_nil_r.
      * set (e := edge_code _ _ _).
        destruct (IH (edges ++ [e]) (l ++ [(i, j)]) (count_edge (pair_kind (i, j)) local') m') as (r & es & st & E & H);
          [by rewrite !length_app, Hel|rewrite length_app; cbn; lia|rewrite length_app; cbn; lia|apply count_edge_stats; [lia|done]|lia|lia|].
        exists r, es, st. split; [exact E|]. rewrite length_app in H. cbn [length map] in *.
        replace (length edges + 1 + length (List.filter pair_conflict ps))%nat with (length edges + S (length (List.filter pair_conflict ps)))%nat in H by lia.
        change e with (pair_code (i, j)) in H. destruct (_ <=? max_edges).
        -- rewrite <- !app_assoc, Hcount in H. exact H.
        -- destruct H as [-> ->]. split; [done|]. rewrite <- app_assoc.
           replace (Z.to_nat max_edges - length edges)%nat with (S (Z.to_nat max_edges - (length edges + 1)))%nat by lia. done.
    + destruct (IH edges l local' m') as (r & es & st & -> & H); [done|lia|lia|done|lia|lia|]. exists r, es, st. split; [done|].
      rewrite Hcount in H. exact H.
Qed.
End Build.

Lemma loop_pairs_length n : (length (loop_pairs n) <= n * (n - 1))%nat.
Proof.
  unfold loop_pairs. assert (H : forall l, (forall i, In i l -> (i < n)%nat) ->
    (length (concat (map (fun i => map (pair i) (seq (S i) (n - S i))) l)) <= length l * (n - 1))%nat).
  { induction l as [|i l IH]; intros Hl; [done|]. cbn [map concat length]. rewrite length_app, length_map, length_seq.
    specialize (IH (fun j Hj => Hl j (or_intror Hj))). specialize (Hl i (or_introl eq_refl)). cbn. lia. }
  specialize (H (seq 0 n)). rewrite length_seq in H. apply H. intros i ?%in_seq. lia.
Qed.

(** ** Properties of the graph *)

Section Graph.
Context (ops : list op_accesses).

(** The pairs that must be ordered, in the order of the loops. *)
Definition conflicting_pairs : list (nat * nat) := List.filter (pair_conflict ops) (loop_pairs (length ops)).
Definition auto_disjoint_pairs : list (nat * nat) := List.filter (pair_auto ops) (loop_pairs (length ops)).

Definition decode_edge (e : Z) : nat * nat :=
  let n := Z.of_nat (length ops) in (Z.to_nat (edge_from n e), Z.to_nat (edge_to n e)).

(** Lexicographic order. *)
Definition before (p q : nat * nat) : Prop := (fst p < fst q \/ fst p = fst q /\ snd p < snd q)%nat.

Lemma filter_sorted {A} (R : A -> A -> Prop) (f : A -> bool) l : StronglySorted R l -> StronglySorted R (List.filter f l).
Proof.
  induction 1 as [|x l _ IH Hx]; cbn; [constructor|]. destruct (f x); [|done]. constructor; [done|].
  rewrite Forall_forall in *. intros y [Hy _]%list_elem_of_In%filter_In. apply Hx. by apply list_elem_of_In.
Qed.

Lemma sorted_app {A} (R : A -> A -> Prop) l1 l2 :
  StronglySorted R l1 -> StronglySorted R l2 -> (forall x y, x ∈ l1 -> y ∈ l2 -> R x y) -> StronglySorted R (l1 ++ l2).
Proof.
  induction 1 as [|x l _ IH Hx]; cbn; intros H2 Hxy; [done|]. constructor; [apply IH; [done|]; intros; apply Hxy; [by right|done]|].
  apply Forall_app. split; [done|]. apply Forall_forall. intros y Hy. apply Hxy; [by left|done].
Qed.

Lemma loop_pairs_sorted n : StronglySorted before (loop_pairs n).
Proof.
  unfold loop_pairs. generalize 0%nat at 1 as s. generalize n at 2 as k. induction k as [|k IH]; intros s; cbn [seq map concat]; [constructor|].
  apply sorted_app; [|apply IH|].
  - generalize (n - S s)%nat as c. generalize (S s) as s'. intros s' c. revert s'. induction c as [|c IHc]; intros s'; cbn [seq map]; constructor; [apply IHc|].
    apply Forall_forall. intros q (j & <- & Hj%in_seq)%list_elem_of_In%in_map_iff. right. cbn. lia.
  - intros p q (j & <- & _)%list_elem_of_In%in_map_iff (l & (i & <- & Hi%in_seq)%in_map_iff & Hq)%list_elem_of_In%in_concat.
    apply in_map_iff in Hq as (j' & <- & _). left. cbn. lia.
Qed.

(** The statistics of a graph with the edges [pairs]. *)
Record exact_stats (pairs : list (nat * nat)) (st : dag_stats) : Prop := {
  es_ops : d_ops st = Z.of_nat (length ops);
  es_edges : d_edges st = Z.of_nat (length pairs) /\ d_declared_edges st = Z.of_nat (length pairs);
  es_kinds : exists kinds, Forall2 (fun p d => first_dependence (nth (fst p) ops []) (nth (snd p) ops []) d) pairs kinds /\
    d_read_write_edges st = Z.of_nat (length (filter (fun d => d = Write_read) kinds)) /\
    d_write_read_edges st = Z.of_nat (length (filter (fun d => d = Read_write) kinds)) /\
    d_write_write_edges st = Z.of_nat (length (filter (fun d => d = Write_write) kinds));
  es_dissolved : exists saved, NoDup saved /\ d_auto_disjoint_pairs st = Z.of_nat (length saved) /\
    forall i j, (i, j) ∈ saved <-> (i < j < length ops)%nat /\ dissolved (nth i ops []) (nth j ops []);
}.

Lemma kinds_counted d pairs :
  Forall (fun p => pair_conflict ops p = true) pairs ->
  kind_count ops (dep_code d) pairs = Z.of_nat (length (filter (fun d' => d' = d) (map (fun p => dep_of (pair_kind ops p)) pairs))).
Proof.
  unfold kind_count. intros Hall. f_equal. induction Hall as [|p pairs Hp _ IH]; [done|]. cbn [map List.filter].
  destruct (first_kind_dependence _ _ Hp) as [_ Ek]. fold (pair_kind ops p) in Ek. rewrite filter_cons.
  destruct (Z.eqb_spec (pair_kind ops p) (dep_code d)) as [E2|E2], (decide (dep_of (pair_kind ops p) = d)) as [E|E]; cbn [length].
  - by f_equal.
  - destruct E. rewrite E2. by destruct d.
  - destruct E2. by rewrite Ek, E.
  - done.
Qed.

Lemma stats_exact l st :
  l = conflicting_pairs -> stats_count ops l (Z.of_nat (length auto_disjoint_pairs)) st -> exact_stats l st.
Proof.
  intros -> (H1 & H2 & H3 & H4 & H5 & H6 & H7). assert (Hall : Forall (fun p => pair_conflict ops p = true) conflicting_pairs).
  { apply Forall_forall. intros p [_ ?]%list_elem_of_In%filter_In. done. }
  split; [done|done| |].
  - exists (map (fun p => dep_of (pair_kind ops p)) conflicting_pairs). split.
    + apply Forall2_fmap_r, Forall_Forall2_diag. eapply Forall_impl; [exact Hall|]. intros p Hp. by apply first_kind_dependence.
    + rewrite H5, H6, H7. split_and!; [exact (kinds_counted Write_read _ Hall)|exact (kinds_counted Read_write _ Hall)|exact (kinds_counted Write_write _ Hall)].
  - exists auto_disjoint_pairs. split; [|split; [done|]].
    + apply NoDup_ListNoDup, List.NoDup_filter, NoDup_ListNoDup. pose proof (loop_pairs_sorted (length ops)) as Hs.
      induction Hs as [|p l _ IH Hp]; constructor; [|done]. rewrite Forall_forall in Hp. intros Hin. specialize (Hp p Hin). unfold before in Hp. lia.
    + intros i j. unfold auto_disjoint_pairs. rewrite list_elem_of_In, filter_In, <- list_elem_of_In, loop_pairs_elem. unfold pair_auto. cbn [fst snd].
      by rewrite ops_dissolved.
Qed.

Lemma conflicting_pairs_exact :
  StronglySorted before conflicting_pairs /\
  forall i j, (i, j) ∈ conflicting_pairs <->
    (i < j < length ops)%nat /\ exists a b d, a ∈ nth i ops [] /\ b ∈ nth j ops [] /\ depends a b d.
Proof.
  split; [apply filter_sorted, loop_pairs_sorted|]. intros i j. unfold conflicting_pairs.
  rewrite list_elem_of_In, filter_In, <- list_elem_of_In, loop_pairs_elem. unfold pair_conflict. cbn [fst snd]. rewrite ops_conflict_spec.
  setoid_rewrite access_edge_depends. naive_solver.
Qed.

(** C22: the graph is exact.  For a batch of at most 65536 operations
    [fasync_build_dag] returns, when they fit the caller's array, one edge for
    every pair [i < j] of operations with a dependence (two accesses that meet
    and of which one writes), in lexicographic order; decoding the edges gives
    exactly those pairs.  Then the statistics are exact: the operations, the
    edges, how many of them are, by the first pair of accesses with a
    dependence, from a writer to a reader ([read_write_edges]), from a reader
    to a writer ([write_read_edges]) and from a writer to a writer, and how
    many pairs conflict by the kinds of their accesses but meet in none that
    does.  When the edges do not fit it returns 0 after filling the array. *)
Theorem build_dag_exact (max_edges : Z) :
  Z.of_nat (length ops) <= 65536 -> 0 <= max_edges ->
  exists r es st pairs, fasync_build_dag ops max_edges = (r, es, st) /\
    StronglySorted before pairs /\
    (forall i j, (i, j) ∈ pairs <-> (i < j < length ops)%nat /\ exists a b d, a ∈ nth i ops [] /\ b ∈ nth j ops [] /\ depends a b d) /\
    if Z.of_nat (length pairs) <=? max_edges
    then r = Z.of_nat (length pairs) /\ map decode_edge es = pairs /\ exact_stats pairs st
    else r = 0 /\ Z.of_nat (length es) = max_edges /\ map decode_edge es = take (length es) pairs.
Proof.
  intros Hn Hmax. set (n := length ops) in *. assert (Hnn : Z.of_nat n * Z.of_nat n <= 2 ^ 32) by nia.
  pose proof (loop_pairs_length n) as Hl. assert (Hl' : Z.of_nat (length (loop_pairs n)) < 2 ^ 32) by nia.
  destruct (build_dag_loop_spec ops max_edges (loop_pairs n) [] [] (mk_dag_stats (Z.of_nat n) 0 0 0 0 0 0) 0)
    as (r & es & st & E & H); [done|cbn; lia|cbn; lia|by repeat split|lia|lia|].
  destruct conflicting_pairs_exact as [Hsort Helem].
  exists r, es, st, conflicting_pairs. split; [exact E|]. split; [done|]. split; [done|]. cbn [length app] in H. fold n in H.
  change (List.filter (pair_conflict ops) (loop_pairs n)) with conflicting_pairs in H.
  change (List.filter (pair_auto ops) (loop_pairs n)) with auto_disjoint_pairs in H. cbn [Nat.add] in H. rewrite Z.add_0_l in H.
  assert (Hdec : forall ps, incl ps (loop_pairs n) -> map decode_edge (map (pair_code ops) ps) = ps).
  { intros ps Hps. apply (pairs_code_decode (Z.of_nat n) ps Hnn). apply Forall_forall. intros [i j] Hp.
    apply list_elem_of_In, Hps, list_elem_of_In, loop_pairs_elem in Hp. cbn. lia. }
  assert (Hincl : incl conflicting_pairs (loop_pairs n)) by (intros p [? _]%filter_In; done).
  destruct (Z.leb_spec (Z.of_nat (length conflicting_pairs)) max_edges) as [Hle|Hgt].
  - destruct H as (-> & -> & Hst). split; [done|]. split; [by apply Hdec|by apply stats_exact].
  - destruct H as (-> & ->). split; [done|]. rewrite Nat.sub_0_r, firstn_map.
    rewrite length_map, length_take. split; [lia|]. rewrite Hdec.
    + f_equal. lia.
    + intros p Hp. apply Hincl. rewrite <- (firstn_skipn (Z.to_nat max_edges)). apply in_or_app. by left.
Qed.

(** [p] is one of the bytes the access states. *)
Definition touches (a : access) (p : ptr) : Prop :=
  f_addr (a_buf a) <> NULL /\ 0 <= f_addr (a_buf a) <= p /\ p < f_addr (a_buf a) + a_len a /\ f_addr (a_buf a) + a_len a < 2 ^ 64.

Definition same_resource (a b : access) : Prop :=
  f_addr (a_buf a) = NULL /\ f_addr (a_buf b) = NULL /\ a_resource a = a_resource b.

Lemma shared_byte_target a b p : touches a p -> touches b p -> same_target a b.
Proof.
  intros (Ha & Ha1 & Ha2 & Ha3) (Hb & Hb1 & Hb2 & Hb3). unfold same_target.
  destruct (Z.eqb_spec (f_addr (a_buf a)) NULL); [done|]. destruct (Z.eqb_spec (f_addr (a_buf b)) NULL); [done|]. cbn [orb].
  unfold fasync_ranges_disjoint, fasync_capability_range. cbn [r_lo r_hi]. rewrite !u64_small by lia.
  apply orb_false_intro; apply Z.leb_gt; repeat case_match; lia.
Qed.

(** C21: no edge, no race.  When the graph was built, two operations that are
    not joined by an edge never touch a common byte, or a common named resource,
    with one of the two accesses a write. *)
Theorem no_edge_no_race (max_edges : Z) (i j : nat) (a b : access) :
  Z.of_nat (length ops) <= 65536 -> 0 <= max_edges -> Z.of_nat (length conflicting_pairs) <= max_edges ->
  (i < j < length ops)%nat -> a ∈ nth i ops [] -> b ∈ nth j ops [] -> kind_ok (a_kind a) -> kind_ok (a_kind b) ->
  fasync_kind_writes (a_kind a) = true \/ fasync_kind_writes (a_kind b) = true ->
  same_resource a b \/ (exists p, touches a p /\ touches b p) ->
  (i, j) ∈ map decode_edge (snd (fst (fasync_build_dag ops max_edges))).
Proof.
  intros Hn Hmax Hfit Hij Ha Hb Hka Hkb Hw Htgt.
  destruct (build_dag_loop_spec ops max_edges (loop_pairs (length ops)) [] [] (mk_dag_stats (Z.of_nat (length ops)) 0 0 0 0 0 0) 0)
    as (r & es & st & E & H); [done|cbn; lia| | by repeat split|lia| |].
  1,2: pose proof (loop_pairs_length (length ops)); cbn [length]; nia.
  unfold fasync_build_dag. rewrite E. cbn [fst snd]. cbn [length app Nat.add] in H.
  change (List.filter (pair_conflict ops) (loop_pairs (length ops))) with conflicting_pairs in H.
  rewrite (proj2 (Z.leb_le _ _) Hfit) in H. destruct H as (_ & -> & _).
  assert (Hin : In (i, j) conflicting_pairs).
  { apply filter_In. split; [by apply list_elem_of_In, loop_pairs_elem|]. apply ops_conflict_spec. exists a, b. split; [done|].
    split; [done|]. unfold access_edge. apply negb_true_iff, Z.eqb_neq, access_conflict_spec.
    split; [|by apply edge_kind_spec]. destruct Htgt as [(E1 & E2 & E3)|(p & Hp1 & Hp2)]; [|by eapply shared_byte_target].
    unfold same_target. by rewrite E1, E2. }
  apply list_elem_of_In. rewrite map_map. apply in_map_iff. exists (i, j). split; [|done].
  unfold decode_edge, pair_code. cbn [fst snd].
  destruct (edge_code_decode (Z.of_nat (length ops)) (Z.of_nat i) (Z.of_nat j)) as [-> ->]; [nia|lia|lia|]. by rewrite !Nat2Z.id.
Qed.
End Graph.

(** The edge encoding wraps.  With 65537 operations the edge from 65535 to
    65536 is stored as the number 65535, which decodes to the pair (0, 65535):
    the real order is lost and an operation is ordered that need not be. *)
Theorem edge_code_wraps :
  edge_code 65537 65535 65536 = 65535 /\
  edge_from 65537 (edge_code 65537 65535 65536) = 0 /\ edge_to 65537 (edge_code 65537 65535 65536) = 65535.
Proof. vm_compute. done. Qed.

(** Three operations: a write of the first half of an object, a read of all of
    it, and a write of a named resource. *)
Definition obj (a : ptr) : fptr := mk_fptr a 4096 4160.
Definition batch : list op_accesses :=
  [[mk_access (obj 4096) 32 FASYNC_OUT 0]; [mk_access (obj 4096) 64 FASYNC_IN 0]; [mk_access fnull 0 FASYNC_OUT 7]].

(** In this batch: an edge from the writer to the reader. *)
Lemma build_dag_exact_witness :
  exists es st, fasync_build_dag batch 8 = (1, es, st) /\ map (decode_edge batch) es = [(0%nat, 1%nat)] /\
    d_read_write_edges st = 1 /\ d_write_read_edges st = 0 /\ d_auto_disjoint_pairs st = 2 /\ exact_stats batch [(0%nat, 1%nat)] st.
Proof.
  destruct (build_dag_exact batch 8) as (r & es & st & pairs & E & _ & _ & H); [point|point|]. vm_compute in E. injection E as <- <- <-.
  eexists _, _. split; [reflexivity|]. split; [reflexivity|]. split; [reflexivity|]. split; [reflexivity|]. split; [reflexivity|].
  destruct (Z.of_nat (length pairs) <=? 8); [|by destruct H]. destruct H as (_ & H & Hst). change (map _ _) with [(0%nat, 1%nat)] in H. by rewrite H.
Defined.

Lemma no_edge_no_race_witness :
  conflicting_pairs batch = [(0%nat, 1%nat)] /\
  (0%nat, 1%nat) ∈ map (decode_edge batch) (snd (fst (fasync_build_dag batch 8))).
Proof.
  split; [vm_compute; reflexivity|].
  apply (no_edge_no_race batch 8 0 1 (mk_access (obj 4096) 32 FASYNC_OUT 0) (mk_access (obj 4096) 64 FASYNC_IN 0)).
  - point.
  - point.
  - vm_compute. discriminate.
  - vm_compute. lia.
  - left.
  - left.
  - unfold kind_ok, FASYNC_OUT, FASYNC_IN. cbn. lia.
  - unfold kind_ok, FASYNC_OUT, FASYNC_IN. cbn. lia.
  - by left.
  - right. exists 4100. unfold touches. cbn. unfold NULL. lia.
Defined.
