(* ===== verification/RunDag.v ===== *)
(** * RunDag: running a batch in dependency order

    [fasync_run_dag] of [io_uring/fasync_dep.c]: waves of submissions of the
    operations whose predecessors have completed, one publish per wave, and the
    collection of one finished operation per turn.

    The program's submit callback and the request layer are parameters:
    [submit i] hands operation [i] over and returns its handle (0: refused),
    [publish] is [fasync_submit], [ready] and [result] are [fasync_ready] and
    [fasync_result]; each is a function on the state [W] of the world.  The loop
    polls without sleeping, so it takes fuel; [run_dag_returns] shows that a
    world in which requests complete lets it end. *)

From S2P Require Import Prelude Dag.
Open Scope Z_scope.

(** The calls the run makes about operation [i], in order. *)
Inductive call := Submit (i : nat) | Collect (i : nat).

#[export] Instance call_eq_dec : EqDecision call.
Proof. solve_decision. Defined.

Record run_st := mk_run_st {
  in_degree : list Z;
  handles : list Z;
  done_ : list bool;
  started : list bool;
  in_flight : Z;
  finished : Z;
  submitted : Z;
  max_concurrent : Z;
  waves : Z;
  calls : list call;     (* the calls made, oldest first *)
}.

Definition flag (l : list bool) (i : nat) : bool := default false (l !! i).

(** The edges out of and into an operation, as [edges[e] / n_ops] and
    [edges[e] % n_ops] give them. *)
Definition e_from (n : nat) (e : Z) : nat := Z.to_nat (edge_from (Z.of_nat n) e).
Definition e_to (n : nat) (e : Z) : nat := Z.to_nat (edge_to (Z.of_nat n) e).

Definition degree_incr (n : nat) (d : list Z) (e : Z) : list Z := alter (fun k => u32 (k + 1)) (e_to n e) d.

(** One turn of the loop that releases the edges of the finished operation [i]. *)
Definition degree_decr (n i : nat) (d : list Z) (e : Z) : list Z :=
  if Nat.eqb (e_from n e) i
  then (if d !!! e_to n e =? 0 then d else alter (fun k => u32 (k - 1)) (e_to n e) d)
  else d.

Definition run_init (n : nat) (edges : list Z) : run_st :=
  mk_run_st (fold_left (degree_incr n) edges (replicate n 0)) (replicate n 0) (replicate n false) (replicate n false)
    0 0 0 0 0 [].

(** ** Flags *)

Fixpoint count_true (l : list bool) : Z :=
  match l with [] => 0 | b :: l => (if b then 1 else 0) + count_true l end.

Lemma count_true_bound (l : list bool) : 0 <= count_true l <= Z.of_nat (length l).
Proof. induction l as [|[] l IH]; cbn [count_true length]; lia. Qed.

Lemma count_true_insert (l : list bool) i : (i < length l)%nat -> flag l i = false -> count_true (<[i := true]> l) = count_true l + 1.
Proof.
  revert i. induction l as [|b l IH]; intros [|i] Hi Hb; [cbn in Hi; lia..| |].
  - cbn in Hb. subst b. change (count_true (true :: l) = 0 + count_true l + 1). cbn [count_true]. lia.
  - specialize (IH i ltac:(cbn in Hi; lia) Hb). change (count_true (b :: <[i := true]> l) = count_true (b :: l) + 1).
    cbn [count_true]. lia.
Qed.

Lemma count_true_le (l1 l2 : list bool) :
  length l1 = length l2 -> (forall i, flag l1 i = true -> flag l2 i = true) -> count_true l1 <= count_true l2.
Proof.
  revert l2. induction l1 as [|b l1 IH]; intros [|c l2] Hl H; [done..|]. cbn [count_true].
  specialize (IH l2 ltac:(cbn in Hl; lia) (fun i Hi => H (S i) Hi)). specialize (H 0%nat). cbn in H. destruct b, c; lia.
Qed.

Lemma count_true_full (l : list bool) : count_true l = Z.of_nat (length l) -> forall i, (i < length l)%nat -> flag l i = true.
Proof.
  induction l as [|b l IH]; intros Hc i Hi; [cbn in Hi; lia|]. cbn [count_true length] in *.
  pose proof (count_true_bound l). destruct i as [|i]; [destruct b; [done|lia]|]. apply IH; destruct b; lia.
Qed.

Lemma count_true_replicate m : count_true (replicate m false) = 0.
Proof. induction m; cbn [replicate count_true]; lia. Qed.

Lemma flag_lt (l : list bool) i : flag l i = true -> (i < length l)%nat.
Proof. unfold flag. intros H. destruct (l !! i) eqn:E; [by apply lookup_lt_Some in E|done]. Qed.

Lemma flag_insert (l : list bool) i j : (i < length l)%nat -> flag (<[i := true]> l) j = (if decide (i = j) then true else flag l j).
Proof.
  intros Hi. unfold flag. case_decide as E; [subst; by rewrite list_lookup_insert_eq|by rewrite list_lookup_insert_ne].
Qed.

Lemma flag_replicate m i : flag (replicate m false) i = false.
Proof.
  unfold flag. destruct (decide (i < m)%nat) as [Hi|Hi]; [by rewrite lookup_replicate_2|].
  rewrite lookup_ge_None_2; [done|]. rewrite length_replicate. lia.
Qed.

Section Run.
Context {W : Type} (submit : nat -> W -> Z * W) (publish : W -> Z * W)
  (ready : Z -> W -> bool * W) (result : Z -> W -> Z * W).
Context (n : nat) (edges : list Z).

(** An operation accepted with handle [h]. *)
Definition op_started (i : nat) (h : Z) (st : run_st) : run_st :=
  let in_flight := u32 (in_flight st + 1) in
  mk_run_st (in_degree st) (<[i := h]> (handles st)) (done_ st) (<[i := true]> (started st))
    in_flight (finished st) (u32 (submitted st + 1))
    (if max_concurrent st <? in_flight then in_flight else max_concurrent st) (waves st) (calls st ++ [Submit i]).

(** The first loop of a turn, over the operations [ixs]; [any]: [started_any]. *)
Fixpoint start_wave (ixs : list nat) (any : bool) (st : run_st) (w : W) : bool * run_st * W :=
  match ixs with
  | [] => (any, st, w)
  | i :: ixs =>
      if flag (started st) i || negb (in_degree st !!! i =? 0) then start_wave ixs any st w
      else
        let '(h, w) := submit i w in
        if h =? 0 then start_wave ixs any st w
        else start_wave ixs true (op_started i h st) w
  end.

Definition op_finished (i : nat) (st : run_st) : run_st :=
  mk_run_st (fold_left (degree_decr n i) edges (in_degree st)) (handles st) (<[i := true]> (done_ st)) (started st)
    (u32 (in_flight st - 1)) (u32 (finished st + 1)) (submitted st) (max_concurrent st) (waves st) (calls st ++ [Collect i]).

(** The second loop: the first finished operation is collected. *)
Fixpoint collect_one (ixs : list nat) (st : run_st) (w : W) : run_st * W :=
  match ixs with
  | [] => (st, w)
  | i :: ixs =>
      if negb (flag (started st) i) || flag (done_ st) i then collect_one ixs st w
      else
        let '(r, w) := ready (handles st !!! i) w in
        if negb r then collect_one ixs st w
        else let '(_, w) := result (handles st !!! i) w in (op_finished i st, w)
  end.

Definition next_wave (st : run_st) : run_st :=
  mk_run_st (in_degree st) (handles st) (done_ st) (started st) (in_flight st) (finished st)
    (submitted st) (max_concurrent st) (u32 (waves st + 1)) (calls st).

(** [finished == n_ops ? 0 : -1] *)
Definition exit_code (st : run_st) : Z := if finished st =? Z.of_nat n then 0 else -1.

(** The [while] loop and the return. *)
Fixpoint run_loop (fuel : nat) (st : run_st) (w : W) : outcome (Z * run_st * W) :=
  if Z.of_nat n <=? finished st then mret (exit_code st, st, w)
  else
    match fuel with
    | O => NoFuel
    | S fuel =>
        let '(any, st, w) := start_wave (seq 0 n) false st w in
        let st := if any then next_wave st else st in
        let '(rc, w) := if any then publish w else (0, w) in
        if rc <? 0 then mret (-1, st, w)
        else if in_flight st =? 0 then
          if any then run_loop fuel st w
          else mret (exit_code st, st, w)
        else let '(st, w) := collect_one (seq 0 n) st w in run_loop fuel st w
    end.

(** [mem]: whether the four arrays could be allocated. *)
Definition fasync_run_dag (mem : bool) (fuel : nat) (w : W) : outcome (Z * run_st * W) :=
  if Nat.eqb n 0 then mret (0, run_init n edges, w)
  else if negb mem then mret (-1, run_init n edges, w)
  else run_loop fuel (run_init n edges) w.

(** ** Invariant *)

(** The predecessors of [j] that have not finished, with multiplicity. *)
Definition open_edges (dn : list bool) (j : nat) : Z :=
  Z.of_nat (length (List.filter (fun e => Nat.eqb (e_to n e) j && negb (flag dn (e_from n e))) edges)).

(** Every submission comes after the collection of each of its predecessors. *)
Definition ordered (cs : list call) : Prop :=
  forall pre j suf, cs = pre ++ Submit j :: suf -> forall e, e ∈ edges -> e_to n e = j -> Collect (e_from n e) ∈ pre.

Record run_ok (st : run_st) : Prop := {
  ok_len : length (in_degree st) = n /\ length (handles st) = n /\ length (done_ st) = n /\ length (started st) = n;
  ok_degree : forall j, (j < n)%nat -> in_degree st !!! j = open_edges (done_ st) j;
  ok_done : forall i, flag (done_ st) i = true -> flag (started st) i = true;
  ok_finished : finished st = count_true (done_ st);
  ok_flight : in_flight st = count_true (started st) - count_true (done_ st);
  ok_submits : forall i, Submit i ∈ calls st <-> flag (started st) i = true;
  ok_collects : forall i, Collect i ∈ calls st <-> flag (done_ st) i = true;
  ok_calls : NoDup (calls st) /\ ordered (calls st);
}.

Hypothesis n_bound : Z.of_nat n < 2 ^ 32.
Hypothesis n_pos : (0 < n)%nat.
Hypothesis edges_bound : Z.of_nat (length edges) < 2 ^ 32.
Hypothesis edges_range : Forall (fun e => 0 <= e) edges.

Lemma e_to_lt e : 0 <= e -> (e_to n e < n)%nat.
Proof. intros He. unfold e_to, edge_to. pose proof (Z.mod_pos_bound e (Z.of_nat n)). lia. Qed.

(** Edges with a property, counted. *)
Definition count_edges (P : Z -> bool) (es : list Z) : Z := Z.of_nat (length (List.filter P es)).

Lemma count_edges_cons P e es : count_edges P (e :: es) = (if P e then 1 else 0) + count_edges P es.
Proof. unfold count_edges. cbn [List.filter]. destruct (P e); cbn [length]; lia. Qed.

Lemma count_edges_bound P es : 0 <= count_edges P es <= Z.of_nat (length es).
Proof. unfold count_edges. pose proof (List.filter_length_le P es). lia. Qed.

Definition goes (i j : nat) (e : Z) : bool := Nat.eqb (e_from n e) i && Nat.eqb (e_to n e) j.

Lemma alter_total (f : Z -> Z) (d : list Z) k j :
  (k < length d)%nat -> alter f k d !!! j = if decide (k = j) then f (d !!! j) else d !!! j.
Proof.
  intros Hk. destruct (decide (k = j)) as [->|Hne].
  - destruct (lookup_lt_is_Some_2 d j Hk) as [x Hx]. apply list_lookup_total_correct.
    by rewrite list_lookup_alter_eq, Hx, (list_lookup_total_correct _ _ _ Hx).
  - rewrite !list_lookup_total_alt. by rewrite list_lookup_alter_ne.
Qed.

Lemma degree_init es : forall d,
  length d = n -> Forall (fun e => 0 <= e) es -> (forall j, (j < n)%nat -> 0 <= d !!! j /\ d !!! j + Z.of_nat (length es) < 2 ^ 32) ->
  let d' := fold_left (degree_incr n) es d in
  length d' = n /\ forall j, (j < n)%nat -> d' !!! j = d !!! j + count_edges (fun e => Nat.eqb (e_to n e) j) es.
Proof.
  induction es as [|e es IH]; intros d Hl He Hd; cbn [fold_left]; [split; [done|intros; unfold count_edges; cbn; lia]|].
  apply Forall_cons in He as [He0 He]. assert (Ht : (e_to n e < length d)%nat) by (rewrite Hl; by apply e_to_lt).
  destruct (IH (degree_incr n d e)) as [H1 H2]; [unfold degree_incr; by rewrite length_alter|done| |].
  - intros j Hj. unfold degree_incr. rewrite alter_total by done. specialize (Hd j Hj). cbn [length] in Hd.
    case_decide; [rewrite u32_small by lia|]; lia.
  - split; [done|]. intros j Hj. rewrite H2, count_edges_cons by done. unfold degree_incr. rewrite alter_total by done.
    specialize (Hd j Hj). cbn [length] in Hd. case_decide as E; [subst; rewrite Nat.eqb_refl, u32_small by lia; lia|].
    rewrite (proj2 (Nat.eqb_neq _ _) E). lia.
Qed.

Lemma degree_release i es : forall d,
  length d = n -> Forall (fun e => 0 <= e) es -> (forall j, (j < n)%nat -> count_edges (goes i j) es <= d !!! j < 2 ^ 32) ->
  let d' := fold_left (degree_decr n i) es d in
  length d' = n /\ forall j, (j < n)%nat -> d' !!! j = d !!! j - count_edges (goes i j) es.
Proof.
  induction es as [|e es IH]; intros d Hl He Hd; cbn [fold_left]; [split; [done|intros; unfold count_edges; cbn; lia]|].
  apply Forall_cons in He as [He0 He]. pose proof (e_to_lt e He0) as Ht.
  assert (Hstep : forall j, (j < n)%nat -> degree_decr n i d e !!! j = d !!! j - (if goes i j e then 1 else 0)).
  { intros j Hj. unfold degree_decr, goes. destruct (Nat.eqb_spec (e_from n e) i) as [Ef|Ef]; cbn [andb]; [|lia].
    assert (1 <= d !!! e_to n e < 2 ^ 32).
    { specialize (Hd _ Ht). rewrite count_edges_cons in Hd. unfold goes at 1 in Hd. rewrite Ef, !Nat.eqb_refl in Hd. cbn in Hd.
      pose proof (count_edges_bound (goes i (e_to n e)) es). lia. }
    destruct (Z.eqb_spec (d !!! e_to n e) 0); [lia|]. rewrite alter_total by lia. case_decide as E.
    - subst j. rewrite Nat.eqb_refl, u32_small by lia. lia.
    - rewrite (proj2 (Nat.eqb_neq _ _) E). lia. }
  destruct (IH (degree_decr n i d e)) as [H1 H2]; [|done| |].
  - unfold degree_decr. repeat case_match; rewrite ?length_alter; done.
  - intros j Hj. rewrite Hstep by done. specialize (Hd j Hj). rewrite count_edges_cons in Hd.
    pose proof (count_edges_bound (goes i j) es). destruct (goes i j e); lia.
  - split; [done|]. intros j Hj. rewrite H2, Hstep, count_edges_cons by done. destruct (goes i j e); lia.
Qed.

Lemma open_edges_done (dn : list bool) i j :
  (i < length dn)%nat -> flag dn i = false -> open_edges (<[i := true]> dn) j = open_edges dn j - count_edges (goes i j) edges.
Proof.
  intros Hi Hdn. unfold open_edges, count_edges. clear edges_bound edges_range. induction edges as [|e es IH]; [done|]. cbn [List.filter].
  destruct (decide (e_from n e = i)) as [E|E].
  - unfold goes at 1. rewrite E, Hdn, Nat.eqb_refl, flag_insert, decide_True by done. cbn [andb negb].
    rewrite andb_false_r, andb_true_r. destruct (Nat.eqb _ j); cbn [length]; lia.
  - unfold goes at 1. rewrite (proj2 (Nat.eqb_neq _ _) E), flag_insert, decide_False by done. cbn [andb].
    destruct (Nat.eqb _ j && _); cbn [length]; lia.
Qed.

Lemma run_init_ok : run_ok (run_init n edges).
Proof.
  destruct (degree_init edges (replicate n 0)) as [H1 H2]; [by rewrite length_replicate|done| |].
  { intros j Hj. rewrite lookup_total_replicate_2 by done. lia. }
  split; unfold run_init; cbn.
  - by rewrite H1, !length_replicate.
  - intros j Hj. rewrite H2, lookup_total_replicate_2 by done. unfold count_edges, open_edges. rewrite Z.add_0_l. f_equal. f_equal.
    apply filter_ext. intros e. by rewrite flag_replicate, andb_true_r.
  - intros i. by rewrite flag_replicate.
  - by rewrite count_true_replicate.
  - by rewrite !count_true_replicate.
  - intros i. rewrite flag_replicate. split; [by intros ?%not_elem_of_nil|done].
  - intros i. rewrite flag_replicate. split; [by intros ?%not_elem_of_nil|done].
  - split; [constructor|]. intros pre j suf E. by destruct pre.
Qed.

Lemma count_started_ge st : run_ok st -> count_true (done_ st) <= count_true (started st) <= Z.of_nat n.
Proof.
  intros Hok. destruct (ok_len _ Hok) as (_ & _ & L3 & L4). split.
  - apply count_true_le; [congruence|apply (ok_done _ Hok)].
  - rewrite <- L4. apply count_true_bound.
Qed.

Lemma ordered_snoc cs c :
  ordered cs -> (forall j, c = Submit j -> forall e, e ∈ edges -> e_to n e = j -> Collect (e_from n e) ∈ cs) -> ordered (cs ++ [c]).
Proof.
  intros Ho Hc pre j suf E. destruct suf as [|c' suf _] using rev_ind.
  - apply app_inj_tail in E as [<- ->]. by apply Hc.
  - rewrite app_comm_cons, app_assoc in E. apply app_inj_tail in E as [-> _]. by eapply Ho.
Qed.

(** No open edge: every predecessor is done. *)
Lemma open_edges_zero dn j e : open_edges dn j = 0 -> e ∈ edges -> e_to n e = j -> flag dn (e_from n e) = true.
Proof.
  unfold open_edges. intros H0 He Hj. destruct (flag dn (e_from n e)) eqn:E; [done|exfalso].
  assert (Hin : In e (List.filter (fun e => Nat.eqb (e_to n e) j && negb (flag dn (e_from n e))) edges)).
  { apply filter_In. split; [by apply list_elem_of_In|]. by rewrite Hj, Nat.eqb_refl, E. }
  destruct (List.filter _ edges); [done|cbn in H0; lia].
Qed.

Lemma op_started_ok i h st :
  run_ok st -> (i < n)%nat -> flag (started st) i = false -> in_degree st !!! i = 0 -> run_ok (op_started i h st).
Proof.
  intros Hok Hi Hs Hd. destruct (ok_len _ Hok) as (L1 & L2 & L3 & L4). pose proof (count_started_ge _ Hok) as Hc.
  assert (Hci : count_true (<[i := true]> (started st)) = count_true (started st) + 1) by (apply count_true_insert; [by rewrite L4|done]).
  pose proof (count_true_bound (<[i := true]> (started st))) as Hb. rewrite length_insert, L4, Hci in Hb.
  pose proof (count_true_bound (done_ st)) as Hb'.
  split; unfold op_started; cbn.
  - by rewrite !length_insert.
  - apply Hok.
  - intros j Hj%(ok_done _ Hok). rewrite flag_insert by by rewrite L4. by case_decide.
  - apply Hok.
  - rewrite (ok_flight _ Hok), Hci, u32_small; lia.
  - intros j. rewrite elem_of_app, list_elem_of_singleton, (ok_submits _ Hok), flag_insert by by rewrite L4. case_decide; naive_solver.
  - intros j. rewrite elem_of_app, list_elem_of_singleton, (ok_collects _ Hok). naive_solver.
  - destruct (ok_calls _ Hok) as [Hnd Ho]. split.
    + apply NoDup_app. split; [done|]. split; [|apply NoDup_singleton]. intros c Hc' ->%list_elem_of_singleton.
      apply (ok_submits _ Hok) in Hc'. congruence.
    + apply ordered_snoc; [done|]. intros j [= <-] e He Ej. apply (ok_collects _ Hok).
      eapply open_edges_zero; [|done|exact Ej]. by rewrite <- (ok_degree _ Hok) by done.
Qed.

Lemma op_finished_ok i st :
  run_ok st -> flag (started st) i = true -> flag (done_ st) i = false -> run_ok (op_finished i st).
Proof.
  intros Hok Hs Hd. destruct (ok_len _ Hok) as (L1 & L2 & L3 & L4). pose proof (count_started_ge _ Hok) as Hc.
  assert (Hi : (i < n)%nat) by (rewrite <- L4; by apply flag_lt).
  assert (Hci : count_true (<[i := true]> (done_ st)) = count_true (done_ st) + 1) by (apply count_true_insert; [by rewrite L3|done]).
  assert (Hle : count_true (<[i := true]> (done_ st)) <= count_true (started st)).
  { apply count_true_le; [by rewrite length_insert, L3|]. intros j. rewrite flag_insert by by rewrite L3.
    case_decide; [subst; done|apply (ok_done _ Hok)]. }
  pose proof (count_true_bound (done_ st)) as Hb.
  destruct (degree_release i edges (in_degree st) L1 edges_range) as [H1 H2].
  { intros j Hj. rewrite (ok_degree _ Hok) by done. pose proof (open_edges_done (done_ st) i j ltac:(by rewrite L3) Hd) as E.
    assert (0 <= open_edges (<[i := true]> (done_ st)) j) by apply Zle_0_nat.
    assert (open_edges (done_ st) j <= Z.of_nat (length edges)) by apply count_edges_bound. lia. }
  split; unfold op_finished; cbn.
  - by rewrite length_insert.
  - intros j Hj. rewrite H2, open_edges_done, (ok_degree _ Hok) by (done || by rewrite L3). done.
  - intros j. rewrite flag_insert by by rewrite L3. case_decide; [subst; done|apply (ok_done _ Hok)].
  - rewrite (ok_finished _ Hok), Hci, u32_small; lia.
  - rewrite (ok_flight _ Hok), Hci, u32_small; lia.
  - intros j. rewrite elem_of_app, list_elem_of_singleton, (ok_submits _ Hok). naive_solver.
  - intros j. rewrite elem_of_app, list_elem_of_singleton, (ok_collects _ Hok), flag_insert by by rewrite L3. case_decide; naive_solver.
  - destruct (ok_calls _ Hok) as [Hnd Ho]. split.
    + apply NoDup_app. split; [done|]. split; [|apply NoDup_singleton]. intros c Hc' ->%list_elem_of_singleton.
      apply (ok_collects _ Hok) in Hc'. congruence.
    + apply ordered_snoc; [done|]. by intros j [=].
Qed.

Lemma next_wave_ok st : run_ok st -> run_ok (next_wave st).
Proof. intros []. by split. Qed.

(** What a wave does: it starts operations, and nothing else. *)
Record wave_of (st st' : run_st) : Prop := {
  wv_ok : run_ok st';
  wv_done : done_ st' = done_ st /\ finished st' = finished st /\ in_degree st' = in_degree st;
  wv_started : count_true (started st) <= count_true (started st') /\ forall i, flag (started st) i = true -> flag (started st') i = true;
}.

Lemma wave_refl st : run_ok st -> wave_of st st.
Proof. by split. Qed.

Lemma wave_trans st1 st2 st3 : wave_of st1 st2 -> wave_of st2 st3 -> wave_of st1 st3.
Proof.
  intros [_ (D1 & F1 & I1) [C1 S1]] [O2 (D2 & F2 & I2) [C2 S2]]. split; [done|split_and!; congruence|]. split; [lia|]. naive_solver.
Qed.

Lemma wave_one i h st :
  run_ok st -> (i < n)%nat -> flag (started st) i = false -> in_degree st !!! i = 0 ->
  wave_of st (op_started i h st) /\ count_true (started (op_started i h st)) = count_true (started st) + 1.
Proof.
  intros Hok Hi Hs Hd. destruct (ok_len _ Hok) as (L1 & L2 & L3 & L4).
  assert (Hci : count_true (<[i := true]> (started st)) = count_true (started st) + 1) by (apply count_true_insert; [by rewrite L4|done]).
  split; [|exact Hci]. split; [by apply op_started_ok|done|]. split; [cbn; lia|]. intros j Hj. cbn. rewrite flag_insert by by rewrite L4.
  by case_decide.
Qed.

Lemma start_wave_ok ixs : forall any st w any' st' w',
  run_ok st -> Forall (fun i => (i < n)%nat) ixs -> start_wave ixs any st w = (any', st', w') ->
  wave_of st st' /\ (any' = false -> any = false /\ st' = st) /\
  (any' = true -> any = true \/ count_true (started st) < count_true (started st')).
Proof.
  induction ixs as [|i ixs IH]; intros any st w any' st' w' Hok Hix E; cbn [start_wave] in E.
  - injection E as <- <- <-. split; [by apply wave_refl|]. split; [done|by left].
  - apply Forall_cons in Hix as [Hi Hix]. destruct (flag (started st) i) eqn:Hs; cbn [orb] in E; [by eapply IH|].
    destruct (Z.eqb_spec (in_degree st !!! i) 0) as [Hd|Hd]; cbn [negb] in E; [|by eapply IH].
    destruct (submit i w) as [h w1]. destruct (Z.eqb_spec h 0); [by eapply IH|].
    destruct (wave_one i h st Hok Hi Hs Hd) as [Hw Hc]. destruct (IH _ _ _ _ _ _ (wv_ok _ _ Hw) Hix E) as (Hw' & Hf & Ht).
    split; [by eapply wave_trans|]. split; [intros Ha; by destruct (Hf Ha)|]. intros _. right.
    destruct (wv_started _ _ Hw'). lia.
Qed.

Lemma collect_one_ok ixs : forall st w st' w',
  run_ok st -> collect_one ixs st w = (st', w') ->
  st' = st \/ exists i, flag (started st) i = true /\ flag (done_ st) i = false /\ st' = op_finished i st.
Proof.
  induction ixs as [|i ixs IH]; intros st w st' w' Hok E; cbn [collect_one] in E; [injection E as <- <-; by left|].
  destruct (flag (started st) i) eqn:Hs; cbn [negb orb] in E; [|by eapply IH].
  destruct (flag (done_ st) i) eqn:Hd; [by eapply IH|]. destruct (ready _ w) as [[] w1]; cbn [negb] in E; [|by eapply IH].
  destruct (result _ w1) as [r2 w2]. injection E as <- <-. right. by exists i.
Qed.

Lemma seq_lt : Forall (fun i => (i < n)%nat) (seq 0 n).
Proof. apply Forall_forall. intros i Hi%elem_of_seq. lia. Qed.

(** The loop keeps the invariant, and its return value says whether all is
    done. *)
Lemma run_loop_ok fuel : forall st w rc st' w',
  run_ok st -> run_loop fuel st w = Ret (rc, st', w') ->
  run_ok st' /\ (rc = 0 \/ rc = -1) /\ (rc = 0 -> finished st' = Z.of_nat n).
Proof.
  assert (Hexit : forall st, run_ok st -> (exit_code st = 0 \/ exit_code st = -1) /\ (exit_code st = 0 -> finished st = Z.of_nat n)).
  { intros st _. unfold exit_code. destruct (Z.eqb_spec (finished st) (Z.of_nat n)); split; [by left|done|by right|done]. }
  induction fuel as [|fuel IH]; intros st w rc st' w' Hok E; cbn [run_loop] in E;
    destruct (Z.leb_spec (Z.of_nat n) (finished st)); try discriminate E.
  - apply Ret_inj in E. injection E as <- <- <-. split; [done|by apply Hexit].
  - apply Ret_inj in E. injection E as <- <- <-. split; [done|by apply Hexit].
  - destruct (start_wave (seq 0 n) false st w) as [[any st1] w1] eqn:Ew.
    destruct (start_wave_ok _ _ _ _ _ _ _ Hok seq_lt Ew) as (Hw & Hf & Ht).
    set (st2 := if any then next_wave st1 else st1) in E. assert (Hok2 : run_ok st2).
    { subst st2. destruct any; [apply next_wave_ok|]; apply Hw. }
    destruct (if any then publish w1 else (0, w1)) as [prc w2]. destruct (Z.ltb_spec prc 0).
    { apply Ret_inj in E. injection E as <- <- <-. split; [done|]. split; [by right|done]. }
    destruct (Z.eqb_spec (in_flight st2) 0).
    + destruct any; [by eapply IH|]. apply Ret_inj in E. injection E as <- <- <-. split; [done|by apply Hexit].
    + destruct (collect_one (seq 0 n) st2 w2) as [st3 w3] eqn:Ec. eapply IH; [|exact E].
      destruct (collect_one_ok _ _ _ _ _ Hok2 Ec) as [->|(i & H1 & H2 & ->)]; [done|by apply op_finished_ok].
Qed.

(** ** Termination *)

(** A wave over [ixs] in a world that refuses nothing starts every operation of
    [ixs] with no open edge. *)
Lemma start_wave_all ixs : (forall i w, fst (submit i w) <> 0) -> forall any st w,
  run_ok st -> Forall (fun i => (i < n)%nat) ixs ->
  forall i, i ∈ ixs -> in_degree st !!! i = 0 -> flag (started (snd (fst (start_wave ixs any st w)))) i = true.
Proof.
  intros Hsub. induction ixs as [|k ixs IH]; intros any st w Hok Hix i Hin Hd; [by apply not_elem_of_nil in Hin|].
  apply Forall_cons in Hix as [Hk Hix]. cbn [start_wave].
  assert (Hkeep : forall any st1 w1, run_ok st1 -> flag (started st1) i = true ->
    flag (started (snd (fst (start_wave ixs any st1 w1)))) i = true).
  { intros any' st1 w1 Hok1 H1. destruct (start_wave ixs any' st1 w1) as [[a2 st2] w2] eqn:E.
    destruct (start_wave_ok _ _ _ _ _ _ _ Hok1 Hix E) as (Hw & _ & _). by apply (wv_started _ _ Hw). }
  destruct (flag (started st) k) eqn:Hs; cbn [orb].
  - apply elem_of_cons in Hin as [->|Hin]; [by apply Hkeep|by apply IH].
  - destruct (Z.eqb_spec (in_degree st !!! k) 0) as [Hdk|Hdk]; cbn [negb].
    + specialize (Hsub k w). destruct (submit k w) as [h w1]. cbn in Hsub. rewrite (proj2 (Z.eqb_neq _ _) Hsub).
      destruct (wave_one k h st Hok Hk Hs Hdk) as [Hw _]. apply elem_of_cons in Hin as [->|Hin].
      * apply Hkeep; [apply Hw|]. cbn. destruct (ok_len _ Hok) as (_ & _ & _ & L4). rewrite flag_insert by by rewrite L4. by rewrite decide_True.
      * apply IH; [apply Hw|done|done|done].
    + apply elem_of_cons in Hin as [->|Hin]; [done|by apply IH].
Qed.

(** With every edge going forward, the first operation that is not done has no
    open edge. *)
Lemma first_not_done st :
  run_ok st -> Forall (fun e => (e_from n e < e_to n e)%nat) edges -> finished st < Z.of_nat n ->
  exists i, (i < n)%nat /\ flag (done_ st) i = false /\ in_degree st !!! i = 0.
Proof.
  intros Hok Hfw Hlt. destruct (ok_len _ Hok) as (_ & _ & L3 & _).
  assert (Hex : exists i, (i < n)%nat /\ flag (done_ st) i = false /\ forall k, (k < i)%nat -> flag (done_ st) k = true).
  { assert (H : forall m, (m <= n)%nat -> (forall k, (k < m)%nat -> flag (done_ st) k = true) \/
      exists i, (i < m)%nat /\ flag (done_ st) i = false /\ forall k, (k < i)%nat -> flag (done_ st) k = true).
    { induction m as [|m IH]; intros Hm; [left; lia|]. destruct (IH ltac:(lia)) as [H|(i & ? & ? & ?)]; [|right; exists i; split_and!; [lia|done..]].
      destruct (flag (done_ st) m) eqn:E; [left; intros k Hk; destruct (decide (k = m)) as [->|]; [done|apply H; lia]|].
      right. exists m. split; [lia|done]. }
    destruct (H n ltac:(lia)) as [Hall|(i & ? & ? & ?)]; [|by exists i]. exfalso. rewrite (ok_finished _ Hok) in Hlt.
    assert (count_true (done_ st) = Z.of_nat (length (done_ st))); [|lia].
    assert (Hle : count_true (replicate n true) <= count_true (done_ st)).
    { apply count_true_le; [by rewrite length_replicate|]. intros k Hk%flag_lt. rewrite length_replicate in Hk. by apply Hall. }
    assert (Hr : forall m, count_true (replicate m true) = Z.of_nat m) by (induction m; cbn [replicate count_true]; lia).
    rewrite Hr in Hle. pose proof (count_true_bound (done_ st)). lia. }
  destruct Hex as (i & Hi & Hd & Hk). exists i. split; [done|]. split; [done|]. rewrite (ok_degree _ Hok) by done.
  unfold open_edges. rewrite (proj2 (Nat2Z.inj_iff _ 0)); [done|]. apply length_zero_iff_nil.
  destruct (List.filter _ edges) as [|e l] eqn:E; [done|exfalso].
  assert (Hin : In e (List.filter (fun e => Nat.eqb (e_to n e) i && negb (flag (done_ st) (e_from n e))) edges)) by (rewrite E; by left).
  apply filter_In in Hin as [Hin [Hto%Nat.eqb_eq Hn%negb_true_iff]%andb_prop].
  rewrite Forall_forall in Hfw. specialize (Hfw e (proj2 (list_elem_of_In _ _) Hin)). rewrite Hto in Hfw. rewrite Hk in Hn by done. done.
Qed.

(** What the run relies on: a poll of a request that is not ready, and a refused
    submission, bring the world no further from the next completion ([pot], the
    polls until then); nothing is asked of the other calls. *)
Context (pot : W -> nat).
Hypothesis submit_pot : forall i w w', submit i w = (0, w') -> (pot w' <= pot w)%nat.
Hypothesis ready_pot : forall h w w', ready h w = (false, w') -> (pot w' < pot w)%nat.

Lemma start_wave_pot ixs : forall st w st' w',
  Forall (fun i => (i < n)%nat) ixs -> run_ok st -> start_wave ixs false st w = (false, st', w') -> (pot w' <= pot w)%nat.
Proof.
  induction ixs as [|i ixs IH]; intros st w st' w' Hix Hok E; cbn [start_wave] in E; [by injection E as _ <-|].
  apply Forall_cons in Hix as [Hi Hix]. destruct (flag (started st) i) eqn:Hs; cbn [orb] in E; [by eapply IH|].
  destruct (Z.eqb_spec (in_degree st !!! i) 0) as [Hd|Hd]; cbn [negb] in E; [|by eapply IH].
  destruct (submit i w) as [h w1] eqn:Es. destruct (Z.eqb_spec h 0) as [->|].
  - specialize (IH _ _ _ _ Hix Hok E). apply submit_pot in Es. lia.
  - destruct (wave_one i h st Hok Hi Hs Hd) as [Hw _].
    destruct (start_wave_ok _ _ _ _ _ _ _ (wv_ok _ _ Hw) Hix E) as (_ & Hf & _). by destruct (Hf eq_refl).
Qed.

Lemma collect_one_pot ixs : forall st w st' w',
  collect_one ixs st w = (st', w') ->
  (exists i, flag (started st) i = true /\ flag (done_ st) i = false /\ st' = op_finished i st) \/
  st' = st /\ (pot w' <= pot w)%nat /\ ((exists i, i ∈ ixs /\ flag (started st) i = true /\ flag (done_ st) i = false) -> (pot w' < pot w)%nat).
Proof.
  induction ixs as [|i ixs IH]; intros st w st' w' E; cbn [collect_one] in E.
  - injection E as <- <-. right. split; [done|]. split; [done|]. by intros (i & ?%not_elem_of_nil & _).
  - destruct (flag (started st) i) eqn:Hs; cbn [negb orb] in E.
    2: { destruct (IH _ _ _ _ E) as [H|(-> & H1 & H2)]; [by left|right]. split; [done|]. split; [done|].
         intros (k & [->|Hk]%elem_of_cons & H3 & H4); [congruence|]. apply H2. by exists k. }
    destruct (flag (done_ st) i) eqn:Hd.
    { destruct (IH _ _ _ _ E) as [H|(-> & H1 & H2)]; [by left|right]. split; [done|]. split; [done|].
      intros (k & [->|Hk]%elem_of_cons & H3 & H4); [congruence|]. apply H2. by exists k. }
    destruct (ready _ w) as [[] w1] eqn:Er; cbn [negb] in E.
    + destruct (result _ w1) as [r2 w2]. injection E as <- <-. left. by exists i.
    + apply ready_pot in Er. destruct (IH _ _ _ _ E) as [H|(-> & H1 & H2)]; [by left|right]. split; [done|]. split; lia.
Qed.

Lemma started_not_done st :
  run_ok st -> count_true (done_ st) < count_true (started st) ->
  exists i, i ∈ seq 0 n /\ flag (started st) i = true /\ flag (done_ st) i = false.
Proof.
  intros Hok Hlt. destruct (ok_len _ Hok) as (_ & _ & L3 & L4).
  destruct (decide (Exists (fun i => flag (started st) i = true /\ flag (done_ st) i = false) (seq 0 n))) as [H|H].
  - apply Exists_exists in H. done.
  - exfalso. assert (count_true (started st) <= count_true (done_ st)); [|lia]. apply count_true_le; [congruence|].
    intros i Hi. destruct (flag (done_ st) i) eqn:E; [done|]. exfalso. apply H, Exists_exists. exists i. split; [|done].
    apply elem_of_seq. apply flag_lt in Hi. lia.
Qed.

(** The loop returns, and with 0 when nothing is refused and the edges go
    forward. *)
Lemma run_loop_returns st w :
  run_ok st ->
  exists fuel rc st' w', run_loop fuel st w = Ret (rc, st', w') /\
    ((forall i w, fst (submit i w) <> 0) -> (forall w, 0 <= fst (publish w)) ->
     Forall (fun e => (e_from n e < e_to n e)%nat) edges -> rc = 0).
Proof.
  set (m1 := fun st => (Z.to_nat (Z.of_nat n - count_true (started st)) + Z.to_nat (Z.of_nat n - count_true (done_ st)))%nat).
  remember (m1 st) as k eqn:Ek. revert st w Ek. induction (lt_wf k) as [k _ IHk]. intros st w Ek.
  remember (pot w) as p eqn:Ep. revert w Ep. induction (lt_wf p) as [p _ IHp]. intros w Ep Hok.
  assert (Hbound : forall s, run_ok s -> 0 <= count_true (done_ s) <= count_true (started s) /\ count_true (started s) <= Z.of_nat n).
  { intros s Hs. pose proof (count_started_ge _ Hs). pose proof (count_true_bound (done_ s)). lia. }
  destruct (Z.leb_spec (Z.of_nat n) (finished st)) as [Hfin|Hfin].
  { exists 0%nat, (exit_code st), st, w. cbn [run_loop]. rewrite (proj2 (Z.leb_le _ _) Hfin). split; [done|]. intros _ _ _.
    unfold exit_code. rewrite (ok_finished _ Hok) in *. pose proof (Hbound _ Hok).
    destruct (Z.eqb_spec (count_true (done_ st)) (Z.of_nat n)); [done|lia]. }
  assert (Hstep : forall fuel, run_loop (S fuel) st w = _) by (intros; cbn [run_loop]; by rewrite (proj2 (Z.leb_gt _ _) Hfin)).
  destruct (start_wave (seq 0 n) false st w) as [[any st1] w1] eqn:Ew.
  pose proof seq_lt as Hseq.
  destruct (start_wave_ok _ _ _ _ _ _ _ Hok Hseq Ew) as (Hw & Hf & Ht).
  set (st2 := if any then next_wave st1 else st1) in *.
  assert (Hok2 : run_ok st2) by (subst st2; destruct any; [apply next_wave_ok|]; apply Hw).
  assert (Hm2 : count_true (started st2) = count_true (started st1) /\ count_true (done_ st2) = count_true (done_ st)).
  { destruct (wv_done _ _ Hw) as (<- & _). subst st2. by destruct any. }
  assert (Hany : any = true -> (m1 st2 < k)%nat).
  { intros Ha. destruct (Ht Ha) as [|Hlt]; [done|]. subst k. unfold m1. destruct Hm2 as [-> ->].
    pose proof (Hbound _ Hok). pose proof (Hbound _ (wv_ok _ _ Hw)). lia. }
  destruct (if any then publish w1 else (0, w1)) as [prc w2] eqn:Epub. destruct (Z.ltb_spec prc 0) as [Hneg|Hpos].
  { exists 1%nat, (-1), st2, w2. rewrite Hstep. split; [done|].
    intros _ Hpub _. destruct any; [specialize (Hpub w1); rewrite Epub in Hpub; cbn in Hpub; lia|]. injection Epub as <- _. lia. }
  destruct (Z.eqb_spec (in_flight st2) 0) as [Hfl|Hfl].
  - destruct any.
    + destruct (IHk _ (Hany eq_refl) st2 w2 eq_refl Hok2) as (fuel & rc & st' & w' & E & Hrc).
      exists (S fuel), rc, st', w'. by rewrite Hstep.
    + exists 1%nat, (exit_code st2), st2, w2. rewrite Hstep.
      split; [done|]. intros Hsub _ Hfw. exfalso. destruct (Hf eq_refl) as [_ E1]. subst st1.
      destruct (first_not_done st Hok Hfw Hfin) as (i & Hi & Hdi & Hdeg).
      pose proof (start_wave_all (seq 0 n) Hsub false st w Hok Hseq i ltac:(apply elem_of_seq; lia) Hdeg) as Hs. rewrite Ew in Hs. cbn in Hs.
      rewrite (ok_flight _ Hok2) in Hfl. subst st2. cbn in Hfl. destruct (ok_len _ Hok) as (_ & _ & L3 & L4).
      assert (Hlt : count_true (<[i := true]> (done_ st)) <= count_true (started st)).
      { apply count_true_le; [by rewrite length_insert, L3|]. intros j. rewrite flag_insert by by rewrite L3.
        case_decide; [by subst|apply (ok_done _ Hok)]. }
      rewrite count_true_insert in Hlt by (done || by rewrite L3). lia.
  - destruct (collect_one (seq 0 n) st2 w2) as [st3 w3] eqn:Ec.
    assert (Hrec : exists fuel rc st' w', run_loop fuel st3 w3 = Ret (rc, st', w') /\
      ((forall i w, fst (submit i w) <> 0) -> (forall w, 0 <= fst (publish w)) ->
       Forall (fun e => (e_from n e < e_to n e)%nat) edges -> rc = 0)).
    { destruct (collect_one_pot _ _ _ _ _ Ec) as [(i & Hs & Hd & ->)|(-> & Hp & Hlt)].
      - assert (Hok3 := op_finished_ok i st2 Hok2 Hs Hd). apply (IHk (m1 (op_finished i st2))); [|done|done].
        destruct (ok_len _ Hok2) as (_ & _ & L3 & L4). assert (Hi : (i < n)%nat) by (rewrite <- L4; by apply flag_lt).
        pose proof (Hbound _ Hok3) as Hb3. unfold m1 in *. cbn in *. rewrite count_true_insert in * by (done || by rewrite L3).
        pose proof (Hbound _ Hok). pose proof (Hbound _ (wv_ok _ _ Hw)). destruct Hm2 as [E1 E2]. destruct (wv_started _ _ Hw). lia.
      - destruct any; [by apply (IHk _ (Hany eq_refl) st2 w3 eq_refl Hok2)|].
        destruct (Hf eq_refl) as [_ E1]. subst st2 st1. injection Epub as _ <-. apply start_wave_pot in Ew; [|done|done].
        apply (IHp (pot w3)); [|done|done]. rewrite Ep. enough (pot w3 < pot w1)%nat by lia. apply Hlt, started_not_done; [done|].
        rewrite (ok_flight _ Hok2) in Hfl. pose proof (Hbound _ Hok2). lia. }
    destruct Hrec as (fuel & rc & st' & w' & E & Hrc). exists (S fuel), rc, st', w'. by rewrite Hstep.
Qed.
End Run.

(** ** Properties *)

(** C23: dependency order.  Whatever the callback, the request layer and the
    moments at which requests complete, [fasync_run_dag] hands over each
    operation at most once and collects it at most once, and hands an operation
    over only after it has collected every operation the graph orders before it;
    it returns 0 or -1, and 0 only when every operation has been handed over and
    collected. *)
Theorem run_dag_ordered {W : Type} (submit : nat -> W -> Z * W) (publish : W -> Z * W)
  (ready : Z -> W -> bool * W) (result : Z -> W -> Z * W) (n : nat) (edges : list Z) (mem : bool) (fuel : nat)
  (w w' : W) (rc : Z) (st : run_st) :
  Z.of_nat n < 2 ^ 32 -> Z.of_nat (length edges) < 2 ^ 32 -> Forall (fun e => 0 <= e) edges ->
  fasync_run_dag submit publish ready result n edges mem fuel w = Ret (rc, st, w') ->
  NoDup (calls st) /\ ordered n edges (calls st) /\ (rc = 0 \/ rc = -1) /\
  (rc = 0 -> forall i, (i < n)%nat -> Submit i ∈ calls st /\ Collect i ∈ calls st).
Proof.
  intros Hn He Her E. unfold fasync_run_dag in E. destruct (Nat.eqb_spec n 0) as [->|Hn0].
  { apply Ret_inj in E. injection E as <- <- <-. split; [constructor|]. split; [by intros [|] ? ? ?|]. split; [by left|lia]. }
  destruct mem; cbn [negb] in E.
  2: { apply Ret_inj in E. injection E as <- <- <-. split; [constructor|]. split; [by intros [|] ? ? ?|]. split; [by right|done]. }
  destruct (run_loop_ok submit publish ready result n edges Hn ltac:(lia) He Her fuel _ _ _ _ _
    (run_init_ok n edges Hn ltac:(lia) He Her) E) as (Hok & Hrc & Hfin).
  split; [apply Hok|]. split; [apply Hok|]. split; [done|]. intros H0 i Hi.
  destruct (ok_len _ _ _ Hok) as (_ & _ & L3 & _).
  assert (Hd : flag (done_ st) i = true).
  { apply count_true_full; [|by rewrite L3]. rewrite L3, <- (Hfin H0). symmetry. apply Hok. }
  split; [by apply (ok_submits _ _ _ Hok), (ok_done _ _ _ Hok)|by apply (ok_collects _ _ _ Hok)].
Qed.

(** C24: the run ends.  When every request that is polled completes after
    finitely many polls, [fasync_run_dag] returns; and when moreover no
    submission is refused, publishing succeeds and every edge goes from an
    earlier to a later operation, as the edges of [fasync_build_dag] do, it
    returns 0: every operation has completed. *)
Theorem run_dag_returns {W : Type} (submit : nat -> W -> Z * W) (publish : W -> Z * W)
  (ready : Z -> W -> bool * W) (result : Z -> W -> Z * W) (pot : W -> nat) (n : nat) (edges : list Z) (w : W) :
  Z.of_nat n < 2 ^ 32 -> Z.of_nat (length edges) < 2 ^ 32 -> Forall (fun e => 0 <= e) edges ->
  (forall i w w', submit i w = (0, w') -> (pot w' <= pot w)%nat) ->
  (forall h w w', ready h w = (false, w') -> (pot w' < pot w)%nat) ->
  exists fuel rc st w', fasync_run_dag submit publish ready result n edges true fuel w = Ret (rc, st, w') /\
    ((forall i w, fst (submit i w) <> 0) -> (forall w, 0 <= fst (publish w)) ->
     Forall (fun e => (e_from n e < e_to n e)%nat) edges -> rc = 0).
Proof.
  intros Hn He Her Hsub Hready. unfold fasync_run_dag. destruct (Nat.eqb_spec n 0) as [->|Hn0].
  { exists 0%nat, 0, (run_init 0 edges), w. done. }
  cbn [negb]. exact (run_loop_returns submit publish ready result n edges Hn ltac:(lia) He Her pot Hsub Hready _ w
    (run_init_ok n edges Hn ltac:(lia) He Her)).
Qed.

(** A world that completes requests after two polls, and a batch of three
    operations in a chain. *)
Definition slow_submit (i : nat) (w : nat) : Z * nat := (Z.of_nat i + 1, 2%nat).
Definition slow_publish (w : nat) : Z * nat := (1, w).
Definition slow_ready (h : Z) (w : nat) : bool * nat := match w with O => (true, O) | S w => (false, w) end.
Definition slow_result (h : Z) (w : nat) : Z * nat := (0, w).
Definition chain_edges : list Z := [edge_code 3 0 1; edge_code 3 1 2].
Definition chain_run : outcome (Z * run_st * nat) :=
  fasync_run_dag slow_submit slow_publish slow_ready slow_result 3 chain_edges true 20 0%nat.
Definition chain_end : run_st := match chain_run with Ret (_, st, _) => st | _ => run_init 3 chain_edges end.

Lemma run_dag_ordered_witness :
  calls chain_end = [Submit 0; Collect 0; Submit 1; Collect 1; Submit 2; Collect 2] /\
  NoDup (calls chain_end) /\ ordered 3 chain_edges (calls chain_end) /\ (0 = 0 \/ 0 = -1) /\
  (0 = 0 -> forall i, (i < 3)%nat -> Submit i ∈ calls chain_end /\ Collect i ∈ calls chain_end).
Proof.
  split; [vm_compute; reflexivity|].
  apply (run_dag_ordered slow_submit slow_publish slow_ready slow_result 3 chain_edges true 20 0%nat 0%nat 0 chain_end);
    [point|point| |vm_compute; reflexivity].
  repeat (apply Forall_cons_2; [vm_compute; discriminate|]). apply Forall_nil_2.
Defined.

Lemma run_dag_returns_witness :
  exists fuel rc st w', fasync_run_dag slow_submit slow_publish slow_ready slow_result 3 chain_edges true fuel 0%nat = Ret (rc, st, w') /\
    ((forall i w, fst (slow_submit i w) <> 0) -> (forall w, 0 <= fst (slow_publish w)) ->
     Forall (fun e => (e_from 3 e < e_to 3 e)%nat) chain_edges -> rc = 0).
Proof.
  apply (run_dag_returns slow_submit slow_publish slow_ready slow_result id 3 chain_edges 0%nat).
  - point.
  - point.
  - repeat (apply Forall_cons_2; [vm_compute; discriminate|]). apply Forall_nil_2.
  - intros i w w' E. unfold slow_submit in E. exfalso. assert (Z.of_nat i + 1 = 0) by congruence. lia.
  - intros h [|w] w' E; cbn in E; [discriminate|]. injection E as <-. unfold id. lia.
Defined.
