(* ===== verification/Requests.v ===== *)
(** * Requests: the io_uring runtime's request table

    [io_uring/fasync.c]: [req_slots], the one-based free list through
    [g_req_free_next], the allocation bits, and the handles ([fasync_id]) that
    pack a slot and a generation.  Every function here runs with
    [fasync_lock] held. *)

From S2P Require Import Prelude.
Open Scope Z_scope.

Definition FASYNC_MAX_INFLIGHT : Z := 1024.
Definition FASYNC_REQ_FREE : Z := 0.
Definition FASYNC_REQ_PENDING : Z := 1.
Definition FASYNC_REQ_DONE : Z := 2.
Definition FASYNC_REQ_FAILED : Z := 3.

Record req := mk_req {
  q_id : Z;
  q_gen : Z;
  q_buf : ptr;
  q_len : Z;
  q_offset : Z;
  q_fd : Z;
  q_op : Z;
  q_state : Z;
  q_linked : Z;
  q_result : Z;
  q_task : ptr;
}.

Definition req_zero : req := mk_req 0 0 NULL 0 0 0 0 FASYNC_REQ_FREE 0 0 NULL.

Record reqs := mk_reqs {
  req_slots : gmap Z req;
  g_req_free_head : Z;            (* one based; 0: none free *)
  g_req_free_next : gmap Z Z;
  req_next_gen : Z;
  alloc_bits : gmap Z Z;          (* words of 64 bits *)
}.

(** A slot of the array, and an index outside it. *)
Definition slot (s : reqs) (i : Z) : outcome req := deref (req_slots s !! i).
Definition bits_word (s : reqs) (w : Z) : Z := default 0 (alloc_bits s !! w).
Definition free_next (s : reqs) (i : Z) : Z := default 0 (g_req_free_next s !! i).

Definition set_state (st : Z) (r : req) : req :=
  mk_req (q_id r) (q_gen r) (q_buf r) (q_len r) (q_offset r) (q_fd r) (q_op r) st (q_linked r) (q_result r) (q_task r).

(** Stores to a slot of the array. *)
Definition reqs_set (i : Z) (r : req) (s : reqs) : reqs :=
  mk_reqs (<[i := r]> (req_slots s)) (g_req_free_head s) (g_req_free_next s) (req_next_gen s) (alloc_bits s).

(** The static arrays before [fasync_req_table_init]. *)
Definition reqs_static : reqs :=
  mk_reqs (list_to_map (map (fun i => (i, req_zero)) (seqZ 0 FASYNC_MAX_INFLIGHT))) 0 ∅ 0 ∅.

Definition fasync_slot_mark (index : Z) (allocated : bool) (bits : gmap Z Z) : gmap Z Z :=
  let bit := Z.shiftl 1 (index mod 64) in
  let word := default 0 (bits !! (index / 64)) in
  <[index / 64 := if allocated then Z.lor word bit else Z.land word (u64 (Z.lnot bit))]> bits.

Definition fasync_req_table_init (s : reqs) : reqs :=
  let slots := fold_left (fun m i => alter (set_state FASYNC_REQ_FREE) i m) (seqZ 0 FASYNC_MAX_INFLIGHT) (req_slots s) in
  let next := fold_left (fun m i => <[i := if i + 2 <=? FASYNC_MAX_INFLIGHT then i + 2 else 0]> m)
                (seqZ 0 FASYNC_MAX_INFLIGHT) (g_req_free_next s) in
  mk_reqs slots 1 next (req_next_gen s) ∅.

(** [++req_next_gen], skipping 0. *)
Definition next_gen (g : Z) : Z := let g := u32 (g + 1) in if g =? 0 then u32 (g + 1) else g.

Definition pack_id (gen index : Z) : Z := Z.lor (Z.shiftl gen 32) index.
Definition id_index (id : Z) : Z := Z.land id 0xFFFFFFFF.
Definition id_gen (id : Z) : Z := Z.shiftr id 32.

(** The slot handed out, or none. *)
Definition fasync_req_alloc (s : reqs) : outcome (option Z * reqs) :=
  let head := g_req_free_head s in
  if head =? 0 then mret (None, s)
  else
    let index := head - 1 in
    let gen := next_gen (req_next_gen s) in
    r ← slot s index;
    let r := mk_req (pack_id gen index) gen (q_buf r) (q_len r) (q_offset r) (q_fd r) (q_op r)
               FASYNC_REQ_PENDING 0 0 NULL in
    mret (Some index,
      mk_reqs (<[index := r]> (req_slots s)) (free_next s index) (g_req_free_next s) gen
        (fasync_slot_mark index true (alloc_bits s))).

Definition fasync_req_release (i : Z) (s : reqs) : outcome reqs :=
  r ← slot s i;
  let index := id_index (q_id r) in
  let r := mk_req (q_id r) (q_gen r) NULL (q_len r) (q_offset r) (q_fd r) (q_op r)
             FASYNC_REQ_FREE (q_linked r) (q_result r) NULL in
  mret (mk_reqs (<[i := r]> (req_slots s)) (index + 1) (<[index := g_req_free_head s]> (g_req_free_next s))
          (req_next_gen s) (fasync_slot_mark index false (alloc_bits s))).

(** The slot of a live handle, or none. *)
Definition fasync_req_lookup (id : Z) (s : reqs) : outcome (option Z) :=
  let index := id_index id in
  let gen := id_gen id in
  if FASYNC_MAX_INFLIGHT <=? index then mret None
  else
    r ← slot s index;
    mret (if negb (q_gen r =? gen) || (q_state r =? FASYNC_REQ_FREE) then None else Some index).

(** The condition of the scan's body; the pointer sums are 64 bits wide. *)
Definition covers (p : ptr) (size : Z) (r : req) : bool :=
  let start := q_buf r in
  (q_state r =? FASYNC_REQ_PENDING) && negb (start =? NULL) && (start <=? p) && (u64 (p + size) <=? u64 (start + q_len r)).

(** The first allocated slot, from [i] on, whose pending buffer covers
    [[p, p + size)]. *)
Fixpoint find_covering_from (n : nat) (i : Z) (p : ptr) (size : Z) (s : reqs) : outcome (option Z) :=
  match n with
  | O => mret None
  | S n =>
      if Z.land (bits_word s (i / 64)) (Z.shiftl 1 (i mod 64)) =? 0 then find_covering_from n (i + 1) p size s
      else
        r ← slot s i;
        if covers p size r then mret (Some i) else find_covering_from n (i + 1) p size s
  end.

Definition fasync_find_covering (ready : bool) (p : ptr) (size : Z) (s : reqs) : outcome (option Z) :=
  if ready then find_covering_from (Z.to_nat FASYNC_MAX_INFLIGHT) 0 p size s else mret None.

(** ** Packing *)

Lemma id_pack gen index :
  0 <= index < 2 ^ 32 -> 0 <= gen -> id_index (pack_id gen index) = index /\ id_gen (pack_id gen index) = gen.
Proof.
  intros Hi Hg. unfold id_index, id_gen, pack_id. change 0xFFFFFFFF with (Z.ones 32).
  assert (Hbit : forall n, 32 <= n -> Z.testbit index n = false).
  { intros n Hn. destruct (Z.eq_dec index 0) as [->|]; [apply Z.bits_0|]. apply Z.bits_above_log2; [lia|].
    apply Z.log2_lt_pow2; [lia|]. eapply Z.lt_le_trans; [apply Hi|]. apply Z.pow_le_mono_r; lia. }
  split; apply Z.bits_inj'; intros n Hn.
  - rewrite Z.land_spec, Z.lor_spec, Z.shiftl_spec by done.
    destruct (Z.lt_ge_cases n 32).
    + rewrite (Z.testbit_neg_r gen) by lia. by rewrite Z.ones_spec_low, andb_true_r by lia.
    + rewrite Z.ones_spec_high, andb_false_r by lia. by rewrite Hbit.
  - rewrite Z.shiftr_spec, Z.lor_spec, Z.shiftl_spec by lia. rewrite Hbit, orb_false_r by lia.
    by replace (n + 32 - 32) with n by lia.
Qed.

Lemma pack_nonneg gen index : 0 <= gen -> 0 <= index -> 0 <= pack_id gen index.
Proof. intros. unfold pack_id. apply Z.lor_nonneg. split; [by apply Z.shiftl_nonneg|done]. Qed.

(** ** The allocation bits *)

Definition bit_set (bits : gmap Z Z) (i : Z) : bool := Z.testbit (default 0 (bits !! (i / 64))) (i mod 64).

Lemma slot_mark_bit bits i j (allocated : bool) :
  0 <= i -> 0 <= j ->
  bit_set (fasync_slot_mark i allocated bits) j = if decide (i = j) then allocated else bit_set bits j.
Proof.
  intros Hi Hj. unfold bit_set, fasync_slot_mark. rewrite lookup_insert.
  pose proof (Z.mod_pos_bound i 64 ltac:(lia)) as Hmi. pose proof (Z.mod_pos_bound j 64 ltac:(lia)) as Hmj.
  pose proof (Z.div_mod i 64 ltac:(lia)) as Hdi. pose proof (Z.div_mod j 64 ltac:(lia)) as Hdj.
  destruct (decide (i / 64 = j / 64)) as [Ew|Ew].
  - cbn. rewrite Ew. set (w := default 0 (bits !! (j / 64))). rewrite Z.shiftl_1_l. destruct allocated.
    + rewrite Z.lor_spec. destruct (decide (i = j)) as [->|Hne].
      * rewrite Z.pow2_bits_true by lia. by rewrite orb_true_r.
      * rewrite Z.pow2_bits_false by lia. by rewrite orb_false_r.
    + rewrite Z.land_spec. unfold u64. rewrite <- Z.land_ones, Z.land_spec, Z.lnot_spec, Z.ones_spec_low by lia.
      destruct (decide (i = j)) as [->|Hne].
      * rewrite Z.pow2_bits_true by lia. by rewrite andb_false_r.
      * rewrite Z.pow2_bits_false by lia. by rewrite andb_true_r.
  - rewrite decide_False; [done|]. intros ->. done.
Qed.

(** ** Invariant *)

(** [free_rep s head fl]: the free list from [head] is [fl]. *)
Fixpoint free_rep (next : Z -> Z) (head : Z) (fl : list Z) : Prop :=
  match fl with
  | [] => head = 0
  | i :: fl => head = i + 1 /\ free_rep next (next i) fl
  end.

Definition in_table (i : Z) : Prop := 0 <= i < FASYNC_MAX_INFLIGHT.

(** [fl] the free slots in the order they will be used, [n] the requests ever
    made. *)
Record reqs_ok (s : reqs) (fl : list Z) (n : Z) : Prop := {
  ro_free : NoDup fl /\ free_rep (free_next s) (g_req_free_head s) fl;
  ro_range : forall i, i ∈ fl -> in_table i;
  ro_slot : forall i, in_table i <-> is_Some (req_slots s !! i);
  ro_state : forall i r, req_slots s !! i = Some r -> q_state r = FASYNC_REQ_FREE <-> i ∈ fl;
  ro_bit : forall i, in_table i -> bit_set (alloc_bits s) i = negb (bool_decide (i ∈ fl));
  ro_gen : 0 <= n < 2 ^ 32 /\ req_next_gen s = n;
  ro_live : forall i r, req_slots s !! i = Some r -> 0 <= q_gen r <= n /\
    (q_state r <> FASYNC_REQ_FREE -> 0 < q_gen r /\ q_id r = pack_id (q_gen r) i);
}.

Lemma free_rep_ext next next' head fl :
  (forall i, i ∈ fl -> next' i = next i) -> free_rep next head fl -> free_rep next' head fl.
Proof.
  revert head. induction fl as [|i fl IH]; intros head He; cbn; [done|]. intros [-> Hf]. split; [done|].
  rewrite He by left. apply IH; [|done]. intros j Hj. apply He. by right.
Qed.

Lemma next_gen_small n : 0 <= n -> n + 1 < 2 ^ 32 -> next_gen n = n + 1.
Proof. intros. unfold next_gen. rewrite u32_small by lia. destruct (Z.eqb_spec (n + 1) 0); lia. Qed.

Section Table.
Context (s : reqs) (fl : list Z) (n : Z) (Hok : reqs_ok s fl n).

Lemma slot_ok i : in_table i -> exists r, req_slots s !! i = Some r.
Proof. intros Hi. by apply (ro_slot _ _ _ Hok) in Hi as [r ?]; exists r. Qed.

Lemma fasync_req_alloc_none : fl = [] -> fasync_req_alloc s = Ret (None, s).
Proof. intros ->. destruct (ro_free _ _ _ Hok) as [_ Hf]. cbn in Hf. unfold fasync_req_alloc. by rewrite Hf. Qed.

Lemma fasync_req_alloc_some i fl' :
  fl = i :: fl' -> n + 1 < 2 ^ 32 ->
  exists s' r, fasync_req_alloc s = Ret (Some i, s') /\ reqs_ok s' fl' (n + 1) /\
    req_slots s' = <[i := r]> (req_slots s) /\ q_id r = pack_id (n + 1) i /\ q_state r = FASYNC_REQ_PENDING /\ q_task r = NULL.
Proof.
  intros Efl Hn. destruct (ro_free _ _ _ Hok) as [Hnd Hf]. rewrite Efl in Hf, Hnd. destruct Hf as [Hh Hf].
  apply NoDup_cons in Hnd as [Hi Hnd]. destruct (ro_gen _ _ _ Hok) as [Hn0 Hg].
  assert (Hti : in_table i) by (apply (ro_range _ _ _ Hok); rewrite Efl; left).
  destruct (slot_ok i Hti) as [r Hr]. unfold fasync_req_alloc. unfold in_table in Hti.
  destruct (Z.eqb_spec (g_req_free_head s) 0); [lia|]. replace (g_req_free_head s - 1) with i by lia.
  unfold slot. rewrite Hr. cbn [deref mbind outcome_bind]. rewrite Hg, next_gen_small by lia.
  eexists _, _. split; [done|]. split; [|done]. split; cbn.
  - split; [done|]. exact Hf.
  - intros j Hj. apply (ro_range _ _ _ Hok). rewrite Efl. by right.
  - intros j. rewrite (ro_slot _ _ _ Hok), lookup_insert. case_decide as E; [|done]. subst j. rewrite Hr. by split; eexists.
  - intros j rj Hj. rewrite lookup_insert in Hj. case_decide as E.
    + subst j. injection Hj as <-. cbn. split; [done|]. by intros ?.
    + rewrite (ro_state _ _ _ Hok j rj Hj), Efl, elem_of_cons. naive_solver.
  - intros j Hj. rewrite slot_mark_bit by (unfold in_table in *; lia). rewrite (ro_bit _ _ _ Hok j Hj), Efl.
    destruct (decide (i = j)) as [->|Hne]; [by rewrite bool_decide_false|]. f_equal. apply bool_decide_ext.
    rewrite elem_of_cons. naive_solver.
  - lia.
  - intros j rj Hj. rewrite lookup_insert in Hj. case_decide as E.
    + subst j. injection Hj as <-. cbn. split; [lia|]. intros _. split; [lia|done].
    + destruct (ro_live _ _ _ Hok j rj Hj) as [? ?]. split; [lia|done].
Qed.

Lemma fasync_req_release_ok i r :
  req_slots s !! i = Some r -> q_state r <> FASYNC_REQ_FREE ->
  exists s' r', fasync_req_release i s = Ret s' /\ reqs_ok s' (i :: fl) n /\
    req_slots s' = <[i := r']> (req_slots s) /\ q_state r' = FASYNC_REQ_FREE.
Proof.
  intros Hr Hst. assert (Hti : in_table i) by (apply (ro_slot _ _ _ Hok); by eexists).
  destruct (ro_live _ _ _ Hok i r Hr) as [Hgr Hl]. destruct (Hl Hst) as [Hg0 Hid].
  assert (Hnf : i ∉ fl) by (intros Hin; by apply Hst, (ro_state _ _ _ Hok i r Hr)).
  destruct (ro_free _ _ _ Hok) as [Hnd Hf]. unfold fasync_req_release, slot. rewrite Hr. cbn [deref mbind outcome_bind].
  unfold in_table, FASYNC_MAX_INFLIGHT in Hti.
  destruct (id_pack (q_gen r) i) as [Ei _]; [lia..|]. rewrite Hid, Ei.
  eexists _, _. split; [done|]. split; [|done]. split; cbn.
  - split; [by apply NoDup_cons|]. split; [done|].
    lazymatch goal with |- free_rep _ ?h _ => replace h with (g_req_free_head s) by (unfold free_next; cbn; by rewrite lookup_insert_eq) end.
    eapply free_rep_ext; [|exact Hf]. intros j Hj. unfold free_next. cbn. rewrite lookup_insert_ne; [done|]. by intros ->.
  - intros j [->|Hj]%elem_of_cons; [done|by apply (ro_range _ _ _ Hok)].
  - intros j. rewrite (ro_slot _ _ _ Hok), lookup_insert. case_decide as E; [|done]. subst j. rewrite Hr. by split; eexists.
  - intros j rj Hj. rewrite lookup_insert in Hj. rewrite elem_of_cons. case_decide as E.
    + subst j. injection Hj as <-. cbn. split; [by left|done].
    + rewrite (ro_state _ _ _ Hok j rj Hj). naive_solver.
  - intros j Hj. rewrite slot_mark_bit by (unfold in_table in *; lia). rewrite (ro_bit _ _ _ Hok j Hj).
    destruct (decide (i = j)) as [->|Hne]; [by rewrite bool_decide_true by left|]. f_equal. apply bool_decide_ext.
    rewrite elem_of_cons. naive_solver.
  - apply Hok.
  - intros j rj Hj. rewrite lookup_insert in Hj. case_decide as E.
    + subst j. injection Hj as <-. cbn. split; [done|done].
    + by apply (ro_live _ _ _ Hok).
Qed.

(** A handle is found exactly when it names a live request. *)
Lemma fasync_req_lookup_ok id :
  0 <= id ->
  exists o, fasync_req_lookup id s = Ret o /\
    forall i, o = Some i <-> exists r, req_slots s !! i = Some r /\ q_state r <> FASYNC_REQ_FREE /\ q_id r = id.
Proof.
  intros Hid. unfold fasync_req_lookup.
  assert (Hidx : 0 <= id_index id < 2 ^ 32).
  { unfold id_index. change 0xFFFFFFFF with (Z.ones 32). rewrite Z.land_ones by lia. apply Z.mod_pos_bound. lia. }
  assert (Hlive : forall i r, req_slots s !! i = Some r -> q_state r <> FASYNC_REQ_FREE -> q_id r = id -> i = id_index id /\ q_gen r = id_gen id).
  { intros i r Hr Hst Eid. destruct (ro_live _ _ _ Hok i r Hr) as [Hgr Hl]. destruct (Hl Hst) as [Hg0 Hp].
    assert (Hti : in_table i) by (apply (ro_slot _ _ _ Hok); by eexists). unfold in_table, FASYNC_MAX_INFLIGHT in Hti.
    destruct (id_pack (q_gen r) i) as [E1 E2]; [lia..|]. rewrite <- Hp, Eid in E1, E2. by split. }
  destruct (Z.leb_spec FASYNC_MAX_INFLIGHT (id_index id)) as [Hge|Hlt].
  - exists None. split; [done|]. intros i. split; [done|]. intros (r & Hr & Hst & Eid). exfalso.
    destruct (Hlive i r Hr Hst Eid) as [-> _].
    assert (Hti : in_table (id_index id)) by (apply (ro_slot _ _ _ Hok); by eexists). unfold in_table in Hti. lia.
  - destruct (slot_ok (id_index id)) as [r Hr]; [unfold in_table; lia|]. unfold slot. rewrite Hr. cbn.
    eexists. split; [done|]. intros i. split.
    + destruct (Z.eqb_spec (q_gen r) (id_gen id)) as [Eg|]; [|done]. destruct (Z.eqb_spec (q_state r) FASYNC_REQ_FREE) as [|Hst]; [done|].
      intros [= <-]. exists r. split; [done|]. split; [done|]. destruct (ro_live _ _ _ Hok _ r Hr) as [_ Hl].
      destruct (Hl Hst) as [_ ->]. rewrite Eg. unfold pack_id, id_gen, id_index. apply Z.bits_inj'. intros m Hm.
      rewrite Z.lor_spec, Z.shiftl_spec, Z.land_spec by done. change 0xFFFFFFFF with (Z.ones 32). destruct (Z.lt_ge_cases m 32).
      * rewrite Z.testbit_neg_r by lia. by rewrite Z.ones_spec_low, andb_true_r by lia.
      * rewrite Z.ones_spec_high, andb_false_r, orb_false_r by lia. rewrite Z.shiftr_spec by lia. f_equal. lia.
    + intros (r' & Hr' & Hst & Eid). destruct (Hlive i r' Hr' Hst Eid) as [-> Eg]. rewrite Hr in Hr'. injection Hr' as <-.
      rewrite Eg, Z.eqb_refl. destruct (Z.eqb_spec (q_state r) FASYNC_REQ_FREE); [done|]. done.
Qed.
End Table.

(** The slots in index order, without the bitmap: the reference of the scan. *)
Definition covering_slots (p : ptr) (size : Z) (s : reqs) : list Z :=
  filter (fun i => from_option (covers p size) false (req_slots s !! i)) (seqZ 0 FASYNC_MAX_INFLIGHT).

Lemma word_bit_set bits i : 0 <= i -> (Z.land (default 0 (bits !! (i / 64))) (Z.shiftl 1 (i mod 64)) =? 0) = negb (bit_set bits i).
Proof.
  intros Hi. unfold bit_set. set (w := default 0 (bits !! (i / 64))). pose proof (Z.mod_pos_bound i 64 ltac:(lia)).
  rewrite Z.shiftl_1_l. destruct (Z.testbit w (i mod 64)) eqn:E; cbn.
  - apply Z.eqb_neq. intros H0. assert (Hb : Z.testbit (Z.land w (2 ^ (i mod 64))) (i mod 64) = false) by (by rewrite H0, Z.bits_0).
    by rewrite Z.land_spec, Z.pow2_bits_true, andb_true_r, E in Hb by lia.
  - apply Z.eqb_eq, Z.bits_inj'. intros m Hm. rewrite Z.land_spec, Z.bits_0. destruct (decide (m = i mod 64)) as [->|].
    + by rewrite E.
    + by rewrite Z.pow2_bits_false, andb_false_r by lia.
Qed.

Lemma find_covering_from_ok s fl n (Hok : reqs_ok s fl n) p size k : forall i,
  0 <= i -> i + Z.of_nat k <= FASYNC_MAX_INFLIGHT ->
  find_covering_from k i p size s =
    Ret (head (filter (fun i => from_option (covers p size) false (req_slots s !! i)) (seqZ i (Z.of_nat k)))).
Proof.
  induction k as [|k IH]; intros i Hi Hk; [done|].
  rewrite seqZ_cons, filter_cons by lia. replace (Z.pred (Z.of_nat (S k))) with (Z.of_nat k) by lia. cbn [find_covering_from].
  unfold bits_word. rewrite word_bit_set by done. assert (Hti : in_table i) by (unfold in_table; lia).
  rewrite (ro_bit _ _ _ Hok i Hti), negb_involutive. destruct (slot_ok s fl n Hok i Hti) as [r Hr].
  unfold slot. rewrite Hr. cbn [deref mbind outcome_bind from_option].
  destruct (bool_decide (i ∈ fl)) eqn:Hfl; [apply bool_decide_eq_true in Hfl|].
  - rewrite decide_False; [apply IH; lia|]. unfold covers. rewrite (proj2 (ro_state _ _ _ Hok i r Hr) Hfl). cbn. by intros [].
  - destruct (covers p size r) eqn:Ec; [by rewrite decide_True by done|]. rewrite decide_False by (by intros ?). apply IH; lia.
Qed.

(** ** The table as a set of handles *)

(** The calls made of the table: a handle for a new request, the two ways a
    handle comes back, and the end of a request, which keeps its handle. *)
Inductive rt_op := RAlloc | RLookup (id : Z) | RRelease (id : Z) | RFinish (id : Z) (ok : bool).

Definition slot_id (s : reqs) (o : option Z) : outcome (option Z) :=
  match o with None => mret None | Some i => r ← slot s i; mret (Some (q_id r)) end.

Definition rt_exec (op : rt_op) (s : reqs) : outcome (option Z * reqs) :=
  match op with
  | RAlloc => '(o, s) ← fasync_req_alloc s; out ← slot_id s o; mret (out, s)
  | RLookup id => o ← fasync_req_lookup id s; out ← slot_id s o; mret (out, s)
  | RRelease id =>
      o ← fasync_req_lookup id s;
      match o with
      | None => mret (None, s)
      | Some i => s ← fasync_req_release i s; mret (Some id, s)
      end
  | RFinish id ok =>
      o ← fasync_req_lookup id s;
      match o with
      | None => mret (None, s)
      | Some i => mret (Some id,
          mk_reqs (alter (set_state (if ok then FASYNC_REQ_DONE else FASYNC_REQ_FAILED)) i (req_slots s))
            (g_req_free_head s) (g_req_free_next s) (req_next_gen s) (alloc_bits s))
      end
  end.

Fixpoint rt_run (ops : list rt_op) (s : reqs) : outcome (list (option Z) * reqs) :=
  match ops with
  | [] => mret ([], s)
  | op :: ops => '(out, s) ← rt_exec op s; '(outs, s) ← rt_run ops s; mret (out :: outs, s)
  end.

(** The specification: the live handles and all handles ever given. *)
Record rt_spec := mk_rt_spec { sp_live : gset Z; sp_used : gset Z }.

Definition spec_step (op : rt_op) (out : option Z) (a a' : rt_spec) : Prop :=
  match op with
  | RAlloc =>
      match out with
      | Some id => id <> 0 /\ (id ∉ sp_used a) /\ Z.of_nat (size (sp_live a)) < FASYNC_MAX_INFLIGHT /\
                   a' = mk_rt_spec ({[id]} ∪ sp_live a) ({[id]} ∪ sp_used a)
      | None => Z.of_nat (size (sp_live a)) = FASYNC_MAX_INFLIGHT /\ a' = a
      end
  | RLookup id | RFinish id _ => out = (if decide (id ∈ sp_live a) then Some id else None) /\ a' = a
  | RRelease id => out = (if decide (id ∈ sp_live a) then Some id else None) /\
                   a' = mk_rt_spec (sp_live a ∖ {[id]}) (sp_used a)
  end.

Inductive spec_run : list rt_op -> list (option Z) -> rt_spec -> rt_spec -> Prop :=
  | spec_nil a : spec_run [] [] a a
  | spec_cons op ops out outs a a1 a2 :
      spec_step op out a a1 -> spec_run ops outs a1 a2 -> spec_run (op :: ops) (out :: outs) a a2.

Record rt_abs (s : reqs) (a : rt_spec) (n : Z) : Prop := {
  ra_ok : exists fl, reqs_ok s fl n /\ (Z.of_nat (length fl) + Z.of_nat (size (sp_live a)) = FASYNC_MAX_INFLIGHT);
  ra_live : forall id, id ∈ sp_live a <-> exists i r, req_slots s !! i = Some r /\ q_state r <> FASYNC_REQ_FREE /\ q_id r = id;
  ra_used : forall id, id ∈ sp_used a -> exists g i, 0 < g <= n /\ in_table i /\ id = pack_id g i;
}.

Lemma live_id_nonneg s a n id : rt_abs s a n -> id ∈ sp_live a -> 0 <= id.
Proof.
  intros [(fl & Hok & _) Hlive _] (i & r & Hr & Hst & <-)%Hlive. destruct (ro_live _ _ _ Hok i r Hr) as [? Hl].
  destruct (Hl Hst) as [? ->]. apply pack_nonneg; [lia|].
  assert (in_table i) as [? _] by (apply (ro_slot _ _ _ Hok); by eexists). done.
Qed.

(** Looking up any handle, seen from the specification. *)
Lemma lookup_abs s a n id :
  rt_abs s a n -> 0 <= id ->
  exists o, fasync_req_lookup id s = Ret o /\
    match o with
    | Some i => id ∈ sp_live a /\ exists r, req_slots s !! i = Some r /\ q_state r <> FASYNC_REQ_FREE /\ q_id r = id
    | None => id ∉ sp_live a
    end.
Proof.
  intros [(fl & Hok & _) Hlive _] Hid. destruct (fasync_req_lookup_ok s fl n Hok id Hid) as (o & -> & Ho).
  exists o. split; [done|]. destruct o as [i|].
  - destruct (proj1 (Ho i) eq_refl) as (r & H). split; [|by exists r]. apply Hlive. by exists i, r.
  - rewrite Hlive. intros (i & r & H). by assert (None = Some i) by (apply Ho; by exists r).
Qed.

Definition op_handle_ok (op : rt_op) : Prop :=
  match op with RAlloc => True | RLookup id | RRelease id | RFinish id _ => 0 <= id end.

(** One call refines one step of the specification. *)
Lemma rt_exec_refines op s a n :
  rt_abs s a n -> n + 1 < 2 ^ 32 -> op_handle_ok op ->
  exists out s' a' n', rt_exec op s = Ret (out, s') /\ spec_step op out a a' /\ rt_abs s' a' n' /\ n <= n' <= n + 1.
Proof.
  intros Habs Hn Hop. pose proof Habs as [(fl & Hok & Hsz) Hlive Hused]. destruct op as [|id|id|id ok]; cbn [rt_exec op_handle_ok] in *.
  - destruct fl as [|i fl].
    + rewrite (fasync_req_alloc_none s [] n Hok eq_refl). cbn. eexists None, s, a, n. split; [done|]. split; [|split; [done|lia]].
      cbn in Hsz. split; [lia|done].
    + destruct (fasync_req_alloc_some s _ n Hok i fl eq_refl Hn) as (s' & r & -> & Hok' & Es & Eid & Est & _).
      cbn [mbind outcome_bind slot_id slot]. unfold slot. rewrite Es, lookup_insert_eq. cbn [deref mbind outcome_bind mret outcome_ret].
      rewrite Eid. set (id := pack_id (n + 1) i).
      assert (Hti : in_table i) by (apply (ro_range _ _ _ Hok); left).
      pose proof (ro_gen _ _ _ Hok) as [Hn0 _]. unfold in_table, FASYNC_MAX_INFLIGHT in Hti.
      destruct (id_pack (n + 1) i) as [Ei Eg]; [lia..|].
      assert (Hnew : id ∉ sp_used a).
      { intros (g & j & Hg & Hj & E)%Hused. unfold in_table, FASYNC_MAX_INFLIGHT in Hj. destruct (id_pack g j) as [_ Eg']; [lia..|].
        unfold id in E. rewrite <- E, Eg in Eg'. lia. }
      assert (Hnl : id ∉ sp_live a).
      { intros (j & rj & Hj & Hst & E)%Hlive. destruct (ro_live _ _ _ Hok j rj Hj) as [Hgj Hl]. destruct (Hl Hst) as [_ E2].
        assert (Htj : in_table j) by (apply (ro_slot _ _ _ Hok); by eexists). unfold in_table, FASYNC_MAX_INFLIGHT in Htj.
        destruct (id_pack (q_gen rj) j) as [_ Eg']; [lia..|]. rewrite <- E2, E in Eg'. unfold id in Eg'. lia. }
      eexists (Some id), s', (mk_rt_spec ({[id]} ∪ sp_live a) ({[id]} ∪ sp_used a)), (n + 1). split; [done|]. split; [|split; [|lia]].
      * cbn. split; [|split; [done|split; [cbn [length] in Hsz; lia|done]]]. intros E. unfold id in E. rewrite E in Eg. change (id_gen 0) with 0 in Eg. lia.
      * split; cbn.
        -- exists fl. split; [done|]. rewrite size_union, size_singleton by set_solver. cbn [length] in Hsz. lia.
        -- intros id'. rewrite elem_of_union, elem_of_singleton, Hlive, Es. split.
           ++ intros [->|(j & rj & Hj & Hst & E)]; [exists i, r; rewrite lookup_insert_eq; by rewrite Est|].
              exists j, rj. rewrite lookup_insert_ne; [done|]. intros ->. apply Hst, (ro_state _ _ _ Hok j rj Hj). left.
           ++ intros (j & rj & Hj & Hst & E). rewrite lookup_insert in Hj. case_decide as Eij; [left; injection Hj as <-; rewrite <- E; exact Eid|].
              right. by exists j, rj.
        -- intros id' [->%elem_of_singleton|H]%elem_of_union; [exists (n + 1), i; split; [lia|done]|].
           destruct (Hused id' H) as (g & j & ? & ? & ?). exists g, j. split; [lia|done].
  - destruct (lookup_abs s a n id Habs Hop) as (o & -> & Ho). cbn [mbind outcome_bind].
    exists (if decide (id ∈ sp_live a) then Some id else None), s, a, n. split; [|split; [done|split; [done|lia]]].
    destruct o as [i|]; cbn.
    + destruct Ho as [Hin (r & Hr & _ & Eid)]. unfold slot. rewrite Hr. cbn. by rewrite decide_True, Eid by done.
    + by rewrite decide_False.
  - destruct (lookup_abs s a n id Habs Hop) as (o & -> & Ho). cbn [mbind outcome_bind].
    exists (if decide (id ∈ sp_live a) then Some id else None). destruct o as [i|].
    + destruct Ho as [Hin (r & Hr & Hst & Eid)]. rewrite decide_True by done.
      destruct (fasync_req_release_ok s fl n Hok i r Hr Hst) as (s' & r' & -> & Hok' & Es & Est). cbn [mbind outcome_bind].
      exists s', (mk_rt_spec (sp_live a ∖ {[id]}) (sp_used a)), n. split; [done|]. split; [|split; [|lia]].
      * split; [by rewrite decide_True|done].
      * split; cbn.
        -- exists (i :: fl). split; [done|]. rewrite size_difference, size_singleton by set_solver. cbn [length].
           assert (size (sp_live a) <> 0%nat) by (apply size_non_empty_iff; set_solver). lia.
        -- intros id'. rewrite elem_of_difference, elem_of_singleton, Hlive, Es. split.
           ++ intros [(j & rj & Hj & Hstj & E) Hne]. exists j, rj. rewrite lookup_insert_ne; [done|]. intros ->. congruence.
           ++ intros (j & rj & Hj & Hstj & E). rewrite lookup_insert in Hj. case_decide as Eij; [injection Hj as <-; done|].
              split; [by exists j, rj|]. intros ->. destruct (ro_live _ _ _ Hok j rj Hj) as [Hgj Hlj], (ro_live _ _ _ Hok i r Hr) as [Hgi Hli].
              destruct (Hlj Hstj) as [_ E1], (Hli Hst) as [_ E2].
              assert (Htj : in_table j) by (apply (ro_slot _ _ _ Hok); by eexists). assert (Hti : in_table i) by (apply (ro_slot _ _ _ Hok); by eexists).
              unfold in_table, FASYNC_MAX_INFLIGHT in Htj, Hti.
              destruct (id_pack (q_gen rj) j) as [Ej _]; [lia..|]. destruct (id_pack (q_gen r) i) as [Ei _]; [lia..|].
              rewrite <- E1, E in Ej. rewrite <- E2, Eid in Ei. congruence.
        -- exact Hused.
    + rewrite decide_False by done. exists s, (mk_rt_spec (sp_live a ∖ {[id]}) (sp_used a)), n. split; [done|]. split; [|split; [|lia]].
      * split; [by rewrite decide_False|done].
      * replace (sp_live a ∖ {[id]}) with (sp_live a) by set_solver. destruct a; done.
  - destruct (lookup_abs s a n id Habs Hop) as (o & -> & Ho). cbn [mbind outcome_bind].
    exists (if decide (id ∈ sp_live a) then Some id else None). destruct o as [i|].
    + destruct Ho as [Hin (r & Hr & Hst & Eid)]. rewrite decide_True by done. eexists _, a, n. split; [done|].
      split; [split; [by rewrite decide_True|done]|]. split; [|lia].
      set (st := if ok then FASYNC_REQ_DONE else FASYNC_REQ_FAILED). assert (Hst' : st <> FASYNC_REQ_FREE) by (by destruct ok).
      assert (Hal : forall j rj, alter (set_state st) i (req_slots s) !! j = Some rj ->
        exists rj0, req_slots s !! j = Some rj0 /\ q_id rj = q_id rj0 /\ q_gen rj = q_gen rj0 /\
          (q_state rj = FASYNC_REQ_FREE <-> q_state rj0 = FASYNC_REQ_FREE)).
      { intros j rj Hj. destruct (decide (i = j)) as [->|Hne].
        - rewrite lookup_alter_eq, Hr in Hj. injection Hj as <-. exists r. cbn. naive_solver.
        - rewrite lookup_alter_ne in Hj by done. by exists rj. }
      split; cbn.
      * exists fl. split; [|done]. split; cbn; try apply Hok.
        -- intros j. rewrite (ro_slot _ _ _ Hok), lookup_alter. case_decide; [subst; by rewrite fmap_is_Some|done].
        -- intros j rj (rj0 & Hj0 & _ & _ & Hs)%Hal. rewrite Hs. by apply (ro_state _ _ _ Hok).
        -- intros j rj (rj0 & Hj0 & -> & -> & Hs)%Hal. rewrite Hs. by apply (ro_live _ _ _ Hok).
      * intros id'. rewrite Hlive. split.
        -- intros (j & rj & Hj & Hstj & E). destruct (decide (i = j)) as [->|Hne].
           ++ rewrite Hr in Hj. injection Hj as <-. exists j, (set_state st r). by rewrite lookup_alter_eq, Hr.
           ++ exists j, rj. by rewrite lookup_alter_ne.
        -- intros (j & rj & (rj0 & Hj0 & E1 & _ & Hs)%Hal & Hstj & E). exists j, rj0. split; [done|]. split; [by rewrite <- Hs|congruence].
      * exact Hused.
    + rewrite decide_False by done. exists s, a, n. split; [done|]. split; [split; [by rewrite decide_False|done]|]. split; [done|lia].
Qed.

Lemma rt_run_refines ops : forall s a n,
  rt_abs s a n -> n + Z.of_nat (length ops) < 2 ^ 32 -> Forall op_handle_ok ops ->
  exists outs s' a' n', rt_run ops s = Ret (outs, s') /\ spec_run ops outs a a' /\ rt_abs s' a' n'.
Proof.
  induction ops as [|op ops IH]; intros s a n Habs Hn Hops.
  - exists [], s, a, n. split; [done|]. split; [constructor|done].
  - apply Forall_cons in Hops as [Hop Hops]. cbn [length] in Hn.
    destruct (rt_exec_refines op s a n Habs ltac:(lia) Hop) as (out & s1 & a1 & n1 & E1 & Hst & Habs1 & Hn1).
    destruct (IH s1 a1 n1 Habs1 ltac:(lia) Hops) as (outs & s2 & a2 & n2 & E2 & Hrun & Habs2).
    exists (out :: outs), s2, a2, n2. cbn [rt_run]. rewrite E1. cbn [mbind outcome_bind]. rewrite E2.
    split; [done|]. split; [by econstructor|done].
Qed.

Definition reqs_init : reqs := fasync_req_table_init reqs_static.
#[local] Opaque reqs_init.

Lemma in_table_seqZ i : in_table i -> In i (seqZ 0 FASYNC_MAX_INFLIGHT).
Proof. intros Hi. apply list_elem_of_In, elem_of_seqZ. unfold in_table in Hi. lia. Qed.

Definition free_listb (next : Z -> Z) (head : Z) (fl : list Z) : bool :=
  (fix go head fl := match fl with [] => head =? 0 | i :: fl => (head =? i + 1) && go (next i) fl end) head fl.

Lemma free_listb_ok next head fl : free_listb next head fl = true -> free_rep next head fl.
Proof.
  revert head. induction fl as [|i fl IH]; intros head; cbn; [by intros ->%Z.eqb_eq|].
  intros [?%Z.eqb_eq H]%andb_prop. split; [done|]. by apply IH.
Qed.

(** A table with every slot free, in index order. *)
Definition fresh_slot (s : reqs) (i : Z) : bool :=
  match req_slots s !! i with Some r => (q_state r =? FASYNC_REQ_FREE) && (q_gen r =? 0) | None => false end.

Lemma reqs_fresh_ok s :
  forallb (fresh_slot s) (seqZ 0 FASYNC_MAX_INFLIGHT) = true ->
  forallb (fun p => (0 <=? fst p) && (fst p <? FASYNC_MAX_INFLIGHT)) (map_to_list (req_slots s)) = true ->
  free_rep (free_next s) (g_req_free_head s) (seqZ 0 FASYNC_MAX_INFLIGHT) ->
  alloc_bits s = ∅ -> req_next_gen s = 0 ->
  reqs_ok s (seqZ 0 FASYNC_MAX_INFLIGHT) 0.
Proof.
  intros Hin Hout Hfree Hbits Hgen. rewrite forallb_forall in Hin, Hout.
  assert (Hin' : forall i, in_table i -> exists r, req_slots s !! i = Some r /\ q_state r = FASYNC_REQ_FREE /\ q_gen r = 0).
  { intros i Hi. specialize (Hin i (in_table_seqZ i Hi)). unfold fresh_slot in Hin. destruct (req_slots s !! i) as [r|]; [|done].
    destruct (andb_prop _ _ Hin) as [?%Z.eqb_eq ?%Z.eqb_eq]. by exists r. }
  assert (Hout' : forall i r, req_slots s !! i = Some r -> in_table i).
  { intros i r Hr%elem_of_map_to_list%list_elem_of_In. apply Hout, andb_prop in Hr as [?%Z.leb_le ?%Z.ltb_lt]. by split. }
  split.
  - split; [apply NoDup_seqZ|done].
  - intros i ?%elem_of_seqZ. unfold in_table. lia.
  - intros i. split; [intros (r & -> & _)%Hin'; by eexists|intros [r Hr]; by eapply Hout'].
  - intros i r Hr. pose proof (Hout' i r Hr) as Hi. destruct (Hin' i Hi) as (r' & Hr' & Hs & _).
    assert (r = r') as -> by congruence. unfold in_table in Hi. rewrite elem_of_seqZ. split; [intros _; lia|by intros _].
  - intros i Hi. unfold bit_set. rewrite Hbits, lookup_empty. cbn [default].
    rewrite Z.bits_0, bool_decide_true; [done|]. apply elem_of_seqZ. unfold in_table in Hi. lia.
  - split; [lia|done].
  - intros i r Hr. destruct (Hin' i (Hout' i r Hr)) as (r' & Hr' & Hs & Hg).
    assert (r = r') as -> by congruence. rewrite Hg. split; [lia|by intros ?].
Qed.

Lemma reqs_init_ok : reqs_ok reqs_init (seqZ 0 FASYNC_MAX_INFLIGHT) 0.
Proof.
  apply reqs_fresh_ok; [| |apply free_listb_ok|..]; vm_compute; reflexivity.
Qed.

Lemma rt_abs_init : rt_abs reqs_init (mk_rt_spec ∅ ∅) 0.
Proof.
  split; cbn.
  - exists (seqZ 0 FASYNC_MAX_INFLIGHT). split; [apply reqs_init_ok|]. rewrite size_empty, length_seqZ. done.
  - intros id. split; [set_solver|]. intros (i & r & Hr & Hst & _). exfalso. apply Hst, (ro_state _ _ _ reqs_init_ok i r Hr).
    apply elem_of_seqZ. assert (in_table i) as [? ?] by (apply (ro_slot _ _ _ reqs_init_ok); by eexists). lia.
  - set_solver.
Qed.

(** ** Property *)

(** C8: the request table is a set of unforgeable handles.  From the initialised
    table, any sequence of fewer than [2^32] calls that allocate, look up,
    finish and release requests returns on every call, and answers as the
    specification does: an allocation gives a non-zero handle that no earlier
    allocation gave, and fails only when all 1024 requests are live; a lookup
    finds a handle exactly while it is live, so the handle of a released
    request never names the request that took its slot. *)
Theorem request_handles_refine ops :
  Forall op_handle_ok ops -> Z.of_nat (length ops) < 2 ^ 32 ->
  exists outs s' a', rt_run ops reqs_init = Ret (outs, s') /\ spec_run ops outs (mk_rt_spec ∅ ∅) a'.
Proof.
  intros Hops Hlen. destruct (rt_run_refines ops reqs_init _ 0 rt_abs_init Hlen Hops) as (outs & s' & a' & n' & E & Hrun & _).
  by exists outs, s', a'.
Qed.

Definition rt_sample : list rt_op :=
  [RAlloc; RAlloc; RFinish (pack_id 1 0) true; RRelease (pack_id 1 0); RAlloc; RLookup (pack_id 1 0); RLookup (pack_id 3 0); RRelease 5].

Lemma request_handles_refine_witness :
  (exists outs s' a', rt_run rt_sample reqs_init = Ret (outs, s') /\ spec_run rt_sample outs (mk_rt_spec ∅ ∅) a') /\
  (fst <$> match rt_run rt_sample reqs_init with Ret x => Some x | _ => None end) =
    Some [Some (pack_id 1 0); Some (pack_id 2 1); Some (pack_id 1 0); Some (pack_id 1 0); Some (pack_id 3 0); None; Some (pack_id 3 0); None].
Proof.
  split; [|vm_compute; reflexivity].
  apply (request_handles_refine rt_sample); [|vm_compute; reflexivity].
  repeat (apply Forall_cons_2; [vm_compute; first [exact I|discriminate]|]). apply Forall_nil_2.
Defined.
