(* ===== verification/Ring.v ===== *)
(** * Ring: the io_uring ring and its requests

    [io_uring/fasync.c] (the ring, [fasync_push_sqe], [fasync_submit]) and the
    completion half of [io_uring/fasync_native.c] ([fasync_native_drain]), on
    top of the request table of the file Requests.  All of it runs with
    [fasync_lock] held.

    The ring's memory is shared with the kernel.  [rg_sqes], [rg_sq_array] and
    [rg_sq_tail] are what the kernel reads when it is entered; [rg_cqes] and
    [rg_cq_tail] are what it writes, which the environment step [Post] does.
    The answers of [zsys_io_uring_setup] and [zsys_io_uring_enter] are arguments,
    and each call of the latter is recorded with the entries the ring showed at
    that moment ([u_enters]).  Ring positions are 32-bit counters that wrap. *)

From S2P Require Import Prelude Requests.
Open Scope Z_scope.

Definition FASYNC_RING_ENTRIES : Z := 1024.
Definition FASYNC_MAX_LEN : Z := 0xFFFFFFFF.
Definition FASYNC_OP_FSYNC : Z := 3.
Definition FASYNC_OP_OPENAT : Z := 18.
Definition FASYNC_OP_CLOSE : Z := 19.
Definition FASYNC_OP_READ : Z := 22.
Definition FASYNC_OP_WRITE : Z := 23.
Definition FASYNC_SQE_IO_LINK : Z := 4.

Definition ENOMEM : Z := 12.
Definition EBADF : Z := 9.
Definition EAGAIN : Z := 11.
Definition EINVAL : Z := 22.

(** The fields of [struct fasync_sqe] that the code sets; the rest is 0. *)
Record sqe := mk_sqe {
  se_opcode : Z; se_flags : Z; se_fd : Z; se_addr : Z; se_len : Z; se_off : Z; se_open_flags : Z; se_user_data : Z;
}.

Record cqe := mk_cqe { ce_user_data : Z; ce_res : Z }.
Definition sqe_zero : sqe := mk_sqe 0 0 0 0 0 0 0 0.
Definition cqe_zero : cqe := mk_cqe 0 0.

Record ring := mk_ring {
  rg_fd : Z;
  rg_ready : bool;
  rg_sqes : gmap Z sqe;
  rg_sq_tail : Z;
  rg_sq_mask : Z;
  rg_sq_array : gmap Z Z;
  rg_cqes : gmap Z cqe;
  rg_cq_head : Z;
  rg_cq_tail : Z;
  rg_cq_mask : Z;
  rg_sqe_tail : Z;
  rg_sqe_head : Z;
  rg_queued : Z;
  rg_local_cq_head : Z;
}.

Definition ring_static : ring := mk_ring 0 false ∅ 0 0 ∅ ∅ 0 0 0 0 0 0 0.

(** [struct fasync_stats] *)
Record rstats := mk_rstats {
  st_sqes_queued : Z; st_kernel_submit_entries : Z; st_kernel_wait_entries : Z;
  st_userspace_cq_polls : Z; st_parks : Z; st_completions_reaped : Z;
}.
Definition rstats_zero : rstats := mk_rstats 0 0 0 0 0 0.

(** One call of [zsys_io_uring_enter] to submit: its count, and the entries
    from the kernel's old tail to the new one. *)
Record enter_call := mk_enter { ec_to_submit : Z; ec_visible : list sqe }.

Record uring := mk_uring {
  u_reqs : reqs;
  u_ring : ring;
  u_inflight : Z;
  u_stats : rstats;
  u_errno : Z;
  u_last_error : string;
  u_enters : list enter_call;
}.

Definition uring_init : uring := mk_uring reqs_static ring_static 0 rstats_zero 0 "" [].

Definition set_reqs (s : reqs) (u : uring) : uring :=
  mk_uring s (u_ring u) (u_inflight u) (u_stats u) (u_errno u) (u_last_error u) (u_enters u).
Definition set_ring (r : ring) (u : uring) : uring :=
  mk_uring (u_reqs u) r (u_inflight u) (u_stats u) (u_errno u) (u_last_error u) (u_enters u).
Definition set_inflight (n : Z) (u : uring) : uring :=
  mk_uring (u_reqs u) (u_ring u) n (u_stats u) (u_errno u) (u_last_error u) (u_enters u).
Definition set_stats (st : rstats) (u : uring) : uring :=
  mk_uring (u_reqs u) (u_ring u) (u_inflight u) st (u_errno u) (u_last_error u) (u_enters u).
Definition set_error (errno : Z) (msg : string) (u : uring) : uring :=
  mk_uring (u_reqs u) (u_ring u) (u_inflight u) (u_stats u) errno msg (u_enters u).

(** What [zsys_io_uring_setup] and the two allocations before it answer. *)
Record setup := mk_setup {
  su_rings : ptr; su_sqes : ptr; su_fd : Z; su_errno : Z; su_sq_mask : Z; su_cq_mask : Z;
}.

Definition fasync_ring_init (k : setup) (u : uring) : Z * uring :=
  if (su_rings k =? NULL) || (su_sqes k =? NULL)
  then (-1, set_error ENOMEM "out of memory allocating ring memory" u)
  else if su_fd k <? 0 then (-1, set_error (su_errno k) "io_uring_setup failed" u)
  else
    let r := mk_ring (i32 (su_fd k)) true ∅ 0 (su_sq_mask k) ∅ ∅ 0 0 (su_cq_mask k) 0 0 0 0 in
    (0, set_reqs (fasync_req_table_init (u_reqs u)) (set_ring r u)).

Definition fasync_ensure_ring (k : setup) (u : uring) : Z * uring :=
  if rg_ready (u_ring u) then (0, u) else fasync_ring_init k u.

(** ** Submission *)

(** [g_ring.sq_array[i & mask] = i & mask] from [sqe_head] to [sqe_tail]. *)
Fixpoint publish_loop (fuel : nat) (i tail mask : Z) (arr : gmap Z Z) : outcome (gmap Z Z) :=
  if i =? tail then mret arr
  else match fuel with
       | O => NoFuel
       | S fuel => publish_loop fuel (u32 (i + 1)) tail mask (<[Z.land i mask := Z.land i mask]> arr)
       end.

(** The entries the kernel finds from position [i] on. *)
Fixpoint visible_from (n : nat) (i : Z) (r : ring) : list sqe :=
  match n with
  | O => []
  | S n => default sqe_zero (rg_sqes r !! default 0 (rg_sq_array r !! Z.land i (rg_sq_mask r))) ::
           visible_from n (u32 (i + 1)) r
  end.

(** [ret]: the answer of the kernel, when it is entered. *)
Definition fasync_submit_locked (ret : Z) (u : uring) : outcome (Z * uring) :=
  let r := u_ring u in
  if negb (rg_ready r) || (rg_queued r =? 0) then mret (0, u)
  else
    let fuel := Z.to_nat (u32 (rg_sqe_tail r - rg_sqe_head r)) in
    arr ← publish_loop fuel (rg_sqe_head r) (rg_sqe_tail r) (rg_sq_mask r) (rg_sq_array r);
    let n := rg_queued r in
    let old_tail := rg_sq_tail r in
    let r := mk_ring (rg_fd r) (rg_ready r) (rg_sqes r) (rg_sqe_tail r) (rg_sq_mask r) arr (rg_cqes r)
               (rg_cq_head r) (rg_cq_tail r) (rg_cq_mask r) (rg_sqe_tail r) (rg_sqe_tail r) 0 (rg_local_cq_head r) in
    let st := u_stats u in
    let st := mk_rstats (st_sqes_queued st) (u64 (st_kernel_submit_entries st + 1)) (st_kernel_wait_entries st)
                (st_userspace_cq_polls st) (st_parks st) (st_completions_reaped st) in
    let seen := visible_from (Z.to_nat (u32 (rg_sq_tail r - old_tail))) old_tail r in
    let u := mk_uring (u_reqs u) r (u_inflight u) st (u_errno u) (u_last_error u) (u_enters u ++ [mk_enter n seen]) in
    if ret <? 0 then mret (-1, set_error (u_errno u) "io_uring_enter(submit) failed" u) else mret (i32 n, u).

Definition fasync_submit : Z -> uring -> outcome (Z * uring) := fasync_submit_locked.

(** The position of a free entry, or none. *)
Definition fasync_get_sqe (ret : Z) (u : uring) : outcome (option Z * uring) :=
  '(rc, u) ← (if FASYNC_RING_ENTRIES <=? rg_queued (u_ring u) then fasync_submit ret u else mret (0, u));
  if rc <? 0 then mret (None, u)
  else mret (Some (Z.land (rg_sqe_tail (u_ring u)) (rg_sq_mask (u_ring u))), u).

Record push_args := mk_push {
  p_op : Z; p_fd : Z; p_addr : Z; p_len : Z; p_offset : Z; p_buf : ptr; p_buf_len : Z; p_flags : Z;
}.

Definition sqe_of (a : push_args) (id : Z) : sqe :=
  let open := p_op a =? FASYNC_OP_OPENAT in
  mk_sqe (p_op a) (p_flags a) (p_fd a) (p_addr a) (u32 (p_len a))
    (if open then 0 else p_offset a) (if open then u32 (p_offset a) else 0) id.

(** The entry written, and the request filled in. *)
Definition push_fill (a : push_args) (i pos : Z) (u : uring) : outcome (Z * uring) :=
  q ← slot (u_reqs u) i;
  let r := u_ring u in
  let r := mk_ring (rg_fd r) (rg_ready r) (<[pos := sqe_of a (q_id q)]> (rg_sqes r)) (rg_sq_tail r) (rg_sq_mask r)
             (rg_sq_array r) (rg_cqes r) (rg_cq_head r) (rg_cq_tail r) (rg_cq_mask r) (u32 (rg_sqe_tail r + 1))
             (rg_sqe_head r) (u32 (rg_queued r + 1)) (rg_local_cq_head r) in
  let q' := mk_req (q_id q) (q_gen q) (p_buf a) (p_buf_len a) (p_offset a) (p_fd a) (p_op a) (q_state q)
              (if Z.land (p_flags a) FASYNC_SQE_IO_LINK =? 0 then 0 else 1) (q_result q) (q_task q) in
  let st := u_stats u in
  let st := mk_rstats (u64 (st_sqes_queued st + 1)) (st_kernel_submit_entries st) (st_kernel_wait_entries st)
              (st_userspace_cq_polls st) (st_parks st) (st_completions_reaped st) in
  mret (q_id q, set_inflight (u64 (u_inflight u + 1)) (set_stats st (set_reqs (reqs_set i q' (u_reqs u)) (set_ring r u)))).

(** [k] and [ret]: the kernel's answers, should it be asked. *)
Definition fasync_push_sqe (k : setup) (ret : Z) (a : push_args) (u : uring) : outcome (Z * uring) :=
  if FASYNC_MAX_LEN <? p_len a then mret (0, set_error (u_errno u) "sqe length does not fit in 32 bits" u)
  else
    let '(rc, u) := fasync_ensure_ring k u in
    if rc <? 0 then mret (0, u)
    else if p_fd a =? rg_fd (u_ring u) then mret (0, set_error EBADF "fd is the io_uring ring's own descriptor" u)
    else
      '(o, s) ← fasync_req_alloc (u_reqs u);
      match o with
      | None => mret (0, set_error EAGAIN "request table full" u)
      | Some i =>
          '(pos, u) ← fasync_get_sqe ret (set_reqs s u);
          match pos with
          | None => s ← fasync_req_release i (u_reqs u); mret (0, set_reqs s u)
          | Some pos => push_fill a i pos u
          end
      end.

Definition fasync_push_buf (k : setup) (ret : Z) (op fd : Z) (buf : ptr) (len offset flags : Z) : uring -> outcome (Z * uring) :=
  fasync_push_sqe k ret (mk_push op fd buf len offset buf len flags).

(** ** Completion *)

Definition set_result (res : Z) (q : req) : req :=
  mk_req (q_id q) (q_gen q) (q_buf q) (q_len q) (q_offset q) (q_fd q) (q_op q)
    (if res <? 0 then FASYNC_REQ_FAILED else FASYNC_REQ_DONE) (q_linked q) res (q_task q).

(** The body of the loop of [fasync_native_drain]. *)
Definition drain_cqe (c : cqe) (u : uring) : outcome uring :=
  let index := id_index (ce_user_data c) in
  if index <? FASYNC_MAX_INFLIGHT then
    q ← slot (u_reqs u) index;
    if (q_state q =? FASYNC_REQ_PENDING) && (q_id q =? ce_user_data c)
    then mret (set_inflight (u64 (u_inflight u - 1)) (set_reqs (reqs_set index (set_result (ce_res c) q) (u_reqs u)) u))
    else mret u
  else mret u.

Fixpoint drain_loop (fuel : nat) (head tail : Z) (count : Z) (u : uring) : outcome (Z * Z * uring) :=
  if head =? tail then mret (head, count, u)
  else match fuel with
       | O => NoFuel
       | S fuel =>
           let c := default cqe_zero (rg_cqes (u_ring u) !! Z.land head (rg_cq_mask (u_ring u))) in
           u ← drain_cqe c u;
           drain_loop fuel (u32 (head + 1)) tail (u32 (count + 1)) u
       end.

(** Nothing is published before the ring is ready. *)
Definition fasync_native_drain (u : uring) : outcome uring :=
  if negb (rg_ready (u_ring u)) then mret u
  else
    let st := u_stats u in
    let u := set_stats (mk_rstats (st_sqes_queued st) (st_kernel_submit_entries st) (st_kernel_wait_entries st)
                          (u64 (st_userspace_cq_polls st + 1)) (st_parks st) (st_completions_reaped st)) u in
    let head := rg_local_cq_head (u_ring u) in
    let tail := rg_cq_tail (u_ring u) in
    '(head, count, u) ← drain_loop (Z.to_nat (u32 (tail - head))) head tail 0 u;
    let r := u_ring u in
    let st := u_stats u in
    mret (set_stats (mk_rstats (st_sqes_queued st) (st_kernel_submit_entries st) (st_kernel_wait_entries st)
                       (st_userspace_cq_polls st) (st_parks st) (u64 (st_completions_reaped st + count)))
           (set_ring (mk_ring (rg_fd r) (rg_ready r) (rg_sqes r) (rg_sq_tail r) (rg_sq_mask r) (rg_sq_array r) (rg_cqes r)
                        head (rg_cq_tail r) (rg_cq_mask r) (rg_sqe_tail r) (rg_sqe_head r) (rg_queued r) head) u)).

Definition fasync_poll : uring -> outcome uring := fasync_native_drain.

(** The environment: the kernel posts a completion. *)
Definition post (c : cqe) (u : uring) : uring :=
  let r := u_ring u in
  set_ring (mk_ring (rg_fd r) (rg_ready r) (rg_sqes r) (rg_sq_tail r) (rg_sq_mask r) (rg_sq_array r)
              (<[Z.land (rg_cq_tail r) (rg_cq_mask r) := c]> (rg_cqes r)) (rg_cq_head r) (u32 (rg_cq_tail r + 1)) (rg_cq_mask r)
              (rg_sqe_tail r) (rg_sqe_head r) (rg_queued r) (rg_local_cq_head r)) u.

(** [arrived]: what the kernel posts while the thread is blocked in it. *)
Definition fasync_block (arrived : list cqe) (u : uring) : outcome uring :=
  if negb (rg_ready (u_ring u)) then mret u
  else
    let st := u_stats u in
    let u := set_stats (mk_rstats (st_sqes_queued st) (st_kernel_submit_entries st) (u64 (st_kernel_wait_entries st + 1))
                          (st_userspace_cq_polls st) (u64 (st_parks st + 1)) (st_completions_reaped st)) u in
    fasync_native_drain (fold_left (fun u c => post c u) arrived u).

(** [r->task = task] of [fasync_track_read], for a live handle. *)
Definition track_task (id : Z) (task : ptr) (u : uring) : outcome uring :=
  o ← fasync_req_lookup id (u_reqs u);
  match o with
  | None => mret u
  | Some i =>
      q ← slot (u_reqs u) i;
      mret (set_reqs (reqs_set i (mk_req (q_id q) (q_gen q) (q_buf q) (q_len q) (q_offset q) (q_fd q) (q_op q) (q_state q)
                                    (q_linked q) (q_result q) task) (u_reqs u)) u)
  end.

(** ** Ring positions *)

Lemma land_1023 x : Z.land (u32 x) 1023 = x mod 1024.
Proof.
  change 1023 with (Z.ones 10). rewrite Z.land_ones by lia. unfold u32. apply Z.mod_mod_divide.
  by exists (2 ^ 22).
Qed.

Lemma mod_window_inj b h j k : 0 <= j < b -> 0 <= k < b -> (h + j) mod b = (h + k) mod b -> j = k.
Proof.
  intros Hj Hk E. pose proof (Z.div_mod (h + j) b ltac:(lia)). pose proof (Z.div_mod (h + k) b ltac:(lia)).
  rewrite <- E in *. set (x := (h + j) / b) in *. set (y := (h + k) / b) in *. set (z := (h + j) mod b) in *. clearbody x y z.
  destruct (Z.lt_trichotomy x y) as [|[->|]]; nia.
Qed.

Lemma u32_next h k : u32 (u32 (h + Z.of_nat k) + 1) = u32 (h + Z.of_nat (S k)).
Proof. rewrite u32_add_idemp_l. f_equal. lia. Qed.

Lemma u32_dist h q : 0 <= h < 2 ^ 32 -> 0 <= q < 2 ^ 32 -> u32 (u32 (h + q) - h) = q.
Proof.
  intros Hh Hq. unfold u32. rewrite Zminus_mod_idemp_l. replace (h + q - h) with q by lia. by apply Z.mod_small.
Qed.

Lemma u32_at h k q : 0 <= h -> (k <= q)%nat -> Z.of_nat q < 2 ^ 32 -> u32 (h + Z.of_nat k) = u32 (h + Z.of_nat q) -> k = q.
Proof.
  intros Hh Hk Hq E. unfold u32 in E. pose proof (Z.div_mod (h + Z.of_nat k) (2 ^ 32)). pose proof (Z.div_mod (h + Z.of_nat q) (2 ^ 32)).
  assert (Z.of_nat q - Z.of_nat k = 2 ^ 32 * ((h + Z.of_nat q) / 2 ^ 32 - (h + Z.of_nat k) / 2 ^ 32)) by lia. nia.
Qed.

(** ** Invariant *)

(** [pend]: the entries written and not yet published, oldest first. *)
Record ring_ok (r : ring) (pend : list sqe) : Prop := {
  rk_ready : rg_ready r = true;
  rk_sq_mask : rg_sq_mask r = 1023;
  rk_head : 0 <= rg_sqe_head r < 2 ^ 32;
  rk_tail : rg_sqe_tail r = u32 (rg_sqe_head r + Z.of_nat (length pend));
  rk_sq_tail : rg_sq_tail r = rg_sqe_head r;
  rk_queued : rg_queued r = Z.of_nat (length pend) /\ (length pend <= 1024)%nat;
  rk_window : forall k e, pend !! k = Some e -> rg_sqes r !! ((rg_sqe_head r + Z.of_nat k) mod 1024) = Some e;
  rk_cq : rg_cq_head r = rg_local_cq_head r /\ 0 <= rg_local_cq_head r < 2 ^ 32 /\ 0 <= rg_cq_tail r < 2 ^ 32 /\
          exists m, 0 <= m <= 31 /\ rg_cq_mask r = 2 ^ m - 1 /\ u32 (rg_cq_tail r - rg_local_cq_head r) <= 2 ^ m;
}.

Definition is_pending (q : req) : Prop := q_state q = FASYNC_REQ_PENDING.
#[export] Instance is_pending_dec q : Decision (is_pending q).
Proof. unfold is_pending. apply _. Defined.

(** The requests the kernel still owes an answer. *)
Definition n_pending (s : reqs) : Z := Z.of_nat (size (filter (fun kv : Z * req => is_pending kv.2) (req_slots s))).

(** The entries of the live table are bounded by its size. *)
Lemma n_pending_bound s fl n : reqs_ok s fl n -> 0 <= n_pending s <= 1024.
Proof.
  intros Hok. split; [apply Zle_0_nat|]. unfold n_pending.
  etrans; [apply inj_le, (map_size_filter (M := gmap Z))|].
  rewrite <- size_dom. apply (gset_size_bound _ 0 1024); [lia|]. intros i [r Hr]%elem_of_dom.
  assert (in_table i) as [? ?] by (apply (ro_slot _ _ _ Hok); by eexists). unfold FASYNC_MAX_INFLIGHT in *. lia.
Qed.

Lemma n_pending_none s : (forall i q, req_slots s !! i = Some q -> ~ is_pending q) -> n_pending s = 0.
Proof.
  intros H. unfold n_pending. replace (filter _ (req_slots s)) with (∅ : gmap Z req); [by rewrite map_size_empty|].
  symmetry. apply map_eq. intros i. rewrite lookup_empty. apply map_lookup_filter_None_2. right. intros q Hq. by apply (H i).
Qed.

Lemma n_pending_set i q q' s :
  req_slots s !! i = Some q ->
  n_pending (reqs_set i q' s) = n_pending s + (if decide (is_pending q') then 1 else 0) - (if decide (is_pending q) then 1 else 0).
Proof. intros Hq. exact (map_count_insert is_pending (req_slots s) i q q' Hq). Qed.

(** A store that keeps a slot's identity and whether it is free. *)
Lemma reqs_ok_set s fl n i q q' :
  reqs_ok s fl n -> req_slots s !! i = Some q -> q_id q' = q_id q -> q_gen q' = q_gen q ->
  (q_state q' = FASYNC_REQ_FREE <-> q_state q = FASYNC_REQ_FREE) -> reqs_ok (reqs_set i q' s) fl n.
Proof.
  intros Hok Hq Eid Eg Hs. split; cbn; try apply Hok.
  - intros j. rewrite (ro_slot _ _ _ Hok), lookup_insert. case_decide as E; [subst j; rewrite Hq; split; by eexists|done].
  - intros j r Hr. rewrite lookup_insert in Hr. case_decide as E.
    + subst j. injection Hr as <-. rewrite Hs. by apply (ro_state _ _ _ Hok).
    + by apply (ro_state _ _ _ Hok).
  - intros j r Hr. rewrite lookup_insert in Hr. case_decide as E.
    + subst j. injection Hr as <-. rewrite Eid, Eg, Hs. by apply (ro_live _ _ _ Hok).
    + by apply (ro_live _ _ _ Hok).
Qed.

(** ** Publishing *)

Lemma publish_loop_ok q h fuel : forall k arr,
  0 <= h -> (k + fuel = q)%nat -> Z.of_nat q < 2 ^ 32 ->
  (forall j, (j < k)%nat -> arr !! ((h + Z.of_nat j) mod 1024) = Some ((h + Z.of_nat j) mod 1024)) ->
  exists arr', publish_loop fuel (u32 (h + Z.of_nat k)) (u32 (h + Z.of_nat q)) 1023 arr = Ret arr' /\
    forall j, (j < q)%nat -> arr' !! ((h + Z.of_nat j) mod 1024) = Some ((h + Z.of_nat j) mod 1024).
Proof.
  induction fuel as [|fuel IH]; intros k arr Hh Hk Hq Harr; cbn [publish_loop];
    destruct (Z.eqb_spec (u32 (h + Z.of_nat k)) (u32 (h + Z.of_nat q))) as [E|E].
  - exists arr. split; [done|]. assert (k = q) by (apply (u32_at h); [done|lia|done|done]). by subst k.
  - exfalso. apply E. repeat f_equal. lia.
  - apply (u32_at h) in E; [lia|done|lia|done].
  - rewrite u32_next, land_1023. apply IH; [done|lia|done|]. intros j Hj.
    destruct (decide ((h + Z.of_nat k) mod 1024 = (h + Z.of_nat j) mod 1024)) as [->|Hne]; [by rewrite lookup_insert_eq|].
    rewrite lookup_insert_ne by done. apply Harr. destruct (decide (j = k)) as [->|]; [done|lia].
Qed.

Lemma visible_from_ok r l : forall h,
  rg_sq_mask r = 1023 ->
  (forall k e, l !! k = Some e -> rg_sq_array r !! ((h + Z.of_nat k) mod 1024) = Some ((h + Z.of_nat k) mod 1024) /\
    rg_sqes r !! ((h + Z.of_nat k) mod 1024) = Some e) ->
  visible_from (length l) (u32 h) r = l.
Proof.
  induction l as [|e l IH]; intros h Hm H; [done|]. cbn [visible_from length]. rewrite Hm, land_1023.
  destruct (H 0%nat e eq_refl) as [H1 H2]. rewrite Z.add_0_r in H1, H2. rewrite H1. cbn [from_option id]. rewrite H2. cbn [from_option id]. f_equal.
  rewrite u32_add_idemp_l. apply IH; [done|]. intros k e' Hk. specialize (H (S k) e' Hk).
  replace (h + 1 + Z.of_nat k) with (h + Z.of_nat (S k)) by lia. done.
Qed.

(** What a submission does to a ring with [pend] waiting. *)
Record submitted (pend : list sqe) (u u' : uring) : Prop := {
  su_ring : ring_ok (u_ring u') [];
  su_same : u_reqs u' = u_reqs u /\ u_inflight u' = u_inflight u /\ u_errno u' = u_errno u;
  su_enters : u_enters u' = u_enters u ++ (if decide (pend = []) then [] else [mk_enter (Z.of_nat (length pend)) pend]);
  su_cqes : rg_fd (u_ring u') = rg_fd (u_ring u) /\ rg_cqes (u_ring u') = rg_cqes (u_ring u) /\ rg_cq_tail (u_ring u') = rg_cq_tail (u_ring u) /\
            rg_cq_mask (u_ring u') = rg_cq_mask (u_ring u) /\ rg_local_cq_head (u_ring u') = rg_local_cq_head (u_ring u);
}.

Lemma submit_ok ret u pend :
  ring_ok (u_ring u) pend ->
  exists u', fasync_submit_locked ret u = Ret (if decide (pend = []) then 0 else if ret <? 0 then -1 else Z.of_nat (length pend), u') /\
    submitted pend u u'.
Proof.
  intros Hr. destruct (rk_queued _ _ Hr) as [Hq Hq1024]. unfold fasync_submit_locked. rewrite (rk_ready _ _ Hr), Hq. cbn [negb orb].
  destruct (decide (pend = [])) as [->|Hne].
  { exists u. split; [done|]. split; [done|done|by rewrite decide_True, app_nil_r|done]. }
  destruct (Z.eqb_spec (Z.of_nat (length pend)) 0) as [E0|_]; [by destruct pend|].
  rewrite (rk_tail _ _ Hr), (rk_sq_tail _ _ Hr), (rk_sq_mask _ _ Hr). pose proof (rk_head _ _ Hr) as Hh.
  set (h := rg_sqe_head (u_ring u)) in *. rewrite u32_dist by lia. rewrite Nat2Z.id.
  destruct (publish_loop_ok (length pend) h (length pend) 0 (rg_sq_array (u_ring u))) as (arr & E & Harr); [lia|done|lia|lia|].
  rewrite Z.add_0_r, (u32_small h) in E by done. rewrite E. cbn [mbind outcome_bind].
  cbn [rg_sq_tail]. rewrite u32_dist, Nat2Z.id by lia. set (r' := mk_ring _ _ _ _ _ _ _ _ _ _ _ _ _ _).
  assert (Hvis : visible_from (length pend) h r' = pend).
  { rewrite <- (u32_small h) by done. apply visible_from_ok; [done|]. intros k e Hk. split; cbn.
    - apply Harr. by apply lookup_lt_Some in Hk.
    - by apply (rk_window _ _ Hr). }
  rewrite Hvis.
  assert (Hr' : ring_ok r' []).
  { split; cbn; [done|done|apply u32_range| | |split; [done|lia]| |apply Hr].
    - rewrite Z.add_0_r. unfold u32. by rewrite Zmod_mod.
    - done.
    - intros k e Hk. by rewrite lookup_nil in Hk. }
  destruct (ret <? 0); eexists; (split; [rewrite ?i32_small by lia; done|]); split; cbn; (done || by rewrite decide_False).
Qed.

(** ** Pushing *)

Record uring_ok (u : uring) (pend : list sqe) (n : Z) : Prop := {
  uk_ring : ring_ok (u_ring u) pend;
  uk_reqs : exists fl, reqs_ok (u_reqs u) fl n;
  uk_inflight : u_inflight u = n_pending (u_reqs u);
}.

(** [pend]: the entries waiting to be published, [n] the requests ever made.
    Before the first request there is no ring and no table. *)
Definition uring_inv (u : uring) (pend : list sqe) (n : Z) : Prop :=
  uring_ok u pend n \/
  u_reqs u = reqs_static /\ u_ring u = ring_static /\ u_inflight u = 0 /\ pend = [] /\ n = 0.

(** The entries shown to the kernel so far, in order. *)
Definition shown (u : uring) : list sqe := concat (map ec_visible (u_enters u)).
Definition calls_exact (u : uring) : Prop :=
  Forall (fun c => ec_to_submit c = Z.of_nat (length (ec_visible c))) (u_enters u).

(** [new] is what a call adds to the entries shown or waiting. *)
Record adds (u : uring) (pend : list sqe) (new : list sqe) (u' : uring) (pend' : list sqe) : Prop := {
  ad_order : shown u' ++ pend' = shown u ++ pend ++ new;
  ad_exact : calls_exact u -> calls_exact u';
}.

Lemma adds_same u pend u' : u_enters u' = u_enters u -> adds u pend [] u' pend.
Proof. intros E. split; unfold shown, calls_exact; rewrite E; [by rewrite app_nil_r|done]. Qed.

Lemma adds_trans u pend new1 u1 pend1 new2 u2 pend2 :
  adds u pend new1 u1 pend1 -> adds u1 pend1 new2 u2 pend2 -> adds u pend (new1 ++ new2) u2 pend2.
Proof. intros [O1 E1] [O2 E2]. split; [|auto]. rewrite O2, app_assoc, O1. by rewrite <- !app_assoc. Qed.

Lemma adds_submitted u pend u' : submitted pend u u' -> adds u pend [] u' [].
Proof.
  intros Hs. split; unfold shown, calls_exact; rewrite (su_enters _ _ _ Hs).
  - rewrite map_app, concat_app, !app_nil_r. f_equal. case_decide as E; [by rewrite E|]. cbn. by rewrite app_nil_r.
  - intros H. apply Forall_app. split; [done|]. case_decide; [constructor|]. repeat constructor.
Qed.

(** A live request of a slot. *)
Definition live (s : reqs) (i : Z) (q : req) : Prop := req_slots s !! i = Some q /\ q_state q <> FASYNC_REQ_FREE.

(** The documented answer of [io_uring_setup] for 1024 entries: the submission
    ring's mask is 1023, the completion ring has a power of two of entries. *)
Definition setup_ok (k : setup) : Prop :=
  su_sq_mask k = 1023 /\ exists m, 0 <= m <= 31 /\ su_cq_mask k = 2 ^ m - 1.

Lemma ring_push r pend e :
  ring_ok r pend -> (length pend < 1024)%nat ->
  ring_ok (mk_ring (rg_fd r) (rg_ready r) (<[Z.land (rg_sqe_tail r) (rg_sq_mask r) := e]> (rg_sqes r)) (rg_sq_tail r) (rg_sq_mask r)
             (rg_sq_array r) (rg_cqes r) (rg_cq_head r) (rg_cq_tail r) (rg_cq_mask r) (u32 (rg_sqe_tail r + 1))
             (rg_sqe_head r) (u32 (rg_queued r + 1)) (rg_local_cq_head r)) (pend ++ [e]).
Proof.
  intros Hr Hl. destruct (rk_queued _ _ Hr) as [Hq _]. split; cbn; try apply Hr.
  - rewrite (rk_tail _ _ Hr), u32_add_idemp_l, length_app. cbn [length]. f_equal. lia.
  - rewrite Hq, length_app, u32_small by lia. cbn [length]. lia.
  - intros k x Hk. rewrite (rk_tail _ _ Hr), (rk_sq_mask _ _ Hr), land_1023.
    apply lookup_app_Some in Hk as [Hk|[Hk1 Hk2]].
    + pose proof (lookup_lt_Some _ _ _ Hk). rewrite lookup_insert_ne; [by apply (rk_window _ _ Hr)|].
      intros E. apply mod_window_inj in E; lia.
    + apply list_lookup_singleton_Some in Hk2 as [Hk2 ->]. replace k with (length pend) by lia. by rewrite lookup_insert_eq.
Qed.

Lemma get_sqe_ok ret u pend :
  ring_ok (u_ring u) pend ->
  exists o u' pend', fasync_get_sqe ret u = Ret (o, u') /\ ring_ok (u_ring u') pend' /\ adds u pend [] u' pend' /\
    u_reqs u' = u_reqs u /\ u_inflight u' = u_inflight u /\
    (forall pos, o = Some pos -> pos = Z.land (rg_sqe_tail (u_ring u')) (rg_sq_mask (u_ring u')) /\ (length pend' < 1024)%nat).
Proof.
  intros Hr. destruct (rk_queued _ _ Hr) as [Hq Hq1024]. unfold fasync_get_sqe, FASYNC_RING_ENTRIES. rewrite Hq.
  destruct (Z.leb_spec 1024 (Z.of_nat (length pend))) as [Hfull|Hroom].
  - destruct (submit_ok ret u pend Hr) as (u' & E & Hs). unfold fasync_submit. rewrite E. cbn [mbind outcome_bind].
    rewrite decide_False by (by intros ->). destruct (su_same _ _ _ Hs) as (S1 & S2 & S3).
    destruct (Z.ltb_spec (if ret <? 0 then -1 else Z.of_nat (length pend)) 0) as [Hneg|Hpos];
      eexists _, u', []; (split; [done|]); (split; [apply Hs|]); (split; [by apply adds_submitted|]); (split; [done|]); (split; [done|]).
    + done.
    + intros pos [= <-]. split; [done|cbn; lia].
  - cbn. eexists _, u, pend. split; [done|]. split; [done|]. split; [by apply adds_same|]. split; [done|]. split; [done|].
    intros pos [= <-]. split; [done|lia].
Qed.

Lemma ensure_ring_ok k u pend n :
  uring_inv u pend n -> setup_ok k ->
  exists rc u', fasync_ensure_ring k u = (rc, u') /\ uring_inv u' pend n /\ u_enters u' = u_enters u /\
    (rc < 0 -> u_reqs u' = u_reqs u) /\ (0 <= rc -> uring_ok u' pend n) /\ (forall i q, live (u_reqs u') i q <-> live (u_reqs u) i q).
Proof.
  intros Hinv Hk. unfold fasync_ensure_ring. destruct Hinv as [Hok|(E1 & E2 & E3 & -> & ->)].
  - rewrite (rk_ready _ _ (uk_ring _ _ _ Hok)). exists 0, u. split_and!; try done. by left.
  - rewrite E2. cbn [rg_ready ring_static]. unfold fasync_ring_init.
    assert (Hno : uring_inv u [] 0) by (right; by split_and!).
    destruct (_ || _); [|destruct (su_fd k <? 0)].
    1,2: eexists (-1), _; split; [done|]; split; [by right|]; split_and!; try done; lia.
    eexists 0, _. split; [done|]. rewrite E1. change (fasync_req_table_init reqs_static) with reqs_init.
    pose proof reqs_init_ok as Hr0. set (s0 := reqs_init) in *. clearbody s0.
    assert (Hfree : forall i q, req_slots s0 !! i = Some q -> q_state q = FASYNC_REQ_FREE).
    { intros i q Hq. apply (ro_state _ _ _ Hr0 i q Hq), elem_of_seqZ.
      assert (in_table i) as [? ?] by (apply (ro_slot _ _ _ Hr0); by eexists). lia. }
    assert (Hnew : uring_ok (set_reqs s0 (set_ring (mk_ring (i32 (su_fd k)) true ∅ 0 (su_sq_mask k) ∅ ∅ 0 0 (su_cq_mask k) 0 0 0 0) u)) [] 0).
    { destruct Hk as (Hk1 & m & Hm & Hk2). split; cbn.
      - split; cbn; try done; [split; [done|lia]|]. split; [done|]. split; [done|]. split; [done|]. exists m. split; [done|]. split; [done|].
        rewrite u32_small by lia. pose proof (Z.pow_pos_nonneg 2 m). lia.
      - by eexists.
      - rewrite E3. by rewrite n_pending_none by (intros i q Hq; unfold is_pending; by rewrite (Hfree i q Hq)). }
    split; [by left|]. split; [done|]. split; [lia|]. split; [done|]. intros i q. unfold live. cbn. split.
    + intros [Hq Hs]. by rewrite (Hfree i q Hq) in Hs.
    + intros [Hq Hs]. exfalso. apply Hs. unfold reqs_static in Hq. cbn in Hq. apply elem_of_list_to_map_2, list_elem_of_fmap in Hq as (j & [= _ ->] & _). done.
Qed.

(** What a push that returns the handle [id] did to the requests: a refused one
    (0) changes no live request, another adds one. *)
Definition push_live (a : push_args) (id : Z) (s s' : reqs) : Prop :=
  if id =? 0 then forall j r, live s' j r <-> live s j r
  else exists i q, q_id q = id /\ is_pending q /\ q_buf q = p_buf a /\ q_len q = p_buf_len a /\ q_task q = NULL /\
    (forall r, ~ live s i r) /\ (forall j r, live s' j r <-> (j = i /\ r = q) \/ live s j r).

Lemma live_insert s s' i q :
  req_slots s' = <[i := q]> (req_slots s) -> q_state q <> FASYNC_REQ_FREE -> (forall r, ~ live s i r) ->
  forall j r, live s' j r <-> (j = i /\ r = q) \/ live s j r.
Proof.
  intros E Hq Hi j r. unfold live. rewrite E, lookup_insert. case_decide as Ej.
  - subst j. split; [intros [[= <-] _]; by left|]. intros [[_ ->]|Hl]; [by split|]. by destruct (Hi r).
  - split; [by right|]. intros [[-> _]|]; done.
Qed.

Lemma live_removed s s' i q :
  req_slots s' = <[i := q]> (req_slots s) -> q_state q = FASYNC_REQ_FREE ->
  forall j r, live s' j r <-> live s j r /\ j <> i.
Proof.
  intros E Hq j r. unfold live. rewrite E, lookup_insert. case_decide as Ej; [subst; naive_solver|naive_solver].
Qed.

(** The allocation of a request, seen from the live ones. *)
Lemma alloc_live s fl n i fl' :
  reqs_ok s fl n -> fl = i :: fl' -> n + 1 < 2 ^ 32 ->
  exists s' q, fasync_req_alloc s = Ret (Some i, s') /\ reqs_ok s' fl' (n + 1) /\ req_slots s' !! i = Some q /\
    id_gen (q_id q) = n + 1 /\ is_pending q /\ q_task q = NULL /\ n_pending s' = n_pending s + 1 /\
    (forall r, ~ live s i r) /\ (forall j r, live s' j r <-> (j = i /\ r = q) \/ live s j r).
Proof.
  intros Hok Efl Hn. destruct (fasync_req_alloc_some s fl n Hok i fl' Efl Hn) as (s' & q & E & Hok' & Es & Eid & Est & Et).
  exists s', q. split; [done|]. split; [done|]. split; [by rewrite Es, lookup_insert_eq|].
  assert (Hti : in_table i) by (apply (ro_range _ _ _ Hok); rewrite Efl; left).
  destruct (slot_ok s fl n Hok i Hti) as [q0 Hq0].
  assert (Hfree : q_state q0 = FASYNC_REQ_FREE) by (apply (ro_state _ _ _ Hok i q0 Hq0); rewrite Efl; left).
  pose proof (ro_gen _ _ _ Hok) as [Hn0 _]. unfold in_table, FASYNC_MAX_INFLIGHT in Hti.
  assert (Hno : forall r, ~ live s i r) by (intros r [Hr1 Hr2]; congruence).
  split; [|split; [done|split; [done|split; [|split; [done|]]]]].
  - rewrite Eid. by destruct (id_pack (n + 1) i) as [_ ->]; [lia..|].
  - unfold n_pending. rewrite Es, (map_count_insert is_pending _ i q0 q Hq0). rewrite decide_True by done.
    rewrite decide_False by (unfold is_pending; by rewrite Hfree). lia.
  - apply live_insert; [done|by rewrite Est|done].
Qed.

Lemma release_live s fl n i q :
  reqs_ok s fl n -> live s i q ->
  exists s', fasync_req_release i s = Ret s' /\ reqs_ok s' (i :: fl) n /\
    n_pending s' = n_pending s - (if decide (is_pending q) then 1 else 0) /\
    (forall j r, live s' j r <-> live s j r /\ j <> i).
Proof.
  intros Hok [Hq Hs]. destruct (fasync_req_release_ok s fl n Hok i q Hq Hs) as (s' & q' & E & Hok' & Es & Es').
  exists s'. split; [done|]. split; [done|]. split.
  - unfold n_pending. rewrite Es, (map_count_insert is_pending _ i q q' Hq).
    rewrite (decide_False (P := is_pending q')) by (unfold is_pending; by rewrite Es'). lia.
  - by eapply live_removed.
Qed.

(** Filling in the request and the entry. *)
Lemma push_fill_ok a i u pend fl n q :
  ring_ok (u_ring u) pend -> (length pend < 1024)%nat -> reqs_ok (u_reqs u) fl n -> u_inflight u = n_pending (u_reqs u) - 1 ->
  live (u_reqs u) i q -> is_pending q ->
  exists u' q', push_fill a i (Z.land (rg_sqe_tail (u_ring u)) (rg_sq_mask (u_ring u))) u = Ret (q_id q, u') /\
    uring_ok u' (pend ++ [sqe_of a (q_id q)]) n /\ u_enters u' = u_enters u /\
    q_id q' = q_id q /\ is_pending q' /\ q_buf q' = p_buf a /\ q_len q' = p_buf_len a /\ q_task q' = q_task q /\
    req_slots (u_reqs u') = <[i := q']> (req_slots (u_reqs u)).
Proof.
  intros Hr Hl Hok Hin [Hq Hs] Hp. unfold push_fill, slot. rewrite Hq. cbn [deref mbind outcome_bind].
  set (q' := mk_req _ _ _ _ _ _ _ _ _ _ _). eexists _, q'. split; [done|].
  assert (Hst : q_state q' = FASYNC_REQ_FREE <-> q_state q = FASYNC_REQ_FREE) by done.
  split; [|by split_and!]. split; cbn.
  - by apply ring_push.
  - exists fl. by eapply reqs_ok_set.
  - rewrite Hin, (n_pending_set i q q') by done. rewrite !decide_True by done. pose proof (n_pending_bound _ _ _ Hok).
    rewrite u64_small; lia.
Qed.

Lemma push_ok k ret a u pend n :
  uring_inv u pend n -> setup_ok k -> n + 1 < 2 ^ 32 ->
  exists id u' pend' n', fasync_push_sqe k ret a u = Ret (id, u') /\ uring_inv u' pend' n' /\ n <= n' <= n + 1 /\
    adds u pend (if id =? 0 then [] else [sqe_of a id]) u' pend' /\ push_live a id (u_reqs u) (u_reqs u') /\
    (id <> 0 -> id_gen id = n + 1).
Proof.
  intros Hinv Hk Hn. unfold fasync_push_sqe. destruct (_ <? p_len a).
  { eexists 0, _, pend, n. split; [done|]. split; [|split; [lia|split; [by apply adds_same|split; [done|lia]]]].
    destruct Hinv as [[? ? ?]|?]; [by left; split|by right]. }
  destruct (ensure_ring_ok k u pend n Hinv Hk) as (rc & u1 & -> & Hinv1 & Een1 & Hrc1 & Hrc2 & Hlive1).
  destruct (Z.ltb_spec rc 0) as [Hneg|Hpos].
  { exists 0, u1, pend, n. split; [done|]. split; [done|]. split; [lia|]. split; [by apply adds_same|split; [exact Hlive1|lia]]. }
  specialize (Hrc2 Hpos). destruct (_ =? rg_fd _).
  { eexists 0, _, pend, n. split; [done|]. split; [left; destruct Hrc2; by split|]. split; [lia|].
    split; [by apply adds_same|split; [exact Hlive1|lia]]. }
  destruct (uk_reqs _ _ _ Hrc2) as (fl & Hok). destruct fl as [|i fl].
  { rewrite (fasync_req_alloc_none _ _ _ Hok eq_refl). cbn [mbind outcome_bind].
    eexists 0, _, pend, n. split; [done|]. split; [left; destruct Hrc2; by split|]. split; [lia|].
    split; [by apply adds_same|split; [exact Hlive1|lia]]. }
  destruct (alloc_live _ _ _ i fl Hok eq_refl Hn) as (s & q & -> & Hok' & Hqi & Hgen & Hp & Ht & Hc & Hno & Hlive).
  assert (Hid : q_id q <> 0) by (intros E0; rewrite E0 in Hgen; change (0 = n + 1) in Hgen; pose proof (ro_gen _ _ _ Hok); lia).
  cbn [mbind outcome_bind]. destruct (get_sqe_ok ret (set_reqs s u1) pend) as (o & u2 & pend2 & -> & Hr2 & Ha & Es2 & Ei2 & Ho);
    [apply Hrc2|]. cbn [mbind outcome_bind]. cbn in Es2, Ei2.
  assert (Ha' : adds u pend [] u2 pend2) by (eapply (adds_trans _ _ [] u1 pend []); [by apply adds_same|]; destruct Ha; by split).
  assert (Hlq : live (u_reqs u2) i q) by (rewrite Es2; apply Hlive; by left).
  destruct o as [pos|].
  - destruct (Ho pos eq_refl) as [-> Hl2].
    destruct (push_fill_ok a i u2 pend2 fl (n + 1) q Hr2 Hl2 ltac:(by rewrite Es2) ltac:(by rewrite Es2, Ei2, Hc, (uk_inflight _ _ _ Hrc2); lia) Hlq Hp)
      as (u3 & q' & -> & Hok3 & Een3 & E1 & E2 & E3 & E4 & E5 & Eslots).
    exists (q_id q), u3, (pend2 ++ [sqe_of a (q_id q)]), (n + 1). split; [done|]. split; [by left|]. split; [lia|].
    unfold push_live. rewrite (proj2 (Z.eqb_neq _ _) Hid). split; [|split; [|done]].
    + eapply (adds_trans _ _ [] u2 pend2); [done|]. split; unfold shown, calls_exact; rewrite Een3; done.
    + exists i, q'. split; [done|]. split; [done|]. split; [done|]. split; [done|]. split; [congruence|]. split.
      { intros r Hr. apply Hlive1 in Hr. by eapply Hno. }
      intros j r. rewrite <- Hlive1. unfold live at 1. rewrite Eslots, Es2, lookup_insert. case_decide as Ej.
      * subst j. split; [intros [[= <-] _]; by left|]. intros [[_ ->]|Hr]; [by rewrite E2|by destruct (Hno r)].
      * fold (live s j r). rewrite Hlive. naive_solver.
  - destruct (release_live (u_reqs u2) fl (n + 1) i q) as (s' & -> & Hok3 & Hc3 & Hlive3); [by rewrite Es2|done|].
    cbn [mbind outcome_bind]. eexists 0, _, pend2, (n + 1). split; [done|]. split.
    { left. split; cbn; [done|by eexists|]. rewrite Hc3, Ei2, Es2, decide_True by done. rewrite (uk_inflight _ _ _ Hrc2). lia. }
    split; [lia|]. split; [eapply (adds_trans _ _ [] u2 pend2 []); [done|by apply adds_same]|]. split; [|lia].
    intros j r. cbn. rewrite Hlive3, Es2, Hlive, Hlive1. split; [naive_solver|]. intros Hr. split; [by right|]. intros ->. eapply Hno. by apply Hlive1.
Qed.

(** ** Completions *)

Fixpoint cq_from (n : nat) (i : Z) (r : ring) : list cqe :=
  match n with
  | O => []
  | S n => default cqe_zero (rg_cqes r !! Z.land i (rg_cq_mask r)) :: cq_from n (u32 (i + 1)) r
  end.

(** The completions posted and not yet reaped, oldest first. *)
Definition cq_entries (r : ring) : list cqe :=
  cq_from (Z.to_nat (u32 (rg_cq_tail r - rg_local_cq_head r))) (rg_local_cq_head r) r.

(** What a completion means to a request, and what a batch does: the first
    entry that carries its handle decides. *)
Definition deliver (c : cqe) (q : req) : req :=
  if decide (is_pending q /\ q_id q = ce_user_data c) then set_result (ce_res c) q else q.

Definition deliver_first (cs : list cqe) (q : req) : req :=
  match List.find (fun c => ce_user_data c =? q_id q) cs with
  | Some c => if decide (is_pending q) then set_result (ce_res c) q else q
  | None => q
  end.

Lemma set_result_done res q : ~ is_pending (set_result res q) /\ q_state (set_result res q) <> FASYNC_REQ_FREE.
Proof. unfold is_pending, set_result. cbn. by destruct (res <? 0). Qed.

Lemma deliver_first_cons c cs q : deliver_first cs (deliver c q) = deliver_first (c :: cs) q.
Proof.
  unfold deliver_first at 2, deliver. cbn [List.find]. destruct (Z.eqb_spec (ce_user_data c) (q_id q)) as [E|E].
  - destruct (decide (is_pending q)) as [Hp|Hp].
    + rewrite decide_True by done. unfold deliver_first. destruct (List.find _ cs); [|done].
      rewrite decide_False; [done|]. apply set_result_done.
    + rewrite decide_False by naive_solver. unfold deliver_first. destruct (List.find _ cs); [|done]. by rewrite decide_False.
  - by rewrite decide_False by naive_solver.
Qed.

(** A completion's slot is the only one whose live request can carry its
    handle. *)
Lemma live_index s fl n i q : reqs_ok s fl n -> live s i q -> id_index (q_id q) = i.
Proof.
  intros Hok [Hq Hs]. destruct (ro_live _ _ _ Hok i q Hq) as [Hg Hl]. destruct (Hl Hs) as [Hg0 ->].
  assert (in_table i) as Hti by (apply (ro_slot _ _ _ Hok); by eexists). unfold in_table, FASYNC_MAX_INFLIGHT in Hti.
  apply id_pack; lia.
Qed.

Lemma drain_cqe_ok c u pend n :
  uring_ok u pend n ->
  exists u', drain_cqe c u = Ret u' /\ uring_ok u' pend n /\ u_ring u' = u_ring u /\ u_enters u' = u_enters u /\ u_stats u' = u_stats u /\
    req_slots (u_reqs u') = deliver c <$> req_slots (u_reqs u).
Proof.
  intros Hok. destruct (uk_reqs _ _ _ Hok) as (fl & Hr). unfold drain_cqe.
  assert (Hidx : 0 <= id_index (ce_user_data c)).
  { unfold id_index. change 0xFFFFFFFF with (Z.ones 32). rewrite Z.land_ones by lia. apply Z.mod_pos_bound. lia. }
  set (i := id_index (ce_user_data c)) in *.
  assert (Hother : forall j q, req_slots (u_reqs u) !! j = Some q -> j <> i -> deliver c q = q).
  { intros j q Hq Hj. unfold deliver. rewrite decide_False; [done|]. intros [Hp E]. apply Hj.
    rewrite <- (live_index _ _ _ j q Hr); [unfold i; by rewrite E|]. split; [done|]. unfold is_pending in Hp. by rewrite Hp. }
  assert (Hsame : (forall q, req_slots (u_reqs u) !! i = Some q -> deliver c q = q) ->
    req_slots (u_reqs u) = deliver c <$> req_slots (u_reqs u)).
  { intros Hi. apply map_eq. intros j. rewrite lookup_fmap. destruct (req_slots (u_reqs u) !! j) as [q|] eqn:Hq; [|done].
    cbn. f_equal. symmetry. destruct (decide (j = i)) as [->|Hne]; [by apply Hi|by eapply Hother]. }
  destruct (Z.ltb_spec i FASYNC_MAX_INFLIGHT) as [Hlt|Hge].
  - destruct (slot_ok _ _ _ Hr i) as [q Hq]; [by split|]. unfold slot. rewrite Hq. cbn [deref mbind outcome_bind].
    destruct ((q_state q =? FASYNC_REQ_PENDING) && (q_id q =? ce_user_data c)) eqn:E.
    + apply andb_prop in E as [Hp%Z.eqb_eq Eid%Z.eqb_eq]. eexists. split; [done|].
      destruct (set_result_done (ce_res c) q) as [H1 H2]. fold (is_pending q) in Hp.
      split; [|split_and!; try done].
      * split; cbn; [apply Hok| |].
        -- exists fl. eapply reqs_ok_set; [done|done|done|done|]. unfold is_pending in Hp. rewrite Hp. done.
        -- rewrite (uk_inflight _ _ _ Hok), (n_pending_set i q) by done. rewrite decide_False, decide_True by done.
           pose proof (n_pending_bound _ _ _ Hr). assert (0 < n_pending (u_reqs u)); [|rewrite u64_small; lia].
           pose proof (n_pending_set i q (set_result (ce_res c) q) _ Hq) as E. rewrite decide_False, decide_True in E by done.
           assert (0 <= n_pending (reqs_set i (set_result (ce_res c) q) (u_reqs u))) by apply Zle_0_nat. lia.
      * cbn. apply map_eq. intros j. rewrite lookup_fmap, lookup_insert. case_decide as Ej.
        -- subst j. rewrite Hq. cbn. unfold deliver. by rewrite decide_True.
        -- destruct (req_slots (u_reqs u) !! j) as [q'|] eqn:Hq'; [|done]. cbn. f_equal. symmetry. by eapply Hother.
    + exists u. split; [done|]. split; [done|]. split_and!; try done. apply Hsame. intros q' Hq'. rewrite Hq in Hq'. injection Hq' as <-.
      unfold deliver. rewrite decide_False; [done|]. intros [Hp Eid]. unfold is_pending in Hp. by rewrite Hp, Eid, !Z.eqb_refl in E.
  - exists u. split; [done|]. split; [done|]. split_and!; try done. apply Hsame. intros q Hq. exfalso.
    assert (in_table i) as [_ ?] by (apply (ro_slot _ _ _ Hr); by eexists). lia.
Qed.

Lemma drain_loop_ok k : forall head count u pend n,
  uring_ok u pend n -> 0 <= head < 2 ^ 32 -> Z.of_nat k < 2 ^ 32 -> 0 <= count -> count + Z.of_nat k < 2 ^ 32 ->
  exists u', drain_loop k head (u32 (head + Z.of_nat k)) count u = Ret (u32 (head + Z.of_nat k), count + Z.of_nat k, u') /\
    uring_ok u' pend n /\ u_ring u' = u_ring u /\ u_enters u' = u_enters u /\ u_stats u' = u_stats u /\
    req_slots (u_reqs u') = deliver_first (cq_from k head (u_ring u)) <$> req_slots (u_reqs u).
Proof.
  induction k as [|k IH]; intros head count u pend n Hok Hh Hk Hc Hck; cbn [drain_loop].
  - rewrite !Z.add_0_r, (u32_small head), Z.eqb_refl by done. exists u. split; [done|]. split; [done|]. split_and!; try done.
    cbn [cq_from]. symmetry. by rewrite <- (map_fmap_id (req_slots (u_reqs u))) at 2.
  - destruct (Z.eqb_spec head (u32 (head + Z.of_nat (S k)))) as [E|_].
    { exfalso. assert (H0 : u32 (head + Z.of_nat 0) = u32 (head + Z.of_nat (S k))) by (rewrite Z.add_0_r, u32_small by done; exact E).
      apply u32_at in H0; lia. }
    set (c := default cqe_zero _). destruct (drain_cqe_ok c u pend n Hok) as (u1 & -> & Hok1 & Er & Ee & Est & Es). cbn [mbind outcome_bind].
    replace (u32 (head + Z.of_nat (S k))) with (u32 (u32 (head + 1) + Z.of_nat k)) by (rewrite u32_add_idemp_l; f_equal; lia).
    rewrite (u32_small (count + 1)) by lia.
    destruct (IH (u32 (head + 1)) (count + 1) u1 pend n Hok1 (u32_range _)) as (u2 & -> & Hok2 & Er2 & Ee2 & Est2 & Es2); [lia..|].
    exists u2. split; [by replace (count + Z.of_nat (S k)) with (count + 1 + Z.of_nat k) by lia|]. split; [done|]. split; [congruence|]. split; [congruence|]. split; [congruence|].
    rewrite Es2, Er, Es, <- map_fmap_compose. apply map_fmap_ext. intros i q _. cbn. apply deliver_first_cons.
Qed.

(** The drain reaps every completion posted so far. *)
Lemma drain_ok u pend n :
  uring_ok u pend n ->
  exists u', fasync_native_drain u = Ret u' /\ uring_ok u' pend n /\ u_enters u' = u_enters u /\ cq_entries (u_ring u') = [] /\
    rg_cq_head (u_ring u') = rg_cq_tail (u_ring u) /\ rg_cq_tail (u_ring u') = rg_cq_tail (u_ring u) /\ rg_cq_mask (u_ring u') = rg_cq_mask (u_ring u) /\
    st_completions_reaped (u_stats u') = u64 (st_completions_reaped (u_stats u) + Z.of_nat (length (cq_entries (u_ring u)))) /\
    req_slots (u_reqs u') = deliver_first (cq_entries (u_ring u)) <$> req_slots (u_reqs u).
Proof.
  intros Hok. pose proof (uk_ring _ _ _ Hok) as Hr. destruct (rk_cq _ _ Hr) as (Hcq1 & Hcq2 & Hcq3 & m & Hm & Hcq4 & Hcq5).
  unfold fasync_native_drain, cq_entries. rewrite (rk_ready _ _ Hr). cbn [negb].
  set (u0 := set_stats _ u). cbn [u_ring u0 set_stats]. set (head := rg_local_cq_head (u_ring u)) in *. set (tail := rg_cq_tail (u_ring u)) in *.
  set (k := Z.to_nat (u32 (tail - head))). pose proof (u32_range (tail - head)) as Hk.
  assert (Etail : tail = u32 (head + Z.of_nat k)).
  { unfold k. rewrite Z2Nat.id by lia. rewrite Z.add_comm, u32_add_idemp_l. replace (tail - head + head) with tail by lia. by rewrite u32_small. }
  assert (Hok0 : uring_ok u0 pend n) by (destruct Hok; by split).
  destruct (drain_loop_ok k head 0 u0 pend n Hok0 Hcq2) as (u1 & E & Hok1 & Er & Ee & Est & Es); [lia..|].
  rewrite <- Etail in E. rewrite E. cbn [mbind outcome_bind]. eexists. split; [done|]. rewrite Er. cbn [u_ring u0 set_stats].
  assert (Hlen : forall k h r, length (cq_from k h r) = k) by (induction k0; intros; cbn; auto).
  split; [|split; [exact Ee|split; [|split; [done|split; [done|split; [done|split; [|exact Es]]]]]]].
  - split; cbn; [|apply Hok1|apply Hok1]. split; cbn; try apply Hr. split; [done|]. split; [done|]. split; [done|]. exists m.
    split; [done|]. split; [done|]. rewrite Z.sub_diag, u32_small by lia. pose proof (Z.pow_pos_nonneg 2 m). lia.
  - cbn. by rewrite Z.sub_diag, u32_small by lia.
  - cbn. by rewrite Est, Hlen.
Qed.

(** ** What the kernel posts *)

(** The kernel posts only into a free place of the completion ring. *)
Definition post_ok (u : uring) : Prop :=
  rg_ready (u_ring u) = true /\ u32 (rg_cq_tail (u_ring u) - rg_local_cq_head (u_ring u)) <= rg_cq_mask (u_ring u).

Lemma land_mask m x : 0 <= m <= 32 -> Z.land (u32 x) (2 ^ m - 1) = x mod 2 ^ m.
Proof.
  intros Hm. replace (2 ^ m - 1) with (Z.ones m) by (rewrite Z.ones_equiv; lia). rewrite Z.land_ones by lia. unfold u32.
  apply Z.mod_mod_divide. exists (2 ^ (32 - m)). rewrite <- Z.pow_add_r by lia. f_equal. lia.
Qed.

Lemma cq_from_snoc k : forall h r c cq' m,
  0 <= m <= 31 -> rg_cq_mask r = 2 ^ m - 1 -> Z.of_nat k < 2 ^ m -> rg_cq_mask cq' = rg_cq_mask r ->
  rg_cqes cq' = <[(h + Z.of_nat k) mod 2 ^ m := c]> (rg_cqes r) ->
  cq_from (S k) (u32 h) cq' = cq_from k (u32 h) r ++ [c].
Proof.
  intros h r c cq' m Hm Hmask Hk Hmask' Hc.
  assert (H : forall j, (j <= k)%nat -> cq_from (S k - j) (u32 (h + Z.of_nat j)) cq' = cq_from (k - j) (u32 (h + Z.of_nat j)) r ++ [c]).
  { intros j Hj. remember (k - j)%nat as d eqn:Ed. revert j Hj Ed. induction d as [|d IH]; intros j Hj Ed.
    - replace (S k - j)%nat with 1%nat by lia. cbn [cq_from app]. rewrite Hmask', Hmask, land_mask, Hc by lia.
      replace j with k by lia. by rewrite lookup_insert_eq.
    - replace (S k - j)%nat with (S (S k - S j)) by lia. cbn [cq_from app]. rewrite Hmask', Hmask, land_mask, Hc by lia.
      rewrite lookup_insert_ne.
      + f_equal. rewrite u32_next. rewrite <- (IH (S j)) by lia. done.
      + intros E. apply mod_window_inj in E; lia. }
  specialize (H 0%nat ltac:(lia)). rewrite !Nat.sub_0_r, Z.add_0_r in H. exact H.
Qed.

Lemma post_inv c u pend n :
  uring_ok u pend n -> post_ok u ->
  uring_ok (post c u) pend n /\ cq_entries (u_ring (post c u)) = cq_entries (u_ring u) ++ [c].
Proof.
  intros Hok [Hready Hroom]. pose proof (uk_ring _ _ _ Hok) as Hr. destruct (rk_cq _ _ Hr) as (Hcq1 & Hcq2 & Hcq3 & m & Hm & Hcq4 & Hcq5).
  set (r := u_ring u) in *. set (k := Z.to_nat (u32 (rg_cq_tail r - rg_local_cq_head r))).
  pose proof (u32_range (rg_cq_tail r - rg_local_cq_head r)) as Hk.
  assert (Etail : rg_cq_tail r = u32 (rg_local_cq_head r + Z.of_nat k)).
  { unfold k. rewrite Z2Nat.id by lia. rewrite Z.add_comm, u32_add_idemp_l.
    replace (rg_cq_tail r - rg_local_cq_head r + rg_local_cq_head r) with (rg_cq_tail r) by lia. by rewrite u32_small. }
  assert (Hpow : 2 ^ m <= 2 ^ 31) by (apply Z.pow_le_mono_r; lia).
  assert (Enew : u32 (u32 (rg_cq_tail r + 1) - rg_local_cq_head r) = Z.of_nat (S k)).
  { rewrite Etail, u32_next. apply u32_dist; lia. }
  split.
  - split; cbn; [|apply Hok|apply Hok]. fold r. split; cbn; try apply Hr. split; [done|]. split; [done|]. split; [apply u32_range|].
    exists m. split; [done|]. split; [done|]. rewrite Enew. lia.
  - unfold cq_entries. cbn [u_ring post set_ring rg_cq_tail rg_local_cq_head]. fold r. rewrite Enew, Nat2Z.id. fold k.
    rewrite <- (u32_small (rg_local_cq_head r)) by done. apply (cq_from_snoc k _ r c _ m); [done|done|lia|done|].
    cbn. f_equal. rewrite Etail, Hcq4. apply land_mask. lia.
Qed.

(** Each of a batch finds room after those before it. *)
Fixpoint posts_ok (cs : list cqe) (u : uring) : Prop :=
  match cs with [] => True | c :: cs => post_ok u /\ posts_ok cs (post c u) end.

Lemma posts_inv cs : forall u pend n,
  uring_ok u pend n -> posts_ok cs u ->
  let u' := fold_left (fun u c => post c u) cs u in
  uring_ok u' pend n /\ cq_entries (u_ring u') = cq_entries (u_ring u) ++ cs /\ u_reqs u' = u_reqs u /\ u_enters u' = u_enters u.
Proof.
  induction cs as [|c cs IH]; intros u pend n Hok Hcs; cbn [fold_left]; [by rewrite app_nil_r|].
  destruct Hcs as [Hc Hcs]. destruct (post_inv c u pend n Hok Hc) as [Hok1 E1]. destruct (IH _ _ _ Hok1 Hcs) as (Hok2 & E2 & E3 & E4).
  split; [done|]. split; [by rewrite E2, E1, <- app_assoc|]. by split.
Qed.

Lemma block_ok cs u pend n :
  uring_ok u pend n -> posts_ok cs u ->
  exists u', fasync_block cs u = Ret u' /\ uring_ok u' pend n /\ u_enters u' = u_enters u /\ cq_entries (u_ring u') = [] /\
    req_slots (u_reqs u') = deliver_first (cq_entries (u_ring u) ++ cs) <$> req_slots (u_reqs u).
Proof.
  intros Hok Hcs. unfold fasync_block. rewrite (rk_ready _ _ (uk_ring _ _ _ Hok)). cbn [negb]. set (u0 := set_stats _ u).
  assert (Hok0 : uring_ok u0 pend n) by (destruct Hok; by split).
  assert (Hcs0 : posts_ok cs u0).
  { assert (H : forall cs u1 u2, u_ring u1 = u_ring u2 -> posts_ok cs u1 -> posts_ok cs u2).
    { clear. induction cs as [|c cs IH]; intros u1 u2 E; cbn; [done|]. unfold post_ok. rewrite E. intros [H1 H2]. split; [done|].
      eapply IH; [|exact H2]. cbn. by rewrite E. }
    by apply (H cs u). }
  destruct (posts_inv cs u0 pend n Hok0 Hcs0) as (Hok1 & E1 & E2 & E3).
  destruct (drain_ok _ pend n Hok1) as (u' & E & Hok' & Ee & Ec & _ & _ & _ & _ & Es).
  exists u'. split; [done|]. split; [done|]. split; [by rewrite Ee, E3|]. split; [done|]. by rewrite Es, E1, E2.
Qed.

(** ** The ring in use *)

(** The calls of the runtime, with the kernel's answers, and the kernel's own
    step.  A request is released by whoever collects its result, never while it
    is pending. *)
Inductive ring_act :=
  | UPush (k : setup) (ret : Z) (a : push_args)
  | USubmit (ret : Z)
  | UPoll
  | UBlock (arrived : list cqe)
  | UPost (c : cqe)
  | URelease (id : Z)
  | UTrack (id : Z) (task : ptr).

Definition uring_exec (op : ring_act) (u : uring) : outcome (Z * uring) :=
  match op with
  | UPush k ret a => fasync_push_sqe k ret a u
  | USubmit ret => fasync_submit ret u
  | UPoll => u ← fasync_poll u; mret (0, u)
  | UBlock cs => u ← fasync_block cs u; mret (0, u)
  | UPost c => mret (0, post c u)
  | URelease id =>
      o ← fasync_req_lookup id (u_reqs u);
      match o with
      | None => mret (0, u)
      | Some i =>
          q ← slot (u_reqs u) i;
          if q_state q =? FASYNC_REQ_PENDING then mret (0, u)
          else s ← fasync_req_release i (u_reqs u); mret (0, set_reqs s u)
      end
  | UTrack id task => u ← track_task id task u; mret (0, u)
  end.

Definition uring_op_ok (op : ring_act) (u : uring) : Prop :=
  match op with
  | UPush k _ _ => setup_ok k
  | UPost c => post_ok u
  | UBlock cs => rg_ready (u_ring u) = true -> posts_ok cs u
  | URelease id | UTrack id _ => 0 <= id
  | _ => True
  end.

(** The entries a call leaves in the ring, by its answer. *)
Definition new_entries (op : ring_act) (out : Z) : list sqe :=
  match op with UPush _ _ a => if out =? 0 then [] else [sqe_of a out] | _ => [] end.

Lemma static_slots i q : req_slots reqs_static !! i = Some q -> q = req_zero.
Proof. intros Hq. unfold reqs_static in Hq. cbn in Hq. by apply elem_of_list_to_map_2, list_elem_of_fmap in Hq as (j & [= _ ->] & _). Qed.

Lemma lookup_static id : 0 <= id -> fasync_req_lookup id reqs_static = Ret None.
Proof.
  intros Hid. unfold fasync_req_lookup. destruct (Z.leb_spec FASYNC_MAX_INFLIGHT (id_index id)); [done|].
  assert (Hi : 0 <= id_index id) by (unfold id_index; apply Z.land_nonneg; by left).
  unfold slot. destruct (req_slots reqs_static !! id_index id) as [q|] eqn:Hq.
  - cbn. rewrite (static_slots _ _ Hq). by rewrite orb_true_r.
  - exfalso. unfold reqs_static in Hq. cbn in Hq. apply not_elem_of_list_to_map in Hq. apply Hq, list_elem_of_fmap.
    exists (id_index id, req_zero). split; [done|]. apply list_elem_of_fmap. exists (id_index id). split; [done|]. apply elem_of_seqZ. lia.
Qed.

Lemma uring_exec_ok op u pend n :
  uring_inv u pend n -> uring_op_ok op u -> n + 1 < 2 ^ 32 ->
  exists out u' pend' n', uring_exec op u = Ret (out, u') /\ uring_inv u' pend' n' /\ n <= n' <= n + 1 /\
    adds u pend (new_entries op out) u' pend'.
Proof.
  intros Hinv Hop Hn. destruct op as [k ret a|ret| |cs|c|id|id task]; cbn [uring_exec uring_op_ok new_entries] in *.
  - destruct (push_ok k ret a u pend n Hinv Hop Hn) as (id & u' & pend' & n' & E & H1 & H2 & H3 & _). by exists id, u', pend', n'.
  - unfold fasync_submit. destruct Hinv as [Hok|Hno].
    + destruct (submit_ok ret u pend (uk_ring _ _ _ Hok)) as (u' & -> & Hs). eexists _, u', [], n. split; [done|].
      destruct (su_same _ _ _ Hs) as (S1 & S2 & _). split; [left; destruct Hok; split; [apply Hs|by rewrite S1|congruence]|].
      split; [lia|]. by apply adds_submitted.
    + destruct Hno as (E1 & E2 & E3 & -> & ->). unfold fasync_submit_locked. rewrite E2. cbn.
      exists 0, u, [], 0. split; [done|]. split; [by right|]. split; [lia|]. by apply adds_same.
  - unfold fasync_poll. destruct Hinv as [Hok|Hno].
    + destruct (drain_ok u pend n Hok) as (u' & -> & Hok' & Ee & _). exists 0, u', pend, n. split; [done|]. split; [by left|].
      split; [lia|]. by apply adds_same.
    + destruct Hno as (E1 & E2 & E3 & -> & ->). unfold fasync_native_drain. rewrite E2. cbn.
      exists 0, u, [], 0. split; [done|]. split; [by right|]. split; [lia|]. by apply adds_same.
  - destruct Hinv as [Hok|Hno].
    + destruct (block_ok cs u pend n Hok (Hop (rk_ready _ _ (uk_ring _ _ _ Hok)))) as (u' & -> & Hok' & Ee & _).
      exists 0, u', pend, n. split; [done|]. split; [by left|]. split; [lia|]. by apply adds_same.
    + destruct Hno as (E1 & E2 & E3 & -> & ->). unfold fasync_block. rewrite E2. cbn.
      exists 0, u, [], 0. split; [done|]. split; [by right|]. split; [lia|]. by apply adds_same.
  - destruct Hinv as [Hok|(_ & E2 & _)]; [|destruct Hop as [Hop _]; by rewrite E2 in Hop].
    destruct (post_inv c u pend n Hok Hop) as [Hok' _]. exists 0, (post c u), pend, n. split; [done|]. split; [by left|].
    split; [lia|]. by apply adds_same.
  - destruct Hinv as [Hok|Hno].
    + destruct (uk_reqs _ _ _ Hok) as (fl & Hr). destruct (fasync_req_lookup_ok _ fl n Hr id Hop) as (o & -> & Ho). cbn [mbind outcome_bind].
      assert (Hsame : exists out u' pend' n', Ret (0, u) = Ret (out, u') /\ uring_inv u' pend' n' /\ n <= n' <= n + 1 /\ adds u pend [] u' pend').
      { exists 0, u, pend, n. split; [done|]. split; [by left|]. split; [lia|]. by apply adds_same. }
      destruct o as [i|]; [|done]. destruct (proj1 (Ho i) eq_refl) as (q & Hq & Hs & _). unfold slot. rewrite Hq. cbn [deref mbind outcome_bind].
      destruct (Z.eqb_spec (q_state q) FASYNC_REQ_PENDING) as [|Hnp]; [done|].
      destruct (release_live _ fl n i q Hr) as (s' & -> & Hr' & Hc & _); [by split|]. cbn [mbind outcome_bind].
      eexists 0, _, pend, n. split; [done|]. split; [|split; [lia|by apply adds_same]]. left. split; cbn; [apply Hok|by eexists|].
      rewrite Hc, decide_False by done. rewrite (uk_inflight _ _ _ Hok). lia.
    + destruct Hno as (E1 & E2 & E3 & -> & ->). rewrite E1, lookup_static by done.
      exists 0, u, [], 0. split; [done|]. split; [by right|]. split; [lia|]. by apply adds_same.
  - unfold track_task. destruct Hinv as [Hok|Hno].
    + destruct (uk_reqs _ _ _ Hok) as (fl & Hr). destruct (fasync_req_lookup_ok _ fl n Hr id Hop) as (o & -> & Ho). cbn [mbind outcome_bind].
      destruct o as [i|]; cbn [mbind outcome_bind mret outcome_ret].
      2: { exists 0, u, pend, n. split; [done|]. split; [by left|]. split; [lia|]. by apply adds_same. }
      destruct (proj1 (Ho i) eq_refl) as (q & Hq & Hs & _). unfold slot. rewrite Hq. cbn [deref mbind outcome_bind].
      eexists 0, _, pend, n. split; [done|]. split; [|split; [lia|by apply adds_same]]. left. split; cbn; [apply Hok| |].
      * exists fl. by eapply reqs_ok_set.
      * rewrite (n_pending_set i q) by done. rewrite (uk_inflight _ _ _ Hok). repeat case_decide; (done || lia).
    + destruct Hno as (E1 & E2 & E3 & -> & ->). rewrite E1, lookup_static by done.
      exists 0, u, [], 0. split; [done|]. split; [by right|]. split; [lia|]. by apply adds_same.
Qed.

Fixpoint uring_run (ops : list ring_act) (u : uring) : outcome (list Z * uring) :=
  match ops with
  | [] => mret ([], u)
  | op :: ops => '(out, u) ← uring_exec op u; '(outs, u) ← uring_run ops u; mret (out :: outs, u)
  end.

Fixpoint uring_ops_ok (ops : list ring_act) (u : uring) : Prop :=
  match ops with
  | [] => True
  | op :: ops => uring_op_ok op u /\ forall out u', uring_exec op u = Ret (out, u') -> uring_ops_ok ops u'
  end.

Lemma uring_run_ok ops : forall u pend n,
  uring_inv u pend n -> uring_ops_ok ops u -> n + Z.of_nat (length ops) < 2 ^ 32 ->
  exists outs u' pend' n', uring_run ops u = Ret (outs, u') /\ uring_inv u' pend' n' /\ n' <= n + Z.of_nat (length ops) /\
    adds u pend (concat (zip_with new_entries ops outs)) u' pend'.
Proof.
  induction ops as [|op ops IH]; intros u pend n Hinv Hops Hn; cbn [uring_run length] in *.
  - exists [], u, pend, n. split; [done|]. split; [done|]. split; [lia|]. by apply adds_same.
  - destruct Hops as [Hop Hops]. destruct (uring_exec_ok op u pend n Hinv Hop ltac:(lia)) as (out & u1 & pend1 & n1 & E1 & Hinv1 & Hn1 & Ha1).
    destruct (IH u1 pend1 n1 Hinv1 (Hops out u1 E1) ltac:(lia)) as (outs & u2 & pend2 & n2 & E2 & Hinv2 & Hn2 & Ha2).
    exists (out :: outs), u2, pend2, n2. rewrite E1. cbn [mbind outcome_bind]. rewrite E2. split; [done|]. split; [done|]. split; [lia|].
    cbn [zip_with concat]. by eapply adds_trans.
Qed.

(** States the runtime can reach, with handles left to give. *)
Definition uring_reachable (u : uring) : Prop :=
  exists ops outs, uring_ops_ok ops uring_init /\ Z.of_nat (length ops) + 1 < 2 ^ 32 /\ uring_run ops uring_init = Ret (outs, u).

Lemma uring_init_inv : uring_inv uring_init [] 0.
Proof. by right. Qed.

Lemma reachable_inv u : uring_reachable u -> exists pend n, uring_inv u pend n /\ n + 1 < 2 ^ 32.
Proof.
  intros (ops & outs & Hops & Hlen & E).
  destruct (uring_run_ok ops uring_init [] 0 uring_init_inv Hops ltac:(lia)) as (outs' & u' & pend & n & E' & Hinv & Hn & _).
  rewrite E in E'. apply Ret_inj in E'. injection E' as -> ->. exists pend, n. split; [done|lia].
Qed.

(** The entries in the ring that no submission has shown yet. *)
Definition unpublished (r : ring) : list sqe :=
  map (fun k => default sqe_zero (rg_sqes r !! Z.land (u32 (rg_sqe_head r + Z.of_nat k)) (rg_sq_mask r))) (seq 0 (Z.to_nat (rg_queued r))).

Lemma unpublished_ok u pend n : uring_inv u pend n -> unpublished (u_ring u) = pend.
Proof.
  intros [Hok|(_ & -> & _ & -> & _)]; [|done]. pose proof (uk_ring _ _ _ Hok) as Hr. destruct (rk_queued _ _ Hr) as [Hq _].
  unfold unpublished. rewrite Hq, Nat2Z.id. apply list_eq. intros k. rewrite list_lookup_fmap.
  destruct (decide (k < length pend)%nat) as [Hk|Hk].
  - destruct (lookup_lt_is_Some_2 pend k Hk) as [e He]. rewrite lookup_seq_lt by done. cbn.
    rewrite (rk_sq_mask _ _ Hr), land_1023, (rk_window _ _ Hr k e He), He. done.
  - rewrite lookup_seq_ge by lia. cbn. symmetry. apply lookup_ge_None. lia.
Qed.

(** ** Properties *)

(** C25: requests reach the kernel exactly once and in order.  Whatever the
    sequence of pushes, submissions, polls, blocking waits, completions and
    releases (fewer than [2^32] of them), whatever the kernel answers, and
    however the ring's counters wrap: every call returns, the entries shown to
    the kernel by the submissions so far, followed by those still waiting in the
    ring, are exactly the accepted requests in the order they were accepted,
    and each submission states the number of entries it shows. *)
Theorem submission_order (ops : list ring_act) :
  uring_ops_ok ops uring_init -> Z.of_nat (length ops) < 2 ^ 32 ->
  exists outs u, uring_run ops uring_init = Ret (outs, u) /\
    shown u ++ unpublished (u_ring u) = concat (zip_with new_entries ops outs) /\ calls_exact u.
Proof.
  intros Hops Hlen. destruct (uring_run_ok ops uring_init [] 0 uring_init_inv Hops Hlen) as (outs & u & pend & n & E & Hinv & _ & [Ho He]).
  exists outs, u. split; [done|]. rewrite (unpublished_ok u pend n Hinv). split; [exact Ho|]. apply He. by apply Forall_nil.
Qed.

(** C26: the count of requests in flight is the number of pending requests of
    the table, at most 1024, in every reachable state. *)
Theorem inflight_exact (u : uring) :
  uring_reachable u -> u_inflight u = n_pending (u_reqs u) /\ 0 <= u_inflight u <= FASYNC_MAX_INFLIGHT.
Proof.
  intros (pend & n & Hinv & _)%reachable_inv. destruct Hinv as [Hok|(E1 & _ & E3 & _)].
  - destruct (uk_reqs _ _ _ Hok) as (fl & Hr). rewrite (uk_inflight _ _ _ Hok). split; [done|]. by eapply n_pending_bound.
  - rewrite E1, E3, n_pending_none; [done|]. by intros i q ->%static_slots.
Qed.

(** C27: a poll delivers each completion to its request and to no other.  In
    every reachable state it returns having reaped all the completions posted so
    far: a pending request whose handle one of them carries ends done or failed
    with the result of the first such, every other request is untouched, and
    stale or foreign handles are skipped. *)
Theorem poll_delivers_completions (u : uring) :
  uring_reachable u ->
  exists u', fasync_poll u = Ret u' /\ cq_entries (u_ring u') = [] /\
    req_slots (u_reqs u') = deliver_first (cq_entries (u_ring u)) <$> req_slots (u_reqs u).
Proof.
  intros (pend & n & Hinv & _)%reachable_inv. unfold fasync_poll. destruct Hinv as [Hok|(E1 & E2 & _)].
  - destruct (drain_ok u pend n Hok) as (u' & E & _ & _ & Hc & _ & _ & _ & _ & Hs). by exists u'.
  - exists u. unfold fasync_native_drain. rewrite E2. split; [done|]. split; [done|]. cbn. by rewrite <- (map_fmap_id (req_slots (u_reqs u))) at 1.
Qed.

(** The scan for the request behind an address is exact.  In every
    reachable state [fasync_find_covering], which skips the slots whose
    allocation bit is clear, returns the lowest slot of the table whose pending
    buffer covers the range, and none exactly when no slot does. *)
Theorem find_covering_exact (u : uring) (p : ptr) (size : Z) :
  uring_reachable u ->
  fasync_find_covering (rg_ready (u_ring u)) p size (u_reqs u) = Ret (head (covering_slots p size (u_reqs u))).
Proof.
  intros (pend & n & Hinv & _)%reachable_inv. destruct Hinv as [Hok|(E1 & E2 & _)].
  - destruct (uk_reqs _ _ _ Hok) as (fl & Hr). rewrite (rk_ready _ _ (uk_ring _ _ _ Hok)).
    exact (find_covering_from_ok _ fl n Hr p size (Z.to_nat FASYNC_MAX_INFLIGHT) 0 ltac:(lia) ltac:(done)).
  - rewrite E1, E2. cbn [rg_ready ring_static fasync_find_covering]. unfold covering_slots.
    destruct (filter _ (seqZ 0 FASYNC_MAX_INFLIGHT)) as [|i l] eqn:Ef; [done|exfalso].
    assert (Hi : i ∈ i :: l) by left. rewrite <- Ef in Hi. apply list_elem_of_filter in Hi as [Hi _].
    destruct (req_slots reqs_static !! i) as [q|] eqn:Hq; cbn in Hi; [|done]. by rewrite (static_slots _ _ Hq) in Hi.
Qed.

(** A failed submission is never retried.  When the kernel refuses a
    submission, the entries count as submitted: the next [fasync_submit]
    answers 0 and does not enter the kernel, while their requests stay pending
    and counted in flight. *)
Theorem failed_submit_forgotten (u : uring) (ret ret' : Z) :
  uring_reachable u -> unpublished (u_ring u) <> [] -> ret < 0 ->
  exists u', fasync_submit ret u = Ret (-1, u') /\ fasync_submit ret' u' = Ret (0, u') /\
    unpublished (u_ring u') = [] /\ u_inflight u' = u_inflight u /\ u_reqs u' = u_reqs u.
Proof.
  intros (pend & n & Hinv & _)%reachable_inv Hne Hret. rewrite (unpublished_ok u pend n Hinv) in Hne.
  destruct Hinv as [Hok|(_ & _ & _ & -> & _)]; [|done].
  destruct (submit_ok ret u pend (uk_ring _ _ _ Hok)) as (u' & E & Hs). rewrite decide_False in E by done.
  rewrite (proj2 (Z.ltb_lt _ _) Hret) in E. exists u'. split; [exact E|].
  destruct (rk_queued _ _ (su_ring _ _ _ Hs)) as [Hq _]. destruct (su_same _ _ _ Hs) as (S1 & S2 & _).
  split; [|split; [unfold unpublished; by rewrite Hq|done]].
  unfold fasync_submit, fasync_submit_locked. rewrite (rk_ready _ _ (su_ring _ _ _ Hs)), Hq. done.
Qed.

(** A run: two reads are queued and submitted, the kernel answers the second,
    then a completion with a stale handle arrives; the table is polled. *)
Definition kernel_setup : setup := mk_setup 65536 131072 3 0 1023 2047.
Definition read_args (fd : Z) (buf : ptr) : push_args := mk_push FASYNC_OP_READ fd buf 64 0 buf 64 0.
Definition ring_ops : list ring_act :=
  [UPush kernel_setup 0 (read_args 5 4096); UPush kernel_setup 0 (read_args 6 8192); USubmit 2;
   UPost (mk_cqe (pack_id 2 1) 64); UPost (mk_cqe (pack_id 9 0) 7); UPush kernel_setup 0 (read_args 7 12288)].

Definition run_state (ops : list ring_act) : uring := match uring_run ops uring_init with Ret (_, u) => u | _ => uring_init end.
Definition run_outs (ops : list ring_act) : list Z := match uring_run ops uring_init with Ret (o, _) => o | _ => [] end.
Definition ring_state : uring := run_state ring_ops.
Definition ring_outs : list Z := run_outs ring_ops.

Lemma kernel_setup_ok : setup_ok kernel_setup.
Proof. split; [done|]. exists 11. split; [lia|done]. Qed.

(** The assumptions of a run, as a check. *)
Definition setup_okb (k : setup) : bool :=
  (su_sq_mask k =? 1023) && existsb (fun m => su_cq_mask k =? 2 ^ m - 1) (seqZ 0 32).

Definition post_okb (u : uring) : bool :=
  rg_ready (u_ring u) && (u32 (rg_cq_tail (u_ring u) - rg_local_cq_head (u_ring u)) <=? rg_cq_mask (u_ring u)).

Fixpoint posts_okb (cs : list cqe) (u : uring) : bool :=
  match cs with [] => true | c :: cs => post_okb u && posts_okb cs (post c u) end.

Definition uring_op_okb (op : ring_act) (u : uring) : bool :=
  match op with
  | UPush k _ _ => setup_okb k
  | UPost _ => post_okb u
  | UBlock cs => posts_okb cs u
  | URelease id | UTrack id _ => 0 <=? id
  | _ => true
  end.

Fixpoint uring_ops_okb (ops : list ring_act) (u : uring) : bool :=
  match ops with
  | [] => true
  | op :: ops => uring_op_okb op u && match uring_exec op u with Ret (_, u) => uring_ops_okb ops u | _ => true end
  end.

Lemma post_okb_ok u : post_okb u = true -> post_ok u.
Proof. intros [? ?%Z.leb_le]%andb_prop. by split. Qed.

Lemma posts_okb_ok cs : forall u, posts_okb cs u = true -> posts_ok cs u.
Proof. induction cs as [|c cs IH]; intros u; cbn; [done|]. intros [?%post_okb_ok ?]%andb_prop. split; [done|by apply IH]. Qed.

Lemma uring_op_okb_ok op u : uring_op_okb op u = true -> uring_op_ok op u.
Proof.
  destruct op; cbn; try done.
  - intros [?%Z.eqb_eq (m & Hm & ?%Z.eqb_eq)%existsb_exists]%andb_prop. split; [done|]. exists m. split; [|done].
    apply list_elem_of_In, elem_of_seqZ in Hm. lia.
  - intros ? _. by apply posts_okb_ok.
  - apply post_okb_ok.
  - apply Z.leb_le.
  - apply Z.leb_le.
Qed.

Lemma uring_ops_okb_ok ops : forall u, uring_ops_okb ops u = true -> uring_ops_ok ops u.
Proof.
  induction ops as [|op ops IH]; intros u; cbn; [done|]. intros [?%uring_op_okb_ok H2]%andb_prop. split; [done|].
  intros out u' E. rewrite E in H2. by apply IH.
Qed.

Lemma reachable_run ops :
  uring_ops_okb ops uring_init = true -> Z.of_nat (length ops) + 1 < 2 ^ 32 ->
  uring_reachable (run_state ops).
Proof.
  unfold run_state. intros Hops%uring_ops_okb_ok Hlen. destruct (uring_run_ok ops uring_init [] 0 uring_init_inv Hops ltac:(lia)) as (outs & u & _ & _ & E & _).
  rewrite E. by exists ops, outs.
Qed.

Lemma ring_state_reachable : uring_reachable ring_state.
Proof. apply (reachable_run ring_ops); vm_compute; reflexivity. Qed.

Lemma submission_order_witness :
  ring_outs = [pack_id 1 0; pack_id 2 1; 2; 0; 0; pack_id 3 2] /\
  exists outs u, uring_run ring_ops uring_init = Ret (outs, u) /\
    shown u ++ unpublished (u_ring u) = concat (zip_with new_entries ring_ops outs) /\ calls_exact u.
Proof.
  split; [vm_compute; reflexivity|].
  apply (submission_order ring_ops); [apply uring_ops_okb_ok; vm_compute; reflexivity|vm_compute; reflexivity].
Defined.

Lemma inflight_exact_witness :
  u_inflight ring_state = 3 /\ u_inflight ring_state = n_pending (u_reqs ring_state) /\ 0 <= u_inflight ring_state <= FASYNC_MAX_INFLIGHT.
Proof. split; [vm_compute; reflexivity|]. apply (inflight_exact ring_state). exact ring_state_reachable. Defined.

Lemma poll_delivers_completions_witness :
  cq_entries (u_ring ring_state) = [mk_cqe (pack_id 2 1) 64; mk_cqe (pack_id 9 0) 7] /\
  exists u', fasync_poll ring_state = Ret u' /\ cq_entries (u_ring u') = [] /\
    req_slots (u_reqs u') = deliver_first (cq_entries (u_ring ring_state)) <$> req_slots (u_reqs ring_state).
Proof. split; [vm_compute; reflexivity|]. apply (poll_delivers_completions ring_state). exact ring_state_reachable. Defined.

Lemma find_covering_exact_witness :
  head (covering_slots 8200 16 (u_reqs ring_state)) = Some 1 /\
  fasync_find_covering (rg_ready (u_ring ring_state)) 8200 16 (u_reqs ring_state) = Ret (head (covering_slots 8200 16 (u_reqs ring_state))).
Proof. split; [vm_compute; reflexivity|]. apply (find_covering_exact ring_state 8200 16). exact ring_state_reachable. Defined.

Lemma failed_submit_forgotten_witness :
  unpublished (u_ring ring_state) = [sqe_of (read_args 7 12288) (pack_id 3 2)] /\
  exists u', fasync_submit (-11) ring_state = Ret (-1, u') /\ fasync_submit 1 u' = Ret (0, u') /\
    unpublished (u_ring u') = [] /\ u_inflight u' = u_inflight ring_state /\ u_reqs u' = u_reqs ring_state.
Proof.
  split; [vm_compute; reflexivity|].
  apply (failed_submit_forgotten ring_state (-11) 1); [exact ring_state_reachable|vm_compute; discriminate|reflexivity].
Defined.
