(* ===== verification/Syscalls.v ===== *)
(** * Syscalls: the fasync calls on requests and descriptors

    [io_uring/fasync_syscalls.c], with the waiting half of [io_uring/fasync.c]
    ([fasync_wait_all], [fasync_provenance]): waiting for a request, collecting
    its result, the table of pending opens and their negative handles, and the
    calls that queue requests.

    A [turn] is what the kernel posts before one poll and while the thread is
    blocked in it; a wait takes a list of turns and runs out of fuel when they
    end.  The Fil-C checks of a buffer ([zcheck], [zcheck_readonly]) are
    parameters; a failed one traps.  Calls of [filc_async_complete] are
    recorded, not made: the framework is a component with a lock of its own. *)

From S2P Require Import Prelude Requests Ring.
Open Scope Z_scope.

Definition FASYNC_MAX_PENDING_FDS : nat := 64.
Definition EFAULT : Z := 14.
Definition ENAMETOOLONG : Z := 36.

Record pfd := mk_pfd { pf_used : bool; pf_resolved : bool; pf_id : Z; pf_result : Z }.
Definition pfd_zero : pfd := mk_pfd false false 0 0.

Record sys := mk_sys {
  y_u : uring;
  y_fds : list pfd;                (* [g_pending_fds] *)
  y_completed : list (ptr * Z);    (* the calls of [filc_async_complete] *)
}.

Definition sys_init : sys := mk_sys uring_init (replicate FASYNC_MAX_PENDING_FDS pfd_zero) [].
Definition set_u (u : uring) (y : sys) : sys := mk_sys u (y_fds y) (y_completed y).
Definition set_fds (l : list pfd) (y : sys) : sys := mk_sys (y_u y) l (y_completed y).
Definition set_errno (e : Z) (y : sys) : sys := set_u (set_error e (u_last_error (y_u y)) (y_u y)) y.

(** ** Waiting for a request *)

Record turn := mk_turn { before_poll : list cqe; in_block : list cqe }.

Definition posts (cs : list cqe) (u : uring) : uring := fold_left (fun u c => post c u) cs u.

Definition pending_at (i : Z) (u : uring) : outcome bool := q ← slot (u_reqs u) i; mret (q_state q =? FASYNC_REQ_PENDING).

Fixpoint req_wait_loop (turns : list turn) (i : Z) (u : uring) : outcome (uring * list turn) :=
  p ← pending_at i u;
  if negb p then mret (u, turns)
  else
    match turns with
    | [] => NoFuel
    | t :: turns =>
        u ← fasync_poll (posts (before_poll t) u);
        p ← pending_at i u;
        u ← (if (p : bool) then fasync_block (in_block t) u else mret u);
        req_wait_loop turns i u
    end.

(** The result of the request in slot [i]. *)
Definition fasync_req_wait (ret : Z) (turns : list turn) (i : Z) (u : uring) : outcome (Z * uring * list turn) :=
  p ← pending_at i u;
  '(_, u) ← (if (p : bool) then fasync_submit ret u else mret (0, u));
  '(u, turns) ← req_wait_loop turns i u;
  q ← slot (u_reqs u) i;
  mret (q_result q, u, turns).

(** Whether the request is no longer pending; [arrived] is posted before the
    poll. *)
Definition fasync_ready (arrived : list cqe) (id : Z) (u : uring) : outcome (bool * uring) :=
  o ← fasync_req_lookup id (u_reqs u);
  match o with
  | None => mret (false, u)
  | Some i =>
      p ← pending_at i u;
      u ← (if (p : bool) then fasync_poll (posts arrived u) else mret u);
      p ← pending_at i u;
      mret (negb p, u)
  end.

Definition clear_task (q : req) : req :=
  mk_req (q_id q) (q_gen q) (q_buf q) (q_len q) (q_offset q) (q_fd q) (q_op q) (q_state q) (q_linked q) (q_result q) NULL.

Definition fasync_result (ret : Z) (turns : list turn) (id : Z) (y : sys) : outcome (Z * sys * list turn) :=
  o ← fasync_req_lookup id (u_reqs (y_u y));
  match o with
  | None => mret (- EINVAL, y, turns)
  | Some i =>
      '(result, u, turns) ← fasync_req_wait ret turns i (y_u y);
      q ← slot (u_reqs u) i;
      let y := if q_task q =? NULL then set_u u y
               else mk_sys (set_reqs (reqs_set i (clear_task q) (u_reqs u)) u) (y_fds y) (y_completed y ++ [(q_task q, result)]) in
      s ← fasync_req_release i (u_reqs (y_u y));
      mret (result, set_u (set_reqs s (y_u y)) y, turns)
  end.

(** At most 100000000 turns: then -1. *)
Definition MAX_SPIN : N := 100000000.

Fixpoint wait_all_loop (turns : list turn) (spin : N) (u : uring) : outcome (Z * uring) :=
  if (MAX_SPIN <=? spin)%N then mret (-1, u)
  else if u_inflight u =? 0 then mret (0, u)
  else
    match turns with
    | [] => NoFuel
    | t :: turns =>
        u ← fasync_poll (posts (before_poll t) u);
        if u_inflight u =? 0 then mret (0, u)
        else u ← fasync_block (in_block t) u; wait_all_loop turns (spin + 1) u
    end.

Definition fasync_wait_all_locked (ret : Z) (turns : list turn) (u : uring) : outcome (Z * uring) :=
  '(_, u) ← fasync_submit_locked ret u;
  wait_all_loop turns 0 u.

Record prov := mk_prov { pv_req : Z; pv_offset : Z; pv_len : Z }.

Definition fasync_provenance (p : ptr) (size : Z) (u : uring) : outcome (option prov) :=
  o ← fasync_find_covering (rg_ready (u_ring u)) p size (u_reqs u);
  match o with
  | None => mret None
  | Some i => q ← slot (u_reqs u) i; mret (Some (mk_prov (q_id q) (u64 (p - q_buf q)) (q_len q)))
  end.

Definition fasync_derive (base : ptr) (offset len : Z) (u : uring) : outcome (ptr * prov) :=
  let derived := u64 (base + offset) in
  o ← fasync_provenance derived len u;
  mret (derived, default (mk_prov 0 offset len) o).

(** ** Pending opens *)

Fixpoint pending_fd_new_from (i : nat) (id : Z) (fds : list pfd) : Z * list pfd :=
  match fds with
  | [] => (-1, [])
  | p :: fds =>
      if pf_used p then let '(h, fds) := pending_fd_new_from (S i) id fds in (h, p :: fds)
      else (- (Z.of_nat i + 2), mk_pfd true false id (pf_result p) :: fds)
  end.

Definition fasync_pending_fd_new : Z -> list pfd -> Z * list pfd := pending_fd_new_from 0.

(** The index of the pending open a handle names. *)
Definition fasync_pending_fd_lookup (fd : Z) (fds : list pfd) : option nat :=
  if (-1 <=? fd) || (fd <? - (Z.of_nat FASYNC_MAX_PENDING_FDS + 1)) then None
  else
    let k := Z.to_nat (- fd - 2) in
    match fds !! k with Some p => if pf_used p then Some k else None | None => None end.

Definition fasync_fd_resolve (ret : Z) (turns : list turn) (fd : Z) (y : sys) : outcome (Z * sys * list turn) :=
  if 0 <=? fd then mret (fd, y, turns)
  else
    match fasync_pending_fd_lookup fd (y_fds y) with
    | None => mret (- EBADF, y, turns)
    | Some k =>
        p ← deref (y_fds y !! k);
        if pf_resolved p then mret (pf_result p, y, turns)
        else
          '(r, y, turns) ← fasync_result ret turns (pf_id p) y;
          mret (r, set_fds (<[k := mk_pfd (pf_used p) true (pf_id p) r]> (y_fds y)) y, turns)
    end.

(** Frees the handle's slot. *)
Definition drop_fd (o : option nat) (y : sys) : sys :=
  match o with
  | None => y
  | Some k => set_fds (alter (fun p => mk_pfd false (pf_resolved p) (pf_id p) (pf_result p)) k (y_fds y)) y
  end.

(** ** Queueing requests *)

(** The kernel's answers to one call: to the submission and the waits of the
    descriptor, and to the push. *)
Record answers := mk_answers { an_ret : Z; an_turns : list turn; an_setup : setup; an_push_ret : Z }.

(** The common tail: push a request, keeping the rest of the state. *)
Definition push (k : answers) (a : push_args) (y : sys) : outcome (Z * sys) :=
  '(id, u) ← fasync_push_sqe (an_setup k) (an_push_ret k) a (y_u y);
  mret (id, set_u u y).

Section Calls.
Context (zcheck zcheck_readonly : fptr -> Z -> bool).
Context (byte_at : ptr -> Z).

Definition fasync_do_pread (k : answers) (fd : Z) (buf : fptr) (len offset : Z) (y : sys) : outcome (Z * sys) :=
  '(real, y, _) ← fasync_fd_resolve (an_ret k) (an_turns k) fd y;
  if real <? 0 then mret (0, set_errno (i32 (- real)) y)
  else if negb (zcheck buf len) then Trap
  else push k (mk_push FASYNC_OP_READ (i32 real) (f_addr buf) len offset (f_addr buf) len 0) y.

Definition fasync_do_pwrite (k : answers) (fd : Z) (buf : fptr) (len offset : Z) (y : sys) : outcome (Z * sys) :=
  '(real, y, _) ← fasync_fd_resolve (an_ret k) (an_turns k) fd y;
  if real <? 0 then mret (0, set_errno (i32 (- real)) y)
  else if negb (zcheck_readonly buf len) then Trap
  else push k (mk_push FASYNC_OP_WRITE (i32 real) (f_addr buf) len offset NULL 0 0) y.

Definition fasync_fsync (k : answers) (fd : Z) (y : sys) : outcome (Z * sys) :=
  '(real, y, _) ← fasync_fd_resolve (an_ret k) (an_turns k) fd y;
  if real <? 0 then mret (0, set_errno (i32 (- real)) y)
  else push k (mk_push FASYNC_OP_FSYNC (i32 real) 0 0 0 NULL 0 0) y.

Definition fasync_close_locked (k : answers) (fd : Z) (y : sys) : outcome (Z * sys) :=
  let p := fasync_pending_fd_lookup fd (y_fds y) in
  '(real, y, _) ← fasync_fd_resolve (an_ret k) (an_turns k) fd y;
  if real <? 0 then mret (0, set_errno (i32 (- real)) (drop_fd p y))
  else
    '(id, y) ← push k (mk_push FASYNC_OP_CLOSE (i32 real) 0 0 0 NULL 0 0) y;
    mret (id, if id =? 0 then y else drop_fd p y).

(** [while (i < available && path[i]) i++] *)
Fixpoint path_scan (n : nat) (start : ptr) (i : Z) : Z :=
  match n with
  | O => i
  | S n => if byte_at (start + i) =? 0 then i else path_scan n start (i + 1)
  end.

Definition fasync_do_openat (k : answers) (dirfd : Z) (path : fptr) (flags mode : Z) (y : sys) : outcome (Z * sys) :=
  if f_addr path =? NULL then mret (0, set_errno EFAULT y)
  else if f_upper path <=? f_addr path then mret (0, set_errno EFAULT y)
  else
    let available := f_upper path - f_addr path in
    let available := if 4096 <? available then 4096 else available in
    if negb (zcheck_readonly path available) then Trap
    else if path_scan (Z.to_nat available) (f_addr path) 0 =? available then mret (0, set_errno ENAMETOOLONG y)
    else push k (mk_push FASYNC_OP_OPENAT dirfd (f_addr path) (u32 mode) (u64 flags) NULL 0 0) y.

(** The locked half of the public calls: [fasync_pwrite] and [fasync_openat]
    have waited for the buffer's producers before taking the lock. *)
Definition fasync_open_pending (k : answers) (dirfd : Z) (path : fptr) (flags mode : Z) (y : sys) : outcome (Z * sys) :=
  '(id, y) ← fasync_do_openat k dirfd path flags mode y;
  if id =? 0 then mret (-1, y)
  else let '(h, fds) := fasync_pending_fd_new id (y_fds y) in mret (h, set_fds fds y).
End Calls.

(** ** Waiting, proved *)

Lemma deliver_first_nil q : deliver_first [] q = q.
Proof. done. Qed.

Lemma deliver_first_app cs1 : forall cs2 q, deliver_first (cs1 ++ cs2) q = deliver_first cs2 (deliver_first cs1 q).
Proof.
  induction cs1 as [|c cs1 IH]; intros cs2 q; [by rewrite deliver_first_nil|].
  cbn [app]. by rewrite <- !deliver_first_cons, IH.
Qed.

Definition completion_of (id : Z) (cs : list cqe) : option cqe := List.find (fun c => ce_user_data c =? id) cs.

Lemma deliver_first_some cs q c :
  is_pending q -> completion_of (q_id q) cs = Some c -> deliver_first cs q = set_result (ce_res c) q.
Proof. intros Hp Hc. unfold deliver_first. unfold completion_of in Hc. rewrite Hc. by rewrite decide_True. Qed.

Lemma deliver_first_none cs q : completion_of (q_id q) cs = None -> deliver_first cs q = q.
Proof. intros Hc. unfold deliver_first. unfold completion_of in Hc. by rewrite Hc. Qed.

Lemma deliver_first_id cs q : q_id (deliver_first cs q) = q_id q /\ q_task (deliver_first cs q) = q_task q.
Proof. unfold deliver_first. destruct (List.find _ cs); [|done]. by case_decide. Qed.

Lemma completion_of_app id cs1 cs2 :
  completion_of id (cs1 ++ cs2) = match completion_of id cs1 with Some c => Some c | None => completion_of id cs2 end.
Proof. unfold completion_of. induction cs1 as [|c cs1 IH]; [done|]. cbn. by destruct (ce_user_data c =? id). Qed.

(** The slots after some completions were delivered. *)
Definition delivered (cs : list cqe) (u u' : uring) : Prop :=
  req_slots (u_reqs u') = deliver_first cs <$> req_slots (u_reqs u).

Lemma delivered_trans cs1 cs2 u1 u2 u3 : delivered cs1 u1 u2 -> delivered cs2 u2 u3 -> delivered (cs1 ++ cs2) u1 u3.
Proof.
  unfold delivered. intros E1 E2. rewrite E2, E1, <- map_fmap_compose. apply map_fmap_ext. intros i q _. cbn.
  by rewrite deliver_first_app.
Qed.

Lemma delivered_refl u u' : u_reqs u' = u_reqs u -> delivered [] u u'.
Proof. intros E. unfold delivered. rewrite E. by rewrite <- (map_fmap_id (req_slots (u_reqs u))) at 1. Qed.

Lemma delivered_live cs u u' i q : delivered cs u u' -> live (u_reqs u) i q -> live (u_reqs u') i (deliver_first cs q).
Proof.
  intros E [Hq Hs]. split; [by rewrite E, lookup_fmap, Hq|]. unfold deliver_first. destruct (List.find _ cs); [|done].
  case_decide; [|done]. apply set_result_done.
Qed.

Lemma delivered_live_inv cs u u' i q' : delivered cs u u' -> live (u_reqs u') i q' -> exists q, live (u_reqs u) i q /\ q' = deliver_first cs q.
Proof.
  intros E [Hq Hs]. rewrite E, lookup_fmap in Hq. destruct (req_slots (u_reqs u) !! i) as [q|] eqn:Eq; [|done]. cbn in Hq. injection Hq as <-.
  exists q. split; [|done]. split; [done|]. intros H0. apply Hs. unfold deliver_first. destruct (List.find _ cs); [|done].
  rewrite decide_False; [done|]. unfold is_pending. by rewrite H0.
Qed.

Lemma pending_at_ok i q u : live (u_reqs u) i q -> pending_at i u = Ret (bool_decide (is_pending q)).
Proof.
  intros [Hq _]. unfold pending_at, slot. rewrite Hq. cbn. unfold is_pending. f_equal.
  destruct (Z.eqb_spec (q_state q) FASYNC_REQ_PENDING); [by rewrite bool_decide_true|by rewrite bool_decide_false].
Qed.

Lemma poll_posts_ok cs u pend n :
  uring_ok u pend n -> posts_ok cs u ->
  exists u', fasync_poll (posts cs u) = Ret u' /\ uring_ok u' pend n /\ cq_entries (u_ring u') = [] /\ delivered (cq_entries (u_ring u) ++ cs) u u'.
Proof.
  intros Hok Hcs. destruct (posts_inv cs u pend n Hok Hcs) as (Hok1 & E1 & E2 & _).
  destruct (drain_ok _ pend n Hok1) as (u' & E & Hok' & _ & Hc & _ & _ & _ & _ & Hs). exists u'. split; [exact E|]. split; [done|].
  split; [done|]. unfold delivered. by rewrite Hs, E1, E2.
Qed.

Lemma block_delivered cs u pend n :
  uring_ok u pend n -> posts_ok cs u ->
  exists u', fasync_block cs u = Ret u' /\ uring_ok u' pend n /\ cq_entries (u_ring u') = [] /\ delivered (cq_entries (u_ring u) ++ cs) u u'.
Proof. intros Hok Hcs. destruct (block_ok cs u pend n Hok Hcs) as (u' & E & Hok' & _ & Hc & Hs). by exists u'. Qed.

(** The kernel finds room for what it posts during the wait. *)
Fixpoint turns_ok (turns : list turn) (u : uring) : Prop :=
  match turns with
  | [] => True
  | t :: turns =>
      posts_ok (before_poll t) u /\
      forall u1, fasync_poll (posts (before_poll t) u) = Ret u1 ->
        posts_ok (in_block t) u1 /\ forall u2, fasync_block (in_block t) u1 = Ret u2 -> turns_ok turns u2
  end.

Definition arrivals (turns : list turn) : list cqe := concat (map (fun t => before_poll t ++ in_block t) turns).

Lemma req_wait_loop_ok turns : forall i u pend n q,
  uring_ok u pend n -> live (u_reqs u) i q -> turns_ok turns u ->
  (is_pending q -> turns <> [] /\ exists c, completion_of (q_id q) (cq_entries (u_ring u) ++ arrivals turns) = Some c) ->
  exists u' turns' used rest, req_wait_loop turns i u = Ret (u', turns') /\ uring_ok u' pend n /\ delivered used u u' /\
    cq_entries (u_ring u) ++ arrivals turns = used ++ rest /\ ~ is_pending (deliver_first used q).
Proof.
  induction turns as [|t turns IH]; intros i u pend n q Hok Hq Ht Hc; cbn [req_wait_loop].
  - rewrite (pending_at_ok i q u Hq). cbn [mbind outcome_bind]. destruct (decide (is_pending q)) as [Hp|Hp]; [by destruct (Hc Hp)|].
    rewrite bool_decide_false by done. exists u, [], [], (cq_entries (u_ring u) ++ arrivals []). split; [done|]. split; [done|].
    split; [by apply delivered_refl|]. by split.
  - rewrite (pending_at_ok i q u Hq). cbn [mbind outcome_bind]. destruct (decide (is_pending q)) as [Hp|Hp].
    2: { rewrite bool_decide_false by done. eexists u, (t :: turns), [], _. split; [done|]. split; [done|].
         split; [by apply delivered_refl|]. by split. }
    rewrite bool_decide_true by done. cbn [negb]. destruct Ht as [Hp1 Ht]. destruct (Hc Hp) as [_ (c & Hfind)].
    destruct (poll_posts_ok _ u pend n Hok Hp1) as (u1 & E1 & Hok1 & Hc1 & Hd1). rewrite E1. cbn [mbind outcome_bind].
    destruct (Ht u1 E1) as [Hp2 Ht2]. set (cs1 := cq_entries (u_ring u) ++ before_poll t) in *.
    pose proof (delivered_live _ _ _ _ _ Hd1 Hq) as Hq1. rewrite (pending_at_ok i _ u1 Hq1). cbn [mbind outcome_bind].
    assert (Earr : cq_entries (u_ring u) ++ arrivals (t :: turns) = cs1 ++ in_block t ++ arrivals turns).
    { unfold cs1, arrivals. cbn [map concat]. by rewrite <- !app_assoc. }
    rewrite Earr in *. destruct (decide (is_pending (deliver_first cs1 q))) as [Hp3|Hp3].
    + rewrite bool_decide_true by done. destruct (block_delivered (in_block t) u1 pend n Hok1 Hp2) as (u2 & E2 & Hok2 & Hc2 & Hd2).
      rewrite E2. cbn [mbind outcome_bind]. rewrite Hc1 in Hd2. cbn [app] in Hd2.
      pose proof (delivered_live _ _ _ _ _ Hd2 Hq1) as Hq2.
      assert (Hn1 : completion_of (q_id q) cs1 = None).
      { destruct (completion_of (q_id q) cs1) as [c1|] eqn:Ec1; [|done]. exfalso.
        rewrite (deliver_first_some _ _ _ Hp Ec1) in Hp3. by apply set_result_done in Hp3. }
      rewrite completion_of_app, Hn1 in Hfind. rewrite (deliver_first_none _ _ Hn1) in Hq2, Hp3.
      destruct (IH i u2 pend n _ Hok2 Hq2 (Ht2 u2 E2)) as (u' & turns' & used & rest & E & Hok' & Hd & Hsplit & Hnp).
      { intros Hp4. assert (Hn2 : completion_of (q_id q) (in_block t) = None).
        { destruct (completion_of (q_id q) (in_block t)) as [c1|] eqn:Ec1; [|done]. exfalso.
          rewrite (deliver_first_some _ _ _ Hp Ec1) in Hp4. by apply set_result_done in Hp4. }
        rewrite completion_of_app, Hn2 in Hfind. rewrite Hc2. cbn [app]. destruct (deliver_first_id (in_block t) q) as [-> _].
        split; [|by exists c]. by intros ->. }
      exists u', turns', (cs1 ++ in_block t ++ used), rest. split; [done|]. split; [done|].
      rewrite Hc2 in Hsplit. cbn [app] in Hsplit.
      split; [eapply delivered_trans; [exact Hd1|]; by eapply delivered_trans|].
      split; [rewrite Hsplit; by rewrite <- !app_assoc|]. rewrite !deliver_first_app, (deliver_first_none cs1 q Hn1). done.
    + rewrite bool_decide_false by done. cbn [mbind outcome_bind mret outcome_ret].
      exists u1, turns, cs1, (in_block t ++ arrivals turns). split; [|split; [done|split; [done|split; [done|done]]]].
      destruct turns; cbn [req_wait_loop]; rewrite (pending_at_ok i _ u1 Hq1); cbn [mbind outcome_bind]; by rewrite bool_decide_false.
Qed.

(** The submission before a wait leaves the requests and the completions. *)
Lemma submit_first_ok ret u pend n :
  uring_ok u pend n ->
  exists rc u', fasync_submit ret u = Ret (rc, u') /\ uring_ok u' [] n /\ u_reqs u' = u_reqs u /\
    cq_entries (u_ring u') = cq_entries (u_ring u) /\ u_inflight u' = u_inflight u.
Proof.
  intros Hok. destruct (submit_ok ret u pend (uk_ring _ _ _ Hok)) as (u' & E & Hs). destruct (su_same _ _ _ Hs) as (S1 & S2 & _).
  destruct (su_cqes _ _ _ Hs) as (_ & C1 & C2 & C3 & C4). eexists _, u'. split; [exact E|].
  split; [split; [apply Hs|rewrite S1; apply Hok|by rewrite S1, S2, (uk_inflight _ _ _ Hok)]|]. split; [done|]. split; [|done].
  unfold cq_entries. rewrite C2, C4. generalize (Z.to_nat (u32 (rg_cq_tail (u_ring u) - rg_local_cq_head (u_ring u)))).
  generalize (rg_local_cq_head (u_ring u)). intros h k. revert h. induction k as [|k IH]; intros h; [done|]. cbn [cq_from]. by rewrite C1, C3, IH.
Qed.

(** What the wait for the request in slot [i] relies on: room for what the
    kernel posts, and a completion that carries the handle of a pending
    request. *)
Definition wait_fed (ret : Z) (turns : list turn) (i : Z) (u : uring) (q : req) : Prop :=
  is_pending q ->
  turns <> [] /\ (forall rc u1, fasync_submit ret u = Ret (rc, u1) -> turns_ok turns u1) /\
  exists c, completion_of (q_id q) (cq_entries (u_ring u) ++ arrivals turns) = Some c.

(** The result the wait reports: that of the first completion. *)
Definition wait_result (turns : list turn) (u : uring) (q : req) : Z :=
  if decide (is_pending q)
  then match completion_of (q_id q) (cq_entries (u_ring u) ++ arrivals turns) with Some c => ce_res c | None => q_result q end
  else q_result q.

Lemma req_wait_ok ret turns i u pend n q :
  uring_ok u pend n -> live (u_reqs u) i q -> wait_fed ret turns i u q ->
  exists u' turns' used pend', fasync_req_wait ret turns i u = Ret (wait_result turns u q, u', turns') /\ uring_ok u' pend' n /\
    delivered used u u' /\ ~ is_pending (deliver_first used q).
Proof.
  intros Hok Hq Hfed. unfold fasync_req_wait. rewrite (pending_at_ok i q u Hq). cbn [mbind outcome_bind].
  assert (Hmain : forall u1 pend1, uring_ok u1 pend1 n -> u_reqs u1 = u_reqs u -> cq_entries (u_ring u1) = cq_entries (u_ring u) ->
    (is_pending q -> turns_ok turns u1) ->
    exists u' turns' used pend', ('(u, turns) ← req_wait_loop turns i u1; q ← slot (u_reqs u) i; mret (q_result q, u, turns)) =
        Ret (wait_result turns u q, u', turns') /\ uring_ok u' pend' n /\ delivered used u u' /\ ~ is_pending (deliver_first used q)).
  { intros u1 pend1 Hok1 Er Ec Hto. rewrite <- Er in Hq. unfold wait_result. destruct (decide (is_pending q)) as [Hp|Hp].
    - destruct (Hfed Hp) as (Hne & _ & c & Hc). rewrite Hc, <- Ec in *.
      destruct (req_wait_loop_ok turns i u1 pend1 n q Hok1 Hq (Hto Hp)) as (u' & turns' & used & rest & E & Hok' & Hd & Hsplit & Hnp);
        [intros _; split; [done|by exists c]|].
      rewrite E. cbn [mbind outcome_bind]. destruct (delivered_live _ _ _ _ _ Hd Hq) as [Hq' _]. unfold slot. rewrite Hq'. cbn [deref mbind outcome_bind].
      exists u', turns', used, pend1. split; [|split; [done|split; [|done]]].
      + rewrite Hsplit, completion_of_app in Hc. destruct (completion_of (q_id q) used) as [c1|] eqn:E1.
        * injection Hc as ->. by rewrite (deliver_first_some _ _ _ Hp E1).
        * exfalso. apply Hnp. by rewrite (deliver_first_none _ _ E1).
      + unfold delivered in *. by rewrite <- Er.
    - exists u1, turns, [], pend1. split; [|split; [done|split; [by apply delivered_refl|done]]].
      assert (El : req_wait_loop turns i u1 = Ret (u1, turns))
        by (destruct turns; cbn [req_wait_loop]; rewrite (pending_at_ok i q u1 Hq); cbn [mbind outcome_bind]; by rewrite bool_decide_false).
      rewrite El. cbn [mbind outcome_bind]. unfold slot. destruct Hq as [Hq _]. by rewrite Hq. }
  destruct (decide (is_pending q)) as [Hp|Hp].
  - rewrite bool_decide_true by done. destruct (submit_first_ok ret u pend n Hok) as (rc & u1 & E & Hok1 & Er & Ec & _). rewrite E.
    cbn [mbind outcome_bind]. apply (Hmain u1 []); [done..|]. intros _. destruct (Hfed Hp) as (_ & Ht & _). by eapply Ht.
  - rewrite bool_decide_false by done. cbn [mbind outcome_bind mret outcome_ret]. by apply (Hmain u pend).
Qed.

Lemma lookup_live s fl n id i q : reqs_ok s fl n -> 0 <= id -> live s i q -> q_id q = id -> fasync_req_lookup id s = Ret (Some i).
Proof.
  intros Hok Hid [Hq Hs] E. destruct (fasync_req_lookup_ok s fl n Hok id Hid) as (o & -> & Ho). f_equal. apply Ho. by exists q.
Qed.

Lemma lookup_dead s fl n id : reqs_ok s fl n -> 0 <= id -> (forall i q, live s i q -> q_id q <> id) -> fasync_req_lookup id s = Ret None.
Proof.
  intros Hok Hid Hno. destruct (fasync_req_lookup_ok s fl n Hok id Hid) as (o & -> & Ho). f_equal. destruct o as [i|]; [|done].
  destruct (proj1 (Ho i) eq_refl) as (q & Hq & Hs & E). by destruct (Hno i q).
Qed.

Lemma result_ok ret turns y pend n i q :
  uring_ok (y_u y) pend n -> live (u_reqs (y_u y)) i q -> 0 <= q_id q -> wait_fed ret turns i (y_u y) q ->
  exists y' turns' pend', fasync_result ret turns (q_id q) y = Ret (wait_result turns (y_u y) q, y', turns') /\ uring_ok (y_u y') pend' n /\
    y_fds y' = y_fds y /\
    (exists used, forall j r, live (u_reqs (y_u y')) j r <-> j <> i /\ exists q0, live (u_reqs (y_u y)) j q0 /\ r = deliver_first used q0) /\
    y_completed y' = y_completed y ++ (if q_task q =? NULL then [] else [(q_task q, wait_result turns (y_u y) q)]).
Proof.
  intros Hok Hq Hid Hfed. destruct (uk_reqs _ _ _ Hok) as (fl & Hr). unfold fasync_result.
  rewrite (lookup_live _ _ _ _ _ _ Hr Hid Hq eq_refl). cbn [mbind outcome_bind].
  destruct (req_wait_ok ret turns i (y_u y) pend n q Hok Hq Hfed) as (u' & turns' & used & pend' & E & Hok' & Hd & Hnp). rewrite E.
  cbn [mbind outcome_bind]. pose proof (delivered_live _ _ _ _ _ Hd Hq) as Hq'. set (q' := deliver_first used q) in *.
  destruct (deliver_first_id used q) as [Eid Etask]. fold q' in Eid, Etask. pose proof Hq' as [Hslot Hs'].
  unfold slot. rewrite Hslot. cbn [deref mbind outcome_bind]. rewrite Etask.
  destruct (uk_reqs _ _ _ Hok') as (fl' & Hr').
  assert (Hrel : forall s, (s = u_reqs u' \/ s = reqs_set i (clear_task q') (u_reqs u')) ->
    exists s', fasync_req_release i s = Ret s' /\ (exists fl, reqs_ok s' fl n) /\ n_pending s' = n_pending (u_reqs u') /\
      exists used, forall j r, live s' j r <-> j <> i /\ exists q0, live (u_reqs (y_u y)) j q0 /\ r = deliver_first used q0).
  { intros s Hs.
    assert (H : exists x, reqs_ok s fl' n /\ live s i x /\ ~ is_pending x /\ (forall j r, j <> i -> live s j r <-> live (u_reqs u') j r) /\
      n_pending s = n_pending (u_reqs u')).
    { destruct Hs as [->| ->]; [by exists q'|]. exists (clear_task q'). split; [by eapply reqs_ok_set|].
      split; [split; [cbn; by rewrite lookup_insert_eq|done]|]. split; [done|].
      split; [intros j r Hj; unfold live; cbn; by rewrite lookup_insert_ne|].
      rewrite (n_pending_set i q') by done. unfold is_pending, clear_task in *. cbn. rewrite !decide_False by done. lia. }
    destruct H as (x & Hrs & Hx & Hxp & Hsame & Hn). destruct (release_live s fl' n i x Hrs Hx) as (s' & Es & Hrs' & Hc & Hlive).
    exists s'. split; [done|]. split; [by eexists|]. split; [rewrite Hc, decide_False by done; lia|]. exists used.
    intros j r. rewrite Hlive. split.
    - intros [Hj Hne]. apply Hsame in Hj; [|done]. split; [done|]. by apply (delivered_live_inv used (y_u y) u').
    - intros (Hne & q0 & Hq0 & ->). split; [|done]. apply Hsame; [done|]. by eapply delivered_live. }
  destruct (Z.eqb_spec (q_task q) NULL) as [Et|Et].
  - destruct (Hrel (u_reqs u') ltac:(by left)) as (s' & Es & Hrs & Hn & Hlive). cbn [y_u set_u]. rewrite Es. cbn [mbind outcome_bind].
    eexists _, turns', pend'. split; [done|]. split; [|split; [done|split; [exact Hlive|by rewrite app_nil_r]]].
    split; cbn; [apply Hok'|done|by rewrite Hn, (uk_inflight _ _ _ Hok')].
  - destruct (Hrel _ ltac:(by right)) as (s' & Es & Hrs & Hn & Hlive). cbn [y_u u_reqs set_reqs]. rewrite Es. cbn [mbind outcome_bind].
    eexists _, turns', pend'. split; [done|]. split; [|split; [done|split; [exact Hlive|done]]].
    split; cbn; [apply Hok'|done|by rewrite Hn, (uk_inflight _ _ _ Hok')].
Qed.

(** A result is collected once.  For a live request that has completed, or
    whose completion the kernel posts while it is waited for, [fasync_result]
    returns the result of the first completion that carries its handle, whatever
    other completions arrive; it reports that result to the task that owns the
    request's buffer, if any, and the handle names nothing afterwards. For a
    handle that names nothing it returns [-EINVAL] and changes nothing. *)
Theorem result_returns (ret : Z) (turns : list turn) (y : sys) (id : Z) :
  uring_reachable (y_u y) -> rg_ready (u_ring (y_u y)) = true -> 0 <= id ->
  (forall i q, live (u_reqs (y_u y)) i q -> q_id q = id -> wait_fed ret turns i (y_u y) q ->
    exists y' turns', fasync_result ret turns id y = Ret (wait_result turns (y_u y) q, y', turns') /\
      fasync_req_lookup id (u_reqs (y_u y')) = Ret None /\ y_fds y' = y_fds y /\
      y_completed y' = y_completed y ++ (if q_task q =? NULL then [] else [(q_task q, wait_result turns (y_u y) q)])) /\
  ((forall i q, live (u_reqs (y_u y)) i q -> q_id q <> id) -> fasync_result ret turns id y = Ret (- EINVAL, y, turns)).
Proof.
  intros (pend & n & Hinv & _)%reachable_inv Hready Hid.
  destruct Hinv as [Hok|(_ & E2 & _)]; [|by rewrite E2 in Hready]. destruct (uk_reqs _ _ _ Hok) as (fl & Hr). split.
  - intros i q Hq <- Hfed. destruct (result_ok ret turns y pend n i q Hok Hq Hid Hfed) as (y' & turns' & pend' & E & Hok' & Hf & (used & Hlive) & Hc).
    exists y', turns'. split; [done|]. split; [|done]. destruct (uk_reqs _ _ _ Hok') as (fl' & Hr'). eapply lookup_dead; [done..|].
    intros j r (Hne & q0 & Hq0 & ->)%Hlive Eid. destruct (deliver_first_id used q0) as [E1 _]. apply Hne.
    rewrite <- (live_index _ _ _ j q0 Hr Hq0), <- (live_index _ _ _ i q Hr Hq). congruence.
  - intros Hno. unfold fasync_result. by rewrite (lookup_dead _ _ _ _ Hr Hid Hno).
Qed.

(** ** Pending descriptors *)

Lemma lookup_range fd fds k :
  fasync_pending_fd_lookup fd fds = Some k -> fd = - (Z.of_nat k + 2) /\ (k < FASYNC_MAX_PENDING_FDS)%nat /\
  exists p, fds !! k = Some p /\ pf_used p = true.
Proof.
  unfold fasync_pending_fd_lookup, FASYNC_MAX_PENDING_FDS. destruct (Z.leb_spec (-1) fd); [done|]. destruct (Z.ltb_spec fd (- (Z.of_nat 64 + 1))); [done|].
  cbn [orb]. destruct (fds !! Z.to_nat (- fd - 2)) as [p|] eqn:Ep; [|done]. destruct (pf_used p) eqn:Eu; [|done]. intros [= <-].
  split; [lia|]. split; [lia|]. by exists p.
Qed.

Lemma lookup_handle k p fds :
  fds !! k = Some p -> pf_used p = true -> (k < FASYNC_MAX_PENDING_FDS)%nat -> fasync_pending_fd_lookup (- (Z.of_nat k + 2)) fds = Some k.
Proof.
  intros Hp Hu Hk. unfold fasync_pending_fd_lookup, FASYNC_MAX_PENDING_FDS in *. destruct (Z.leb_spec (-1) (- (Z.of_nat k + 2))); [lia|].
  destruct (Z.ltb_spec (- (Z.of_nat k + 2)) (- (Z.of_nat 64 + 1))); [lia|]. cbn [orb].
  replace (Z.to_nat (- - (Z.of_nat k + 2) - 2)) with k by lia. by rewrite Hp, Hu.
Qed.

Lemma pending_fd_new_spec id fds : forall i,
  let '(h, fds') := pending_fd_new_from i id fds in
  (h = -1 /\ fds' = fds /\ Forall (fun p => pf_used p = true) fds) \/
  (exists k p, fds !! k = Some p /\ pf_used p = false /\ h = - (Z.of_nat (i + k) + 2) /\ fds' = <[k := mk_pfd true false id (pf_result p)]> fds).
Proof.
  induction fds as [|p fds IH]; intros i; cbn [pending_fd_new_from]; [by left|]. destruct (pf_used p) eqn:Hu.
  - specialize (IH (S i)). destruct (pending_fd_new_from (S i) id fds) as [h fds']. destruct IH as [(-> & -> & Hall)|(k & q & Hk & Hq & -> & ->)].
    + left. split; [done|]. split; [done|]. by constructor.
    + right. exists (S k), q. split; [done|]. split; [done|]. split; [f_equal; lia|done].
  - right. exists 0%nat, p. split; [done|]. split; [done|]. split; [f_equal; lia|done].
Qed.

(** Handles of pending opens.  [fasync_pending_fd_new] gives, while a slot is
    free, a handle between -65 and -2 that named nothing before and now names
    the open, and it leaves every other handle alone; when all 64 are in use it
    gives -1 and changes nothing.  No other number, -1 and the smallest [int]
    included, ever names a pending open. *)
Theorem pending_fd_handles (id : Z) (fds : list pfd) :
  length fds = FASYNC_MAX_PENDING_FDS ->
  let '(h, fds') := fasync_pending_fd_new id fds in
  (forall fd k, fasync_pending_fd_lookup fd fds' = Some k -> -65 <= fd <= -2) /\
  ((h = -1 /\ fds' = fds /\ Forall (fun p => pf_used p = true) fds) \/
   (-65 <= h <= -2 /\ fasync_pending_fd_lookup h fds = None /\
    (exists k p, fasync_pending_fd_lookup h fds' = Some k /\ fds' !! k = Some p /\ pf_id p = id /\ pf_resolved p = false) /\
    forall fd, fd <> h -> fasync_pending_fd_lookup fd fds' = fasync_pending_fd_lookup fd fds)).
Proof.
  intros Hlen. unfold fasync_pending_fd_new. pose proof (pending_fd_new_spec id fds 0) as H.
  destruct (pending_fd_new_from 0 id fds) as [h fds']. split.
  { intros fd k (-> & Hk & _)%lookup_range. unfold FASYNC_MAX_PENDING_FDS in Hk. lia. }
  destruct H as [H|(k & p & Hp & Hu & -> & ->)]; [by left|right]. cbn [Nat.add].
  pose proof (lookup_lt_Some _ _ _ Hp) as Hk. rewrite Hlen in Hk.
  split; [unfold FASYNC_MAX_PENDING_FDS in Hk; lia|]. split; [|split].
  - destruct (fasync_pending_fd_lookup _ fds) as [k'|] eqn:E; [|done]. apply lookup_range in E as (E & _ & p' & Hp' & Hu').
    assert (k' = k) as -> by lia. congruence.
  - eexists k, _. split; [eapply lookup_handle; [apply list_lookup_insert_eq; by rewrite Hlen|done|done]|].
    split; [apply list_lookup_insert_eq; by rewrite Hlen|done].
  - intros fd Hne. unfold fasync_pending_fd_lookup. destruct ((-1 <=? fd) || _) eqn:E; [done|].
    apply orb_false_elim in E as [E1%Z.leb_gt _]. rewrite list_lookup_insert_ne; [done|]. lia.
Qed.

(** A pending open is resolved once.  The first call that needs the
    descriptor collects the open's result and keeps it: every later resolution
    of the handle gives the same number without waiting, whatever has happened
    to the requests since. *)
Theorem fd_resolve_once (ret : Z) (turns : list turn) (fd r : Z) (y y' : sys) (turns' : list turn) (k : nat) :
  fasync_pending_fd_lookup fd (y_fds y) = Some k ->
  fasync_fd_resolve ret turns fd y = Ret (r, y', turns') ->
  fasync_pending_fd_lookup fd (y_fds y') = Some k /\
  forall ret2 turns2 y2, y_fds y2 = y_fds y' -> fasync_fd_resolve ret2 turns2 fd y2 = Ret (r, y2, turns2).
Proof.
  intros Hk E. pose proof Hk as (Efd & Hlt & p & Hp & Hu)%lookup_range. unfold fasync_fd_resolve in *.
  destruct (Z.leb_spec 0 fd) as [|_]; [lia|]. rewrite Hk, Hp in E. cbn [deref mbind outcome_bind] in E.
  destruct (pf_resolved p) eqn:Hres.
  - apply Ret_inj in E. injection E as <- <- <-. split; [done|]. intros ret2 turns2 y2 Ey. rewrite Ey, Hk, Hp. cbn. by rewrite Hres.
  - apply bind_Ret_inv in E as ([[r1 y1] turns1] & E1 & E2). apply Ret_inj in E2. injection E2 as <- <- <-.
    assert (Hf : y_fds y1 = y_fds y).
    { unfold fasync_result in E1. apply bind_Ret_inv in E1 as (o & _ & E1). destruct o as [i|]; [|apply Ret_inj in E1; injection E1 as _ <- _; done].
      apply bind_Ret_inv in E1 as ([[r2 u2] t2] & _ & E1). apply bind_Ret_inv in E1 as (q & _ & E1). apply bind_Ret_inv in E1 as (s & _ & E1).
      apply Ret_inj in E1. injection E1 as _ <- _. by destruct (q_task q =? NULL). }
    cbn [y_fds set_fds]. rewrite Hf. assert (Hins : <[k := mk_pfd (pf_used p) true (pf_id p) r1]> (y_fds y) !! k = Some (mk_pfd (pf_used p) true (pf_id p) r1))
      by (apply list_lookup_insert_eq; by apply lookup_lt_Some in Hp).
    assert (Hlk : fasync_pending_fd_lookup fd (<[k := mk_pfd (pf_used p) true (pf_id p) r1]> (y_fds y)) = Some k).
    { rewrite Efd. by eapply lookup_handle. }
    split; [done|]. intros ret2 turns2 y2 Ey. rewrite Ey, Hlk, Hins. done.
Qed.

Lemma open_pending_full zcheck_readonly byte_at k dirfd path flags mode y id y' :
  fasync_do_openat zcheck_readonly byte_at k dirfd path flags mode y = Ret (id, y') -> id <> 0 ->
  Forall (fun p => pf_used p = true) (y_fds y') ->
  fasync_open_pending zcheck_readonly byte_at k dirfd path flags mode y = Ret (-1, y').
Proof.
  intros E Hid Hall. unfold fasync_open_pending. rewrite E. cbn [mbind outcome_bind]. rewrite (proj2 (Z.eqb_neq _ _) Hid).
  unfold fasync_pending_fd_new. pose proof (pending_fd_new_spec id (y_fds y') 0) as H.
  destruct (pending_fd_new_from 0 id (y_fds y')) as [h fds']. destruct H as [(-> & -> & _)|(j & p & Hp & Hu & _)].
  - by destruct y'.
  - exfalso. rewrite Forall_lookup in Hall. rewrite (Hall j p Hp) in Hu. done.
Qed.

(** A refused pending open leaks its request.  When all 64 handles are in
    use, [fasync_open_pending] has already queued the open: it returns -1, and
    the request stays live and pending with no handle that names it. *)
Theorem open_pending_leaks zcheck_readonly byte_at (k : answers) (dirfd : Z) (path : fptr) (flags mode : Z) (y y' : sys) (id : Z) :
  uring_reachable (y_u y) -> setup_ok (an_setup k) ->
  fasync_do_openat zcheck_readonly byte_at k dirfd path flags mode y = Ret (id, y') -> id <> 0 ->
  Forall (fun p => pf_used p = true) (y_fds y) ->
  fasync_open_pending zcheck_readonly byte_at k dirfd path flags mode y = Ret (-1, y') /\
  exists i q, live (u_reqs (y_u y')) i q /\ is_pending q /\ q_id q = id.
Proof.
  intros (pend & n & Hinv & Hn)%reachable_inv Hk E Hid Hall.
  assert (Hpush : exists a u', fasync_push_sqe (an_setup k) (an_push_ret k) a (y_u y) = Ret (id, u') /\ y' = set_u u' y).
  { unfold fasync_do_openat in E. repeat match type of E with
      | (if ?b then _ else _) = _ => destruct b; try (apply Ret_inj in E; injection E as <- _; done); try discriminate E
      end.
    unfold push in E. apply bind_Ret_inv in E as ([id' u'] & E1 & E2). apply Ret_inj in E2. injection E2 as -> <-. eexists _, u'. by split. }
  destruct Hpush as (a & u' & Ep & ->). split; [apply (open_pending_full _ _ _ _ _ _ _ _ id); [done|done|exact Hall]|].
  destruct (push_ok (an_setup k) (an_push_ret k) a (y_u y) pend n Hinv Hk Hn) as (id' & u1 & pend' & n' & E' & _ & _ & _ & Hl & _).
  rewrite Ep in E'. apply Ret_inj in E'. injection E' as <- <-. unfold push_live in Hl. rewrite (proj2 (Z.eqb_neq _ _) Hid) in Hl.
  destruct Hl as (i & q & Eid & Hp & _ & _ & _ & _ & Hl). exists i, q. split; [apply Hl; by left|]. by split.
Qed.

(** ** Waiting for everything *)

Lemma n_pending_zero s : n_pending s = 0 <-> forall i q, req_slots s !! i = Some q -> ~ is_pending q.
Proof.
  split; [|apply n_pending_none]. unfold n_pending. intros H0 i q Hq Hp. assert (H1 : size (filter (fun kv : Z * req => is_pending kv.2) (req_slots s)) = 0%nat) by lia.
  apply map_size_empty_inv in H1. assert (H2 : filter (fun kv : Z * req => is_pending kv.2) (req_slots s) !! i = Some q) by by apply map_lookup_filter_Some.
  by rewrite H1, lookup_empty in H2.
Qed.

(** The kernel answers every pending request during the wait. *)
Definition all_fed (turns : list turn) (u : uring) : Prop :=
  forall i q, req_slots (u_reqs u) !! i = Some q -> is_pending q ->
    exists c, completion_of (q_id q) (cq_entries (u_ring u) ++ arrivals turns) = Some c.

Lemma all_fed_step cs rest u u' :
  delivered cs u u' ->
  (forall i q, req_slots (u_reqs u) !! i = Some q -> is_pending q -> exists c, completion_of (q_id q) (cs ++ rest) = Some c) ->
  forall i q, req_slots (u_reqs u') !! i = Some q -> is_pending q -> exists c, completion_of (q_id q) rest = Some c.
Proof.
  intros Hd Hfed i q' Hq' Hp'. unfold delivered in Hd. rewrite Hd, lookup_fmap in Hq'. destruct (req_slots (u_reqs u) !! i) as [q|] eqn:Hq; [|done].
  cbn in Hq'. injection Hq' as <-. assert (Hp : is_pending q).
  { unfold deliver_first in Hp'. destruct (List.find _ cs); [|done]. case_decide; done. }
  destruct (Hfed i q Hq Hp) as (c & Hc). rewrite completion_of_app in Hc. destruct (completion_of (q_id q) cs) as [c1|] eqn:E.
  - rewrite (deliver_first_some _ _ _ Hp E) in Hp'. by apply set_result_done in Hp'.
  - rewrite (deliver_first_none _ _ E). by exists c.
Qed.

Lemma wait_all_loop_ok turns : forall spin u pend n,
  uring_ok u pend n -> turns_ok turns u -> all_fed turns u -> (turns = [] -> cq_entries (u_ring u) = []) ->
  (spin + N.of_nat (length turns) < MAX_SPIN)%N ->
  exists u', wait_all_loop turns spin u = Ret (0, u') /\ uring_ok u' pend n /\ n_pending (u_reqs u') = 0.
Proof.
  induction turns as [|t turns IH]; intros spin u pend n Hok Ht Hfed Hemp Hspin; cbn [wait_all_loop];
    (destruct (N.leb_spec MAX_SPIN spin) as [|_]; [cbn [length] in Hspin; lia|]).
  - rewrite (uk_inflight _ _ _ Hok). assert (H0 : n_pending (u_reqs u) = 0).
    { apply n_pending_zero. intros i q Hq Hp. destruct (Hfed i q Hq Hp) as (c & Hc). by rewrite (Hemp eq_refl) in Hc. }
    rewrite H0. by exists u.
  - destruct (Z.eqb_spec (u_inflight u) 0) as [H0|_]; [exists u; split; [done|]; split; [done|]; by rewrite <- (uk_inflight _ _ _ Hok)|].
    destruct Ht as [Hp1 Ht]. destruct (poll_posts_ok _ u pend n Hok Hp1) as (u1 & E1 & Hok1 & Hc1 & Hd1). rewrite E1. cbn [mbind outcome_bind].
    destruct (Ht u1 E1) as [Hp2 Ht2].
    assert (Hfed1 := all_fed_step (cq_entries (u_ring u) ++ before_poll t) (in_block t ++ arrivals turns) u u1 Hd1
      ltac:(intros i q Hq Hp; destruct (Hfed i q Hq Hp) as (c & Hc); exists c; rewrite <- Hc; unfold arrivals; cbn [map concat]; by rewrite <- !app_assoc)).
    destruct (Z.eqb_spec (u_inflight u1) 0) as [H0|_]; [exists u1; split; [done|]; split; [done|]; by rewrite <- (uk_inflight _ _ _ Hok1)|].
    destruct (block_delivered (in_block t) u1 pend n Hok1 Hp2) as (u2 & E2 & Hok2 & Hc2 & Hd2). rewrite E2. cbn [mbind outcome_bind].
    rewrite Hc1 in Hd2. cbn [app] in Hd2. apply (IH _ u2 pend n Hok2 (Ht2 u2 E2)); [|done|cbn [length] in Hspin; lia].
    intros i q Hq Hp. rewrite Hc2. cbn [app]. by eapply (all_fed_step (in_block t)).
Qed.

(** Waiting for everything ends.  When the kernel posts a completion for
    every pending request during the wait (which may take fewer than 100000000
    turns), [fasync_wait_all] returns 0, and then no request is pending and none
    is counted in flight. *)
Theorem wait_all_returns (ret : Z) (turns : list turn) (u : uring) :
  uring_reachable u -> turns <> [] -> (N.of_nat (length turns) < MAX_SPIN)%N -> all_fed turns u ->
  (forall rc u1, fasync_submit ret u = Ret (rc, u1) -> turns_ok turns u1) ->
  exists u', fasync_wait_all_locked ret turns u = Ret (0, u') /\ n_pending (u_reqs u') = 0 /\ u_inflight u' = 0.
Proof.
  intros (pend & n & Hinv & _)%reachable_inv Hne Hlen Hfed Ht. unfold fasync_wait_all_locked. destruct Hinv as [Hok|(E1 & E2 & E3 & -> & ->)].
  - destruct (submit_first_ok ret u pend n Hok) as (rc & u1 & E & Hok1 & Er & Ec & _). unfold fasync_submit in *. rewrite E. cbn [mbind outcome_bind].
    destruct (wait_all_loop_ok turns 0 u1 [] n Hok1 (Ht _ _ E)) as (u' & -> & Hok' & H0); [|by intros ->|lia|].
    + unfold all_fed. by rewrite Er, Ec.
    + exists u'. split; [done|]. split; [done|]. by rewrite (uk_inflight _ _ _ Hok').
  - unfold fasync_submit_locked. rewrite E2. cbn [rg_ready ring_static negb orb mbind outcome_bind mret outcome_ret].
    exists u. split; [|split; [rewrite E1; apply n_pending_none; by intros i q ->%static_slots|done]].
    destruct turns; cbn [wait_all_loop]; by rewrite E3.
Qed.

(** ** Concrete runs *)

(** The state of Ring's run, with task 640 owning the second read's buffer. *)
Definition sys_ops : list ring_act := ring_ops ++ [UTrack (pack_id 3 2) 640].
Definition sys_u : uring := run_state sys_ops.
Definition sys_state : sys := mk_sys sys_u (replicate FASYNC_MAX_PENDING_FDS pfd_zero) [].

Lemma sys_u_reachable : uring_reachable sys_u.
Proof. apply (reachable_run sys_ops); vm_compute; reflexivity. Qed.

(** The kernel completes the third request while the thread is blocked. *)
Definition sys_turns : list turn := [mk_turn [] [mk_cqe (pack_id 3 2) 48; mk_cqe (pack_id 1 0) (-5)]].

Fixpoint turns_okb (turns : list turn) (u : uring) : bool :=
  match turns with
  | [] => true
  | t :: turns =>
      posts_okb (before_poll t) u &&
      match fasync_poll (posts (before_poll t) u) with
      | Ret u1 => posts_okb (in_block t) u1 && match fasync_block (in_block t) u1 with Ret u2 => turns_okb turns u2 | _ => true end
      | _ => true
      end
  end.

Lemma turns_okb_ok turns : forall u, turns_okb turns u = true -> turns_ok turns u.
Proof.
  induction turns as [|t turns IH]; intros u; cbn; [done|]. intros [H1%posts_okb_ok H2]%andb_prop. split; [done|].
  intros u1 E. rewrite E in H2. apply andb_prop in H2 as [H2%posts_okb_ok H3]. split; [done|]. intros u2 E2. rewrite E2 in H3. by apply IH.
Qed.

Definition submit_turns_okb (ret : Z) (turns : list turn) (u : uring) : bool :=
  match fasync_submit ret u with Ret (_, u1) => turns_okb turns u1 | _ => true end.

Lemma submit_turns_okb_ok ret turns u :
  submit_turns_okb ret turns u = true -> forall rc u1, fasync_submit ret u = Ret (rc, u1) -> turns_ok turns u1.
Proof. unfold submit_turns_okb. intros H rc u1 E. rewrite E in H. by apply turns_okb_ok. Qed.

Definition all_fedb (turns : list turn) (u : uring) : bool :=
  forallb (fun kv : Z * req => if decide (is_pending kv.2) then match completion_of (q_id kv.2) (cq_entries (u_ring u) ++ arrivals turns) with Some _ => true | None => false end else true)
    (map_to_list (req_slots (u_reqs u))).

Lemma all_fedb_ok turns u : all_fedb turns u = true -> all_fed turns u.
Proof.
  unfold all_fedb. rewrite forallb_forall. intros H i q Hq Hp. specialize (H (i, q)). cbn in H. rewrite decide_True in H by done.
  destruct (completion_of _ _) as [c|]; [by exists c|]. by discriminate H; apply list_elem_of_In, elem_of_map_to_list.
Qed.

Definition slot_2 : req := match req_slots (u_reqs sys_u) !! 2 with Some q => q | None => req_zero end.

Lemma slot_2_live : live (u_reqs sys_u) 2 slot_2.
Proof. split; vm_compute; [reflexivity|discriminate]. Qed.

Lemma sys_turns_ok : forall rc u1, fasync_submit 1 sys_u = Ret (rc, u1) -> turns_ok sys_turns u1.
Proof. apply submit_turns_okb_ok. vm_compute. reflexivity. Qed.

Lemma slot_2_fed : wait_fed 1 sys_turns 2 (y_u sys_state) slot_2.
Proof. intros _. split; [discriminate|]. split; [exact sys_turns_ok|]. eexists. vm_compute. reflexivity. Qed.

Lemma slot_2_id : q_id slot_2 = pack_id 3 2.
Proof. vm_compute. reflexivity. Qed.

Lemma sys_state_ready : rg_ready (u_ring (y_u sys_state)) = true.
Proof. vm_compute. reflexivity. Qed.

Lemma result_returns_witness :
  wait_result sys_turns sys_u slot_2 = 48 /\
  exists y' turns', fasync_result 1 sys_turns (pack_id 3 2) sys_state = Ret (wait_result sys_turns (y_u sys_state) slot_2, y', turns') /\
    fasync_req_lookup (pack_id 3 2) (u_reqs (y_u y')) = Ret None /\ y_fds y' = y_fds sys_state /\
    y_completed y' = y_completed sys_state ++ (if q_task slot_2 =? NULL then [] else [(q_task slot_2, wait_result sys_turns (y_u sys_state) slot_2)]).
Proof.
  split; [vm_compute; reflexivity|]. assert (Hid : 0 <= pack_id 3 2) by (vm_compute; discriminate).
  exact (proj1 (result_returns 1 sys_turns sys_state (pack_id 3 2) sys_u_reachable sys_state_ready Hid) 2 slot_2 slot_2_live slot_2_id slot_2_fed).
Defined.

Lemma pending_fd_handles_witness :
  let '(h, fds') := fasync_pending_fd_new 77 (replicate FASYNC_MAX_PENDING_FDS pfd_zero) in
  (forall fd k, fasync_pending_fd_lookup fd fds' = Some k -> -65 <= fd <= -2) /\
  ((h = -1 /\ fds' = replicate FASYNC_MAX_PENDING_FDS pfd_zero /\ Forall (fun p => pf_used p = true) (replicate FASYNC_MAX_PENDING_FDS pfd_zero)) \/
   (-65 <= h <= -2 /\ fasync_pending_fd_lookup h (replicate FASYNC_MAX_PENDING_FDS pfd_zero) = None /\
    (exists k p, fasync_pending_fd_lookup h fds' = Some k /\ fds' !! k = Some p /\ pf_id p = 77 /\ pf_resolved p = false) /\
    forall fd, fd <> h -> fasync_pending_fd_lookup fd fds' = fasync_pending_fd_lookup fd (replicate FASYNC_MAX_PENDING_FDS pfd_zero))).
Proof. apply (pending_fd_handles 77 (replicate FASYNC_MAX_PENDING_FDS pfd_zero)). reflexivity. Defined.

Definition state_of {A B} (d : A) (o : outcome (Z * A * B)) : A := match o with Ret (_, a, _) => a | _ => d end.
Definition rest_of {A B} (d : B) (o : outcome (Z * A * B)) : B := match o with Ret (_, _, b) => b | _ => d end.

Lemma ret3_eta {A B} (o : outcome (Z * A * B)) (v : Z) (a : A) (b : B) :
  (match o with Ret (i, _, _) => i =? v | _ => false end) = true ->
  o = Ret (v, state_of a o, rest_of b o).
Proof. destruct o as [[[i y] t]| | |]; try discriminate. by intros ->%Z.eqb_eq. Qed.

Definition snd_of {A} (d : A) (o : outcome (Z * A)) : A := match o with Ret (_, a) => a | _ => d end.

Lemma ret2_eta {A} (o : outcome (Z * A)) (v : Z) (a : A) :
  (match o with Ret (i, _) => i =? v | _ => false end) = true -> o = Ret (v, snd_of a o).
Proof. destruct o as [[i y]| | |]; try discriminate. by intros ->%Z.eqb_eq. Qed.

(** The third request is an open whose handle is -2. *)
Definition open_state : sys := set_fds (snd (fasync_pending_fd_new (pack_id 3 2) (y_fds sys_state))) sys_state.
Definition resolved : outcome (Z * sys * list turn) := fasync_fd_resolve 1 sys_turns (-2) open_state.
Definition resolved_state : sys := state_of open_state resolved.

Definition resolved_turns : list turn := rest_of [] resolved.

Lemma resolved_is : fasync_fd_resolve 1 sys_turns (-2) open_state = Ret (48, resolved_state, resolved_turns).
Proof. unfold resolved_state, resolved_turns, resolved. apply ret3_eta. vm_compute. reflexivity. Qed.

Lemma open_state_handle : fasync_pending_fd_lookup (-2) (y_fds open_state) = Some 0%nat.
Proof. vm_compute. reflexivity. Qed.

Lemma fd_resolve_once_witness :
  fasync_pending_fd_lookup (-2) (y_fds resolved_state) = Some 0%nat /\
  forall ret2 turns2 y2, y_fds y2 = y_fds resolved_state -> fasync_fd_resolve ret2 turns2 (-2) y2 = Ret (48, y2, turns2).
Proof. exact (fd_resolve_once 1 sys_turns (-2) 48 open_state resolved_state resolved_turns 0 open_state_handle resolved_is). Defined.

(** All 64 handles in use. *)
Definition full_state : sys := mk_sys sys_u (replicate FASYNC_MAX_PENDING_FDS (mk_pfd true true 5 3)) [].
Definition path_arg : fptr := mk_fptr 20480 20480 20496.
Definition path_bytes (p : ptr) : Z := if p =? 20485 then 0 else 97.
Definition open_answers : answers := mk_answers 0 [] kernel_setup 1.
Definition opened : sys := snd_of full_state (fasync_do_openat (fun _ _ => true) path_bytes open_answers (-100) path_arg 0 0 full_state).

Lemma open_pending_leaks_witness :
  fasync_open_pending (fun _ _ => true) path_bytes open_answers (-100) path_arg 0 0 full_state = Ret (-1, opened) /\
  exists i q, live (u_reqs (y_u opened)) i q /\ is_pending q /\ q_id q = pack_id 4 3.
Proof.
  apply (open_pending_leaks (fun _ _ => true) path_bytes open_answers (-100) path_arg 0 0 full_state opened (pack_id 4 3)).
  - exact sys_u_reachable.
  - exact kernel_setup_ok.
  - apply ret2_eta. vm_compute. reflexivity.
  - vm_compute. discriminate.
  - by apply Forall_replicate.
Defined.

Lemma wait_all_returns_witness :
  n_pending (u_reqs sys_u) = 3 /\
  exists u', fasync_wait_all_locked 1 sys_turns sys_u = Ret (0, u') /\ n_pending (u_reqs u') = 0 /\ u_inflight u' = 0.
Proof.
  split; [vm_compute; reflexivity|].
  apply (wait_all_returns 1 sys_turns sys_u); [exact sys_u_reachable|discriminate|reflexivity|apply all_fedb_ok; vm_compute; reflexivity|exact sys_turns_ok].
Defined.
