(* ===== verification/UringMeta.v ===== *)
(** * UringMeta: the ops of the io_uring runtime and the calls it accepts

    The first half of [io_uring/filc_async_uring.c]: reading op=<name> from a
    descriptor's options, the shapes of the ops, the startup check, and the
    dispatch of a call's staged arguments to the request layer.  A C string
    is a [string]; NULL is [None].  A staged cell is a pointer with its
    capability ([fptr]); its low word is the address. *)

From Stdlib Require Import Ascii.
From S2P Require Import Prelude Locks Meta Requests Ring Syscalls.
Open Scope Z_scope.

Inductive uring_op :=
  | URING_OP_UNKNOWN | URING_OP_READ | URING_OP_WRITE | URING_OP_FSYNC | URING_OP_CLOSE | URING_OP_OPENAT | URING_OP_IGNORE.

#[export] Instance uring_op_eq_dec : EqDecision uring_op.
Proof. solve_decision. Defined.

(** The loop of [streq] and its last comparison. *)
Fixpoint streq_loop (a b : string) : bool :=
  match a, b with
  | String x a, String y b => if Ascii.eqb x y then streq_loop a b else false
  | EmptyString, EmptyString => true
  | _, _ => false
  end.

Definition streq (a b : option string) : bool :=
  match a, b with
  | Some a, Some b => streq_loop a b
  | None, None => true
  | _, _ => false
  end.

(** The value of an option op=<value>. *)
Definition op_value (s : string) : option string :=
  match s with
  | String o (String p (String e v)) =>
      if (Ascii.eqb o "o" && Ascii.eqb p "p" && Ascii.eqb e "=")%char then Some v else None
  | _ => None
  end.

Fixpoint op_from_loop (opts : list string) : uring_op :=
  match opts with
  | [] => URING_OP_UNKNOWN
  | s :: opts =>
      match op_value s with
      | None => op_from_loop opts
      | Some v =>
          if streq (Some v) (Some "pread"%string) then URING_OP_READ
          else if streq (Some v) (Some "pwrite"%string) then URING_OP_WRITE
          else if streq (Some v) (Some "fsync"%string) then URING_OP_FSYNC
          else if streq (Some v) (Some "close"%string) then URING_OP_CLOSE
          else if streq (Some v) (Some "openat"%string) then URING_OP_OPENAT
          else if streq (Some v) (Some "ignore"%string) then URING_OP_IGNORE
          else URING_OP_UNKNOWN
      end
  end.

Definition op_from (opts : option (list string)) : uring_op :=
  match opts with None => URING_OP_UNKNOWN | Some opts => op_from_loop opts end.

Definition is_output_kind (kind : Z) : bool := (kind =? FILC_ASYNC_ARG_BUFFER_OUT) || (kind =? FILC_ASYNC_ARG_PENDING).
Definition is_input_kind (kind : Z) : bool := (kind =? FILC_ASYNC_ARG_BUFFER_IN) || (kind =? FILC_ASYNC_ARG_PENDING).

Definition kind_at (m : meta) (i : nat) : outcome Z := a ← deref (me_args m !! i); mret (ma_kind a).

(** The loop over the arguments from the [i]-th on, [n] of them. *)
Fixpoint outputs_from (m : meta) (n i : nat) : outcome bool :=
  match n with
  | O => mret true
  | S n => k ← kind_at m i; if is_output_kind k then outputs_from m n (S i) else mret false
  end.

Definition completion_args_ok (m : meta) (required : Z) : outcome bool :=
  if me_nargs m <? required then mret false
  else outputs_from m (Z.to_nat (me_nargs m - required)) (Z.to_nat required).

(** [&&] of tests that may index out of the array. *)
Definition and_then (a b : outcome bool) : outcome bool := x ← a; if (x : bool) then b else mret false.

(** Argument 1 satisfies [kind]; arguments 2 and 3 are unannotated. *)
Definition buffer_shape (m : meta) (kind : Z -> bool) : outcome bool :=
  and_then (completion_args_ok m 4)
    (and_then (k ← kind_at m 1; mret (kind k))
       (and_then (k ← kind_at m 2; mret (k =? FILC_ASYNC_ARG_IGNORED)) (k ← kind_at m 3; mret (k =? FILC_ASYNC_ARG_IGNORED)))).

Definition shape_ok (m : meta) (op : uring_op) : outcome bool :=
  match op with
  | URING_OP_IGNORE => mret true
  | _ =>
      if me_nargs m =? 0 then mret false
      else
        k0 ← kind_at m 0;
        if negb (k0 =? FILC_ASYNC_ARG_IGNORED) then mret false
        else match op with
             | URING_OP_READ => buffer_shape m is_output_kind
             | URING_OP_WRITE | URING_OP_OPENAT => buffer_shape m is_input_kind
             | URING_OP_FSYNC | URING_OP_CLOSE => completion_args_ok m 1
             | _ => mret false
             end
  end.

Definition uring_validate (m : option meta) : outcome bool :=
  match m with
  | None => mret false
  | Some m =>
      let op := op_from (me_opts m) in
      if bool_decide (op = URING_OP_UNKNOWN) then mret false else shape_ok m op
  end.

(** *** Dispatch *)

Definition arg_ptr (args : list fptr) (i : nat) : outcome fptr := deref (args !! i).
Definition arg_word (args : list fptr) (i : nat) : outcome Z := a ← deref (args !! i); mret (f_addr a).

Section Dispatch.
Context (zcheck zcheck_readonly : fptr -> Z -> bool) (byte_at : ptr -> Z).

Definition dispatch (k : answers) (op : uring_op) (args : list fptr) (y : sys) : outcome (Z * sys) :=
  w0 ← arg_word args 0;
  let fd := i32 w0 in
  match op with
  | URING_OP_READ =>
      b ← arg_ptr args 1; len ← arg_word args 2; off ← arg_word args 3; fasync_do_pread zcheck k fd b len off y
  | URING_OP_WRITE =>
      b ← arg_ptr args 1; len ← arg_word args 2; off ← arg_word args 3; fasync_do_pwrite zcheck_readonly k fd b len off y
  | URING_OP_OPENAT =>
      b ← arg_ptr args 1; flags ← arg_word args 2; mode ← arg_word args 3;
      fasync_do_openat zcheck_readonly byte_at k fd b (i32 flags) (i32 mode) y
  | URING_OP_FSYNC => fasync_fsync k fd y
  | URING_OP_CLOSE => fasync_close_locked k fd y
  | _ => mret (0, y)
  end.

End Dispatch.

(** ** What the startup check accepts *)

Lemma streq_loop_eq a b : streq_loop a b = true <-> a = b.
Proof.
  revert b. induction a as [|x a IH]; intros [|y b]; cbn; try (split; congruence).
  destruct (Ascii.eqb_spec x y) as [->|Hne]; [rewrite IH; split; congruence|split; congruence].
Qed.

Definition op_names : list (string * uring_op) :=
  [("pread", URING_OP_READ); ("pwrite", URING_OP_WRITE); ("fsync", URING_OP_FSYNC); ("close", URING_OP_CLOSE);
   ("openat", URING_OP_OPENAT); ("ignore", URING_OP_IGNORE)]%string.

(** The first option of the form op=<name> names [op]. *)
Definition names_op (opts : list string) (op : uring_op) : Prop :=
  exists pre v post, opts = pre ++ ("op=" ++ v)%string :: post /\ Forall (fun s => op_value s = None) pre /\ (v, op) ∈ op_names.

Lemma op_value_some s v : op_value s = Some v <-> s = ("op=" ++ v)%string.
Proof.
  split; [|intros ->; done]. unfold op_value. destruct s as [|a [|b [|c s]]]; try done.
  destruct (Ascii.eqb_spec a "o"); [|done]. destruct (Ascii.eqb_spec b "p"); [|done]. destruct (Ascii.eqb_spec c "="); [|done].
  cbn. intros [= <-]. by subst.
Qed.

Lemma op_from_names opts op : op <> URING_OP_UNKNOWN -> op_from_loop opts = op <-> names_op opts op.
Proof.
  intros Hop. assert (Hname : forall v, (if streq_loop v "pread" then URING_OP_READ else if streq_loop v "pwrite" then URING_OP_WRITE
    else if streq_loop v "fsync" then URING_OP_FSYNC else if streq_loop v "close" then URING_OP_CLOSE else if streq_loop v "openat" then URING_OP_OPENAT
    else if streq_loop v "ignore" then URING_OP_IGNORE else URING_OP_UNKNOWN) = op <-> (v, op) ∈ op_names).
  { intros v. unfold op_names. rewrite !elem_of_cons. split.
    - intros <-. repeat match goal with |- context [streq_loop v ?s] =>
        let E := fresh "E" in destruct (streq_loop v s) eqn:E; [apply streq_loop_eq in E; clear Hop; subst v; tauto|] end. by destruct Hop.
    - intros [[= -> ->]|[[= -> ->]|[[= -> ->]|[[= -> ->]|[[= -> ->]|[[= -> ->]|H%not_elem_of_nil]]]]]]; done. }
  induction opts as [|s opts IH]; cbn [op_from_loop].
  - split; [intros <-; done|]. intros (pre & v & post & E & _). by destruct pre.
  - destruct (op_value s) as [v|] eqn:Ev.
    + cbn [streq]. rewrite Hname. apply op_value_some in Ev as ->. split.
      * intros Hv. exists [], v, opts. by split.
      * intros (pre & v' & post & E & Hpre & Hv). destruct pre as [|s' pre].
        { injection E as E _. assert (v = v') as -> by exact E. done. }
        injection E as <- _. apply Forall_cons in Hpre as [Hpre _]. done.
    + rewrite IH. split; intros (pre & v & post & E & Hpre & Hv).
      * exists (s :: pre), v, post. rewrite E. split; [done|]. split; [by constructor|done].
      * destruct pre as [|s' pre]; [injection E as -> _; done|]. injection E as <- ->. apply Forall_cons in Hpre as [_ Hpre]. by exists pre, v, post.
Qed.

(** The argument kinds an op's syscall takes: the descriptor, then for the
    ops with a buffer the buffer and two plain words, then results only. *)
Definition op_shape (op : uring_op) (kinds : list Z) : Prop :=
  match op with
  | URING_OP_UNKNOWN => False
  | URING_OP_IGNORE => True
  | URING_OP_FSYNC | URING_OP_CLOSE => exists outs, kinds = FILC_ASYNC_ARG_IGNORED :: outs /\ Forall (fun k => is_output_kind k = true) outs
  | _ => exists b outs, kinds = [FILC_ASYNC_ARG_IGNORED; b; FILC_ASYNC_ARG_IGNORED; FILC_ASYNC_ARG_IGNORED] ++ outs /\
      (if decide (op = URING_OP_READ) then is_output_kind b else is_input_kind b) = true /\ Forall (fun k => is_output_kind k = true) outs
  end.

Definition kinds_of (m : meta) : list Z := map ma_kind (me_args m).

Lemma kind_at_ok m i k : kinds_of m !! i = Some k -> kind_at m i = Ret k.
Proof.
  unfold kinds_of, kind_at. rewrite list_lookup_fmap. destruct (me_args m !! i) as [a|]; [|done]. by intros [= <-].
Qed.

Lemma outputs_from_ok m outs : forall pre, kinds_of m = pre ++ outs ->
  outputs_from m (length outs) (length pre) = Ret (forallb is_output_kind outs).
Proof.
  induction outs as [|k outs IH]; intros pre E; [done|]. cbn [length outputs_from forallb].
  rewrite (kind_at_ok m (length pre) k) by (rewrite E; by apply list_lookup_middle). cbn [mbind outcome_bind].
  destruct (is_output_kind k); [|done]. specialize (IH (pre ++ [k])). rewrite length_app, Nat.add_1_r in IH. apply IH.
  rewrite E. by rewrite <- app_assoc.
Qed.

Lemma forallb_Forall_outputs outs : forallb is_output_kind outs = true <-> Forall (fun k => is_output_kind k = true) outs.
Proof. rewrite forallb_forall, List.Forall_forall. done. Qed.

Section Shapes.
Context (m : meta) (Hwf : me_nargs m = Z.of_nat (length (me_args m))).

Lemma nargs_kinds : me_nargs m = Z.of_nat (length (kinds_of m)).
Proof. rewrite Hwf. unfold kinds_of. by rewrite length_map. Qed.

Lemma completion_args_short required : Z.of_nat (length (kinds_of m)) < required -> completion_args_ok m required = Ret false.
Proof. intros H. unfold completion_args_ok. rewrite nargs_kinds. by rewrite (proj2 (Z.ltb_lt _ _) H). Qed.

Lemma completion_args_exact pre outs : kinds_of m = pre ++ outs ->
  completion_args_ok m (Z.of_nat (length pre)) = Ret (forallb is_output_kind outs).
Proof.
  intros E. unfold completion_args_ok. rewrite nargs_kinds, E, length_app.
  destruct (Z.ltb_spec (Z.of_nat (length pre + length outs)) (Z.of_nat (length pre))) as [H|_]; [lia|].
  replace (Z.to_nat (Z.of_nat (length pre + length outs) - Z.of_nat (length pre))) with (length outs) by lia.
  rewrite Nat2Z.id. by apply outputs_from_ok.
Qed.

Lemma fsync_shape_exact k0 rest : kinds_of m = k0 :: rest -> completion_args_ok m 1 = Ret (forallb is_output_kind rest).
Proof. intros E. by apply (completion_args_exact [k0] rest). Qed.

Lemma buffer_shape_exact kind : exists b, buffer_shape m kind = Ret b /\
  (b = true <-> exists k0 k1 outs, kinds_of m = [k0; k1; FILC_ASYNC_ARG_IGNORED; FILC_ASYNC_ARG_IGNORED] ++ outs /\ kind k1 = true /\
     Forall (fun k => is_output_kind k = true) outs).
Proof.
  unfold buffer_shape, and_then.
  destruct (kinds_of m) as [|k0 [|k1 [|k2 [|k3 outs]]]] eqn:E;
    try (exists false; rewrite (completion_args_short 4) by (rewrite E; cbn; lia); split; [done|]; split; [done|]; by intros (? & ? & ? & ? & _)).
  pose proof (completion_args_exact [k0; k1; k2; k3] outs E) as Hc. change (Z.of_nat (length [k0; k1; k2; k3])) with 4 in Hc.
  rewrite Hc. cbn [mbind outcome_bind].
  assert (Hk : forall i k, [k0; k1; k2; k3] !! i = Some k -> kind_at m i = Ret k).
  { intros i k Hi. apply kind_at_ok. rewrite E. by apply (lookup_app_l_Some [k0; k1; k2; k3] outs). }
  assert (H123 : kind_at m 1 = Ret k1 /\ kind_at m 2 = Ret k2 /\ kind_at m 3 = Ret k3) by (split_and!; by apply Hk).
  destruct H123 as (-> & -> & ->). cbn [mbind outcome_bind].
  exists (forallb is_output_kind outs && (kind k1 && ((k2 =? FILC_ASYNC_ARG_IGNORED) && (k3 =? FILC_ASYNC_ARG_IGNORED)))). split.
  { destruct (forallb is_output_kind outs), (kind k1), (k2 =? FILC_ASYNC_ARG_IGNORED); done. }
  rewrite !andb_true_iff, !Z.eqb_eq, forallb_Forall_outputs. split.
  - intros (Ho & Hb & -> & ->). by exists k0, k1, outs.
  - intros (k0' & k1' & outs' & [= <- <- -> -> <-] & Hb & Ho). done.
Qed.

Lemma shape_ok_exact op : op <> URING_OP_UNKNOWN -> exists b, shape_ok m op = Ret b /\ (b = true <-> op_shape op (kinds_of m)).
Proof.
  intros Hop. destruct (decide (op = URING_OP_IGNORE)) as [->|Hni]; [by exists true|].
  assert (Hshape : shape_ok m op = (if me_nargs m =? 0 then mret false else k0 ← kind_at m 0;
    if negb (k0 =? FILC_ASYNC_ARG_IGNORED) then mret false else match op with
      | URING_OP_READ => buffer_shape m is_output_kind
      | URING_OP_WRITE | URING_OP_OPENAT => buffer_shape m is_input_kind
      | _ => completion_args_ok m 1 end)) by (by destruct op). rewrite Hshape. clear Hshape.
  assert (Hhead : op_shape op (kinds_of m) -> exists rest, kinds_of m = FILC_ASYNC_ARG_IGNORED :: rest).
  { destruct op; try done; cbn; [intros (b & outs & -> & _)|intros (b & outs & -> & _)|intros (outs & -> & _)|intros (outs & -> & _)|intros (b & outs & -> & _)]; by eexists. }
  rewrite nargs_kinds. destruct (kinds_of m) as [|k0 rest] eqn:E.
  { exists false. split; [done|]. split; [done|]. by intros [rest [=]]%Hhead. }
  destruct (Z.eqb_spec (Z.of_nat (length (k0 :: rest))) 0) as [H|_]; [cbn in H; lia|].
  rewrite (kind_at_ok m 0 k0) by (by rewrite E). cbn [mbind outcome_bind].
  destruct (Z.eqb_spec k0 FILC_ASYNC_ARG_IGNORED) as [->|Hne]; cbn [negb].
  2:{ exists false. split; [done|]. split; [done|]. by intros (rest' & [= -> _])%Hhead. }
  destruct op; try done; cbn [op_shape]; rewrite ?(fsync_shape_exact _ _ E).
  1, 2, 5: edestruct buffer_shape_exact as (b & -> & Hb); exists b; (split; [done|]); rewrite Hb, E; cbn; naive_solver.
  all: exists (forallb is_output_kind rest); (split; [done|]); rewrite forallb_Forall_outputs; naive_solver.
Qed.
End Shapes.

(** C33: the startup check always gives an answer, and accepts a descriptor
    exactly when it exists, its first op= option names one of the six ops of
    the runtime, and its argument kinds are those of that op's syscall: the
    descriptor, the buffer and two plain words for the reads, writes and
    opens, and only results after them. *)
Theorem uring_validate_exact (d : option meta) :
  (forall m, d = Some m -> me_nargs m = Z.of_nat (length (me_args m))) ->
  exists b, uring_validate d = Ret b /\
    (b = true <-> exists m opts op, d = Some m /\ me_opts m = Some opts /\ names_op opts op /\ op_shape op (kinds_of m)).
Proof.
  intros Hwf. destruct d as [m|]; [|exists false; split; [done|]; split; [done|naive_solver]]. cbn [uring_validate].
  assert (Hop : forall opts op, me_opts m = Some opts -> names_op opts op -> op_from (me_opts m) = op).
  { intros opts op -> Hn. apply op_from_names; [|done]. destruct Hn as (_ & v & _ & _ & _ & Hin). intros ->. unfold op_names in Hin. set_solver. }
  case_bool_decide as Hu.
  - exists false. split; [done|]. split; [done|]. intros (m' & opts & op & [= <-] & Ho & Hn & Hs).
    rewrite (Hop _ _ Ho Hn) in Hu. by subst op.
  - destruct (shape_ok_exact m (Hwf m eq_refl) _ Hu) as (b & -> & Hb). exists b. split; [done|]. rewrite Hb. split.
    + intros Hs. destruct (me_opts m) as [opts|] eqn:Eo; [|done]. exists m, opts, (op_from (Some opts)). by rewrite <- op_from_names.
    + intros (m' & opts & op & [= <-] & Ho & Hn & Hs). by rewrite (Hop _ _ Ho Hn).
Qed.

(** *** Witness: a read of four arguments with a result, and the same without
    its length *)

Definition read_meta (kinds : list Z) : meta :=
  mk_meta "read" (Z.of_nat (length kinds)) 0 0 0 4096 (map (fun k => mk_meta_arg k 0) kinds) (Some ["async"; "op=pread"]%string).

Lemma uring_validate_exact_witness :
  (uring_validate (Some (read_meta [0; 3; 0; 0; 5])) = Ret true /\ uring_validate (Some (read_meta [0; 3; 0])) = Ret false) /\
  op_shape URING_OP_READ (kinds_of (read_meta [0; 3; 0; 0; 5])).
Proof.
  split; [split; vm_compute; reflexivity|].
  destruct (uring_validate_exact (Some (read_meta [0; 3; 0; 0; 5]))) as (b & Hb & Hspec).
  { intros m [= <-]. reflexivity. }
  assert (Ht : b = true).
  { assert (Hr : Ret b = Ret true) by (rewrite <- Hb; vm_compute; reflexivity). by injection Hr. }
  apply Hspec in Ht as (m & opts & op & [= <-] & Ho & Hn & Hs).
  assert (Hop : op_from (me_opts (read_meta [0; 3; 0; 0; 5])) = op).
  { rewrite Ho. apply op_from_names; [|done]. intros ->. destruct Hs. }
  rewrite <- Hop in Hs. exact Hs.
Defined.
