(* ===== verification/Owners.v ===== *)
(** * Owners: which requests are live after each call of the request layer

    A live request is known by its handle and by the task it reports to.  The
    calls of the file Syscalls are described by what they do to that relation,
    which is all that the runtimes on top of them rely on. *)

From S2P Require Import Prelude Requests Ring Syscalls.
Open Scope Z_scope.

(** Some live request has the handle [id] and reports to [t]. *)
Definition has (id : Z) (t : ptr) (u : uring) : Prop := exists i q, live (u_reqs u) i q /\ q_id q = id /\ q_task q = t.

(** The request has completed, with the result [r]. *)
Definition settled (id r : Z) (u : uring) : Prop := exists i q, live (u_reqs u) i q /\ q_id q = id /\ ~ is_pending q /\ q_result q = r.

Definition keeps (u u' : uring) : Prop := forall id t, has id t u' <-> has id t u.

(** The request has not completed yet. *)
Definition flying (id : Z) (u : uring) : Prop := exists i q, live (u_reqs u) i q /\ q_id q = id /\ is_pending q.

(** Requests may complete, and none is added. *)
Definition lands (u u' : uring) : Prop := forall id, flying id u' -> flying id u.

Lemma lands_reqs u u' : u_reqs u' = u_reqs u -> lands u u'.
Proof. intros E id. unfold flying. by rewrite E. Qed.

Lemma lands_refl u : lands u u.
Proof. by apply lands_reqs. Qed.

Lemma lands_trans u1 u2 u3 : lands u1 u2 -> lands u2 u3 -> lands u1 u3.
Proof. intros H1 H2 id ?%H2. by apply H1. Qed.

(** A completion never makes a request pending. *)
Lemma deliver_first_pending cs q : is_pending (deliver_first cs q) -> is_pending q.
Proof.
  unfold deliver_first. destruct (List.find _ cs) as [c|]; [|done]. destruct (decide (is_pending q)) as [|Hn]; [done|]. by intros ?%Hn.
Qed.

Lemma lands_delivered cs u u' : delivered cs u u' -> lands u u'.
Proof.
  intros Hd id (i & q & Hq & Eid & Hp). destruct (delivered_live_inv _ _ _ _ _ Hd Hq) as (q0 & Hq0 & ->).
  exists i, q0. split; [done|]. destruct (deliver_first_id cs q0) as [E1 _]. split; [congruence|by eapply deliver_first_pending].
Qed.

(** The layer's invariant, with [n] handles given out. *)
Definition good (u : uring) (n : Z) : Prop := exists pend, uring_inv u pend n.

Lemma keeps_refl u : keeps u u.
Proof. done. Qed.

Lemma keeps_trans u1 u2 u3 : keeps u1 u2 -> keeps u2 u3 -> keeps u1 u3.
Proof. intros H1 H2 id t. rewrite (H2 id t). apply H1. Qed.

Lemma keeps_reqs u u' : u_reqs u' = u_reqs u -> keeps u u'.
Proof. intros E id t. unfold has. by rewrite E. Qed.

Lemma keeps_delivered cs u u' : delivered cs u u' -> keeps u u'.
Proof.
  intros Hd id t. split; intros (i & q & Hq & Eid & Et).
  - destruct (delivered_live_inv _ _ _ _ _ Hd Hq) as (q0 & Hq0 & ->). destruct (deliver_first_id cs q0) as [E1 E2].
    exists i, q0. by rewrite <- E1, <- E2.
  - exists i, (deliver_first cs q). destruct (deliver_first_id cs q) as [E1 E2]. rewrite E1, E2. split; [by eapply delivered_live|done].
Qed.

(** Only a ring in use has live requests. *)
Lemma good_ok u n id t : good u n -> has id t u -> exists pend fl, uring_ok u pend n /\ reqs_ok (u_reqs u) fl n.
Proof.
  intros (pend & [Hok|(E & _)]) (i & q & [Hq Hs] & _).
  - destruct (uk_reqs _ _ _ Hok) as (fl & Hr). by exists pend, fl.
  - rewrite E in Hq. apply static_slots in Hq as ->. by destruct Hs.
Qed.

Lemma live_id_pos s fl n i q : reqs_ok s fl n -> live s i q -> 0 < q_id q.
Proof.
  intros Hok [Hq Hs]. destruct (ro_live _ _ _ Hok i q Hq) as [Hg Hl]. destruct (Hl Hs) as [Hg0 E].
  assert (in_table i) as Hti by (apply (ro_slot _ _ _ Hok); by eexists). unfold in_table, FASYNC_MAX_INFLIGHT in Hti.
  assert (Hnn : 0 <= q_id q) by (rewrite E; apply pack_nonneg; lia).
  destruct (id_pack (q_gen q) i) as [_ Eg]; [lia..|]. rewrite <- E in Eg. destruct (Z.eq_dec (q_id q) 0) as [E0|]; [|lia].
  rewrite E0 in Eg. change (0 = q_gen q) in Eg. lia.
Qed.

Lemma has_pos u n id t : good u n -> has id t u -> 0 < id.
Proof. intros Hg Hh. destruct (good_ok _ _ _ _ Hg Hh) as (_ & fl & _ & Hr). destruct Hh as (i & q & Hq & <- & _). by eapply live_id_pos. Qed.

(** The handles that are live are old ones. *)
Lemma has_gen u n id t : good u n -> has id t u -> id_gen id <= n.
Proof.
  intros Hg Hh. destruct (good_ok _ _ _ _ Hg Hh) as (_ & fl & _ & Hok). destruct Hh as (i & q & [Hq Hs] & <- & _).
  destruct (ro_live _ _ _ Hok i q Hq) as [Hgen Hl]. destruct (Hl Hs) as [Hg0 ->].
  assert (in_table i) as Hti by (apply (ro_slot _ _ _ Hok); by eexists). unfold in_table, FASYNC_MAX_INFLIGHT in Hti.
  destruct (id_pack (q_gen q) i) as [_ ->]; lia.
Qed.

Lemma flying_has id u : flying id u -> exists t, has id t u.
Proof. intros (i & q & Hq & Eid & _). by exists (q_task q), i, q. Qed.

Lemma live_unique s fl n i q j r : reqs_ok s fl n -> live s i q -> live s j r -> q_id q = q_id r -> i = j /\ q = r.
Proof.
  intros Hok Hq Hr E. assert (i = j) as -> by (rewrite <- (live_index _ _ _ i q Hok Hq), <- (live_index _ _ _ j r Hok Hr); congruence).
  split; [done|]. destruct Hq as [Hq _], Hr as [Hr _]. congruence.
Qed.

Lemma has_task u n id t t' : good u n -> has id t u -> has id t' u -> t = t'.
Proof.
  intros Hg Hh Hh'. destruct (good_ok _ _ _ _ Hg Hh) as (_ & fl & _ & Hr). destruct Hh as (i & q & Hq & <- & <-), Hh' as (j & r & Hr' & E & <-).
  by destruct (live_unique _ _ _ _ _ _ _ Hr Hq Hr' (eq_sym E)) as [_ ->].
Qed.

Lemma lookup_has u n id t : good u n -> has id t u -> exists i q, fasync_req_lookup id (u_reqs u) = Ret (Some i) /\ live (u_reqs u) i q /\ q_id q = id /\ q_task q = t.
Proof.
  intros Hg Hh. pose proof (has_pos _ _ _ _ Hg Hh). destruct (good_ok _ _ _ _ Hg Hh) as (_ & fl & _ & Hr). destruct Hh as (i & q & Hq & Eid & Et).
  exists i, q. split; [|done]. eapply lookup_live; [done|lia|done..].
Qed.

Lemma lookup_hasnt u n id : good u n -> 0 <= id -> (forall t, ~ has id t u) -> fasync_req_lookup id (u_reqs u) = Ret None.
Proof.
  intros (pend & [Hok|(E & _)]) Hid Hno; [|by rewrite E, lookup_static]. destruct (uk_reqs _ _ _ Hok) as (fl & Hr).
  eapply lookup_dead; [done..|]. intros i q Hq Eid. apply (Hno (q_task q)). by exists i, q.
Qed.

(** A handle names a live request or none. *)
Lemma has_cases u n id : good u n -> 0 <= id -> (exists t, has id t u) \/ (forall t, ~ has id t u).
Proof.
  intros (pend & [Hok|(E & _)]) Hid.
  - destruct (uk_reqs _ _ _ Hok) as (fl & Hr). destruct (fasync_req_lookup_ok _ fl n Hr id Hid) as (o & _ & Ho). destruct o as [i|].
    + left. destruct (proj1 (Ho i) eq_refl) as (q & Hq & Hs & Eid). exists (q_task q), i, q. by split.
    + right. intros t (i & q & [Hq Hs] & Eid & _). by assert (None = Some i) by (apply Ho; by exists q).
  - right. intros t (i & q & [Hq Hs] & _). rewrite E in Hq. apply static_slots in Hq as ->. by destruct Hs.
Qed.

(** ** Looking *)

Lemma submit_good ret u n : good u n -> exists rc u', fasync_submit ret u = Ret (rc, u') /\ good u' n /\ u_reqs u' = u_reqs u /\
  cq_entries (u_ring u') = cq_entries (u_ring u) /\ (0 <= ret -> 0 <= rc).
Proof.
  intros (pend & [Hok|Hno]).
  - destruct (submit_ok ret u pend (uk_ring _ _ _ Hok)) as (u1 & E1 & _). destruct (submit_first_ok ret u pend n Hok) as (rc & u' & E & Hok' & Er & Ec & _).
    exists rc, u'. split; [done|]. split; [by exists []; left|]. split; [done|]. split; [done|]. unfold fasync_submit in E.
    rewrite E1 in E. injection E as <- _. intros Hr. case_decide; [lia|]. destruct (Z.ltb_spec ret 0); lia.
  - pose proof Hno as (E1 & E2 & _). exists 0, u. unfold fasync_submit, fasync_submit_locked. rewrite E2. cbn. split; [done|].
    split; [by exists pend; right|]. by split_and!.
Qed.

(** The kernel has room for what it posts while the request [id] is looked
    at. *)
Definition room (arrived : list cqe) (u : uring) : Prop := rg_ready (u_ring u) = true -> posts_ok arrived u.

Lemma poll_posts_enters cs u pend n :
  uring_ok u pend n -> posts_ok cs u ->
  exists u', fasync_poll (posts cs u) = Ret u' /\ uring_ok u' pend n /\ u_enters u' = u_enters u /\ delivered (cq_entries (u_ring u) ++ cs) u u'.
Proof.
  intros Hok Hcs. destruct (posts_inv cs u pend n Hok Hcs) as (Hok1 & E1 & E2 & E3).
  destruct (drain_ok _ pend n Hok1) as (u' & E & Hok' & Ee & _ & _ & _ & _ & _ & Hs). exists u'. split; [exact E|]. split; [done|].
  split; [by rewrite Ee, E3|]. unfold delivered. by rewrite Hs, E1, E2.
Qed.

Lemma ready_good arrived id t u n :
  good u n -> has id t u -> room arrived u ->
  exists b u', fasync_ready arrived id u = Ret (b, u') /\ good u' n /\ keeps u u' /\ u_enters u' = u_enters u /\
    if b then exists r, settled id r u' else exists i q, live (u_reqs u') i q /\ q_id q = id /\ is_pending q.
Proof.
  intros Hg Hh Hroom. destruct (lookup_has _ _ _ _ Hg Hh) as (i & q & El & Hq & Eid & Et). unfold fasync_ready. rewrite El.
  cbn [mbind outcome_bind]. rewrite (pending_at_ok i q u Hq). cbn [mbind outcome_bind]. destruct (good_ok _ _ _ _ Hg Hh) as (pend & _ & Hok & _).
  case_bool_decide as Hp.
  - destruct (poll_posts_enters arrived u pend n Hok (Hroom (rk_ready _ _ (uk_ring _ _ _ Hok)))) as (u' & -> & Hok' & Een & Hd). cbn [mbind outcome_bind].
    pose proof (delivered_live _ _ _ _ _ Hd Hq) as Hq'. rewrite (pending_at_ok i _ u' Hq'). cbn [mbind outcome_bind].
    eexists _, u'. split; [done|]. split; [by exists pend; left|]. split; [by eapply keeps_delivered|]. split; [exact Een|].
    destruct (deliver_first_id (cq_entries (u_ring u) ++ arrived) q) as [E1 _]. rewrite <- Eid, <- E1. case_bool_decide; cbn; [by eexists _, _|by eexists _, _, _].
  - cbn [mbind outcome_bind mret outcome_ret]. rewrite (pending_at_ok i q u Hq). cbn [mbind outcome_bind]. rewrite bool_decide_false by done.
    exists true, u. split; [done|]. split; [done|]. split; [apply keeps_refl|]. split; [done|]. by exists (q_result q), i, q.
Qed.

(** A handle that names nothing is never ready. *)
Lemma ready_nothing arrived id u n : good u n -> 0 <= id -> (forall t, ~ has id t u) -> fasync_ready arrived id u = Ret (false, u).
Proof. intros Hg Hid Hno. unfold fasync_ready. by rewrite (lookup_hasnt _ _ _ Hg Hid Hno). Qed.

(** A look, whatever the handle names. *)
Lemma ready_look arrived id u n :
  good u n -> 0 <= id -> room arrived u ->
  exists b u', fasync_ready arrived id u = Ret (b, u') /\ good u' n /\ keeps u u' /\ u_enters u' = u_enters u /\
    if b then exists r, settled id r u' else forall r, ~ settled id r u'.
Proof.
  intros Hg Hid Hroom. destruct (has_cases u n id Hg Hid) as [(t & Hh)|Hno].
  - destruct (ready_good arrived id t u n Hg Hh Hroom) as (b & u' & E & Hg' & Hk & Hen & Hb). exists b, u'. split; [done|]. split; [done|]. split; [done|].
    split; [done|]. destruct b; [done|]. destruct Hb as (i & q & Hq & Eid & Hp). intros r (j & q' & Hq' & Eid' & Hnp & _).
    apply Hk in Hh. destruct (good_ok _ _ _ _ Hg' Hh) as (_ & fl & _ & Hr). destruct (live_unique _ _ _ _ _ _ _ Hr Hq Hq' ltac:(congruence)) as [_ ->]. done.
  - exists false, u. split; [by eapply ready_nothing|]. split; [done|]. split; [apply keeps_refl|]. split; [done|].
    intros r (i & q & Hq & Eid & _). apply (Hno (q_task q)). by exists i, q.
Qed.

Lemma good_count u n : good u n -> req_next_gen (u_reqs u) = n.
Proof.
  intros (pend & [Hok|(E & _ & _ & _ & ->)]); [|by rewrite E]. destruct (uk_reqs _ _ _ Hok) as (fl & Hr). apply (ro_gen _ _ _ Hr).
Qed.

(** ** Waiting and collecting *)

(** The kernel completes the request [id] while it is waited for. *)
Definition fed (ret : Z) (turns : list turn) (id : Z) (u : uring) : Prop :=
  forall i q, live (u_reqs u) i q -> q_id q = id -> wait_fed ret turns i u q.

Lemma wait_good ret turns id t u n :
  good u n -> has id t u -> fed ret turns id u ->
  exists i r u' turns', fasync_req_lookup id (u_reqs u) = Ret (Some i) /\ fasync_req_wait ret turns i u = Ret (r, u', turns') /\
    good u' n /\ keeps u u' /\ lands u u' /\ ~ flying id u'.
Proof.
  intros Hg Hh Hfed. destruct (lookup_has _ _ _ _ Hg Hh) as (i & q & El & Hq & Eid & _). destruct (good_ok _ _ _ _ Hg Hh) as (pend & _ & Hok & _).
  destruct (req_wait_ok ret turns i u pend n q Hok Hq (Hfed i q Hq Eid)) as (u' & turns' & used & pend' & E & Hok' & Hd & Hnp).
  exists i, (wait_result turns u q), u', turns'. split; [done|]. split; [done|]. split; [by exists pend'; left|]. split; [by eapply keeps_delivered|].
  split; [by eapply lands_delivered|]. intros (j & r & Hr & Ej & Hp). pose proof (delivered_live _ _ _ _ _ Hd Hq) as Hq'.
  destruct (uk_reqs _ _ _ Hok') as (fl & Hrk). destruct (deliver_first_id used q) as [E1 _].
  by destruct (live_unique _ _ _ _ _ _ _ Hrk Hr Hq' ltac:(congruence)) as [_ ->].
Qed.

Lemma fed_settled ret turns id r u n : good u n -> settled id r u -> fed ret turns id u.
Proof.
  intros Hg (i & q & Hq & Eid & Hnp & _) j q' Hq' Eid' Hp. exfalso. apply Hnp.
  destruct (good_ok u n id (q_task q) Hg) as (_ & fl & _ & Hr); [by exists i, q|].
  by destruct (live_unique _ _ _ _ _ _ _ Hr Hq Hq' ltac:(congruence)) as [_ ->].
Qed.

(** Collecting the result of [id] ends it, and no other request. *)
Record collected (ret : Z) (turns : list turn) (id : Z) (t : ptr) (y : sys) (n : Z) (r : Z) (y' : sys) : Prop := {
  co_good : good (y_u y') n;
  co_fds : y_fds y' = y_fds y;
  co_lands : lands (y_u y) (y_u y');
  co_has : forall j s, has j s (y_u y') <-> has j s (y_u y) /\ j <> id;
  co_completed : y_completed y' = y_completed y ++ (if t =? NULL then [] else [(t, r)]);
  co_result : exists i q, live (u_reqs (y_u y)) i q /\ q_id q = id /\ r = wait_result turns (y_u y) q;
}.

Lemma result_collects ret turns id t y n :
  good (y_u y) n -> has id t (y_u y) -> fed ret turns id (y_u y) ->
  exists r y' turns', fasync_result ret turns id y = Ret (r, y', turns') /\ collected ret turns id t y n r y'.
Proof.
  intros Hg Hh Hfed. pose proof (has_pos _ _ _ _ Hg Hh) as Hpos. destruct (good_ok _ _ _ _ Hg Hh) as (pend & fl & Hok & Hr).
  pose proof Hh as (i & q & Hq & Eid & Et). subst id t.
  destruct (result_ok ret turns y pend n i q Hok Hq ltac:(lia) (Hfed i q Hq eq_refl)) as (y' & turns' & pend' & E & Hok' & Hf & (used & Hlive) & Hc).
  exists (wait_result turns (y_u y) q), y', turns'. split; [done|]. split; [by exists pend'; left|done| | |done|].
  - intros j (k & r & (_ & q0 & Hq0 & ->)%Hlive & Ej & Hp). destruct (deliver_first_id used q0) as [E1 _].
    exists k, q0. split; [done|]. split; [congruence|by eapply deliver_first_pending].
  - intros j s. split.
    + intros (k & r & (Hk & q0 & Hq0 & ->)%Hlive & Ej & Es). destruct (deliver_first_id used q0) as [E1 E2]. rewrite E1 in Ej. rewrite E2 in Es.
      split; [by exists k, q0|]. intros ->. apply Hk. by destruct (live_unique _ _ _ _ _ _ _ Hr Hq0 Hq Ej).
    + intros ((k & q0 & Hq0 & <- & <-) & Hne). destruct (deliver_first_id used q0) as [E1 E2]. exists k, (deliver_first used q0).
      split; [|done]. apply Hlive. split; [|by exists q0]. intros ->. apply Hne. destruct Hq0 as [Hq0 _], Hq as [Hq _]. congruence.
  - by exists i, q.
Qed.

(** Collecting a request that has completed never enters the kernel. *)
Lemma result_settled_enters ret turns id r t y n r' y' turns' :
  good (y_u y) n -> has id t (y_u y) -> settled id r (y_u y) -> fasync_result ret turns id y = Ret (r', y', turns') -> u_enters (y_u y') = u_enters (y_u y).
Proof.
  intros Hg Hh (j & q & Hq & Eid & Hnp & _) E. destruct (lookup_has _ _ _ _ Hg Hh) as (i & q' & El & Hq' & Eid' & _).
  destruct (good_ok _ _ _ _ Hg Hh) as (_ & fl & _ & Hr). destruct (live_unique _ _ _ _ _ _ _ Hr Hq Hq' ltac:(congruence)) as [-> <-].
  unfold fasync_result, fasync_req_wait in E. rewrite El in E. cbn [mbind outcome_bind] in E. rewrite (pending_at_ok i q _ Hq) in E. cbn [mbind outcome_bind] in E.
  rewrite bool_decide_false in E by done. cbn [mbind outcome_bind mret outcome_ret] in E.
  assert (Ew : req_wait_loop turns i (y_u y) = Ret (y_u y, turns)).
  { destruct turns; cbn [req_wait_loop]; rewrite (pending_at_ok i q _ Hq); cbn [mbind outcome_bind]; by rewrite bool_decide_false. }
  assert (Es : slot (u_reqs (y_u y)) i = Ret q) by (destruct Hq as [Hq _]; unfold slot; by rewrite Hq).
  rewrite Ew in E. cbn [mbind outcome_bind] in E. rewrite Es in E. cbn [mbind outcome_bind mret outcome_ret] in E. rewrite Es in E. cbn [mbind outcome_bind] in E.
  apply bind_Ret_inv in E as (s & _ & E). apply Ret_inj in E. injection E as _ <- _.
  by destruct (q_task q =? NULL).
Qed.

Lemma result_nothing ret turns id y n :
  good (y_u y) n -> 0 <= id -> (forall t, ~ has id t (y_u y)) -> fasync_result ret turns id y = Ret (- EINVAL, y, turns).
Proof. intros Hg Hid Hno. unfold fasync_result. by rewrite (lookup_hasnt _ _ _ Hg Hid Hno). Qed.

(** ** Pushing *)

Lemma push_good k a y n :
  good (y_u y) n -> setup_ok (an_setup k) -> n + 1 < 2 ^ 32 ->
  exists id y' n', push k a y = Ret (id, y') /\ good (y_u y') n' /\ (n <= n' <= n + 1 /\ (id <> 0 -> n < id_gen id)) /\
    y_fds y' = y_fds y /\ y_completed y' = y_completed y /\
    (forall j, flying j (y_u y') -> (id <> 0 /\ j = id) \/ flying j (y_u y)) /\
    (id = 0 -> keeps (y_u y) (y_u y')) /\
    (id <> 0 -> (forall t, ~ has id t (y_u y)) /\ forall j s, has j s (y_u y') <-> (j = id /\ s = NULL) \/ has j s (y_u y)).
Proof.
  intros (pend & Hinv) Hk Hn. unfold push.
  destruct (push_ok (an_setup k) (an_push_ret k) a (y_u y) pend n Hinv Hk Hn) as (id & u' & pend' & n' & E & Hinv' & Hn' & _ & Hl & Hgen). rewrite E.
  cbn [mbind outcome_bind]. exists id, (set_u u' y), n'. split; [done|]. split; [by exists pend'|]. split; [lia|]. split; [done|]. split; [done|].
  unfold push_live in Hl. split.
  { intros j (x & r & Hr & Ej & Hp). destruct (Z.eqb_spec id 0) as [->|Hne]; [right; exists x, r; split; [by apply Hl|done]|].
    destruct Hl as (i & q & Eid & _ & _ & _ & _ & _ & Hlive). apply Hlive in Hr as [[-> ->]|Hr]; [left; split; congruence|right; by exists x, r]. }
  split; intros Hid.
  - rewrite Hid in Hl. cbn in Hl. intros j s. split; intros (i & q & Hq & ? & ?); (exists i, q; split; [by apply Hl|done]).
  - rewrite (proj2 (Z.eqb_neq _ _) Hid) in Hl. destruct Hl as (i & q & Eid & Hp & _ & _ & Et & Hno & Hlive). split.
    + intros t (j & r & Hr & Ej & _). assert (Hj' : live (u_reqs u') j r) by (apply Hlive; by right). assert (Hi' : live (u_reqs u') i q) by (apply Hlive; by left).
      destruct Hinv' as [Hok|(E0 & _)]; [|destruct Hi' as [Hi' Hs]; rewrite E0 in Hi'; apply static_slots in Hi' as ->; by destruct Hs].
      destruct (uk_reqs _ _ _ Hok) as (fl & Hrk). destruct (live_unique _ _ _ _ _ _ _ Hrk Hj' Hi' ltac:(congruence)) as [-> _]. by destruct (Hno r).
    + intros j s. split.
      * intros (x & r & Hr & <- & <-). apply Hlive in Hr as [[-> ->]|Hr]; [by left; split|right; by exists x, r].
      * intros [[-> ->]|(x & r & Hr & <- & <-)]; [exists i, q|exists x, r]; (split; [apply Hlive; by auto|done]).
Qed.

(** ** Pending descriptors *)

(** The pending open in slot [k] still owns the request [id]. *)
Definition opens (y : sys) (k : nat) (id : Z) : Prop :=
  exists p, y_fds y !! k = Some p /\ pf_used p = true /\ pf_resolved p = false /\ pf_id p = id.

(** What a call does to the requests and their owners: it may collect the
    request of a pending open, which then is one no longer, and add the
    request [new] (0: none). *)
Definition dropped (y y' : sys) (j : Z) : Prop := exists k, opens y k j /\ ~ opens y' k j.

Record moves (y : sys) (new : Z) (y' : sys) : Prop := {
  mv_opens : forall k id, opens y' k id -> opens y k id;
  mv_has : forall j s, has j s (y_u y') <-> (new <> 0 /\ j = new /\ s = NULL) \/ (has j s (y_u y) /\ ~ dropped y y' j);
  mv_fresh : new <> 0 -> forall t, has new t (y_u y) -> ~ ~ dropped y y' new;
  mv_completed : y_completed y' = y_completed y;
  mv_flying : forall j, flying j (y_u y') -> (new <> 0 /\ j = new) \/ flying j (y_u y);
}.

Lemma moves_same y y' :
  (forall k id, opens y' k id <-> opens y k id) -> keeps (y_u y) (y_u y') -> lands (y_u y) (y_u y') -> y_completed y' = y_completed y -> moves y 0 y'.
Proof.
  intros Ho Hk Hl Hc. assert (Hd : forall j, ~ dropped y y' j) by (intros j (k & H1 & H2); by apply H2, Ho).
  split; [naive_solver| |done|done|by intros j ?%Hl; right]. intros j s. rewrite (Hk j s). naive_solver.
Qed.

Lemma moves_refl y : moves y 0 y.
Proof. apply moves_same; [done|apply keeps_refl|apply lands_refl|done]. Qed.

Lemma opens_fds y y' : y_fds y' = y_fds y -> forall k id, opens y' k id <-> opens y k id.
Proof. intros E k id. unfold opens. by rewrite E. Qed.

Lemma moves_errno e y : moves y 0 (set_errno e y).
Proof. apply moves_same; [by apply opens_fds|by apply keeps_reqs|by apply lands_reqs|done]. Qed.

Lemma moves_then y1 y2 new y3 :
  moves y1 0 y2 -> moves y2 new y3 -> (forall k id, opens y3 k id <-> opens y2 k id) -> moves y1 new y3.
Proof.
  intros [O1 H1 _ C1 L1] [_ H2 F2 C2 L2] Ho. assert (Hnd : forall j, ~ dropped y2 y3 j) by (intros j (k & Hk & Hn); by apply Hn, Ho).
  assert (Hd : forall j, dropped y1 y3 j <-> dropped y1 y2 j).
  { intros j. split; intros (k & Hk & Hn); exists k; (split; [done|]); intros ?; by apply Hn, Ho. }
  split; [intros k id Hk; by apply O1, Ho| | |by rewrite C2|intros j [?|[[? _]|?]%L1]%L2; by auto].
  - intros j s. rewrite (H2 j s), (H1 j s), (Hd j). naive_solver.
  - intros Hnew t Ht Hnn. apply (F2 Hnew t); [|by apply Hnd]. apply H1. right. split; [done|]. by rewrite <- Hd.
Qed.

Lemma moves_then_errno e y new y' : moves (set_errno e y) new y' -> moves y new y'.
Proof.
  intros [O H F C L]. assert (Hd : forall j, dropped (set_errno e y) y' j <-> dropped y y' j) by done.
  assert (Hh : forall j s, has j s (y_u (set_errno e y)) <-> has j s (y_u y)) by done.
  split; [exact O| | |exact C|exact L].
  - intros j s. rewrite (H j s), (Hh j s), (Hd j). done.
  - intros Hn t Ht. rewrite <- Hd. exact (F Hn t Ht).
Qed.

Lemma push_moves k a y n :
  good (y_u y) n -> setup_ok (an_setup k) -> n + 1 < 2 ^ 32 ->
  exists id y' n', push k a y = Ret (id, y') /\ good (y_u y') n' /\ (n <= n' <= n + 1 /\ (id <> 0 -> n < id_gen id)) /\ y_fds y' = y_fds y /\ moves y id y'.
Proof.
  intros Hg Hk Hn. destruct (push_good k a y n Hg Hk Hn) as (id & y' & n' & E & Hg' & Hn' & Hf & Hc & Hfly & H0 & H1).
  exists id, y', n'. split; [done|]. split; [done|]. split; [done|]. split; [done|]. destruct (Z.eq_dec id 0) as [->|Hid].
  - apply moves_same; [by apply opens_fds|by apply H0| |done]. by intros j [[? _]|?]%Hfly.
  - destruct (H1 Hid) as [Hno Hh]. assert (Hnd : forall j, ~ dropped y y' j) by (intros j (x & Hx & Hn'x); by apply Hn'x, (opens_fds y y' Hf)).
    split; [intros x j; by apply opens_fds| |intros _ t Ht; by destruct (Hno t)|done|exact Hfly].
    intros j s. rewrite (Hh j s). naive_solver.
Qed.

(** The pending opens own live requests that report to no task. *)
Definition opens_live (y : sys) : Prop := forall k id, opens y k id -> has id NULL (y_u y).

(** The open behind a descriptor is answered when it is needed. *)
Definition fd_fed (ret : Z) (turns : list turn) (fd : Z) (y : sys) : Prop :=
  forall k id, fasync_pending_fd_lookup fd (y_fds y) = Some k -> opens y k id -> fed ret turns id (y_u y).

Lemma resolve_moves ret turns fd y n :
  good (y_u y) n -> opens_live y -> fd_fed ret turns fd y ->
  exists r y' turns', fasync_fd_resolve ret turns fd y = Ret (r, y', turns') /\ good (y_u y') n /\ moves y 0 y' /\
    (forall k, fasync_pending_fd_lookup fd (y_fds y) = Some k -> forall id, ~ opens y' k id).
Proof.
  intros Hg Hol Hfed. unfold fasync_fd_resolve.
  pose proof (moves_refl y) as Hsame.
  destruct (Z.leb_spec 0 fd) as [Hpos|_].
  { exists fd, y, turns. split; [done|]. split; [done|]. split; [done|]. intros k (E & _)%lookup_range. lia. }
  destruct (fasync_pending_fd_lookup fd (y_fds y)) as [k|] eqn:Ek; [|by exists (- EBADF), y, turns].
  pose proof Ek as (_ & _ & p & Hp & Hu)%lookup_range. rewrite Hp. cbn [deref mbind outcome_bind]. destruct (pf_resolved p) eqn:Er.
  { exists (pf_result p), y, turns. split; [done|]. split; [done|]. split; [done|]. intros k' [= <-] id (p' & Hp' & _ & Hr' & _). congruence. }
  assert (Ho : opens y k (pf_id p)) by (by exists p).
  destruct (result_collects ret turns (pf_id p) NULL y n Hg (Hol _ _ Ho) (Hfed k (pf_id p) Ek Ho)) as (r & y1 & turns1 & E & [Hg1 Hf1 Hl1 Hh1 Hc1 _]).
  rewrite E. cbn [mbind outcome_bind]. eexists r, _, turns1. split; [done|]. cbn [y_u y_fds set_fds] in *. rewrite Hf1.
  set (y2 := set_fds _ y1). assert (Hfds : y_fds y2 = <[k := mk_pfd (pf_used p) true (pf_id p) r]> (y_fds y)) by done.
  assert (Hklt : (k < length (y_fds y))%nat) by (by eapply lookup_lt_Some).
  assert (Ho2 : forall k' id, opens y2 k' id <-> opens y k' id /\ k' <> k).
  { intros k' id. unfold opens. rewrite Hfds. destruct (decide (k' = k)) as [->|Hne].
    - rewrite list_lookup_insert_eq by done. split; [intros (p' & [= <-] & _ & Hr & _); done|by intros [_ ?]].
    - rewrite list_lookup_insert_ne by done. naive_solver. }
  assert (Hd : forall j, dropped y y2 j <-> j = pf_id p).
  { intros j. split.
    - intros (k' & Hk' & Hn). destruct (decide (k' = k)) as [->|Hne]; [|by destruct Hn; apply Ho2].
      destruct Hk' as (p' & Hp' & _ & _ & <-). congruence.
    - intros ->. exists k. split; [done|]. by intros [_ ?]%Ho2. }
  split; [done|]. split.
  - split; [by intros k' id [? _]%Ho2| |done|by rewrite app_nil_r in Hc1|intros j Hj; right; by apply Hl1].
    intros j s. change (y_u y2) with (y_u y1). rewrite (Hh1 j s), (Hd j). naive_solver.
  - intros k' [= <-] id [_ ?]%Ho2. done.
Qed.

(** ** The five requests *)

Section Calls.
Context (zcheck zcheck_readonly : fptr -> Z -> bool) (byte_at : ptr -> Z).

Record moved (y : sys) (n : Z) (o : outcome (Z * sys)) (id : Z) (y' : sys) (n' : Z) : Prop := {
  md_ret : o = Ret (id, y');
  md_good : good (y_u y') n';
  md_count : n <= n' <= n + 1 /\ (id <> 0 -> n < id_gen id);
  md_moves : moves y id y';
}.

(** Resolving the descriptor, then pushing a request made of it. *)
Lemma resolve_push_moves k fd (a : Z -> push_args) y n :
  good (y_u y) n -> setup_ok (an_setup k) -> n + 1 < 2 ^ 32 -> opens_live y -> fd_fed (an_ret k) (an_turns k) fd y ->
  exists real y1 turns, fasync_fd_resolve (an_ret k) (an_turns k) fd y = Ret (real, y1, turns) /\
    (forall j, fasync_pending_fd_lookup fd (y_fds y) = Some j -> forall id, ~ opens y1 j id) /\
    exists id y' n', moved y n (if real <? 0 then mret (0, set_errno (i32 (- real)) y1) else push k (a real) y1) id y' n' /\
      y_fds y' = y_fds y1.
Proof.
  intros Hg Hk Hn Hol Hfed. destruct (resolve_moves _ _ _ _ _ Hg Hol Hfed) as (real & y1 & turns & E & Hg1 & Hm & Hgone).
  exists real, y1, turns. split; [done|]. split; [done|]. destruct (real <? 0).
  - exists 0, (set_errno (i32 (- real)) y1), n. split; [|done]. split; [done| |lia|].
    + destruct Hg1 as (pend & Hinv). exists pend. destruct Hinv as [[? ? ?]|?]; [by left; split|by right].
    + eapply moves_then; [done|apply moves_errno|by apply opens_fds].
  - destruct (push_moves k (a real) y1 n Hg1 Hk Hn) as (id & y' & n' & E' & Hg' & Hn' & Hf & Hm').
    exists id, y', n'. split; [|done]. split; [done..|]. eapply moves_then; [done|done|by apply opens_fds].
Qed.

(** Freeing a handle whose open is no longer pending. *)
Lemma drop_fd_moves o y new y' :
  moves y new y' -> (forall k, o = Some k -> forall id, ~ opens y' k id) -> moves y new (drop_fd o y').
Proof.
  intros Hm Ho. destruct o as [k|]; [|done]. assert (Hf : forall j id, opens (drop_fd (Some k) y') j id <-> opens y' j id).
  { intros j id. unfold opens, drop_fd. cbn [y_fds set_fds]. destruct (decide (j = k)) as [->|Hne].
    - rewrite list_lookup_alter_eq. split; [|intros H; by destruct (Ho k eq_refl id)].
      intros (p & Hp & Hu & _). destruct (y_fds y' !! k); [|done]. cbn in Hp. injection Hp as <-. done.
    - by rewrite list_lookup_alter_ne. }
  destruct Hm as [O H F C L]. assert (Hd : forall j, dropped y (drop_fd (Some k) y') j <-> dropped y y' j).
  { intros j. unfold dropped. split; intros (x & Hx & Hn); exists x; (split; [done|]); by rewrite Hf in *. }
  split; [intros j id Hj%Hf; by apply O| | |done|done].
  - intros j s. change (y_u (drop_fd (Some k) y')) with (y_u y'). rewrite (H j s), (Hd j). done.
  - intros Hnew t Ht. rewrite Hd. by eapply F.
Qed.

Lemma close_moves k fd y n :
  good (y_u y) n -> setup_ok (an_setup k) -> n + 1 < 2 ^ 32 -> opens_live y -> fd_fed (an_ret k) (an_turns k) fd y ->
  exists id y' n', moved y n (fasync_close_locked k fd y) id y' n'.
Proof.
  intros Hg Hk Hn Hol Hfed.
  destruct (resolve_push_moves k fd (fun real => mk_push FASYNC_OP_CLOSE (i32 real) 0 0 0 NULL 0 0) y n Hg Hk Hn Hol Hfed)
    as (real & y1 & turns & E & Hgone & id & y' & n' & [E' Hg' Hn' Hm] & Hf).
  assert (Hgone' : forall j, fasync_pending_fd_lookup fd (y_fds y) = Some j -> forall i, ~ opens y' j i).
  { intros j Hj i. rewrite (opens_fds y1 y' Hf). by apply Hgone. }
  unfold fasync_close_locked. rewrite E. cbn [mbind outcome_bind]. destruct (real <? 0).
  - apply Ret_inj in E'. injection E' as <- <-. eexists 0, _, n'. split; [done|..].
    + by destruct (fasync_pending_fd_lookup fd (y_fds y)).
    + done.
    + assert (Ed : forall o e z, set_errno e (drop_fd o z) = drop_fd o (set_errno e z)) by (by intros [?|]).
      rewrite Ed. by apply drop_fd_moves.
  - rewrite E'. cbn [mbind outcome_bind]. eexists id, _, n'. split; [done|..].
    + destruct (id =? 0); [done|]. by destruct (fasync_pending_fd_lookup fd (y_fds y)).
    + done.
    + destruct (id =? 0); [done|]. by apply drop_fd_moves.
Qed.

(** A path the openat checks let through, or refuse with an error. *)
Definition path_safe (path : fptr) : Prop :=
  f_addr path < f_upper path ->
  zcheck_readonly path (if 4096 <? f_upper path - f_addr path then 4096 else f_upper path - f_addr path) = true.

Lemma openat_moves k dirfd path flags mode y n :
  good (y_u y) n -> setup_ok (an_setup k) -> n + 1 < 2 ^ 32 -> path_safe path ->
  exists id y' n', moved y n (fasync_do_openat zcheck_readonly byte_at k dirfd path flags mode y) id y' n'.
Proof.
  intros Hg Hk Hn Hpath. assert (Herr : forall e, exists id y' n', moved y n (Ret (0, set_errno e y)) id y' n').
  { intros e. exists 0, (set_errno e y), n. split; [done| |lia|apply moves_errno].
    destruct Hg as (pend & Hinv). exists pend. destruct Hinv as [[? ? ?]|?]; [by left; split|by right]. }
  unfold fasync_do_openat. destruct (f_addr path =? NULL); [apply Herr|]. destruct (Z.leb_spec (f_upper path) (f_addr path)) as [|Hlt]; [apply Herr|].
  rewrite (Hpath Hlt). cbn [negb]. destruct (path_scan _ _ _ _ =? _); [apply Herr|].
  edestruct push_moves as (id & y' & n' & E' & Hg' & Hn' & _ & Hm'); [done..|]. by exists id, y', n'.
Qed.
End Calls.

(** ** A request that reports to a task *)

Lemma track_has id t0 task u n :
  good u n -> has id t0 u ->
  exists u', track_task id task u = Ret u' /\ good u' n /\ lands u u' /\ forall j s, has j s u' <-> (j = id /\ s = task) \/ (has j s u /\ j <> id).
Proof.
  intros Hg Hh. destruct (lookup_has _ _ _ _ Hg Hh) as (i & q & El & Hq & Eid & _). destruct (good_ok _ _ _ _ Hg Hh) as (pend & fl & Hok & Hr).
  pose proof Hq as [Hslot Hs]. unfold track_task. rewrite El. cbn [mbind outcome_bind]. unfold slot. rewrite Hslot. cbn [deref mbind outcome_bind mret outcome_ret].
  set (q' := mk_req _ _ _ _ _ _ _ _ _ _ task). set (u' := set_reqs _ u). exists u'. split; [done|].
  assert (Hlive : forall j r, live (u_reqs u') j r <-> (j = i /\ r = q') \/ (live (u_reqs u) j r /\ j <> i)).
  { intros j r. unfold live, u'. cbn. rewrite lookup_insert. case_decide as E; [subst j|naive_solver].
    split; [intros [[= <-] _]; by left|]. intros [[_ ->]|[_ ?]]; [by split|done]. }
  split; [|split].
  - exists pend. left. split; cbn; [apply Hok|exists fl; by eapply reqs_ok_set|].
    rewrite (n_pending_set i q) by done. rewrite (uk_inflight _ _ _ Hok). repeat case_decide; (done || lia).
  - intros j (x & r & [[-> ->]|[Hx Hne]]%Hlive & Ej & Hp); [by exists i, q|by exists x, r].
  - intros j s. split.
    + intros (x & r & [[-> ->]|[Hx Hne]]%Hlive & <- & <-); [left; by split|]. right. split; [by exists x, r|]. intros Ej.
      apply Hne. by destruct (live_unique _ _ _ _ _ _ _ Hr Hx Hq ltac:(congruence)).
    + intros [[-> ->]|[(x & r & Hx & <- & <-) Hne]].
      * exists i, q'. split; [apply Hlive; by left|done].
      * exists x, r. split; [|done]. apply Hlive. right. split; [done|]. intros ->. apply Hne. destruct Hx as [Hx _]. congruence.
Qed.
