(* ===== verification/Uring.v ===== *)
(** * Uring: the io_uring runtime's calls

    The second half of [io_uring/filc_async_uring.c], and the public read of
    [io_uring/fasync_syscalls.c] that it tracks: the records of the calls, the
    list of those with a request in flight, submission with its reclaiming of
    slots, and polling, on top of the request layer of the file Syscalls.  All
    of it runs with [fasync_lock] held, except what [uring_submit] does before
    it takes the lock.

    Calls into the framework are recorded: [filc_async_complete] in
    [y_completed], [filc_async_mark_shared] in [v_shared]; the framework has a
    lock and a state of its own.  What the kernel answers, and what it posts
    while the code polls or waits, are arguments. *)

From S2P Require Import Prelude RunList Meta Requests Ring Syscalls UringMeta.
Open Scope Z_scope.

Definition EIO : Z := 5.
Definition EOVERFLOW : Z := 75.
Definition EOPNOTSUPP : Z := 95.
Definition UINT_MAX : Z := 0xFFFFFFFF.

(** [struct uring_call]; its two links are in the list. *)
Record call := mk_call { c_task : ptr; c_request : Z; c_op : uring_op; c_explicit_read : bool; c_finished : bool }.

Record urt := mk_urt {
  v_y : sys;
  v_calls : gmap ptr call;
  v_list : runlist;                (* [g_newest], [g_oldest] and the links *)
  v_data : gmap ptr ptr;           (* the tasks' runtime-data slots *)
  v_shared : list (ptr * fptr);    (* the calls of [filc_async_mark_shared] *)
}.

Definition urt_init : urt := mk_urt sys_init ∅ runlist_init ∅ [].
Definition set_sys (y : sys) (v : urt) : urt := mk_urt y (v_calls v) (v_list v) (v_data v) (v_shared v).
Definition set_call (p : ptr) (c : call) (v : urt) : urt := mk_urt (v_y v) (<[p := c]> (v_calls v)) (v_list v) (v_data v) (v_shared v).
Definition set_list (l : runlist) (v : urt) : urt := mk_urt (v_y v) (v_calls v) l (v_data v) (v_shared v).
Definition set_data (t p : ptr) (v : urt) : urt := mk_urt (v_y v) (v_calls v) (v_list v) (<[t := p]> (v_data v)) (v_shared v).

Definition v_u (v : urt) : uring := y_u (v_y v).
Definition set_vu (u : uring) (v : urt) : urt := set_sys (set_u u (v_y v)) v.

(** The call of [filc_async_complete]. *)
Definition complete (t : ptr) (result : Z) (v : urt) : urt :=
  let y := v_y v in set_sys (mk_sys (y_u y) (y_fds y) (y_completed y ++ [(t, result)])) v.

Definition mark_finished (c : call) : call := mk_call (c_task c) (c_request c) (c_op c) (c_explicit_read c) true.
Definition with_request (id : Z) (c : call) : call := mk_call (c_task c) id (c_op c) (c_explicit_read c) (c_finished c).

(** The kernel, during one look at a request: what it posts before the poll,
    its answer to a submission, and its turns if the request is waited for. *)
Record look := mk_look { lk_arrived : list cqe; lk_ret : Z; lk_turns : list turn }.

Definition finish (k : look) (p : ptr) (v : urt) : outcome urt :=
  c ← deref (v_calls v !! p);
  if c_finished c then mret v
  else
    let v := set_call p (mark_finished c) v in
    if c_explicit_read c then
      o ← fasync_req_lookup (c_request c) (u_reqs (v_u v));
      match o with
      | None => mret (complete (c_task c) (- EINVAL) v)
      | Some i => '(r, u, _) ← fasync_req_wait (lk_ret k) (lk_turns k) i (v_u v); mret (complete (c_task c) r (set_vu u v))
      end
    else
      '(result, v) ← (if bool_decide (c_op c = URING_OP_IGNORE) then mret (- EOPNOTSUPP, v)
                      else '(r, y, _) ← fasync_result (lk_ret k) (lk_turns k) (c_request c) (v_y v); mret (r, set_sys y v));
      v ← (if c_request c =? 0 then mret v else l ← list_remove p (v_list v); mret (set_list l v));
      mret (complete (c_task c) result v).

(** [p] and [t] are what [filc_async_alloc] and [filc_async_task_new]
    return. *)
Definition fasync_track_read (id : Z) (buf : fptr) (p t : ptr) (v : urt) : outcome urt :=
  o ← fasync_req_lookup id (u_reqs (v_u v));
  match o with
  | None => mret v
  | Some _ =>
      if p =? NULL then Fatal "fasync_pread: out of memory"
      else
        let v := set_data t p (set_call p (mk_call t id URING_OP_READ true false) v) in
        u ← track_task id t (v_u v);
        let v := set_vu u v in
        mret (mk_urt (v_y v) (v_calls v) (v_list v) (v_data v) (v_shared v ++ [(t, buf)]))
  end.

(** The walk from the oldest call on, one [look] for each call met. *)
Fixpoint reclaim_loop (looks : list look) (p : ptr) (reclaimed : bool) (v : urt) : outcome (bool * urt) :=
  if p =? NULL then mret (reclaimed, v)
  else
    match looks with
    | [] => NoFuel
    | k :: looks =>
        c ← deref (v_calls v !! p);
        '(ready, u) ← fasync_ready (lk_arrived k) (c_request c) (v_u v);
        let v := set_vu u v in
        if negb ready then
          v ← (if reclaimed then mret v else '(_, u) ← fasync_submit (lk_ret k) (v_u v); finish k p (set_vu u v));
          mret (true, v)
        else
          v ← finish k p v;
          n ← deref (rl_nodes (v_list v) !! p);
          reclaim_loop looks (newer n) true v
    end.

Definition reclaim (looks : list look) (v : urt) : outcome (bool * urt) := reclaim_loop looks (g_oldest (v_list v)) false v.

(** The kernel, during one turn of the loop of [queue]. *)
Record attempt := mk_attempt { at_answers : answers; at_looks : list look }.

Section Calls.
Context (zcheck zcheck_readonly : fptr -> Z -> bool) (byte_at : ptr -> Z).

(** The loop of [queue]: whether a request was queued. *)
Fixpoint queue_loop (attempts : list attempt) (p : ptr) (args : list fptr) (v : urt) : outcome (bool * urt) :=
  match attempts with
  | [] => NoFuel
  | a :: attempts =>
      c ← deref (v_calls v !! p);
      '(id, y) ← dispatch zcheck zcheck_readonly byte_at (at_answers a) (c_op c) args (set_errno 0 (v_y v));
      let v := set_call p (with_request id c) (set_sys y v) in
      if negb (id =? 0) then mret (true, v)
      else
        '(again, v) ← (if u_errno (v_u v) =? EAGAIN then reclaim (at_looks a) v else mret (false, v));
        if (again : bool) then queue_loop attempts p args v
        else mret (false, complete (c_task c) (if u_errno (v_u v) =? 0 then - EIO else - u_errno (v_u v)) v)
  end.

Definition queue (attempts : list attempt) (p : ptr) (m : meta) (args : list fptr) (v : urt) : outcome urt :=
  c ← deref (v_calls v !! p);
  if bool_decide (c_op c = URING_OP_IGNORE) then mret (set_data (c_task c) p v)
  else
    ok ← shape_ok m (c_op c);
    if negb ok then mret (complete (c_task c) (- EINVAL) v)
    else
      big ← (if bool_decide (c_op c = URING_OP_READ \/ c_op c = URING_OP_WRITE) then w ← arg_word args 2; mret (UINT_MAX <? w) else mret false);
      if (big : bool) then mret (complete (c_task c) (- EOVERFLOW) v)
      else
        '(queued, v) ← queue_loop attempts p args v;
        if negb queued then mret v
        else l ← list_add p (v_list v); mret (set_data (c_task c) p (set_list l v)).

(** The record of a call that has not been queued yet. *)
Definition new_call (p t : ptr) (m : meta) (v : urt) : outcome urt :=
  if p =? NULL then Fatal "io_uring runtime: out of memory"
  else mret (set_call p (mk_call t 0 (op_from (me_opts m)) false false) v).

(** [body] and [wait_buffer] are what [filc_async_run] and
    [filc_async_wait_buffer] do to this state: other threads, and the body
    itself, may make calls of this runtime meanwhile. *)
Definition uring_submit (body : urt -> outcome urt) (wait_buffer : fptr -> urt -> outcome urt) (attempts : list attempt)
  (t : ptr) (m : option meta) (args : option (list fptr)) (nargs : Z) (p : ptr) (v : urt) : outcome urt :=
  match m, args with
  | Some m, Some args =>
      if (t =? NULL) || negb (nargs =? me_nargs m) then Fatal "io_uring runtime: bad submit"
      else
        v ← body v;
        v ← new_call p t m v;
        let op := op_from (me_opts m) in
        reads ← (if bool_decide (op = URING_OP_WRITE \/ op = URING_OP_OPENAT) then shape_ok m op else mret false);
        v ← (if (reads : bool) then b ← arg_ptr args 1; wait_buffer b v else mret v);
        queue attempts p m args v
  | _, _ => Fatal "io_uring runtime: bad submit"
  end.

(** The public read: a request with a task of its own. *)
Definition fasync_pread (k : answers) (fd : Z) (buf : fptr) (len offset : Z) (p t : ptr) (v : urt) : outcome (Z * urt) :=
  '(id, y) ← fasync_do_pread zcheck k fd buf len offset (v_y v);
  let v := set_sys y v in
  v ← (if id =? 0 then mret v else fasync_track_read id buf p t v);
  mret (id, v).
End Calls.

Definition is_check (mode : filc_async_poll_mode) : bool := match mode with FILC_ASYNC_POLL_CHECK => true | _ => false end.
Definition is_block (mode : filc_async_poll_mode) : bool := match mode with FILC_ASYNC_POLL_BLOCK => true | _ => false end.

(** [again]: what the kernel posts between the submission and the second look
    at the request. *)
Definition uring_poll (mode : filc_async_poll_mode) (k : look) (again : list cqe) (t : ptr) (v : urt) : outcome (bool * urt) :=
  let p := default NULL (v_data v !! t) in
  if p =? NULL then mret (false, v)
  else
    c ← deref (v_calls v !! p);
    if c_finished c then mret (true, v)
    else if bool_decide (c_op c = URING_OP_IGNORE) then
      if is_check mode then mret (false, v) else v ← finish k p v; mret (true, v)
    else
      '(ready, u) ← fasync_ready (lk_arrived k) (c_request c) (v_u v);
      '(ready, u) ← (if negb ready && negb (is_check mode) then
                       '(rc, u) ← fasync_submit (lk_ret k) u;
                       if rc <? 0 then Fatal "io_uring submission failed"
                       else if is_block mode then mret (true, u)
                       else fasync_ready again (c_request c) u
                     else mret (ready, u));
      let v := set_vu u v in
      if (ready : bool) then v ← finish k p v; mret (true, v) else mret (false, v).
