(* ===== verification/UringCalls.v ===== *)
(** * UringCalls: the calls of the io_uring runtime, proved

    The invariant of the file Uring: every request has at most one owner, a
    call in flight or a pending open, and the list holds the calls in flight,
    oldest first.  Polling, reclaiming and queueing are proved against it. *)

From S2P Require Import Prelude RunList Meta Requests Ring Syscalls UringMeta Owners Uring.
Open Scope Z_scope.

(** A call whose request it will collect itself. *)
Definition in_flight (c : call) : Prop := c_request c <> 0 /\ c_explicit_read c = false /\ c_finished c = false.

#[export] Instance in_flight_dec c : Decision (in_flight c).
Proof. unfold in_flight. apply _. Defined.

Inductive owner := OCall (p : ptr) | OOpen (k : nat).

Definition owns (v : urt) (o : owner) (id : Z) : Prop :=
  match o with
  | OCall p => exists c, v_calls v !! p = Some c /\ in_flight c /\ c_request c = id
  | OOpen k => opens (v_y v) k id
  end.

(** What a call's record may look like. *)
Record call_ok (c : call) : Prop := {
  ck_request : 0 <= c_request c;
  ck_ignore : c_op c = URING_OP_IGNORE -> c_request c = 0 /\ c_explicit_read c = false;
}.

(** A call that its task's slot names. *)
Definition published (c : call) : Prop := c_op c = URING_OP_IGNORE \/ c_request c <> 0.

Record urt_inv (v : urt) (l : list ptr) (n : Z) : Prop := {
  vi_good : good (v_u v) n;
  vi_list : dll_rep (v_list v) l;
  vi_calls : forall p, p ∈ l <-> exists c, v_calls v !! p = Some c /\ in_flight c;
  vi_null : v_calls v !! NULL = None;
  vi_ok : forall p c, v_calls v !! p = Some c -> call_ok c;
  vi_data : forall t p, v_data v !! t = Some p -> exists c, v_calls v !! p = Some c /\ c_task c = t /\ published c;
  vi_own : forall o id, owns v o id -> has id NULL (v_u v);
  vi_inj : forall o o' id, owns v o id -> owns v o' id -> o = o';
}.

Lemma urt_init_inv : urt_inv urt_init [] 0.
Proof.
  assert (Hno : forall o id, ~ owns urt_init o id).
  { intros [p|k] id; cbn; [by intros (c & [=] & _)|]. intros (q & Hq & Hu & _). apply lookup_replicate in Hq as [-> _]. done. }
  split; try done; try (by intros o id ?%Hno); try (by intros o o' id ?%Hno).
  - exists []. apply uring_init_inv.
  - apply runlist_init_rep.
  - intros p. split; [by intros ?%not_elem_of_nil|by intros (c & [=] & _)].
Qed.

(** ** Steps of the request layer *)

Lemma inv_opens_live v l n : urt_inv v l n -> opens_live (v_y v).
Proof. intros Hi k id Hk. by apply (vi_own _ _ _ Hi (OOpen k)). Qed.

(** A call or open keeps its request while the request layer moves. *)
Lemma kept v l n y' new o id :
  urt_inv v l n -> moves (v_y v) new y' -> owns v o id -> owns (set_sys y' v) o id -> has id NULL (y_u y') /\ ~ dropped (v_y v) y' id.
Proof.
  intros Hi Hm Hv Ho. assert (Hnd : ~ dropped (v_y v) y' id).
  { intros (k & Hk & Hn). rewrite <- (vi_inj _ _ _ Hi (OOpen k) o id Hk Hv) in Ho. by apply Hn. }
  split; [|done]. apply (mv_has _ _ _ Hm). right. split; [by apply (vi_own _ _ _ Hi o)|done].
Qed.

(** A new request has no owner yet. *)
Lemma unowned v l n y' new o :
  urt_inv v l n -> moves (v_y v) new y' -> new <> 0 -> owns v o new -> ~ owns (set_sys y' v) o new.
Proof.
  intros Hi Hm Hnew Hv Ho. destruct (kept _ _ _ _ _ _ _ Hi Hm Hv Ho) as [_ Hnd].
  exact (mv_fresh _ _ _ Hm Hnew NULL (vi_own _ _ _ Hi o new Hv) Hnd).
Qed.

Lemma owns_before v y' new o id : moves (v_y v) new y' -> owns (set_sys y' v) o id -> owns v o id.
Proof. intros Hm. destruct o as [p|k]; [done|]. apply (mv_opens _ _ _ Hm). Qed.

(** Requests move, the calls stay. *)
Lemma inv_moves v l n y' new n' :
  urt_inv v l n -> moves (v_y v) new y' -> good (y_u y') n' -> urt_inv (set_sys y' v) l n'.
Proof.
  intros Hi Hm Hg. split; try apply Hi; [done| |intros o o' id H1 H2; apply (vi_inj _ _ _ Hi _ _ id); by eapply owns_before].
  intros o id Ho. apply (kept v l n y' new o id Hi Hm); [by eapply owns_before|done].
Qed.

Lemma inv_keeps v l n u n' : urt_inv v l n -> keeps (v_u v) u -> good u n' -> urt_inv (set_vu u v) l n'.
Proof.
  intros Hi Hk Hg. split; try apply Hi; [done|]. intros o id Ho. apply Hk. by apply (vi_own _ _ _ Hi o).
Qed.

Lemma inv_complete v l n t r : urt_inv v l n -> urt_inv (complete t r v) l n.
Proof. intros Hi. split; try apply Hi. Qed.

(** ** Finishing a call *)

(** The state after the call [p] has been finished with the result [r]. *)
Record finished (p : ptr) (c : call) (r : Z) (v : urt) (v' : urt) : Prop := {
  fn_calls : v_calls v' = <[p := mark_finished c]> (v_calls v);
  fn_rest : v_data v' = v_data v /\ v_shared v' = v_shared v /\ y_fds (v_y v') = y_fds (v_y v);
  fn_completed : y_completed (v_y v') = y_completed (v_y v) ++ [(c_task c, r)];
}.

Lemma mark_finished_not c : ~ in_flight (mark_finished c).
Proof. intros (_ & _ & [=]). Qed.

(** Finishing a record changes no owner but the record itself. *)
Lemma owns_finished p c v v' o id :
  v_calls v' = <[p := mark_finished c]> (v_calls v) -> y_fds (v_y v') = y_fds (v_y v) ->
  owns v' o id <-> owns v o id /\ o <> OCall p.
Proof.
  intros Ec Ef. destruct o as [x|k]; cbn.
  - rewrite Ec. destruct (decide (x = p)) as [->|Hne].
    + rewrite lookup_insert_eq. split; [intros (c' & [= <-] & H & _); by destruct (mark_finished_not c)|by intros [_ ?]].
    + rewrite lookup_insert_ne by done. split; [|by intros [? _]]. intros H. split; [done|]. by intros [= ->].
  - rewrite (opens_fds _ _ Ef). split; [done|by intros [? _]].
Qed.

Lemma inv_finished p c r v v' l l' n :
  urt_inv v l n -> v_calls v !! p = Some c -> finished p c r v v' -> good (v_u v') n -> dll_rep (v_list v') l' ->
  (forall x, x ∈ l' <-> x ∈ l /\ x <> p) -> (forall o id, owns v o id -> o <> OCall p -> has id NULL (v_u v')) -> urt_inv v' l' n.
Proof.
  intros Hi Hc [Ec (Ed & _ & Ef) _] Hg Hl Hl' Hh. pose proof (fun o id => owns_finished p c v v' o id Ec Ef) as Hown. split; [done|done|..].
  - intros x. rewrite Hl', (vi_calls _ _ _ Hi x), Ec. destruct (decide (x = p)) as [->|Hne].
    + rewrite lookup_insert_eq. split; [by intros [_ ?]|]. intros (c' & [= <-] & H). by destruct (mark_finished_not c).
    + rewrite lookup_insert_ne by done. naive_solver.
  - rewrite Ec, lookup_insert_ne; [apply Hi|]. intros ->. by rewrite (vi_null _ _ _ Hi) in Hc.
  - intros x d. rewrite Ec, lookup_insert. case_decide; [|apply (vi_ok _ _ _ Hi)]. intros [= <-].
    destruct (vi_ok _ _ _ Hi p c Hc) as [H1 H2]. by split.
  - intros t x Hx. rewrite Ed in Hx. destruct (vi_data _ _ _ Hi t x Hx) as (d & Hd & Ht & Hp). rewrite Ec, lookup_insert.
    case_decide as E; [|by exists d]. subst x. exists (mark_finished c). assert (d = c) as -> by congruence. done.
  - intros o id [Ho Hne]%Hown. by eapply Hh.
  - intros o o' id [H1 _]%Hown [H2 _]%Hown. by eapply (vi_inj _ _ _ Hi).
Qed.

Lemma has_keep_task v l n o id t : urt_inv v l n -> owns v o id -> has id t (v_u v) -> t = NULL.
Proof. intros Hi Ho Hh. exact (has_task _ _ _ _ _ (vi_good _ _ _ Hi) Hh (vi_own _ _ _ Hi o id Ho)). Qed.

(** The calls with a request in flight: [finish] collects it, and takes the
    call off the list. *)
Lemma finish_call k p c v l n :
  urt_inv v l n -> v_calls v !! p = Some c -> in_flight c -> fed (lk_ret k) (lk_turns k) (c_request c) (v_u v) ->
  exists r v' l1 l2, finish k p v = Ret v' /\ l = l1 ++ p :: l2 /\ urt_inv v' (l1 ++ l2) n /\ finished p c r v v' /\
    rl_nodes (v_list v') !! p = rl_nodes (v_list v) !! p /\
    exists i q, live (u_reqs (v_u v)) i q /\ q_id q = c_request c /\ r = wait_result (lk_turns k) (v_u v) q.
Proof.
  intros Hi Hc Hf Hfed. pose proof Hf as (Hreq & Hex & Hfin). assert (Hp : p ∈ l) by (apply (vi_calls _ _ _ Hi); by exists c).
  apply list_elem_of_split in Hp as (l1 & l2 & ->). assert (Ho : owns v (OCall p) (c_request c)) by (by exists c).
  destruct (result_collects (lk_ret k) (lk_turns k) (c_request c) NULL (v_y v) n (vi_good _ _ _ Hi) (vi_own _ _ _ Hi _ _ Ho) Hfed)
    as (r & y' & turns' & E & [Hg Hfd _ Hh Hcm Hr]). rewrite app_nil_r in Hcm.
  destruct (running_remove_rep _ l1 p l2 (vi_list _ _ _ Hi)) as (rl & El & Hrl & Hnode).
  assert (Hop : c_op c <> URING_OP_IGNORE) by (intros Eop; by destruct (ck_ignore c (vi_ok _ _ _ Hi p c Hc) Eop)).
  set (v' := complete (c_task c) r (set_list rl (set_sys y' (set_call p (mark_finished c) v)))).
  assert (Hfn : finished p c r v v') by (split; [done|by split_and!|by cbn; rewrite Hcm]).
  exists r, v', l1, l2. split; [|split; [done|split; [|split; [done|split; [exact Hnode|exact Hr]]]]].
  - unfold finish. rewrite Hc. cbn [deref mbind outcome_bind]. rewrite Hfin, Hex, bool_decide_false by done.
    change (v_y (set_call p (mark_finished c) v)) with (v_y v). rewrite E. cbn [mbind outcome_bind mret outcome_ret].
    rewrite (proj2 (Z.eqb_neq _ _) Hreq). change (v_list (set_sys y' (set_call p (mark_finished c) v))) with (v_list v).
    unfold list_remove. rewrite El. done.
  - pose proof (dr_NoDup _ _ (vi_list _ _ _ Hi)) as Hnd. eapply inv_finished; [exact Hi|exact Hc|exact Hfn|exact Hg|exact Hrl|..].
    + intros x. apply NoDup_app in Hnd as (_ & H12 & [Hp2 _]%NoDup_cons). rewrite !elem_of_app, elem_of_cons. set_solver.
    + intros o id Hoo Hne. apply Hh. split; [by eapply (vi_own _ _ _ Hi)|]. intros ->. apply Hne. by eapply (vi_inj _ _ _ Hi).
Qed.

Lemma finish_done k p c v : v_calls v !! p = Some c -> c_finished c = true -> finish k p v = Ret v.
Proof. intros Hc Hf. unfold finish. rewrite Hc. cbn. by rewrite Hf. Qed.

(** A call that is not in flight. *)
Lemma inv_finished_out p c r v v' l n :
  urt_inv v l n -> v_calls v !! p = Some c -> ~ in_flight c -> finished p c r v v' -> v_list v' = v_list v -> good (v_u v') n -> keeps (v_u v) (v_u v') ->
  urt_inv v' l n.
Proof.
  intros Hi Hc Hn Hf El Hg Hk. eapply inv_finished; [exact Hi|exact Hc|exact Hf|exact Hg|rewrite El; apply Hi|..].
  - intros x. split; [|by intros [? _]]. intros Hx. split; [done|]. intros ->. apply (vi_calls _ _ _ Hi) in Hx as (d & Hd & Hfl). congruence.
  - intros o id Ho _. apply Hk. by eapply (vi_own _ _ _ Hi).
Qed.

Lemma finish_ignore k p c v l n :
  urt_inv v l n -> v_calls v !! p = Some c -> c_finished c = false -> c_op c = URING_OP_IGNORE ->
  exists v', finish k p v = Ret v' /\ urt_inv v' l n /\ finished p c (- EOPNOTSUPP) v v'.
Proof.
  intros Hi Hc Hf Hop. destruct (ck_ignore c (vi_ok _ _ _ Hi p c Hc) Hop) as [Hr Hex].
  set (v' := complete (c_task c) (- EOPNOTSUPP) (set_call p (mark_finished c) v)).
  assert (Hfn : finished p c (- EOPNOTSUPP) v v') by (split; [done|by split_and!|done]). exists v'. split; [|split; [|done]].
  - unfold finish. rewrite Hc. cbn [deref mbind outcome_bind]. rewrite Hf, Hex, Hop, bool_decide_true by done. cbn [mbind outcome_bind mret outcome_ret].
    by rewrite Hr.
  - eapply inv_finished_out; [done|done|by intros [? _]|done|done|apply Hi|apply keeps_refl].
Qed.

Lemma finish_explicit k p c v l n :
  urt_inv v l n -> v_calls v !! p = Some c -> c_finished c = false -> c_explicit_read c = true ->
  fed (lk_ret k) (lk_turns k) (c_request c) (v_u v) ->
  exists r v', finish k p v = Ret v' /\ urt_inv v' l n /\ finished p c r v v' /\ keeps (v_u v) (v_u v').
Proof.
  intros Hi Hc Hf Hex Hfed. pose proof (ck_request c (vi_ok _ _ _ Hi p c Hc)) as Hpos. assert (Hout : ~ in_flight c) by (intros (_ & ? & _); congruence).
  unfold finish. rewrite Hc. cbn [deref mbind outcome_bind]. rewrite Hf, Hex. change (v_u (set_call p (mark_finished c) v)) with (v_u v).
  destruct (has_cases _ _ _ (vi_good _ _ _ Hi) Hpos) as [(t & Hh)|Hno].
  - destruct (wait_good _ _ _ _ _ _ (vi_good _ _ _ Hi) Hh Hfed) as (i & r & u' & turns' & El & Ew & Hg & Hk & _). rewrite El. cbn [mbind outcome_bind].
    rewrite Ew. cbn [mbind outcome_bind]. eexists r, _. split; [done|]. split; [|split; [by split|done]].
    eapply inv_finished_out; [done|done|done|by split|done|done|done].
  - rewrite (lookup_hasnt _ _ _ (vi_good _ _ _ Hi) Hpos Hno). cbn [mbind outcome_bind]. eexists (- EINVAL), _. split; [done|].
    split; [|split; [by split|apply keeps_refl]]. eapply inv_finished_out; [done|done|done|by split|done|apply Hi|apply keeps_refl].
Qed.

(** ** Reclaiming slots *)

(** What a walk of [reclaim] relies on: room for the completions that arrive,
    and, when it waits for the oldest call, its completion. *)
Fixpoint looks_ok (looks : list look) (p : ptr) (reclaimed : bool) (v : urt) : Prop :=
  match looks with
  | [] => True
  | k :: looks =>
      forall c, v_calls v !! p = Some c ->
        room (lk_arrived k) (v_u v) /\
        forall b u, fasync_ready (lk_arrived k) (c_request c) (v_u v) = Ret (b, u) ->
          if (b : bool) then forall v' d, finish k p (set_vu u v) = Ret v' -> rl_nodes (v_list v') !! p = Some d -> looks_ok looks (newer d) true v'
          else reclaimed = false -> forall rc u', fasync_submit (lk_ret k) u = Ret (rc, u') -> fed (lk_ret k) (lk_turns k) (c_request c) u'
  end.

(** From [v] to [v'] the calls [l1] were finished, in that order, and nothing
    else changed in the records. *)
Record reclaims (v v' : urt) (l1 : list ptr) : Prop := {
  rc_calls : forall p, v_calls v' !! p = if decide (p ∈ l1) then mark_finished <$> v_calls v !! p else v_calls v !! p;
  rc_rest : v_data v' = v_data v /\ v_shared v' = v_shared v;
  rc_completed : exists rs, y_completed (v_y v') = y_completed (v_y v) ++ rs /\
    Forall2 (fun p (tr : ptr * Z) => exists c, v_calls v !! p = Some c /\ tr.1 = c_task c) l1 rs;
}.

Lemma reclaims_refl v : reclaims v v [].
Proof. split; [intros p; by rewrite decide_False by apply not_elem_of_nil|done|exists []; by rewrite app_nil_r]. Qed.

Lemma reclaims_head v v1 v' p c r l1 :
  finished p c r v v1 -> v_calls v !! p = Some c -> p ∉ l1 -> reclaims v1 v' l1 -> reclaims v v' (p :: l1).
Proof.
  intros [Ec (Ed & Es & Ef) Er] Hc Hp [Rc (Rd & Rs) (rs & Rr & Rall)]. split; [|by rewrite Rd, Rs|].
  - intros x. rewrite Rc, Ec, lookup_insert. destruct (decide (p = x)) as [<-|Hne].
    + rewrite decide_False, decide_True by (done || left). by rewrite Hc.
    + rewrite (decide_ext _ (x ∈ p :: l1)) by (rewrite elem_of_cons; naive_solver). done.
  - exists ((c_task c, r) :: rs). split; [by rewrite Rr, Er, <- app_assoc|]. constructor; [by exists c|].
    apply (Forall2_impl _ _ _ _ Rall). intros x [t z] (d & Hd & Et). cbn in *. rewrite Ec, lookup_insert in Hd.
    case_decide as E; [|by exists d]. injection Hd as <-. exists c. by subst x.
Qed.

Lemma reclaims_trans v v1 v' l1 l2 :
  reclaims v v1 l1 -> reclaims v1 v' l2 -> (forall p, p ∈ l1 -> p ∉ l2) -> reclaims v v' (l1 ++ l2).
Proof.
  intros [C1 (D1 & S1) (r1 & R1 & A1)] [C2 (D2 & S2) (r2 & R2 & A2)] Hd. split; [|by rewrite D2, S2|].
  - intros p. rewrite C2, C1. specialize (Hd p). destruct (decide (p ∈ l1)) as [H1|H1], (decide (p ∈ l2)) as [H2|H2]; try (by destruct (Hd H1)).
    + rewrite decide_True by (apply elem_of_app; by left). done.
    + rewrite decide_True by (apply elem_of_app; by right). done.
    + rewrite decide_False by (rewrite elem_of_app; naive_solver). done.
  - exists (r1 ++ r2). split; [by rewrite R2, R1, app_assoc|]. apply Forall2_app; [done|]. apply (Forall2_impl _ _ _ _ A2).
    intros x tr (d & E & Et). rewrite C1 in E. destruct (v_calls v !! x) as [c0|]; [|by case_decide].
    exists c0. split; [done|]. rewrite Et. case_decide; cbn in E; by injection E as <-.
Qed.

(** Only the request layer moved. *)
Lemma reclaims_moves v y new : moves (v_y v) new y -> reclaims v (set_sys y v) [].
Proof.
  intros Hm. split; [intros p; by rewrite decide_False by apply not_elem_of_nil|done|exists []]. rewrite app_nil_r. split; [|done].
  apply (mv_completed _ _ _ Hm).
Qed.

Lemma split_head (p : ptr) l l1 l2 : NoDup (p :: l) -> p :: l = l1 ++ p :: l2 -> l1 = [] /\ l2 = l.
Proof.
  intros Hnd El. destruct l1 as [|x l1]; [by injection El as <-|]. injection El as <- El. rewrite El in Hnd.
  apply NoDup_cons in Hnd as [Hx _]. destruct Hx. set_solver.
Qed.

Lemma finished_vu p c r u v v' : finished p c r (set_vu u v) v' -> finished p c r v v'.
Proof. intros [Ec (Ed & Es & Ef) Er]. by split. Qed.

Lemma reclaims_vu u v v' l1 : reclaims (set_vu u v) v' l1 -> reclaims v v' l1.
Proof. intros [Rc Rd Rr]. by split. Qed.

Lemma dll_head v p l n : urt_inv v (p :: l) n -> rl_nodes (v_list v) !! p = Some (mk_links (hd_of NULL l) NULL) /\ p <> NULL.
Proof.
  intros Hi. destruct (dr_seg _ _ (vi_list _ _ _ Hi)) as [Hs _]. split; [exact Hs|]. pose proof (dr_addr _ _ (vi_list _ _ _ Hi)). set_solver.
Qed.

Lemma reclaim_loop_ok looks : forall reclaimed v l n,
  urt_inv v l n -> (length l <= length looks)%nat -> looks_ok looks (hd_of NULL l) reclaimed v ->
  exists v' l1 l2, reclaim_loop looks (hd_of NULL l) reclaimed v = Ret (if decide (l = []) then reclaimed else true, v') /\
    l = l1 ++ l2 /\ urt_inv v' l2 n /\ reclaims v v' l1 /\ (l <> [] -> reclaimed = false -> l1 <> []).
Proof.
  induction looks as [|k looks IH]; intros reclaimed v l n Hi Hlen Hok.
  - destruct l as [|p l]; [|cbn in Hlen; lia]. exists v, [], []. split; [done|]. split; [done|]. split; [done|]. split; [apply reclaims_refl|done].
  - destruct l as [|p l].
    { exists v, [], []. split; [done|]. split; [done|]. split; [done|]. split; [apply reclaims_refl|done]. }
    destruct (dll_head _ _ _ _ Hi) as [Hnode Hnz]. cbn [hd_of reclaim_loop]. rewrite (proj2 (Z.eqb_neq _ _) Hnz).
    destruct (proj1 (vi_calls _ _ _ Hi p)) as (c & Hc & Hfl); [left|]. rewrite Hc. cbn [deref mbind outcome_bind].
    assert (Ho : owns v (OCall p) (c_request c)) by (by exists c). pose proof (vi_own _ _ _ Hi _ _ Ho) as Hh.
    cbn [looks_ok hd_of] in Hok. destruct (Hok c Hc) as [Hroom Hnext].
    destruct (ready_good _ _ _ _ _ (vi_good _ _ _ Hi) Hh Hroom) as (b & u & E & Hg & Hk & _ & Hb). rewrite E. cbn [mbind outcome_bind].
    specialize (Hnext b u E). pose proof (inv_keeps _ _ _ _ _ Hi Hk Hg) as Hi1. destruct b; cbn [negb].
    + destruct Hb as (r0 & Hs).
      destruct (finish_call k p c _ _ _ Hi1 Hc Hfl (fed_settled _ _ _ _ _ _ Hg Hs)) as (r & v1 & l1 & l2 & Ef & El & Hi2 & Hfn & Hnode1 & _).
      rewrite Ef. cbn [mbind outcome_bind]. destruct (split_head p l l1 l2 (dr_NoDup _ _ (vi_list _ _ _ Hi)) El) as [-> ->].
      cbn [app] in Hi2. change (v_list (set_vu u v)) with (v_list v) in Hnode1. rewrite Hnode1, Hnode. cbn [deref mbind outcome_bind newer].
      rewrite Hnode in Hnode1. specialize (Hnext v1 _ Ef Hnode1). cbn [newer] in Hnext. cbn [length] in Hlen.
      destruct (IH true v1 l n Hi2 ltac:(lia) Hnext) as (v' & m1 & m2 & El' & -> & Hi3 & Hr & _).
      exists v', (p :: m1), m2. rewrite El'. split; [by case_decide|]. split; [done|]. split; [done|]. split; [|done].
      eapply reclaims_head; [by eapply finished_vu|done| |done]. pose proof (dr_NoDup _ _ (vi_list _ _ _ Hi)) as [Hx _]%NoDup_cons. set_solver.
    + destruct reclaimed; cbn [mbind outcome_bind mret outcome_ret].
      { exists (set_vu u v), [], (p :: l). split; [done|]. split; [done|]. split; [done|]. split; [|done]. by eapply reclaims_vu, reclaims_refl. }
      destruct (submit_good (lk_ret k) u n Hg) as (rc & u' & Es & Hg' & Er & _). change (v_u (set_vu u v)) with u. rewrite Es. cbn [mbind outcome_bind].
      pose proof (inv_keeps _ _ _ u' n Hi1 (keeps_reqs _ _ Er) Hg') as Hi2. specialize (Hnext eq_refl rc u' Es).
      destruct (finish_call k p c _ _ _ Hi2 Hc Hfl Hnext) as (r & v1 & l1 & l2 & Ef & El & Hi3 & Hfn & _).
      rewrite Ef. cbn [mbind outcome_bind mret outcome_ret]. destruct (split_head p l l1 l2 (dr_NoDup _ _ (vi_list _ _ _ Hi)) El) as [-> ->].
      exists v1, [p], l. split; [done|]. split; [done|]. split; [done|]. split; [|done].
      eapply reclaims_head; [by do 2 eapply finished_vu|done|apply not_elem_of_nil|apply reclaims_refl].
Qed.

Lemma reclaim_ok looks v l n :
  urt_inv v l n -> (length l <= length looks)%nat -> looks_ok looks (g_oldest (v_list v)) false v ->
  exists b v' l1 l2, reclaim looks v = Ret (b, v') /\ l = l1 ++ l2 /\ urt_inv v' l2 n /\ reclaims v v' l1 /\
    (if b then l1 <> [] else l = []).
Proof.
  intros Hi Hlen Hok. unfold reclaim. rewrite (dr_oldest _ _ (vi_list _ _ _ Hi)) in *.
  destruct (reclaim_loop_ok looks false v l n Hi Hlen Hok) as (v' & l1 & l2 & E & El & Hi' & Hr & Hne).
  eexists _, v', l1, l2. split; [exact E|]. split; [done|]. split; [done|]. split; [done|]. case_decide; [done|by apply Hne].
Qed.

(** ** Queueing a call *)

Definition op_arity (op : uring_op) : nat :=
  match op with URING_OP_READ | URING_OP_WRITE | URING_OP_OPENAT => 4 | URING_OP_FSYNC | URING_OP_CLOSE => 1 | _ => 1 end.

Section Calls.
Context (zcheck zcheck_readonly : fptr -> Z -> bool) (byte_at : ptr -> Z).

(** Fil-C lets the checks of the arguments pass. *)
Definition args_safe (op : uring_op) (args : list fptr) : Prop :=
  match op, args with
  | URING_OP_READ, _ :: b :: w :: _ => zcheck b (f_addr w) = true
  | URING_OP_WRITE, _ :: b :: w :: _ => zcheck_readonly b (f_addr w) = true
  | URING_OP_OPENAT, _ :: b :: _ => path_safe zcheck_readonly b
  | _, _ => True
  end.

Lemma do_rw_moves (zc : fptr -> Z -> bool) k fd buf len (a : Z -> push_args) y n :
  good (y_u y) n -> setup_ok (an_setup k) -> n + 1 < 2 ^ 32 -> opens_live y -> fd_fed (an_ret k) (an_turns k) fd y -> zc buf len = true ->
  exists id y' n', moved y n ('(real, y, _) ← fasync_fd_resolve (an_ret k) (an_turns k) fd y;
    if real <? 0 then mret (0, set_errno (i32 (- real)) y) else if negb (zc buf len) then Trap else push k (a real) y) id y' n'.
Proof.
  intros Hg Hk Hn Hol Hfed Hzc. destruct (resolve_push_moves k fd a y n Hg Hk Hn Hol Hfed) as (real & y1 & turns & E & _ & id & y' & n' & [E' Hg' Hn' Hm] & _).
  exists id, y', n'. split; [|done..]. rewrite E. cbn [mbind outcome_bind]. rewrite Hzc. exact E'.
Qed.

Lemma dispatch_moves k op args y n :
  good (y_u y) n -> setup_ok (an_setup k) -> n + 1 < 2 ^ 32 -> opens_live y -> (op_arity op <= length args)%nat -> args_safe op args ->
  (forall d, args !! 0%nat = Some d -> fd_fed (an_ret k) (an_turns k) (i32 (f_addr d)) y) ->
  exists id y' n', moved y n (dispatch zcheck zcheck_readonly byte_at k op args y) id y' n'.
Proof.
  intros Hg Hk Hn Hol Har Hs Hfed. destruct args as [|d args]; [by destruct op; cbn in Har; lia|]. specialize (Hfed d eq_refl).
  assert (Hsame : exists id y' n', moved y n (Ret (0, y)) id y' n') by (exists 0, y, n; split; [done|done|lia|apply moves_refl]).
  destruct op; cbn [op_arity length] in Har; try exact Hsame.
  1, 2, 5: destruct args as [|b [|w [|o args]]]; [cbn in Har; lia..|]; cbn [args_safe] in Hs.
  - by apply (do_rw_moves zcheck k _ b (f_addr w) (fun real => mk_push FASYNC_OP_READ (i32 real) (f_addr b) (f_addr w) (f_addr o) (f_addr b) (f_addr w) 0)).
  - by apply (do_rw_moves zcheck_readonly k _ b (f_addr w) (fun real => mk_push FASYNC_OP_WRITE (i32 real) (f_addr b) (f_addr w) (f_addr o) NULL 0 0)).
  - exact (openat_moves zcheck_readonly byte_at k (i32 (f_addr d)) b (i32 (f_addr w)) (i32 (f_addr o)) y n Hg Hk Hn Hs).
  - destruct (resolve_push_moves k (i32 (f_addr d)) (fun real => mk_push FASYNC_OP_FSYNC (i32 real) 0 0 0 NULL 0 0) y n Hg Hk Hn Hol Hfed)
      as (real & y1 & turns & E & _ & id & y' & n' & [E' Hg' Hn' Hm] & _).
    exists id, y', n'. split; [|done..]. change (fasync_fsync k (i32 (f_addr d)) y = Ret (id, y')). unfold fasync_fsync. rewrite E. exact E'.
  - exact (close_moves k (i32 (f_addr d)) y n Hg Hk Hn Hol Hfed).
Qed.

(** What the turns of the loop of [queue] rely on: the kernel's documented
    answers, the completion of an open whose descriptor is needed, and of the
    calls that are reclaimed. *)
Fixpoint attempts_ok (attempts : list attempt) (p : ptr) (args : list fptr) (v : urt) : Prop :=
  match attempts with
  | [] => True
  | a :: attempts =>
      setup_ok (an_setup (at_answers a)) /\
      (forall d, args !! 0%nat = Some d -> fd_fed (an_ret (at_answers a)) (an_turns (at_answers a)) (i32 (f_addr d)) (set_errno 0 (v_y v))) /\
      forall c y, v_calls v !! p = Some c ->
        dispatch zcheck zcheck_readonly byte_at (at_answers a) (c_op c) args (set_errno 0 (v_y v)) = Ret (0, y) ->
        looks_ok (at_looks a) (g_oldest (v_list v)) false (set_sys y v) /\
        forall v2, reclaim (at_looks a) (set_sys y v) = Ret (true, v2) -> attempts_ok attempts p args v2
  end.

Lemma set_call_same p c v : v_calls v !! p = Some c -> set_call p c v = v.
Proof. intros Hc. destruct v as [y m l d s]. unfold set_call. cbn in *. by rewrite insert_id. Qed.

Lemma with_request_zero c : c_request c = 0 -> with_request 0 c = c.
Proof. destruct c. cbn. by intros ->. Qed.

Lemma good_errno e y n : good (y_u y) n -> good (y_u (set_errno e y)) n.
Proof. intros (pend & Hinv). exists pend. destruct Hinv as [[? ? ?]|?]; [by left; split|by right]. Qed.

Lemma opens_live_errno e y : opens_live y -> opens_live (set_errno e y).
Proof. intros H k id Hk. destruct (H k id Hk) as (i & q & ?). by exists i, q. Qed.

(** A call that [queue] has just been given. *)
Definition unqueued (c : call) : Prop := c_request c = 0 /\ c_explicit_read c = false /\ c_finished c = false /\ c_op c <> URING_OP_IGNORE.

Lemma unqueued_not c : unqueued c -> ~ in_flight c.
Proof. intros (H & _) (? & _). done. Qed.

Lemma unqueued_out v l n p c : urt_inv v l n -> v_calls v !! p = Some c -> unqueued c -> p ∉ l.
Proof. intros Hi Hc Hu Hp. apply (vi_calls _ _ _ Hi) in Hp as (d & Hd & Hf). assert (d = c) as -> by congruence. by destruct (unqueued_not c Hu). Qed.

(** The end of the loop: the oldest calls [l1] were finished, and the request
    was queued or the call completed with an error. *)
Inductive loop_end (p : ptr) (c : call) (v : urt) (l : list ptr) (n : Z) : bool -> urt -> Prop :=
  | loop_queued v1 l1 l2 n1 id y n2 :
      l = l1 ++ l2 -> urt_inv v1 l2 n1 -> reclaims v v1 l1 -> v_calls v1 !! p = Some c -> n <= n1 ->
      moves (v_y v1) id y -> good (y_u y) n2 -> n1 <= n2 -> id <> 0 ->
      loop_end p c v l n true (set_call p (with_request id c) (set_sys y v1))
  | loop_failed v1 l1 l2 n1 r :
      l = l1 ++ l2 -> urt_inv v1 l2 n1 -> reclaims v v1 l1 -> v_calls v1 !! p = Some c -> n <= n1 ->
      loop_end p c v l n false (complete (c_task c) r v1).

Lemma loop_end_before p c v v1 l1 l2 n n1 b v' :
  reclaims v v1 l1 -> NoDup (l1 ++ l2) -> n <= n1 -> loop_end p c v1 l2 n1 b v' -> loop_end p c v (l1 ++ l2) n b v'.
Proof.
  intros Hr Hnd Hn H. apply NoDup_app in Hnd as (_ & Hd & _). destruct H as [v2 m1 m2 n2 id y n3 -> Hi Hr2 Hc Hn2 Hm Hg Hn3 Hid|v2 m1 m2 n2 r -> Hi Hr2 Hc Hn2].
  - eapply (loop_queued p c v _ n v2 (l1 ++ m1) m2 n2 id y n3); try done; [by rewrite app_assoc| |lia].
    eapply reclaims_trans; [done..|]. intros x H1 H2. apply (Hd x H1), elem_of_app. by left.
  - eapply (loop_failed p c v _ n v2 (l1 ++ m1) m2 n2 r); try done; [by rewrite app_assoc| |lia].
    eapply reclaims_trans; [done..|]. intros x H1 H2. apply (Hd x H1), elem_of_app. by left.
Qed.

Lemma queue_loop_ok attempts : forall p c args v l n,
  urt_inv v l n -> v_calls v !! p = Some c -> unqueued c -> (op_arity (c_op c) <= length args)%nat -> args_safe (c_op c) args ->
  n + Z.of_nat (length attempts) < 2 ^ 32 -> (length l < length attempts)%nat -> Forall (fun a => (length l <= length (at_looks a))%nat) attempts ->
  attempts_ok attempts p args v ->
  exists b v', queue_loop zcheck zcheck_readonly byte_at attempts p args v = Ret (b, v') /\ loop_end p c v l n b v'.
Proof.
  induction attempts as [|a attempts IH]; intros p c args v l n Hi Hc Hu Har Hs Hn Hlen Hlooks Hok; [cbn in Hlen; lia|].
  destruct Hok as (Hsetup & Hfed & Hnext). apply Forall_cons in Hlooks as [Hlk Hlooks]. cbn [length] in *.
  destruct (dispatch_moves (at_answers a) (c_op c) args (set_errno 0 (v_y v)) n
    (good_errno _ _ _ (vi_good _ _ _ Hi)) Hsetup ltac:(lia) (opens_live_errno _ _ (inv_opens_live _ _ _ Hi)) Har Hs Hfed) as (id & y & n1 & [E Hg Hn1 Hm]).
  cbn [queue_loop]. rewrite Hc. cbn [deref mbind outcome_bind]. rewrite E. cbn [mbind outcome_bind].
  assert (Hm' : moves (v_y v) id y) by (eapply moves_then_errno; exact Hm).
  destruct (Z.eqb_spec id 0) as [->|Hid]; cbn [negb].
  2: { eexists true, _. split; [done|]. apply (loop_queued p c v l n v [] l n id y n1); [done|done|apply reclaims_refl|done|lia|done|done|lia|done]. }
  rewrite (with_request_zero c (proj1 Hu)), (set_call_same p c (set_sys y v) Hc). pose proof (inv_moves _ _ _ _ _ _ Hi Hm' Hg) as Hi1.
  pose proof (reclaims_moves v y 0 Hm') as Hr1.
  assert (Hfail : exists b v', Ret (false, complete (c_task c) (if u_errno (v_u (set_sys y v)) =? 0 then - EIO else - u_errno (v_u (set_sys y v))) (set_sys y v)) = Ret (b, v') /\ loop_end p c v l n b v').
  { eexists false, _. split; [done|]. by apply (loop_failed p c v l n (set_sys y v) [] l n1); [| | | |lia]. }
  destruct (u_errno (v_u (set_sys y v)) =? EAGAIN); cbn [mbind outcome_bind mret outcome_ret]; [|exact Hfail].
  destruct (Hnext c y Hc E) as [Hlooks1 Hnext1].
  destruct (reclaim_ok (at_looks a) _ l n1 Hi1 Hlk Hlooks1) as (b & v2 & l1 & l2 & E2 & -> & Hi2 & Hr2 & Hb). rewrite E2.
  cbn [mbind outcome_bind].
  assert (Hr : reclaims v v2 l1).
  { apply (reclaims_trans _ _ _ [] l1 Hr1 Hr2). intros x []%not_elem_of_nil. }
  destruct b.
  2: { eexists false, _. split; [done|]. apply (loop_failed p c v _ n v2 l1 l2 n1); [done|done|done| |lia]. 
       rewrite (rc_calls _ _ _ Hr), decide_False; [done|]. apply app_eq_nil in Hb as [-> _]. apply not_elem_of_nil. }
  assert (Hp1 : p ∉ l1) by (intros Hp; apply (unqueued_out _ _ _ _ _ Hi Hc Hu), elem_of_app; by left).
  assert (Hc2 : v_calls v2 !! p = Some c) by (by rewrite (rc_calls _ _ _ Hr), decide_False).
  assert (Hlen2 : (length l2 < length (l1 ++ l2))%nat) by (rewrite length_app; destruct l1; [done|cbn; lia]).
  destruct (IH p c args v2 l2 n1 Hi2 Hc2 Hu Har Hs ltac:(lia) ltac:(lia)) as (b & v' & E3 & Hend).
  - apply (Forall_impl _ _ _ Hlooks). intros x Hx. lia.
  - by apply Hnext1.
  - exists b, v'. split; [done|]. eapply loop_end_before; [exact Hr|apply (dr_NoDup _ _ (vi_list _ _ _ Hi))| |exact Hend]. lia.
Qed.

(** The queued call joins the list, and its task's slot names it. *)
Lemma publish_ok p c v l n id y n' :
  urt_inv v l n -> v_calls v !! p = Some c -> unqueued c -> moves (v_y v) id y -> good (y_u y) n' -> id <> 0 ->
  exists rl, list_add p (v_list v) = Ret rl /\
    urt_inv (set_data (c_task c) p (set_list rl (set_call p (with_request id c) (set_sys y v)))) (l ++ [p]) n'.
Proof.
  intros Hi Hc Hu Hm Hg Hid. pose proof (unqueued_out _ _ _ _ _ Hi Hc Hu) as Hp. pose proof Hu as (H0 & Hex & Hfin & Hop).
  assert (Hpn : p <> NULL) by (intros ->; by rewrite (vi_null _ _ _ Hi) in Hc).
  destruct (running_add_rep _ l p (vi_list _ _ _ Hi) Hpn Hp) as (rl & El & Hrl). exists rl. split; [exact El|].
  set (v' := set_data _ _ _). assert (Hfl : in_flight (with_request id c)) by done.
  assert (Hnew : has id NULL (y_u y)) by (apply (mv_has _ _ _ Hm); left; done).
  assert (Hpos : 0 < id) by (by eapply has_pos).
  assert (Hown : forall o j, owns v' o j -> (o = OCall p /\ j = id) \/ (owns v o j /\ o <> OCall p)).
  { intros [x|k] j; cbn.
    - rewrite lookup_insert. case_decide as E; [|intros Ho; right; split; [exact Ho|by intros [= ->]]].
      subst x. intros (d & [= <-] & _ & <-). by left.
    - intros Ho. right. split; [|done]. by apply (mv_opens _ _ _ Hm). }
  assert (Hkeep : forall o j, owns v' o j -> o <> OCall p -> has j NULL (y_u y) /\ ~ dropped (v_y v) y j).
  { intros o j Ho Hne. destruct (Hown o j Ho) as [[-> _]|[Hv _]]; [done|]. apply (kept v l n y id o j Hi Hm Hv).
    destruct o as [x|k]; [exact Hv|exact Ho]. }
  assert (Hfresh : forall o, owns v' o id -> o = OCall p).
  { intros o Ho. destruct (Hown o id Ho) as [[-> _]|[Hv Hne]]; [done|]. exfalso. destruct (Hkeep o id Ho Hne) as [_ Hnd].
    by apply (mv_fresh _ _ _ Hm Hid NULL (vi_own _ _ _ Hi o id Hv)). }
  split; [exact Hg|exact Hrl|..].
  - intros x. cbn [v_calls v' set_data set_list set_call]. rewrite elem_of_app, list_elem_of_singleton, lookup_insert. case_decide as E.
    + subst x. split; [intros _; by eexists|by right].
    + rewrite (vi_calls _ _ _ Hi x). split; [by intros [H|H]|by left].
  - cbn [v_calls v' set_data set_list set_call]. rewrite lookup_insert_ne by done. apply Hi.
  - intros x d. cbn [v_calls v' set_data set_list set_call]. rewrite lookup_insert. case_decide; [|apply (vi_ok _ _ _ Hi)].
    intros [= <-]. split; cbn; [lia|done].
  - intros t x. cbn [v_data v_calls v' set_data set_list set_call]. rewrite lookup_insert. case_decide as E.
    + intros [= <-]. subst t. rewrite lookup_insert_eq. eexists. split; [done|]. split; [done|]. by right.
    + intros Hx. destruct (vi_data _ _ _ Hi t x Hx) as (d & Hd & Ht & Hpub). rewrite lookup_insert_ne; [by exists d|]. intros <-.
      assert (d = c) as -> by (cbn in Hd; congruence). by destruct Hpub.
  - intros o j Ho. destruct (Hown o j Ho) as [[-> ->]|[_ Hne]]; [done|by apply (Hkeep o j)].
  - intros o o' j H1 H2. destruct (Hown o j H1) as [[-> ->]|[Hv1 Hne1]]; [by symmetry; apply Hfresh|].
    destruct (Hown o' j H2) as [[-> ->]|[Hv2 Hne2]]; [by apply Hfresh|]. by eapply (vi_inj _ _ _ Hi).
Qed.
End Calls.
