(* ===== verification/UringRun.v ===== *)
(** * UringRun: the io_uring runtime as a transition system

    The operations of the file Uring as steps, the proof that each returns and
    keeps the invariant of the file UringCalls, and what queueing and polling
    promise in every state the runtime can reach. *)

From S2P Require Import Prelude RunList Meta Requests Ring Syscalls UringMeta Owners Uring UringCalls.
Open Scope Z_scope.

Section Run.
Context (zcheck zcheck_readonly : fptr -> Z -> bool) (byte_at : ptr -> Z).

(** ** Queueing *)

Definition meta_ok (m : meta) : Prop := me_nargs m = Z.of_nat (length (me_args m)).

Lemma shape_arity m op (args : list fptr) :
  meta_ok m -> op_shape op (kinds_of m) -> Z.of_nat (length args) = me_nargs m -> op <> URING_OP_IGNORE -> (op_arity op <= length args)%nat.
Proof.
  intros Hm Hs Hl Hop. assert (Hk : length (kinds_of m) = length args) by (unfold kinds_of; rewrite length_map; unfold meta_ok in Hm; lia).
  destruct op; cbn in Hs; try done; [destruct Hs as (b & outs & E & _)|destruct Hs as (b & outs & E & _)|destruct Hs as (outs & E & _)|destruct Hs as (outs & E & _)|destruct Hs as (b & outs & E & _)];
    rewrite E in Hk; cbn in Hk |- *; lia.
Qed.

(** How [queue] leaves a call: waiting to be polled, completed with an error,
    or in flight, the last of the list.  When the table was full, the oldest
    calls [l1] were finished first. *)
Inductive queue_end (p : ptr) (c : call) (v : urt) (l : list ptr) : urt -> list ptr -> Prop :=
  | queue_ignored : c_op c = URING_OP_IGNORE -> queue_end p c v l (set_data (c_task c) p v) l
  | queue_failed v1 l1 l2 r :
      l = l1 ++ l2 -> reclaims v v1 l1 -> queue_end p c v l (complete (c_task c) r v1) l2
  | queue_sent v1 v' l1 l2 id :
      l = l1 ++ l2 -> reclaims v v1 l1 -> id <> 0 -> v_calls v' = <[p := with_request id c]> (v_calls v1) ->
      v_data v' = <[c_task c := p]> (v_data v1) -> y_completed (v_y v') = y_completed (v_y v1) -> queue_end p c v l v' (l2 ++ [p]).

(** A call that has just been given to [queue]. *)
Definition new_record (c : call) : Prop := c_request c = 0 /\ c_explicit_read c = false /\ c_finished c = false /\ c_op c <> URING_OP_UNKNOWN.

(** How many handles were given out. *)
Definition handed (v : urt) : Z := req_next_gen (u_reqs (v_u v)).

(** What [queue] relies on: one turn more than there are calls in flight, each
    with a look at each of them. *)
Record queue_ok (attempts : list attempt) (p : ptr) (m : meta) (args : list fptr) (v : urt) (l : list ptr) (c : call) : Prop := {
  qo_call : v_calls v !! p = Some c;
  qo_new : new_record c;
  qo_meta : meta_ok m /\ Z.of_nat (length args) = me_nargs m;
  qo_safe : args_safe zcheck zcheck_readonly (c_op c) args;
  qo_count : handed v + Z.of_nat (length attempts) < 2 ^ 32;
  qo_turns : (length l < length attempts)%nat;
  qo_looks : Forall (fun a => (length l <= length (at_looks a))%nat) attempts;
  qo_fed : attempts_ok zcheck zcheck_readonly byte_at attempts p args v;
}.

Lemma queue_returns_at attempts p m args v l n c :
  urt_inv v l n -> queue_ok attempts p m args v l c ->
  exists v' l' n', queue zcheck zcheck_readonly byte_at attempts p m args v = Ret v' /\ urt_inv v' l' n' /\ queue_end p c v l v' l'.
Proof.
  intros Hi [Hc Hnew [Hm Hargs] Hs Hcnt Hlen Hlooks Hfed]. pose proof Hnew as (H0 & Hex & Hfin & Hop).
  unfold handed in Hcnt. rewrite (good_count _ n (vi_good _ _ _ Hi)) in Hcnt.
  assert (Herr : forall r, exists v' l' n', Ret (complete (c_task c) r v) = Ret v' /\ urt_inv v' l' n' /\ queue_end p c v l v' l').
  { intros r. exists (complete (c_task c) r v), l, n. split; [done|]. split; [by apply inv_complete|].
    by apply (queue_failed p c v l v [] l r); [|apply reclaims_refl]. }
  unfold queue. rewrite Hc. cbn [deref mbind outcome_bind]. case_bool_decide as Hig.
  { eexists _, l, n. split; [done|]. split; [|by apply queue_ignored]. split; try apply Hi.
    intros t x. cbn [v_data set_data v_calls]. rewrite lookup_insert. case_decide as E; [|apply (vi_data _ _ _ Hi)].
    intros [= <-]. exists c. split; [done|]. split; [done|]. by left. }
  destruct (shape_ok_exact m Hm (c_op c) Hop) as (b & -> & Hb). cbn [mbind outcome_bind]. destruct b; cbn [negb]; [|apply Herr].
  pose proof (shape_arity m (c_op c) args Hm (proj1 Hb eq_refl) Hargs Hig) as Har.
  assert (Hbig : exists b, (if bool_decide (c_op c = URING_OP_READ \/ c_op c = URING_OP_WRITE) then w ← arg_word args 2; mret (UINT_MAX <? w) else mret false) = Ret b).
  { case_bool_decide as Ho; [|by eexists]. assert (H4 : (2 < length args)%nat) by (destruct Ho as [Ho|Ho]; rewrite Ho in Har; cbn in Har; lia).
    destruct (lookup_lt_is_Some_2 args 2 H4) as [w Hw]. unfold arg_word. rewrite Hw. by eexists. }
  destruct Hbig as (big & ->). cbn [mbind outcome_bind]. destruct big; [apply Herr|].
  assert (Hu : unqueued c) by (by split_and!).
  destruct (queue_loop_ok zcheck zcheck_readonly byte_at attempts p c args v l n Hi Hc Hu Har Hs Hcnt Hlen Hlooks Hfed) as (b & v' & -> & Hend).
  cbn [mbind outcome_bind]. destruct Hend as [v1 l1 l2 n1 id y n2 El Hi1 Hr Hc1 Hn1 Hmv Hg Hn2 Hid|v1 l1 l2 n1 r El Hi1 Hr Hc1 Hn1]; cbn [negb].
  - destruct (publish_ok p c v1 l2 n1 id y n2 Hi1 Hc1 Hu Hmv Hg Hid) as (rl & Erl & Hi2).
    change (v_list (set_call p (with_request id c) (set_sys y v1))) with (v_list v1). rewrite Erl. cbn [mbind outcome_bind mret outcome_ret].
    eexists _, (l2 ++ [p]), n2. split; [done|]. split; [exact Hi2|]. eapply (queue_sent p c v l v1 _ l1 l2 id); try done.
    apply (mv_completed _ _ _ Hmv).
  - eexists _, l2, n1. split; [done|]. split; [by apply inv_complete|]. by eapply queue_failed.
Qed.

(** ** Polling *)

(** What a poll relies on: room for the completions that arrive while the
    request is looked at, and, when it has to wait, the request's own. *)
Definition poll_ok (mode : filc_async_poll_mode) (k : look) (again : list cqe) (t : ptr) (v : urt) : Prop :=
  forall p c, v_data v !! t = Some p -> v_calls v !! p = Some c -> c_finished c = false -> c_op c <> URING_OP_IGNORE ->
    room (lk_arrived k) (v_u v) /\
    forall u, fasync_ready (lk_arrived k) (c_request c) (v_u v) = Ret (false, u) -> is_check mode = false ->
      0 <= lk_ret k /\ forall rc u1, fasync_submit (lk_ret k) u = Ret (rc, u1) ->
        if is_block mode then fed (lk_ret k) (lk_turns k) (c_request c) u1 else room again u1.

(** The result a call reports: that of its request, or of the first completion
    that carries its handle. *)
Definition result_of (k : look) (c : call) (r : Z) (v : urt) : Prop :=
  exists u i q, keeps (v_u v) u /\ live (u_reqs u) i q /\ q_id q = c_request c /\ r = wait_result (lk_turns k) u q.

(** What a poll of an unfinished call answers. *)
Definition poll_answer (mode : filc_async_poll_mode) (k : look) (p : ptr) (c : call) (v v' : urt) (l l' : list ptr) (b : bool) : Prop :=
  if b then
    exists r, finished p c r v v' /\ (forall x, x ∈ l' <-> x ∈ l /\ x <> p) /\ (c_op c = URING_OP_IGNORE -> r = - EOPNOTSUPP) /\
      (in_flight c -> result_of k c r v /\ forall t, ~ has (c_request c) t (v_u v'))
  else
    is_block mode = false /\ l' = l /\ v_calls v' = v_calls v /\ v_data v' = v_data v /\ y_completed (v_y v') = y_completed (v_y v) /\
    (c_op c = URING_OP_IGNORE -> is_check mode = true) /\ (c_op c <> URING_OP_IGNORE -> forall r, ~ settled (c_request c) r (v_u v')).

Lemma finish_call_gone k p c v l n v' :
  urt_inv v l n -> v_calls v !! p = Some c -> in_flight c -> fed (lk_ret k) (lk_turns k) (c_request c) (v_u v) -> finish k p v = Ret v' ->
  forall t, ~ has (c_request c) t (v_u v').
Proof.
  intros Hi Hc Hfl Hfed E t. pose proof Hfl as (Hreq & Hex & Hfin). assert (Ho : owns v (OCall p) (c_request c)) by (by exists c).
  destruct (result_collects _ _ _ _ _ _ (vi_good _ _ _ Hi) (vi_own _ _ _ Hi _ _ Ho) Hfed) as (r & y' & turns' & Er & Hco).
  assert (Hop : c_op c <> URING_OP_IGNORE) by (intros Eop; by destruct (ck_ignore c (vi_ok _ _ _ Hi p c Hc) Eop)).
  unfold finish in E. rewrite Hc in E. cbn [deref mbind outcome_bind] in E. rewrite Hfin, Hex, bool_decide_false in E by done.
  change (v_y (set_call p (mark_finished c) v)) with (v_y v) in E. rewrite Er in E. cbn [mbind outcome_bind mret outcome_ret] in E.
  rewrite (proj2 (Z.eqb_neq _ _) Hreq) in E. apply bind_Ret_inv in E as (v2 & E2 & E). apply Ret_inj in E. subst v'.
  apply bind_Ret_inv in E2 as (rl & _ & E2). apply Ret_inj in E2. subst v2. intros Hh. apply (co_has _ _ _ _ _ _ _ _ Hco) in Hh as [_ ?]. done.
Qed.

(** A call whose request is ready, or will be once it is waited for. *)
Lemma poll_finish mode k p c v u l n :
  urt_inv v l n -> keeps (v_u v) u -> good u n -> v_calls v !! p = Some c -> c_finished c = false -> published c -> c_op c <> URING_OP_IGNORE ->
  fed (lk_ret k) (lk_turns k) (c_request c) u ->
  exists v' l', finish k p (set_vu u v) = Ret v' /\ urt_inv v' l' n /\ poll_answer mode k p c v v' l l' true.
Proof.
  intros Hi Hk Hg Hc Hfin Hpub Hop Hfed. pose proof (inv_keeps _ _ _ _ _ Hi Hk Hg) as Hi1. destruct (c_explicit_read c) eqn:Eex.
  - destruct (finish_explicit k p c _ l n Hi1 Hc Hfin Eex Hfed) as (r & v' & E & Hi2 & Hfn & _). exists v', l. split; [done|]. split; [done|].
    exists r. split; [by eapply finished_vu|]. split; [|split; [done|intros (_ & ? & _); congruence]].
    intros x. split; [|by intros [? _]]. intros Hx. split; [done|]. intros ->. apply (vi_calls _ _ _ Hi) in Hx as (d & Hd & _ & ? & _). congruence.
  - assert (Hfl : in_flight c) by (destruct Hpub as [?|?]; [done|by split_and!]).
    destruct (finish_call k p c _ l n Hi1 Hc Hfl Hfed) as (r & v' & l1 & l2 & E & -> & Hi2 & Hfn & _ & i & q & Hq & Eid & Er).
    exists v', (l1 ++ l2). split; [done|]. split; [done|]. exists r. split; [by eapply finished_vu|].
    pose proof (dr_NoDup _ _ (vi_list _ _ _ Hi)) as Hnd. split; [|split; [done|]].
    + intros x. apply NoDup_app in Hnd as (_ & H12 & [Hp2 _]%NoDup_cons). rewrite !elem_of_app, elem_of_cons. set_solver.
    + intros _. split; [by exists u, i, q|]. exact (finish_call_gone k p c _ _ n v' Hi1 Hc Hfl Hfed E).
Qed.

Lemma poll_returns_at mode k again t v l n p c :
  urt_inv v l n -> poll_ok mode k again t v -> v_data v !! t = Some p -> v_calls v !! p = Some c -> c_finished c = false ->
  exists b v' l', uring_poll mode k again t v = Ret (b, v') /\ urt_inv v' l' n /\ poll_answer mode k p c v v' l l' b /\
    (mode = FILC_ASYNC_POLL_CHECK -> b = false -> u_enters (v_u v') = u_enters (v_u v)).
Proof.
  intros Hi Hok Hd Hc Hfin. assert (Hpn : p <> NULL) by (intros ->; by rewrite (vi_null _ _ _ Hi) in Hc).
  assert (Hpub : published c) by (destruct (vi_data _ _ _ Hi t p Hd) as (c' & Hc' & _ & Hp); assert (c' = c) as -> by congruence; exact Hp).
  unfold uring_poll. rewrite Hd. cbn [default from_option id]. rewrite (proj2 (Z.eqb_neq _ _) Hpn), Hc. cbn [deref mbind outcome_bind]. rewrite Hfin.
  case_bool_decide as Hig.
  { destruct (is_check mode) eqn:Em.
    - exists false, v, l. split; [done|]. split; [done|]. split; [|done]. split; [by destruct mode|]. by split_and!.
    - destruct (finish_ignore k p c v l n Hi Hc Hfin Hig) as (v' & -> & Hi' & Hfn). exists true, v', l. split; [done|]. split; [done|].
      split; [|by intros ->]. exists (- EOPNOTSUPP). split; [done|]. destruct (ck_ignore c (vi_ok _ _ _ Hi p c Hc) Hig) as [H0 _].
      split; [|split; [done|by intros [? _]]]. intros x. split; [|by intros [? _]]. intros Hx. split; [done|]. intros ->.
      apply (vi_calls _ _ _ Hi) in Hx as (d & Hd' & Hr & _). congruence. }
  destruct (Hok p c Hd Hc Hfin Hig) as [Hroom Hnext]. pose proof (ck_request c (vi_ok _ _ _ Hi p c Hc)) as Hpos.
  assert (Hlook : exists b u, fasync_ready (lk_arrived k) (c_request c) (v_u v) = Ret (b, u) /\ good u n /\ keeps (v_u v) u /\
    u_enters u = u_enters (v_u v) /\ if b then exists r, settled (c_request c) r u else forall r, ~ settled (c_request c) r u).
  { exact (ready_look _ _ _ _ (vi_good _ _ _ Hi) Hpos Hroom). }
  destruct Hlook as (b & u & E & Hg & Hk & Hen & Hb). rewrite E. cbn [mbind outcome_bind]. destruct b; cbn [negb andb].
  { destruct Hb as (r & Hs). destruct (poll_finish mode k p c v u l n Hi Hk Hg Hc Hfin Hpub Hig (fed_settled _ _ _ _ _ _ Hg Hs)) as (v' & l' & Ef & Hi' & Ha).
    cbn [mbind outcome_bind mret outcome_ret]. rewrite Ef. exists true, v', l'. split; [done|]. split; [done|]. split; [done|]. by intros _ [=]. }
  destruct (is_check mode) eqn:Em; cbn [negb mbind outcome_bind mret outcome_ret].
  { exists false, (set_vu u v), l. split; [done|]. split; [by eapply inv_keeps|]. split; [|done].
    split; [by destruct mode|]. by split_and!. }
  destruct (Hnext u E eq_refl) as [Hret Hnext1]. destruct (submit_good (lk_ret k) u n Hg) as (rc & u1 & Es & Hg1 & Er1 & _ & Hrc).
  rewrite Es. cbn [mbind outcome_bind]. destruct (Z.ltb_spec rc 0) as [|_]; [specialize (Hrc Hret); lia|]. specialize (Hnext1 rc u1 Es).
  pose proof (keeps_trans _ _ _ Hk (keeps_reqs _ _ Er1)) as Hk1.
  assert (Hmode : mode = FILC_ASYNC_POLL_CHECK -> False) by (by intros ->).
  destruct (is_block mode) eqn:Ebl; cbn [mbind outcome_bind mret outcome_ret].
  { destruct (poll_finish mode k p c v u1 l n Hi Hk1 Hg1 Hc Hfin Hpub Hig Hnext1) as (v' & l' & Ef & Hi' & Ha).
    rewrite Ef. exists true, v', l'. split; [done|]. split; [done|]. split; [done|]. by intros ?%Hmode. }
  destruct (ready_look again (c_request c) u1 n Hg1 Hpos Hnext1) as (b & u2 & E2 & Hg2 & Hk2 & _ & Hb2). rewrite E2. cbn [mbind outcome_bind].
  pose proof (keeps_trans _ _ _ Hk1 Hk2) as Hk3. destruct b.
  { destruct Hb2 as (r & Hs). destruct (poll_finish mode k p c v u2 l n Hi Hk3 Hg2 Hc Hfin Hpub Hig (fed_settled _ _ _ _ _ _ Hg2 Hs)) as (v' & l' & Ef & Hi' & Ha).
    rewrite Ef. exists true, v', l'. split; [done|]. split; [done|]. split; [done|]. by intros ?%Hmode. }
  exists false, (set_vu u2 v), l. split; [done|]. split; [by eapply inv_keeps|]. split; [|by intros ?%Hmode]. split; [done|]. by split_and!.
Qed.

(** ** The calls of the runtime as steps *)

Inductive vop :=
  | VNew (p t : ptr) (m : meta)                                                   (* the record of a submitted call *)
  | VQueue (attempts : list attempt) (p : ptr) (m : meta) (args : list fptr)
  | VPoll (mode : filc_async_poll_mode) (k : look) (again : list cqe) (t : ptr)
  | VDirect (k : answers) (op : uring_op) (args : list fptr)                       (* fasync_pwrite, fsync, close, openat *)
  | VRead (k : answers) (fd : Z) (buf : fptr) (len offset : Z) (p t : ptr)         (* fasync_pread *)
  | VOpenPending (k : answers) (dirfd : Z) (path : fptr) (flags mode : Z)
  | VResolve (ret : Z) (turns : list turn) (fd : Z)
  | VResult (ret : Z) (turns : list turn) (id : Z)
  | VSubmit (ret : Z).

Definition of_sys {A} (o : outcome (A * sys)) (v : urt) : outcome urt := '(_, y) ← o; mret (set_sys y v).

Definition vop_exec (op : vop) (v : urt) : outcome urt :=
  match op with
  | VNew p t m => new_call p t m v
  | VQueue attempts p m args => queue zcheck zcheck_readonly byte_at attempts p m args v
  | VPoll mode k again t => '(_, v) ← uring_poll mode k again t v; mret v
  | VDirect k op args => of_sys (dispatch zcheck zcheck_readonly byte_at k op args (v_y v)) v
  | VRead k fd buf len offset p t => '(_, v) ← fasync_pread zcheck k fd buf len offset p t v; mret v
  | VOpenPending k dirfd path flags mode => of_sys (fasync_open_pending zcheck_readonly byte_at k dirfd path flags mode (v_y v)) v
  | VResolve ret turns fd => '(_, y, _) ← fasync_fd_resolve ret turns fd (v_y v); mret (set_sys y v)
  | VResult ret turns id => '(_, y, _) ← fasync_result ret turns id (v_y v); mret (set_sys y v)
  | VSubmit ret => '(_, u) ← fasync_submit ret (v_u v); mret (set_vu u v)
  end.

(** Addresses of records are fresh, a record is queued once, arguments pass
    Fil-C's checks, handles are far from wrapping, and the kernel answers as
    documented.  A program collects only results that are its own. *)
Definition vop_ok (op : vop) (v : urt) : Prop :=
  match op with
  | VNew p t m => p <> NULL /\ v_calls v !! p = None /\ op_from (me_opts m) <> URING_OP_UNKNOWN
  | VQueue attempts p m args => forall l, dll_rep (v_list v) l -> exists c, queue_ok attempts p m args v l c
  | VPoll mode k again t => poll_ok mode k again t v
  | VDirect k op args =>
      setup_ok (an_setup k) /\ handed v + 1 < 2 ^ 32 /\ (op_arity op <= length args)%nat /\ args_safe zcheck zcheck_readonly op args /\
      forall d, args !! 0%nat = Some d -> fd_fed (an_ret k) (an_turns k) (i32 (f_addr d)) (v_y v)
  | VRead k fd buf len offset p t =>
      setup_ok (an_setup k) /\ handed v + 1 < 2 ^ 32 /\ zcheck buf len = true /\ fd_fed (an_ret k) (an_turns k) fd (v_y v) /\
      p <> NULL /\ v_calls v !! p = None /\ t <> NULL /\ v_data v !! t = None
  | VOpenPending k dirfd path flags mode => setup_ok (an_setup k) /\ handed v + 1 < 2 ^ 32 /\ path_safe zcheck_readonly path
  | VResolve ret turns fd => fd_fed ret turns fd (v_y v)
  | VResult ret turns id => 0 <= id /\ (forall o, ~ owns v o id) /\ fed ret turns id (v_u v)
  | VSubmit ret => True
  end.

Definition vinv (v : urt) : Prop := exists l n, urt_inv v l n.

(** A record no list and no task knows. *)
Lemma inv_add_record v l n p c :
  urt_inv v l n -> p <> NULL -> v_calls v !! p = None -> call_ok c -> ~ in_flight c -> urt_inv (set_call p c v) l n.
Proof.
  intros Hi Hp Hnone Hok Hnf. assert (Hown : forall o id, owns (set_call p c v) o id <-> owns v o id).
  { intros [x|k] id; [|done]. cbn. rewrite lookup_insert. case_decide as E; [subst x|done].
    split; [by intros (d & [= <-] & ? & _)|intros (d & Hd & _); congruence]. }
  split; try apply Hi.
  - intros x. rewrite (vi_calls _ _ _ Hi x). cbn. rewrite lookup_insert. case_decide as E; [subst x|done].
    split; [intros (d & Hd & _); congruence|by intros (d & [= <-] & ?)].
  - cbn. rewrite lookup_insert_ne by done. apply Hi.
  - intros x d. cbn. rewrite lookup_insert. case_decide; [by intros [= <-]|apply (vi_ok _ _ _ Hi)].
  - intros t x Hx. destruct (vi_data _ _ _ Hi t x Hx) as (d & Hd & Ht & Hpub). exists d. cbn. rewrite lookup_insert_ne by congruence. done.
  - intros o id Ho%Hown. by apply (vi_own _ _ _ Hi o).
  - intros o o' id H1%Hown H2%Hown. by eapply (vi_inj _ _ _ Hi).
Qed.

Lemma inv_set_data v l n t p c :
  urt_inv v l n -> v_calls v !! p = Some c -> c_task c = t -> published c -> urt_inv (set_data t p v) l n.
Proof.
  intros Hi Hc Ht Hp. split; try apply Hi. intros t' x. cbn. rewrite lookup_insert. case_decide as E; [|apply (vi_data _ _ _ Hi)].
  intros [= <-]. exists c. by subst t'.
Qed.

(** The requests changed, but not those that are owned. *)
Lemma inv_sys v l n y' n' :
  urt_inv v l n -> y_fds y' = y_fds (v_y v) -> good (y_u y') n' -> (forall o id, owns v o id -> has id NULL (y_u y')) -> urt_inv (set_sys y' v) l n'.
Proof.
  intros Hi Hf Hg Hh. assert (Hown : forall o id, owns (set_sys y' v) o id <-> owns v o id) by (intros [x|k] id; [done|by apply opens_fds]).
  split; try apply Hi; [done|by intros o id Ho%Hown; apply (Hh o)|]. intros o o' id H1%Hown H2%Hown. by eapply (vi_inj _ _ _ Hi).
Qed.

Lemma inv_tracked v l n y id n' buf p t :
  urt_inv v l n -> moves (v_y v) id y -> good (y_u y) n' -> id <> 0 -> p <> NULL -> v_calls v !! p = None -> t <> NULL ->
  exists v', fasync_track_read id buf p t (set_sys y v) = Ret v' /\ urt_inv v' l n' /\ lands (y_u y) (v_u v').
Proof.
  intros Hi Hm Hg Hid Hp Hnone Ht. assert (Hh : has id NULL (y_u y)) by (apply (mv_has _ _ _ Hm); by left).
  destruct (lookup_has _ _ _ _ Hg Hh) as (i & q & El & _). pose proof (has_pos _ _ _ _ Hg Hh) as Hpos.
  unfold fasync_track_read. change (v_u (set_sys y v)) with (y_u y). rewrite El. cbn [mbind outcome_bind]. rewrite (proj2 (Z.eqb_neq _ _) Hp).
  set (c := mk_call t id URING_OP_READ true false). set (v1 := set_data t p (set_call p c (set_sys y v))).
  destruct (track_has id NULL t (y_u y) n' Hg Hh) as (u' & Et & Hg' & Hl' & Hh'). change (v_u v1) with (y_u y). rewrite Et. cbn [mbind outcome_bind mret outcome_ret].
  eexists. split; [done|]. assert (Hc : call_ok c) by (split; cbn; [lia|done]). assert (Hnf : ~ in_flight c) by (by intros (_ & ? & _)).
  pose proof (inv_moves _ _ _ _ _ _ Hi Hm Hg) as Hi1. pose proof (inv_add_record _ _ _ p c Hi1 Hp Hnone Hc Hnf) as Hi2.
  assert (Hi3 : urt_inv v1 l n') by (apply (inv_set_data _ _ _ t p c Hi2); [apply lookup_insert_eq|done|by right]).
  pose proof (inv_sys v1 l n' (set_u u' y) n' Hi3 eq_refl Hg') as Hi4. assert (Hown : forall o j, owns v1 o j -> has j NULL u').
  { intros o j Ho. apply Hh'. right. split; [by apply (vi_own _ _ _ Hi3 o)|]. intros ->.
    assert (Ho1 : owns (set_sys y v) o id).
    { destruct o as [x|k]; [|exact Ho]. destruct Ho as (d & Hd & Hf & Ed). cbn in Hd. rewrite lookup_insert in Hd. case_decide as E; [injection Hd as <-; by destruct Hnf|].
      by exists d. }
    exact (unowned _ _ _ _ _ _ Hi Hm Hid (owns_before _ _ _ _ _ Hm Ho1) Ho1). }
  specialize (Hi4 Hown). split; [split; apply Hi4|exact Hl'].
Qed.

(** What a call that issues a request leaves: the request [id] (0: none). *)
Definition issued (v : urt) (id : Z) (v' : urt) : Prop :=
  0 <= id /\ vinv v' /\ (id <> 0 -> handed v < id_gen id) /\ forall j, flying j (v_u v') -> (id <> 0 /\ j = id) \/ flying j (v_u v).

Lemma moves_id_pos y id y' n : moves y id y' -> good (y_u y') n -> 0 <= id.
Proof.
  intros Hm Hg. destruct (Z.eq_dec id 0) as [->|Hid]; [done|]. apply Z.lt_le_incl, (has_pos (y_u y') n id NULL Hg).
  apply (mv_has _ _ _ Hm). by left.
Qed.

Lemma moved_issued v l n o id y' n' : urt_inv v l n -> moved (v_y v) n o id y' n' -> issued v id (set_sys y' v).
Proof.
  intros Hi [_ Hg [_ Hgen] Hm]. split; [by eapply moves_id_pos|]. split; [exists l, n'; by eapply inv_moves|].
  split; [|apply (mv_flying _ _ _ Hm)]. unfold handed. by rewrite (good_count _ n (vi_good _ _ _ Hi)).
Qed.

Lemma pread_returns k fd buf len offset p t v l n :
  urt_inv v l n -> setup_ok (an_setup k) -> n + 1 < 2 ^ 32 -> zcheck buf len = true -> fd_fed (an_ret k) (an_turns k) fd (v_y v) ->
  p <> NULL -> v_calls v !! p = None -> t <> NULL ->
  exists id v', fasync_pread zcheck k fd buf len offset p t v = Ret (id, v') /\ issued v id v'.
Proof.
  intros Hi Hs Hc Hz Hfed Hp Hnone Ht.
  destruct (do_rw_moves zcheck k fd buf len (fun real => mk_push FASYNC_OP_READ (i32 real) (f_addr buf) len offset (f_addr buf) len 0) (v_y v) n
    (vi_good _ _ _ Hi) Hs Hc (inv_opens_live _ _ _ Hi) Hfed Hz) as (id & y & n' & Hmd).
  pose proof (moved_issued _ _ _ _ _ _ _ Hi Hmd) as (Hpos & Hv & Hgen & Hfl). destruct Hmd as [E Hg _ Hm]. unfold fasync_pread.
  change (fasync_do_pread zcheck k fd buf len offset (v_y v) = Ret (id, y)) in E. rewrite E. cbn [mbind outcome_bind].
  destruct (Z.eqb_spec id 0) as [->|Hid]; cbn [mbind outcome_bind mret outcome_ret]; [by eexists 0, _|].
  destruct (inv_tracked v l n y id n' buf p t Hi Hm Hg Hid Hp Hnone Ht) as (v' & Ev & Hi' & Hl). rewrite Ev. exists id, v'. split; [done|].
  split; [done|]. split; [by exists l, n'|]. split; [done|]. intros j Hj%Hl. by apply Hfl.
Qed.

Lemma inv_new_open v l n y id n' :
  urt_inv v l n -> moves (v_y v) id y -> good (y_u y) n' -> id <> 0 ->
  urt_inv (set_sys (set_fds (snd (fasync_pending_fd_new id (y_fds y))) y) v) l n'.
Proof.
  intros Hi Hm Hg Hid. pose proof (inv_moves _ _ _ _ _ _ Hi Hm Hg) as Hi1. unfold fasync_pending_fd_new. pose proof (pending_fd_new_spec id (y_fds y) 0) as H.
  destruct (pending_fd_new_from 0 id (y_fds y)) as [h fds']. cbn [snd]. destruct H as [(_ & -> & _)|(k & q & Hq & Hqu & _ & ->)].
  { replace (set_fds (y_fds y) y) with y by (by destruct y). exact Hi1. }
  set (y' := set_fds _ y). assert (Hklt : (k < length (y_fds y))%nat) by (by eapply lookup_lt_Some).
  assert (Hown : forall o j, owns (set_sys y' v) o j -> (o = OOpen k /\ j = id) \/ owns (set_sys y v) o j).
  { intros [x|k'] j; [by right|]. cbn. unfold opens, y'. cbn [y_fds set_fds]. destruct (decide (k' = k)) as [->|Hne].
    - rewrite list_lookup_insert_eq by done. intros (p & [= <-] & _ & _ & <-). by left.
    - rewrite list_lookup_insert_ne by done. intros Ho. by right. }
  assert (Hold : forall o, owns (set_sys y' v) o id -> o = OOpen k).
  { intros o Ho. destruct (Hown o id Ho) as [[-> _]|Ho1]; [done|]. exfalso.
    exact (unowned _ _ _ _ _ _ Hi Hm Hid (owns_before _ _ _ _ _ Hm Ho1) Ho1). }
  split; try apply Hi1.
  - intros o j Ho. destruct (Hown o j Ho) as [[-> ->]|Ho1]; [apply (mv_has _ _ _ Hm); by left|by apply (vi_own _ _ _ Hi1 o)].
  - intros o o' j H1 H2. destruct (Hown o j H1) as [[-> ->]|Ho1]; [by symmetry; apply Hold|].
    destruct (Hown o' j H2) as [[-> ->]|Ho2]; [by apply Hold|]. by eapply (vi_inj _ _ _ Hi1).
Qed.

Lemma poll_total mode k again t v l n :
  urt_inv v l n -> poll_ok mode k again t v -> exists b v' l', uring_poll mode k again t v = Ret (b, v') /\ urt_inv v' l' n.
Proof.
  intros Hi Hok. destruct (v_data v !! t) as [p|] eqn:Hd.
  - destruct (vi_data _ _ _ Hi t p Hd) as (c & Hc & _). destruct (c_finished c) eqn:Hf.
    + exists true, v, l. split; [|done]. unfold uring_poll. rewrite Hd. cbn [default from_option id].
      rewrite (proj2 (Z.eqb_neq p NULL)) by (intros ->; by rewrite (vi_null _ _ _ Hi) in Hc). rewrite Hc. cbn [deref mbind outcome_bind]. by rewrite Hf.
    + destruct (poll_returns_at mode k again t v l n p c Hi Hok Hd Hc Hf) as (b & v' & l' & E & Hi' & _). by exists b, v', l'.
  - exists false, v, l. split; [|done]. unfold uring_poll. by rewrite Hd.
Qed.

Lemma vop_step v op : vinv v -> vop_ok op v -> exists v', vop_exec op v = Ret v' /\ vinv v'.
Proof.
  intros (l & n & Hi) Hok. pose proof (good_count _ _ (vi_good _ _ _ Hi)) as Hcount.
  destruct op as [p t m|attempts p m args|mode k again t|k op args|k fd buf len offset p t|k dirfd path flags mode|ret turns fd|ret turns id|ret]; cbn [vop_exec vop_ok] in *.
  - destruct Hok as (Hp & Hnone & _). unfold new_call. rewrite (proj2 (Z.eqb_neq _ _) Hp). eexists. split; [done|]. exists l, n.
    apply inv_add_record; [done|done|done| |by intros [? _]]. split; [done|]. by split.
  - destruct (Hok l (vi_list _ _ _ Hi)) as (c & Hq). destruct (queue_returns_at attempts p m args v l n c Hi Hq) as (v' & l' & n' & E & Hi' & _).
    exists v'. split; [done|]. by exists l', n'.
  - destruct (poll_total mode k again t v l n Hi Hok) as (b & v' & l' & E & Hi'). rewrite E. exists v'. split; [done|]. by exists l', n.
  - destruct Hok as (Hs & Hc & Har & Hsafe & Hfed). unfold handed in Hc. rewrite Hcount in Hc.
    destruct (dispatch_moves zcheck zcheck_readonly byte_at k op args (v_y v) n (vi_good _ _ _ Hi) Hs Hc (inv_opens_live _ _ _ Hi) Har Hsafe Hfed)
      as (id & y & n' & [E Hg _ Hm]). rewrite E. eexists. split; [done|]. exists l, n'. by eapply inv_moves.
  - destruct Hok as (Hs & Hc & Hz & Hfed & Hp & Hnone & Ht & Hdt). unfold handed in Hc. rewrite Hcount in Hc.
    destruct (pread_returns k fd buf len offset p t v l n Hi Hs Hc Hz Hfed Hp Hnone Ht) as (id & v' & E & _ & Hv & _). rewrite E.
    by exists v'.
  - destruct Hok as (Hs & Hc & Hpath). unfold handed in Hc. rewrite Hcount in Hc.
    destruct (openat_moves zcheck_readonly byte_at k dirfd path flags mode (v_y v) n (vi_good _ _ _ Hi) Hs Hc Hpath) as (id & y & n' & [E Hg _ Hm]).
    unfold fasync_open_pending. rewrite E. cbn [mbind outcome_bind]. destruct (Z.eqb_spec id 0) as [->|Hid].
    + eexists. split; [done|]. exists l, n'. by eapply inv_moves.
    + pose proof (inv_new_open v l n y id n' Hi Hm Hg Hid) as Hi'. destruct (fasync_pending_fd_new id (y_fds y)) as [h fds'].
      eexists. split; [done|]. by exists l, n'.
  - destruct (resolve_moves ret turns fd (v_y v) n (vi_good _ _ _ Hi) (inv_opens_live _ _ _ Hi) Hok) as (r & y' & turns' & E & Hg & Hm & _).
    rewrite E. eexists. split; [done|]. exists l, n. by eapply inv_moves.
  - destruct Hok as (Hid & Hno & Hfed). destruct (has_cases _ _ _ (vi_good _ _ _ Hi) Hid) as [(t & Hh)|Hnone].
    + destruct (result_collects ret turns id t (v_y v) n (vi_good _ _ _ Hi) Hh Hfed) as (r & y' & turns' & E & [Hg Hf _ Hh' _ _]). rewrite E.
      eexists. split; [done|]. exists l, n. apply (inv_sys v l n); [done..|]. intros o j Ho. apply Hh'. split; [by apply (vi_own _ _ _ Hi o)|].
      intros ->. by apply (Hno o).
    + rewrite (result_nothing ret turns id (v_y v) n (vi_good _ _ _ Hi) Hid Hnone). exists v. split; [by destruct v|]. by exists l, n.
  - destruct (submit_good ret _ _ (vi_good _ _ _ Hi)) as (rc & u' & E & Hg & Er & _). rewrite E. eexists. split; [done|]. exists l, n.
    apply inv_keeps with (n := n); [done|by apply keeps_reqs|done].
Qed.

(** The states the runtime can reach. *)
Abbreviation vreach := (reach vop_exec vop_ok urt_init).

Lemma vreach_inv v : vreach v -> vinv v.
Proof. apply (reach_inv _ _ _ vinv (fun v op => vop_step v op)). exists [], 0. apply urt_init_inv. Qed.

(** C18: the records of the runtime.  In every state the runtime can reach,
    whatever the order of submissions, polls, reads, opens and results, its
    list holds exactly the calls in flight, each once; each of them owns a
    live request that reports to no task, and neither another call nor a
    pending open owns the same one.  And every next call returns. *)
Theorem uring_owns_requests (v : urt) :
  vreach v ->
  (exists l, dll_rep (v_list v) l /\ (forall p, p ∈ l <-> exists c, v_calls v !! p = Some c /\ in_flight c)) /\
  (forall o id, owns v o id -> has id NULL (v_u v) /\ forall o', owns v o' id -> o' = o) /\
  (forall op, vop_ok op v -> exists v', vop_exec op v = Ret v').
Proof.
  intros Hv. destruct (vreach_inv v Hv) as (l & n & Hi). split; [|split].
  - exists l. split; apply Hi.
  - intros o id Ho. split; [by apply (vi_own _ _ _ Hi o)|]. intros o' Ho'. by eapply (vi_inj _ _ _ Hi).
  - intros op Hok. destruct (vop_step v op (ex_intro _ l (ex_intro _ n Hi)) Hok) as (v' & E & _). by exists v'.
Qed.

(** A poll of a call that its submission has published.  It answers true
    exactly when it finishes the call: the call is off the list, its result
    is logged once, and it is the result of its request, whose slot is free
    again.  It answers false only when it may not wait and the request has not
    completed, and then no record changes; with CHECK, not even the queue of
    requests is sent.  A finished call answers true and changes nothing. *)
Theorem uring_poll_exact (v : urt) (mode : filc_async_poll_mode) (k : look) (again : list cqe) (t p : ptr) (c : call) :
  vreach v -> poll_ok mode k again t v -> v_data v !! t = Some p -> v_calls v !! p = Some c ->
  if c_finished c then uring_poll mode k again t v = Ret (true, v)
  else exists b v' l l', uring_poll mode k again t v = Ret (b, v') /\ dll_rep (v_list v) l /\ dll_rep (v_list v') l' /\
    poll_answer mode k p c v v' l l' b /\ (mode = FILC_ASYNC_POLL_CHECK -> b = false -> u_enters (v_u v') = u_enters (v_u v)).
Proof.
  intros (l & n & Hi)%vreach_inv Hok Hd Hc. destruct (c_finished c) eqn:Hf.
  - unfold uring_poll. rewrite Hd. cbn [default from_option id].
    rewrite (proj2 (Z.eqb_neq p NULL)) by (intros ->; by rewrite (vi_null _ _ _ Hi) in Hc). rewrite Hc. cbn [deref mbind outcome_bind]. by rewrite Hf.
  - destruct (poll_returns_at mode k again t v l n p c Hi Hok Hd Hc Hf) as (b & v' & l' & E & Hi' & Ha & Hen).
    exists b, v', l, l'. split; [done|]. split; [apply Hi|]. split; [apply Hi'|]. by split.
Qed.

(** Queueing a call ends.  When the table of requests is full, [queue]
    finishes the oldest calls, and waits for the first only if none has
    completed; each turn frees a slot, so with one turn more than there are
    calls in flight it returns: the call is the newest in flight and its task's
    slot names it, or it is completed with an error, or it is an op=ignore call
    to be polled. *)
Theorem uring_queue_returns (v : urt) (attempts : list attempt) (p : ptr) (m : meta) (args : list fptr) (l : list ptr) (c : call) :
  vreach v -> dll_rep (v_list v) l -> (forall x, x ∈ l <-> exists d, v_calls v !! x = Some d /\ in_flight d) ->
  queue_ok attempts p m args v l c ->
  exists v' l', queue zcheck zcheck_readonly byte_at attempts p m args v = Ret v' /\ dll_rep (v_list v') l' /\ queue_end p c v l v' l'.
Proof.
  intros (l0 & n & Hi)%vreach_inv Hl Hcalls Hq.
  assert (Hi' : urt_inv v l n) by (split; try apply Hi; done).
  destruct (queue_returns_at attempts p m args v l n c Hi' Hq) as (v' & l' & n' & E & Hi2 & Hend). exists v', l'. split; [done|]. split; [apply Hi2|done].
Qed.
End Run.

(** ** A concrete run

    A read of 64 bytes from descriptor 5 into an object at 4096, by the call
    65536 of task 64; then an fsync, the call 131072 of task 128. *)

Definition pass (_ : fptr) (_ : Z) : bool := true.
Definition no_bytes (_ : ptr) : Z := 0.
Definition exec (op : vop) (v : urt) : urt := after v (vop_exec pass pass no_bytes op v).

Definition word (w : Z) : fptr := mk_fptr w NULL NULL.
Definition small_meta (op : string) (kinds : list Z) : meta :=
  mk_meta "f" (Z.of_nat (length kinds)) 0 0 0 4096 (map (fun k => mk_meta_arg k 0) kinds) (Some [op]).
Definition pread_meta : meta := small_meta "op=pread" [0; 3; 0; 0].
Definition fsync_meta : meta := small_meta "op=fsync" [0].
Definition pread_args : list fptr := [word 5; mk_fptr 4096 4096 4160; word 64; word 0].
Definition fsync_args : list fptr := [word 5].
Definition idle_look : look := mk_look [] 1 [].
Definition one_turn : attempt := mk_attempt (mk_answers 1 [] kernel_setup 1) [idle_look].

Definition run_new : urt := exec (VNew 65536 64 pread_meta) urt_init.
Definition run_queued : urt := exec (VQueue [one_turn] 65536 pread_meta pread_args) run_new.
Definition run_sent : urt := exec (VSubmit 1) run_queued.
Definition run_second : urt := exec (VNew 131072 128 fsync_meta) run_sent.

Lemma exec_ret op v : (match vop_exec pass pass no_bytes op v with Ret _ => true | _ => false end) = true -> vop_exec pass pass no_bytes op v = Ret (exec op v).
Proof. unfold exec. by destruct (vop_exec _ _ _ op v). Qed.

Lemma queued_not_zero (o : outcome (Z * sys)) y : (match o with Ret (i, _) => negb (i =? 0) | _ => false end) = true -> o <> Ret (0, y).
Proof. by intros H ->. Qed.

Abbreviation wreach := (reach (vop_exec pass pass no_bytes) (vop_ok pass pass no_bytes) urt_init).

Lemma run_new_reach : wreach run_new.
Proof. apply (reach_step _ _ _ urt_init (VNew 65536 64 pread_meta)); [apply reach_init| |apply exec_ret; vm_compute; reflexivity]. split; [done|]. split; [done|vm_compute; discriminate]. Qed.

Ltac one_attempt := repeat (apply List.Forall_cons; [cbn; lia|]); apply List.Forall_nil.

Lemma run_queue_ok : queue_ok pass pass no_bytes [one_turn] 65536 pread_meta pread_args run_new [] (mk_call 64 0 URING_OP_READ false false).
Proof.
  split; [vm_compute; reflexivity|by split_and!|done|done|vm_compute; reflexivity|cbn; lia|one_attempt|].
  split; [exact kernel_setup_ok|]. split; [intros d [= <-] k id H; vm_compute in H; discriminate H|].
  intros c y Hc. assert (c = mk_call 64 0 URING_OP_READ false false) as -> by (vm_compute in Hc; by injection Hc as <-).
  intros H. exfalso. revert H. apply queued_not_zero. vm_compute. reflexivity.
Qed.

Lemma run_queued_reach : wreach run_queued.
Proof.
  apply (reach_step _ _ _ run_new (VQueue [one_turn] 65536 pread_meta pread_args)); [apply run_new_reach| |apply exec_ret; vm_compute; reflexivity].
  intros l Hl. assert (l = []) as -> by (apply hd_of_null; [apply (dr_addr _ _ Hl)|by rewrite <- (dr_oldest _ _ Hl)]).
  eexists. exact run_queue_ok.
Qed.

Lemma run_sent_reach : wreach run_sent.
Proof. apply (reach_step _ _ _ run_queued (VSubmit 1)); [apply run_queued_reach|exact I|apply exec_ret; vm_compute; reflexivity]. Qed.

Lemma run_second_reach : wreach run_second.
Proof. apply (reach_step _ _ _ run_sent (VNew 131072 128 fsync_meta)); [apply run_sent_reach| |apply exec_ret; vm_compute; reflexivity]. split; [done|]. split; [vm_compute; reflexivity|vm_compute; discriminate]. Qed.

Definition read_call : call := mk_call 64 (pack_id 1 0) URING_OP_READ false false.

Lemma run_sent_call : v_calls run_sent !! 65536 = Some read_call.
Proof. vm_compute. reflexivity. Qed.

Lemma uring_owns_requests_witness :
  owns run_sent (OCall 65536) (pack_id 1 0) /\ has (pack_id 1 0) NULL (v_u run_sent).
Proof.
  assert (Ho : owns run_sent (OCall 65536) (pack_id 1 0)) by (exists read_call; split; [exact run_sent_call|by split_and!]).
  split; [exact Ho|]. destruct (uring_owns_requests pass pass no_bytes run_sent run_sent_reach) as (_ & H & _). exact (proj1 (H _ _ Ho)).
Defined.

(** The read has transferred 48 bytes when it is polled. *)
Definition arrived_look : look := mk_look [mk_cqe (pack_id 1 0) 48] 1 [].

Lemma run_poll_ok : poll_ok FILC_ASYNC_POLL_CHECK arrived_look [] 64 run_sent.
Proof.
  intros p c Hd Hc _ _. assert (p = 65536) as -> by (vm_compute in Hd; by injection Hd). rewrite run_sent_call in Hc. injection Hc as <-.
  split; [intros _; apply posts_okb_ok; vm_compute; reflexivity|]. intros u _ [=].
Qed.

Lemma uring_poll_exact_witness :
  exists b v' l l', uring_poll FILC_ASYNC_POLL_CHECK arrived_look [] 64 run_sent = Ret (b, v') /\ dll_rep (v_list run_sent) l /\ dll_rep (v_list v') l' /\
    poll_answer FILC_ASYNC_POLL_CHECK arrived_look 65536 read_call run_sent v' l l' b /\
    (FILC_ASYNC_POLL_CHECK = FILC_ASYNC_POLL_CHECK -> b = false -> u_enters (v_u v') = u_enters (v_u run_sent)).
Proof.
  apply (uring_poll_exact pass pass no_bytes run_sent FILC_ASYNC_POLL_CHECK arrived_look [] 64 65536 read_call run_sent_reach run_poll_ok).
  - vm_compute. reflexivity.
  - exact run_sent_call.
Defined.

Lemma run_second_list : dll_rep (v_list run_second) [65536].
Proof.
  split; [apply NoDup_singleton|by intros ?%list_elem_of_singleton|split; [vm_compute; reflexivity|exact I]|vm_compute; reflexivity|vm_compute; reflexivity].
Qed.

Lemma run_second_calls x : x ∈ [65536] <-> exists d, v_calls run_second !! x = Some d /\ in_flight d.
Proof.
  assert (E : v_calls run_second = <[131072 := mk_call 128 0 URING_OP_FSYNC false false]> (<[65536 := read_call]> ∅)) by (vm_compute; reflexivity).
  rewrite E, list_elem_of_singleton, !lookup_insert. split.
  - intros ->. exists read_call. split; [vm_compute; reflexivity|]. split_and!; [vm_compute; discriminate|reflexivity..].
  - intros (d & Hd & Hf). destruct (decide (131072 = x)) as [<-|_]; [injection Hd as <-; destruct Hf as [Hf _]; exfalso; apply Hf; reflexivity|].
    destruct (decide (65536 = x)) as [<-|_]; [reflexivity|]. rewrite lookup_empty in Hd. discriminate Hd.
Qed.

Lemma uring_queue_returns_witness :
  exists v' l', queue pass pass no_bytes [one_turn; one_turn] 131072 fsync_meta fsync_args run_second = Ret v' /\ dll_rep (v_list v') l' /\
    queue_end 131072 (mk_call 128 0 URING_OP_FSYNC false false) run_second [65536] v' l'.
Proof.
  apply (uring_queue_returns pass pass no_bytes run_second [one_turn; one_turn] 131072 fsync_meta fsync_args [65536]
    (mk_call 128 0 URING_OP_FSYNC false false) run_second_reach run_second_list run_second_calls).
  split; [vm_compute; reflexivity|split_and!; done|split; reflexivity|exact I|vm_compute; reflexivity|cbn; lia|one_attempt|].
  split; [exact kernel_setup_ok|]. split; [intros d [= <-] k id H; vm_compute in H; discriminate H|].
  intros c y Hc. assert (c = mk_call 128 0 URING_OP_FSYNC false false) as -> by (vm_compute in Hc; by injection Hc as <-).
  intros H. exfalso. revert H. apply queued_not_zero. vm_compute. reflexivity.
Defined.
