(* ===== verification/Tokens.v ===== *)
(** * Tokens: calls ordered by a tracker

    [io_uring/fasync_token.c]: a read or write issued with a tracker first
    waits for the calls of that tracker it conflicts with, and is then put in
    the tracker's queue of at most [FASYNC_TOKEN_QLEN] handles.  The tracker
    itself is in the file Dag, the calls are those of the files Syscalls and
    Uring.

    The code does this without the lock of the runtime ([fasync_lock]): the
    model is of one thread at a time. *)

From S2P Require Import Prelude Requests Ring Syscalls Owners UringMeta Uring UringCalls UringRun RunList Dag.
Open Scope Z_scope.

Definition FASYNC_TOKEN_QLEN : Z := 16.

Definition fasync_token_conflicts (a b : Z) : bool :=
  (a =? FASYNC_OUT) || (a =? FASYNC_INOUT) || (b =? FASYNC_OUT) || (b =? FASYNC_INOUT).

(** The kernel's part in one wait. *)
Record await := mk_await { aw_ret : Z; aw_turns : list turn }.

(** [r && r->state == FASYNC_REQ_PENDING], with the slot of [r]. *)
Definition pending_request (id : Z) (u : uring) : outcome (option Z) :=
  o ← fasync_req_lookup id (u_reqs u);
  match o with
  | None => mret None
  | Some i => p ← pending_at i u; mret (if (p : bool) then Some i else None)
  end.

(** One turn of the loop of [fasync_token_wait]: whether the entry is kept. *)
Definition token_entry (w : await) (kind : Z) (e : Z * Z) (u : uring) : outcome (bool * uring) :=
  o ← pending_request e.1 u;
  u ← (match o with
       | Some i => if fasync_token_conflicts e.2 kind then '(_, u, _) ← fasync_req_wait (aw_ret w) (aw_turns w) i u; mret u else mret u
       | None => mret u
       end);
  o ← pending_request e.1 u;
  mret (bool_decide (is_Some o), u).

(** [keep]: the entries at the front of the queue that were kept so far. *)
Fixpoint token_wait_loop (waits : list await) (kind : Z) (keep q : list (Z * Z)) (u : uring) {struct q} : outcome (list (Z * Z) * uring) :=
  match q with
  | [] => mret (keep, u)
  | e :: q =>
      match waits with
      | [] => NoFuel
      | w :: waits => '(pending, u) ← token_entry w kind e u; token_wait_loop waits kind (if (pending : bool) then keep ++ [e] else keep) q u
      end
  end.

Definition set_queue (q : list (Z * Z)) (k : tracker) : tracker := mk_tracker (k_resource k) q.

Definition fasync_token_wait (waits : list await) (tok : option tracker) (kind : Z) (u : uring) : outcome (option tracker * uring) :=
  match tok with
  | None => mret (None, u)
  | Some k => '(q, u) ← token_wait_loop waits kind [] (k_q k) u; mret (Some (set_queue q k), u)
  end.

(** The loop of [fasync_token_track]: the oldest entry goes. *)
Fixpoint make_room (waits : list await) (q : list (Z * Z)) (u : uring) {struct q} : outcome (list (Z * Z) * uring) :=
  match q with
  | [] => mret ([], u)
  | e :: q' =>
      if Z.of_nat (length q) <? FASYNC_TOKEN_QLEN then mret (q, u)
      else
        match waits with
        | [] => NoFuel
        | w :: waits =>
            o ← pending_request e.1 u;
            u ← (match o with Some i => '(_, u, _) ← fasync_req_wait (aw_ret w) (aw_turns w) i u; mret u | None => mret u end);
            make_room waits q' u
        end
  end.

Definition fasync_token_track (waits : list await) (tok : option tracker) (id kind : Z) (u : uring) : outcome (option tracker * uring) :=
  match tok with
  | None => mret (None, u)
  | Some k =>
      if id =? 0 then mret (Some k, u)
      else '(q, u) ← make_room waits (k_q k) u; mret (Some (set_queue (q ++ [(id, kind)]) k), u)
  end.

(** The arguments of a read or write, and the kernel's part in it. *)
Record io_args := mk_io { io_k : answers; io_fd : Z; io_buf : fptr; io_len : Z; io_offset : Z }.

Section Calls.
Context (zcheck zcheck_readonly : fptr -> Z -> bool) (byte_at : ptr -> Z).

(** [wait_buffer] is what the call of [filc_async_wait_buffer] does here. *)
Definition fasync_pwrite (a : io_args) (wait_buffer : fptr -> urt -> outcome urt) (v : urt) : outcome (Z * urt) :=
  v ← wait_buffer (io_buf a) v;
  '(id, y) ← fasync_do_pwrite zcheck_readonly (io_k a) (io_fd a) (io_buf a) (io_len a) (io_offset a) (v_y v);
  mret (id, set_sys y v).

(** Likewise for the path, which the kernel reads later. *)
Definition fasync_openat (k : answers) (dirfd : Z) (path : fptr) (flags mode : Z) (wait_buffer : fptr -> urt -> outcome urt) (v : urt) : outcome (Z * urt) :=
  v ← wait_buffer path v;
  '(id, y) ← fasync_do_openat zcheck_readonly byte_at k dirfd path flags mode (v_y v);
  mret (id, set_sys y v).

Definition fasync_close (k : answers) (fd : Z) (v : urt) : outcome (Z * urt) :=
  '(id, y) ← fasync_close_locked k fd (v_y v);
  mret (id, set_sys y v).

(** What both tagged calls do around [call]. *)
Definition tagged (before after : list await) (tok : option tracker) (kind : Z) (call : urt -> outcome (Z * urt)) (v : urt)
  : outcome (Z * option tracker * urt) :=
  '(tok, u) ← fasync_token_wait before tok kind (v_u v);
  '(id, v) ← call (set_vu u v);
  '(tok, u) ← fasync_token_track after tok id kind (v_u v);
  mret (id, tok, set_vu u v).

(** [p] and [t]: the memory and the task of [fasync_pread]. *)
Definition fasync_tagged_pread (before after : list await) (a : io_args) (p t : ptr) (tok : option tracker) (kind : Z) (v : urt)
  : outcome (Z * option tracker * urt) :=
  tagged before after tok kind (fasync_pread zcheck (io_k a) (io_fd a) (io_buf a) (io_len a) (io_offset a) p t) v.

Definition fasync_tagged_pwrite (before after : list await) (a : io_args) (wait_buffer : fptr -> urt -> outcome urt) (tok : option tracker) (kind : Z) (v : urt)
  : outcome (Z * option tracker * urt) :=
  tagged before after tok kind (fasync_pwrite a wait_buffer) v.
End Calls.

(** ** The waits *)

Lemma pending_request_ok id u n :
  good u n -> 0 <= id ->
  exists o, pending_request id u = Ret o /\ (is_Some o <-> flying id u) /\ forall i, o = Some i -> fasync_req_lookup id (u_reqs u) = Ret (Some i).
Proof.
  intros Hg Hid. unfold pending_request. destruct (has_cases _ _ _ Hg Hid) as [(t & Hh)|Hno].
  - destruct (lookup_has _ _ _ _ Hg Hh) as (i & q & -> & Hq & Eid & _). cbn [mbind outcome_bind]. rewrite (pending_at_ok i q u Hq).
    cbn [mbind outcome_bind mret outcome_ret]. case_bool_decide as Hp.
    + exists (Some i). split; [done|]. split; [|by intros ? [= <-]]. split; [intros _; by exists i, q|done].
    + exists None. split; [done|]. split; [|done]. split; [by intros []|]. intros (j & r & Hr & Ej & Hpr). destruct (good_ok _ _ _ _ Hg Hh) as (_ & fl & _ & Hok).
      by destruct (live_unique _ _ _ _ _ _ _ Hok Hq Hr ltac:(congruence)) as [_ ->].
  - rewrite (lookup_hasnt _ _ _ Hg Hid Hno). exists None. split; [done|]. split; [|done]. split; [by intros []|].
    intros (t & Hh)%flying_has. by destruct (Hno t).
Qed.

(** The state after some requests were waited for. *)
Record awaited (u : uring) (n : Z) (u' : uring) : Prop := {
  aw_good : good u' n;
  aw_keeps : keeps u u';
  aw_lands : lands u u';
}.

Lemma awaited_refl u n : good u n -> awaited u n u.
Proof. by split; [|apply keeps_refl|apply lands_refl]. Qed.

Lemma awaited_trans u1 u2 u3 n : awaited u1 n u2 -> awaited u2 n u3 -> awaited u1 n u3.
Proof. intros [_ K1 L1] [G2 K2 L2]. split; [done|by eapply keeps_trans|by eapply lands_trans]. Qed.

(** Waiting for the request if it is pending and [b] says so. *)
Lemma wait_pending_ok w (b : bool) id u n :
  good u n -> 0 <= id -> (flying id u -> b = true -> fed (aw_ret w) (aw_turns w) id u) ->
  exists o u', pending_request id u = Ret o /\
    (match o with Some i => if b then '(_, u, _) ← fasync_req_wait (aw_ret w) (aw_turns w) i u; mret u else mret u | None => mret u end) = Ret u' /\
    awaited u n u' /\ (b = true -> ~ flying id u').
Proof.
  intros Hg Hid Hfed. destruct (pending_request_ok id u n Hg Hid) as (o & E & Hfl & Hl). exists o. destruct o as [i|].
  - assert (Hf : flying id u) by (by apply Hfl). destruct b; [|exists u; split; [done|]; split; [done|]; split; [by apply awaited_refl|done]].
    pose proof (flying_has _ _ Hf) as (t & Hh).
    destruct (wait_good _ _ _ _ _ _ Hg Hh (Hfed Hf eq_refl)) as (j & r & u' & turns' & El & Ew & Hg' & Hk & Hla & Hn).
    assert (j = i) as -> by (rewrite (Hl i eq_refl) in El; by injection El). rewrite Ew. exists u'. by split_and!.
  - exists u. split; [done|]. split; [done|]. split; [by apply awaited_refl|]. intros _ Hf. by destruct (proj2 Hfl Hf).
Qed.

Lemma token_entry_ok w kind e u n :
  good u n -> 0 <= e.1 -> (flying e.1 u -> fasync_token_conflicts e.2 kind = true -> fed (aw_ret w) (aw_turns w) e.1 u) ->
  exists b u', token_entry w kind e u = Ret (b, u') /\ awaited u n u' /\ (b = true <-> flying e.1 u') /\
    (b = true -> fasync_token_conflicts e.2 kind = false).
Proof.
  intros Hg Hid Hfed. unfold token_entry. destruct (wait_pending_ok w (fasync_token_conflicts e.2 kind) e.1 u n Hg Hid Hfed) as (o & u' & -> & E & Ha & Hno).
  cbn [mbind outcome_bind]. rewrite E. cbn [mbind outcome_bind].
  destruct (pending_request_ok e.1 u' n (aw_good _ _ _ Ha) Hid) as (o' & -> & Hfl & _). cbn [mbind outcome_bind mret outcome_ret].
  eexists _, u'. split; [done|]. split; [done|]. rewrite bool_decide_eq_true. split; [done|]. intros Hf%Hfl.
  destruct (fasync_token_conflicts e.2 kind); [by destruct (Hno eq_refl)|done].
Qed.

(** What the wait for a queue relies on: the kernel completes each call that
    is waited for. *)
Fixpoint waits_ok (waits : list await) (kind : Z) (q : list (Z * Z)) (u : uring) {struct q} : Prop :=
  match q, waits with
  | [], _ => True
  | e :: q, [] => False
  | e :: q, w :: waits =>
      (flying e.1 u -> fasync_token_conflicts e.2 kind = true -> fed (aw_ret w) (aw_turns w) e.1 u) /\
      forall b u', token_entry w kind e u = Ret (b, u') -> waits_ok waits kind q u'
  end.

Definition handles_ok (q : list (Z * Z)) : Prop := Forall (fun e => 0 <= e.1) q.

Lemma token_wait_loop_ok q : forall waits kind keep u n,
  good u n -> handles_ok q -> waits_ok waits kind q u ->
  exists q' u', token_wait_loop waits kind keep q u = Ret (keep ++ q', u') /\ awaited u n u' /\ q' `sublist_of` q /\
    (forall e, e ∈ q -> flying e.1 u' -> e ∈ q') /\ (forall e, e ∈ q' -> fasync_token_conflicts e.2 kind = false).
Proof.
  induction q as [|e q IH]; intros waits kind keep u n Hg Hq Hw; cbn [token_wait_loop].
  - exists [], u. rewrite app_nil_r. split; [done|]. split; [by apply awaited_refl|]. split; [done|]. set_solver.
  - apply Forall_cons in Hq as [Hid Hq]. destruct waits as [|w waits]; [done|]. destruct Hw as [Hfed Hnext].
    destruct (token_entry_ok w kind e u n Hg Hid Hfed) as (b & u1 & E & Ha & Hb & Hc). rewrite E. cbn [mbind outcome_bind].
    destruct (IH waits kind (if b then keep ++ [e] else keep) u1 n (aw_good _ _ _ Ha) Hq (Hnext b u1 E)) as (q' & u' & -> & Ha' & Hs & Hin & Hno).
    exists (if b then e :: q' else q'), u'. split; [destruct b; [by rewrite <- app_assoc|done]|]. split; [by eapply awaited_trans|].
    split; [destruct b; by constructor|]. split.
    + intros x [->|Hx]%elem_of_cons Hf.
      * assert (b = true) as -> by (by apply Hb, (aw_lands _ _ _ Ha')). left.
      * destruct b; [right|]; by apply Hin.
    + destruct b; [|done]. intros x [->|Hx]%elem_of_cons; [by apply Hc|by apply Hno].
Qed.

(** The waits for room in the queue. *)
Fixpoint room_ok (waits : list await) (q : list (Z * Z)) (u : uring) {struct q} : Prop :=
  match q with
  | [] => True
  | e :: q' =>
      FASYNC_TOKEN_QLEN <= Z.of_nat (length q) ->
      match waits with
      | [] => False
      | w :: waits =>
          (flying e.1 u -> fed (aw_ret w) (aw_turns w) e.1 u) /\
          forall u', (o ← pending_request e.1 u; match o with Some i => '(_, u, _) ← fasync_req_wait (aw_ret w) (aw_turns w) i u; mret u | None => mret u end) = Ret u' ->
            room_ok waits q' u'
      end
  end.

Lemma make_room_ok q : forall waits u n,
  good u n -> handles_ok q -> room_ok waits q u ->
  exists q' u', make_room waits q u = Ret (q', u') /\ awaited u n u' /\ Z.of_nat (length q') < FASYNC_TOKEN_QLEN /\
    q' = drop (length q - 15) q /\ (forall e, e ∈ q -> flying e.1 u' -> e ∈ q').
Proof.
  induction q as [|e q IH]; intros waits u n Hg Hq Hr; cbn [make_room].
  - exists [], u. split; [done|]. by split; [apply awaited_refl|].
  - cbn [room_ok] in Hr. destruct (Z.ltb_spec (Z.of_nat (length (e :: q))) FASYNC_TOKEN_QLEN) as [Hlt|Hge].
    { exists (e :: q), u. split; [done|]. split; [by apply awaited_refl|]. split; [done|]. split; [|done].
      unfold FASYNC_TOKEN_QLEN in Hlt. by replace (length (e :: q) - 15)%nat with O by lia. }
    apply Forall_cons in Hq as [Hid Hq]. specialize (Hr Hge). destruct waits as [|w waits]; [done|]. destruct Hr as [Hfed Hnext].
    destruct (wait_pending_ok w true e.1 u n Hg Hid ltac:(auto)) as (o & u1 & E & Ew & Ha & Hno). rewrite E in *. cbn [mbind outcome_bind] in *.
    rewrite Ew. cbn [mbind outcome_bind].
    destruct (IH waits u1 n (aw_good _ _ _ Ha) Hq (Hnext u1 Ew)) as (q' & u' & E' & Ha' & Hl & Hd & Hin).
    exists q', u'. split; [exact E'|]. split; [by eapply awaited_trans|]. split; [done|]. split.
    + unfold FASYNC_TOKEN_QLEN in Hge. cbn [length] in *. rewrite Hd.
      replace (S (length q) - 15)%nat with (S (length q - 15)) by lia. done.
    + intros x [->|Hx]%elem_of_cons Hf; [|by apply Hin]. destruct (Hno eq_refl). by apply (aw_lands _ _ _ Ha').
Qed.

(** ** Histories of one tracker *)

Definition still_pending (id : Z) (u : uring) : bool := match pending_request id u with Ret (Some _) => true | _ => false end.

(** Those of the calls that are still in flight. *)
Definition inflight (u : uring) (out : list (Z * Z)) : list (Z * Z) := List.filter (fun e => still_pending e.1 u) out.

Lemma still_pending_ok id u n : good u n -> 0 <= id -> still_pending id u = true <-> flying id u.
Proof.
  intros Hg Hid. unfold still_pending. destruct (pending_request_ok id u n Hg Hid) as (o & -> & <- & _).
  destruct o; [done|]. split; [done|by intros []].
Qed.

Lemma inflight_in u n out e : good u n -> handles_ok out -> e ∈ inflight u out <-> e ∈ out /\ flying e.1 u.
Proof.
  intros Hg Ho. unfold inflight. rewrite list_elem_of_In, filter_In, <- list_elem_of_In. split; intros [He Hf].
  - split; [done|]. apply (still_pending_ok _ _ _ Hg); [|done]. unfold handles_ok in Ho. rewrite List.Forall_forall in Ho. by apply Ho, list_elem_of_In.
  - split; [done|]. apply (still_pending_ok _ _ _ Hg); [|done]. unfold handles_ok in Ho. rewrite List.Forall_forall in Ho. by apply Ho, list_elem_of_In.
Qed.

Section Run.
Context (zcheck zcheck_readonly : fptr -> Z -> bool) (byte_at : ptr -> Z).

(** The runtime, the tracker, and the handles and kinds of its calls that have
    been in flight ever since they were issued. *)
Record tstate := mk_tst { ts_v : urt; ts_k : tracker; ts_out : list (Z * Z) }.

(** Calls with the tracker, and everything else the program asks the runtime
    for meanwhile. *)
Inductive top :=
  | TRead (before after : list await) (a : io_args) (p t : ptr) (kind : Z)
  | TWrite (before after : list await) (a : io_args) (wait_buffer : fptr -> urt -> outcome urt) (kind : Z)
  | TOpen (k : answers) (dirfd : Z) (path : fptr) (flags mode : Z) (wait_buffer : fptr -> urt -> outcome urt)
  | TClose (k : answers) (fd : Z)
  | TOther (op : vop).

Definition after_tagged (kind : Z) (s : tstate) (r : Z * option tracker * urt) : tstate :=
  let '(id, tok, v) := r in
  mk_tst v (default (ts_k s) tok) (inflight (v_u v) (ts_out s ++ (if id =? 0 then [] else [(id, kind)]))).

Definition untagged (v : urt) (s : tstate) : tstate := mk_tst v (ts_k s) (inflight (v_u v) (ts_out s)).

Definition top_exec (op : top) (s : tstate) : outcome tstate :=
  match op with
  | TRead before after a p t kind =>
      r ← fasync_tagged_pread zcheck before after a p t (Some (ts_k s)) kind (ts_v s); mret (after_tagged kind s r)
  | TWrite before after a wait_buffer kind =>
      r ← fasync_tagged_pwrite zcheck_readonly before after a wait_buffer (Some (ts_k s)) kind (ts_v s); mret (after_tagged kind s r)
  | TOpen k dirfd path flags mode wait_buffer =>
      '(_, v) ← fasync_openat zcheck_readonly byte_at k dirfd path flags mode wait_buffer (ts_v s); mret (untagged v s)
  | TClose k fd => '(_, v) ← fasync_close k fd (ts_v s); mret (untagged v s)
  | TOther op => v ← vop_exec zcheck zcheck_readonly byte_at op (ts_v s); mret (untagged v s)
  end.

(** What the call itself relies on.  The wait for a write's source lets
    requests complete and issues none. *)
Definition read_ok (a : io_args) (p t : ptr) : urt -> Prop :=
  vop_ok zcheck zcheck_readonly byte_at (VRead (io_k a) (io_fd a) (io_buf a) (io_len a) (io_offset a) p t).

Definition waited_ok (k : answers) (buf : fptr) (wait_buffer : fptr -> urt -> outcome urt) (next : urt -> Prop) (v : urt) : Prop :=
  exists v1, wait_buffer buf v = Ret v1 /\ vinv v1 /\ lands (v_u v) (v_u v1) /\ handed v1 = handed v /\
    setup_ok (an_setup k) /\ handed v1 + 1 < 2 ^ 32 /\ next v1.

Definition write_ok (a : io_args) (wait_buffer : fptr -> urt -> outcome urt) : urt -> Prop :=
  waited_ok (io_k a) (io_buf a) wait_buffer (fun v1 =>
    zcheck_readonly (io_buf a) (io_len a) = true /\ fd_fed (an_ret (io_k a)) (an_turns (io_k a)) (io_fd a) (v_y v1)).

Definition open_ok (k : answers) (path : fptr) (wait_buffer : fptr -> urt -> outcome urt) : urt -> Prop :=
  waited_ok k path wait_buffer (fun _ => path_safe zcheck_readonly path).

Definition close_ok (k : answers) (fd : Z) (v : urt) : Prop :=
  setup_ok (an_setup k) /\ handed v + 1 < 2 ^ 32 /\ fd_fed (an_ret k) (an_turns k) fd (v_y v).

Definition queue_of (tok : option tracker) : list (Z * Z) := match tok with Some k => k_q k | None => [] end.

Definition tagged_ok (before after : list await) (kind : Z) (call : urt -> outcome (Z * urt)) (call_ok : urt -> Prop) (s : tstate) : Prop :=
  waits_ok before kind (k_q (ts_k s)) (v_u (ts_v s)) /\
  forall tok u, fasync_token_wait before (Some (ts_k s)) kind (v_u (ts_v s)) = Ret (tok, u) ->
    call_ok (set_vu u (ts_v s)) /\
    forall id v, call (set_vu u (ts_v s)) = Ret (id, v) -> id <> 0 -> room_ok after (queue_of tok) (v_u v).

Definition top_ok (op : top) (s : tstate) : Prop :=
  match op with
  | TRead before after a p t kind =>
      tagged_ok before after kind (fasync_pread zcheck (io_k a) (io_fd a) (io_buf a) (io_len a) (io_offset a) p t) (read_ok a p t) s
  | TWrite before after a wait_buffer kind =>
      tagged_ok before after kind (fasync_pwrite zcheck_readonly a wait_buffer) (write_ok a wait_buffer) s
  | TOpen k dirfd path flags mode wait_buffer => open_ok k path wait_buffer (ts_v s)
  | TClose k fd => close_ok k fd (ts_v s)
  | TOther op => vop_ok zcheck zcheck_readonly byte_at op (ts_v s)
  end.

Definition tinit (resource : Z) : tstate := mk_tst urt_init (mk_tracker resource []) [].

Record tinv (s : tstate) : Prop := {
  ti_v : vinv (ts_v s);
  ti_len : Z.of_nat (length (k_q (ts_k s))) <= FASYNC_TOKEN_QLEN;
  ti_q : handles_ok (k_q (ts_k s));
  ti_out : forall e, e ∈ ts_out s -> e ∈ k_q (ts_k s) /\ flying e.1 (v_u (ts_v s));
  ti_apart : forall a b, a ∈ ts_out s -> b ∈ ts_out s -> a.1 <> b.1 -> fasync_token_conflicts a.2 b.2 = false;
}.

Lemma token_conflicts_sym a b : fasync_token_conflicts a b = fasync_token_conflicts b a.
Proof. unfold fasync_token_conflicts. destruct (a =? FASYNC_OUT), (a =? FASYNC_INOUT), (b =? FASYNC_OUT), (b =? FASYNC_INOUT); reflexivity. Qed.

Lemma out_handles s : tinv s -> handles_ok (ts_out s).
Proof.
  intros Hi. apply List.Forall_forall. intros e He%list_elem_of_In. pose proof (ti_q _ Hi) as Hq. unfold handles_ok in Hq.
  rewrite List.Forall_forall in Hq. apply Hq, list_elem_of_In. by apply (ti_out _ Hi).
Qed.

Lemma call_read_ok a p t v :
  vinv v -> read_ok a p t v -> exists id v', fasync_pread zcheck (io_k a) (io_fd a) (io_buf a) (io_len a) (io_offset a) p t v = Ret (id, v') /\ issued v id v'.
Proof.
  intros (l & n & Hi) (Hs & Hc & Hz & Hfed & Hp & Hnone & Ht & _). unfold handed in Hc. rewrite (good_count _ n (vi_good _ _ _ Hi)) in Hc.
  by apply (pread_returns zcheck _ _ _ _ _ p t v l n).
Qed.

(** What a request queued after its wait has done. *)
Lemma waited_issued v v1 o id y n :
  vinv v1 -> lands (v_u v) (v_u v1) -> handed v1 = handed v -> moved (v_y v1) (req_next_gen (u_reqs (v_u v1))) o id y n -> issued v id (set_sys y v1).
Proof.
  intros (l & n1 & Hi) Hl Hcnt Hmd. rewrite (good_count _ _ (vi_good _ _ _ Hi)) in Hmd.
  destruct (moved_issued _ _ _ _ _ _ _ Hi Hmd) as (Hpos & Hv & Hgen & Hfl). split; [done|]. split; [done|]. split; [by rewrite <- Hcnt|].
  intros j [?|Hj]%Hfl; [by left|right; by apply Hl].
Qed.

Lemma call_write_ok a wait_buffer v :
  vinv v -> write_ok a wait_buffer v -> exists id v', fasync_pwrite zcheck_readonly a wait_buffer v = Ret (id, v') /\ issued v id v'.
Proof.
  intros _ (v1 & Ew & Hv1 & Hl & Hcnt & Hs & Hc & Hz & Hfed). pose proof Hv1 as (l & n & Hi). unfold fasync_pwrite. rewrite Ew. cbn [mbind outcome_bind].
  pose proof (good_count _ _ (vi_good _ _ _ Hi)) as En. unfold handed in Hc. rewrite En in Hc.
  destruct (do_rw_moves zcheck_readonly (io_k a) (io_fd a) (io_buf a) (io_len a)
    (fun real => mk_push FASYNC_OP_WRITE (i32 real) (f_addr (io_buf a)) (io_len a) (io_offset a) NULL 0 0) (v_y v1) n
    (vi_good _ _ _ Hi) Hs Hc (inv_opens_live _ _ _ Hi) Hfed Hz) as (id & y & n' & Hmd). pose proof (md_ret _ _ _ _ _ _ Hmd) as E.
  change (fasync_do_pwrite zcheck_readonly (io_k a) (io_fd a) (io_buf a) (io_len a) (io_offset a) (v_y v1) = Ret (id, y)) in E. rewrite E.
  eexists id, _. split; [done|]. rewrite <- En in Hmd. by eapply waited_issued.
Qed.

Lemma call_openat_ok k dirfd path flags mode wait_buffer v :
  vinv v -> open_ok k path wait_buffer v ->
  exists id v', fasync_openat zcheck_readonly byte_at k dirfd path flags mode wait_buffer v = Ret (id, v') /\ issued v id v'.
Proof.
  intros _ (v1 & Ew & Hv1 & Hl & Hcnt & Hs & Hc & Hp). pose proof Hv1 as (l & n & Hi). unfold fasync_openat. rewrite Ew. cbn [mbind outcome_bind].
  pose proof (good_count _ _ (vi_good _ _ _ Hi)) as En. unfold handed in Hc. rewrite En in Hc.
  destruct (openat_moves zcheck_readonly byte_at k dirfd path flags mode (v_y v1) n (vi_good _ _ _ Hi) Hs Hc Hp) as (id & y & n' & Hmd).
  rewrite (md_ret _ _ _ _ _ _ Hmd). eexists id, _. split; [done|]. rewrite <- En in Hmd. by eapply waited_issued.
Qed.

Lemma call_close_ok k fd v : vinv v -> close_ok k fd v -> exists id v', fasync_close k fd v = Ret (id, v') /\ issued v id v'.
Proof.
  intros Hv (Hs & Hc & Hfed). pose proof Hv as (l & n & Hi). unfold fasync_close.
  pose proof (good_count _ _ (vi_good _ _ _ Hi)) as En. unfold handed in Hc. rewrite En in Hc.
  destruct (close_moves k fd (v_y v) n (vi_good _ _ _ Hi) Hs Hc (inv_opens_live _ _ _ Hi) Hfed) as (id & y & n' & Hmd).
  rewrite (md_ret _ _ _ _ _ _ Hmd). eexists id, _. split; [done|]. rewrite <- En in Hmd. by eapply waited_issued; [|apply lands_refl|..].
Qed.

(** Waits leave the runtime's invariant and the number of handles given out. *)
Lemma awaited_runtime v l n u : urt_inv v l n -> awaited (v_u v) n u -> urt_inv (set_vu u v) l n /\ handed (set_vu u v) = handed v.
Proof.
  intros Hi [Hg Hk _]. split; [by eapply inv_keeps|]. unfold handed. change (v_u (set_vu u v)) with u.
  by rewrite (good_count _ n Hg), (good_count _ n (vi_good _ _ _ Hi)).
Qed.

Lemma handles_sublist q' q : q' `sublist_of` q -> handles_ok q -> handles_ok q'.
Proof. intros Hs Hq. unfold handles_ok in *. rewrite Forall_forall in *. intros e He. apply Hq. by eapply elem_of_sublist. Qed.

Lemma flying_old v l n id : urt_inv v l n -> flying id (v_u v) -> id_gen id <= handed v.
Proof.
  intros Hi (t & Hh)%flying_has. unfold handed. rewrite (good_count _ n (vi_good _ _ _ Hi)). by eapply has_gen; [apply Hi|].
Qed.

(** The end of a tagged call: [q1] is the queue after the wait, [q2] after the
    call has been tracked. *)
Lemma after_tagged_inv kind s tok v1 v2 v3 id l n k3 :
  tinv s -> urt_inv v3 l n -> lands (v_u (ts_v s)) (v_u v1) -> handed v1 = handed (ts_v s) -> issued v1 id v2 -> lands (v_u v2) (v_u v3) ->
  tok = Some k3 -> Z.of_nat (length (k_q k3)) <= FASYNC_TOKEN_QLEN -> handles_ok (k_q k3) ->
  (forall e, e ∈ k_q (ts_k s) -> flying e.1 (v_u v1) -> fasync_token_conflicts e.2 kind = false /\ (flying e.1 (v_u v3) -> e ∈ k_q k3)) ->
  (id <> 0 -> (id, kind) ∈ k_q k3) ->
  tinv (after_tagged kind s (id, tok, v3)).
Proof.
  intros Hi Hi3 Hl1 Hcnt (Hpos & _ & Hgen & Hfl) Hl3 -> Hlen Hq3 Hold Hnew. pose proof (out_handles _ Hi) as Hout.
  set (new := if id =? 0 then [] else [(id, kind)]).
  assert (Hh : handles_ok (ts_out s ++ new)).
  { apply Forall_app. split; [done|]. unfold new. destruct (id =? 0); [constructor|]. by apply Forall_singleton. }
  assert (Hin : forall e, e ∈ inflight (v_u v3) (ts_out s ++ new) ->
    flying e.1 (v_u v3) /\ ((e ∈ ts_out s /\ e.1 <> id /\ flying e.1 (v_u v1)) \/ (e = (id, kind) /\ id <> 0))).
  { intros e [He Hf]%(inflight_in _ n _ _ (vi_good _ _ _ Hi3) Hh). split; [done|]. apply elem_of_app in He as [He|He].
    - left. destruct (ti_out _ Hi e He) as [_ Hf0]. destruct (ti_v _ Hi) as (l0 & n0 & Hi0). pose proof (flying_old _ _ _ _ Hi0 Hf0) as Hle.
      assert (Hne : e.1 <> id). { intros E. assert (id <> 0 -> False) as H0 by (intros H0; specialize (Hgen H0); rewrite E in Hle; lia).
        destruct (Z.eq_dec id 0) as [E0|]; [|done]. pose proof (flying_has _ _ Hf0) as (t & Ht). pose proof (has_pos _ _ _ _ (vi_good _ _ _ Hi0) Ht). lia. }
      split; [done|]. split; [done|]. by destruct (Hfl e.1 (Hl3 _ Hf)) as [[_ ?]|?].
    - right. unfold new in He. destruct (Z.eqb_spec id 0); [by apply not_elem_of_nil in He|]. by apply list_elem_of_singleton in He. }
  split; cbn -[inflight flying vinv fasync_token_conflicts handles_ok].
  - by exists l, n.
  - exact Hlen.
  - exact Hq3.
  - intros e (Hf & Hc)%Hin. split; [|done]. destruct Hc as [(He & _ & Hf1)|[-> H0]]; [|by apply Hnew]. apply Hold; [by apply (ti_out _ Hi)|done|done].
  - intros a b (_ & Ha)%Hin (_ & Hb)%Hin Hne. destruct Ha as [(Ha & Hai & Hfa)|[-> _]], Hb as [(Hb & Hbi & Hfb)|[-> _]].
    + by apply (ti_apart _ Hi).
    + apply Hold; [by apply (ti_out _ Hi)|done].
    + rewrite token_conflicts_sym. apply Hold; [by apply (ti_out _ Hi)|done].
    + done.
Qed.

Lemma tagged_step before after kind call call_ok s :
  (forall v, vinv v -> call_ok v -> exists id v', call v = Ret (id, v') /\ issued v id v') ->
  tinv s -> tagged_ok before after kind call call_ok s ->
  exists r, tagged before after (Some (ts_k s)) kind call (ts_v s) = Ret r /\ tinv (after_tagged kind s r).
Proof.
  intros Hcall Hi [Hw Hnext]. destruct (ti_v _ Hi) as (l & n & Hv).
  destruct (token_wait_loop_ok (k_q (ts_k s)) before kind [] (v_u (ts_v s)) n (vi_good _ _ _ Hv) (ti_q _ Hi) Hw) as (q1 & u1 & E1 & Ha1 & Hs1 & Hin1 & Hno1).
  assert (Etok : fasync_token_wait before (Some (ts_k s)) kind (v_u (ts_v s)) = Ret (Some (set_queue q1 (ts_k s)), u1))
    by (unfold fasync_token_wait; by rewrite E1).
  destruct (Hnext _ _ Etok) as [Hc Hroom]. destruct (awaited_runtime _ _ _ _ Hv Ha1) as [Hv1 Hcnt]. set (v1 := set_vu u1 (ts_v s)) in *.
  destruct (Hcall v1 ltac:(by exists l, n) Hc) as (id & v2 & E2 & Hiss). pose proof Hiss as (Hpos & (l2 & n2 & Hv2) & _).
  pose proof (handles_sublist _ _ Hs1 (ti_q _ Hi)) as Hq1. unfold tagged. rewrite Etok. cbn [mbind outcome_bind]. fold v1. rewrite E2. cbn [mbind outcome_bind].
  assert (Hl1 : Z.of_nat (length q1) <= FASYNC_TOKEN_QLEN) by (pose proof (sublist_length _ _ Hs1); pose proof (ti_len _ Hi); lia).
  assert (Hold : forall e, e ∈ k_q (ts_k s) -> flying e.1 (v_u v1) -> e ∈ q1 /\ fasync_token_conflicts e.2 kind = false).
  { intros e He Hf. pose proof (Hin1 e He Hf) as Hq. by split; [|apply Hno1]. }
  unfold fasync_token_track. destruct (Z.eqb_spec id 0) as [->|Hid].
  - eexists. split; [done|]. apply (after_tagged_inv kind s _ v1 v2 (set_vu (v_u v2) v2) 0 l2 n2 (set_queue q1 (ts_k s))); try done.
    + by apply (inv_keeps _ _ n2); [|apply keeps_refl|apply Hv2].
    + apply Ha1.
    + apply lands_refl.
    + intros e He Hf. by destruct (Hold e He Hf).
  - destruct (make_room_ok q1 after (v_u v2) n2 (vi_good _ _ _ Hv2) Hq1 (Hroom _ _ E2 Hid)) as (q2 & u3 & E3 & Ha3 & Hl2 & Hd & Hin3).
    cbn [k_q set_queue]. rewrite E3. eexists. split; [done|]. destruct (awaited_runtime _ _ _ _ Hv2 Ha3) as [Hv3 _].
    assert (Hq2 : handles_ok q2) by (rewrite Hd; by apply Forall_drop).
    apply (after_tagged_inv kind s _ v1 v2 (set_vu u3 v2) id l2 n2 (set_queue (q2 ++ [(id, kind)]) (ts_k s))); try done; cbn [k_q set_queue].
    + apply Ha1.
    + apply Ha3.
    + rewrite length_app. cbn. lia.
    + apply Forall_app. split; [done|]. by apply Forall_singleton.
    + intros e He Hf. destruct (Hold e He Hf) as [Hq Hk]. split; [done|]. intros Hf3. apply elem_of_app. left. by apply Hin3.
    + intros _. apply elem_of_app. right. by apply list_elem_of_singleton.
Qed.

(** A call without the tracker. *)
Lemma untagged_inv s v : tinv s -> vinv v -> tinv (untagged v s).
Proof.
  intros Hi Hv. pose proof Hv as (l & n & Hi').
  assert (Hin : forall e, e ∈ inflight (v_u v) (ts_out s) -> e ∈ ts_out s /\ flying e.1 (v_u v)) by (intros e; apply (inflight_in _ n _ _ (vi_good _ _ _ Hi') (out_handles _ Hi))).
  split; cbn [untagged ts_v ts_k ts_out]; [done|apply Hi|apply Hi| |].
  - intros e [He Hf]%Hin. split; [by apply (ti_out _ Hi)|done].
  - intros a b [Ha _]%Hin [Hb _]%Hin. by apply (ti_apart _ Hi).
Qed.

Lemma top_step s op : tinv s -> top_ok op s -> exists s', top_exec op s = Ret s' /\ tinv s'.
Proof.
  intros Hi Hok. destruct op as [before after a p t kind|before after a wait_buffer kind|k dirfd path flags mode wait_buffer|k fd|op]; cbn [top_exec top_ok] in *.
  - destruct (tagged_step before after kind _ _ s (fun v => call_read_ok a p t v) Hi Hok) as (r & E & Hr). unfold fasync_tagged_pread. rewrite E. by eexists.
  - destruct (tagged_step before after kind _ _ s (fun v => call_write_ok a wait_buffer v) Hi Hok) as (r & E & Hr). unfold fasync_tagged_pwrite. rewrite E. by eexists.
  - destruct (call_openat_ok k dirfd path flags mode wait_buffer _ (ti_v _ Hi) Hok) as (id & v' & E & _ & Hv & _). rewrite E. eexists. split; [done|]. by apply untagged_inv.
  - destruct (call_close_ok k fd _ (ti_v _ Hi) Hok) as (id & v' & E & _ & Hv & _). rewrite E. eexists. split; [done|]. by apply untagged_inv.
  - destruct (vop_step zcheck zcheck_readonly byte_at (ts_v s) op (ti_v _ Hi) Hok) as (v' & E & Hv'). rewrite E. eexists. split; [done|]. by apply untagged_inv.
Qed.

Lemma tinit_inv resource : tinv (tinit resource).
Proof.
  split; cbn; [exists [], 0; apply urt_init_inv|unfold FASYNC_TOKEN_QLEN; lia|constructor|by intros e ?%not_elem_of_nil|by intros a b ?%not_elem_of_nil].
Qed.

(** The states of a tracker's history. *)
Definition treach (resource : Z) : tstate -> Prop := reach top_exec top_ok (tinit resource).

Lemma treach_inv resource s : treach resource s -> tinv s.
Proof. apply (reach_inv _ _ _ tinv (fun s op => top_step s op)), tinit_inv. Qed.

(** C14: calls that share a tracker.  In every state a program can reach with
    its tagged reads and writes, and whatever else it asks the runtime for in
    between, no two of them in flight conflict: a call is issued only once the
    calls it conflicts with have completed.  Each call in flight is in the
    queue, which never holds more than its 16 entries, and every next call
    returns. *)
Theorem token_calls_apart (resource : Z) (s : tstate) :
  treach resource s ->
  (forall a b, a ∈ ts_out s -> b ∈ ts_out s -> a.1 <> b.1 -> fasync_token_conflicts a.2 b.2 = false) /\
  (forall a, a ∈ ts_out s -> flying a.1 (v_u (ts_v s)) /\ a ∈ k_q (ts_k s)) /\
  Z.of_nat (length (k_q (ts_k s))) <= FASYNC_TOKEN_QLEN /\
  (forall op, top_ok op s -> exists s', top_exec op s = Ret s').
Proof.
  intros Hi%treach_inv. split; [apply Hi|]. split; [|split; [apply Hi|]].
  - intros a Ha. by destruct (ti_out _ Hi a Ha).
  - intros op Hok. destruct (top_step s op Hi Hok) as (s' & E & _). by exists s'.
Qed.
End Run.

(** ** A concrete run

    A read into a buffer, then another into the same one: the second waits for
    the first. *)

Definition tk_args : io_args := mk_io (mk_answers 1 [] kernel_setup 1) 5 (mk_fptr 4096 4096 4160) 64 0.
Definition tk_wait : await := mk_await 1 [mk_turn [] [mk_cqe (pack_id 1 0) 64]].
Definition tk_first : top := TRead [] [] tk_args 65536 64 FASYNC_OUT.
Definition tk_second : top := TRead [tk_wait] [] tk_args 131072 128 FASYNC_OUT.

Definition texec (op : top) (s : tstate) : tstate := after s (top_exec pass pass no_bytes op s).
Definition tk_one : tstate := texec tk_first (tinit 7).
Definition tk_two : tstate := texec tk_second tk_one.

Abbreviation wtreach := (treach pass pass no_bytes 7).

Lemma texec_ret op s :
  (match top_exec pass pass no_bytes op s with Ret _ => true | _ => false end) = true -> top_exec pass pass no_bytes op s = Ret (texec op s).
Proof. unfold texec. by destruct (top_exec _ _ _ op s). Qed.

(** The read of a tagged call, once nothing is left in the queue. *)
Lemma tk_read_ok before p t s :
  (match fasync_token_wait before (Some (ts_k s)) FASYNC_OUT (v_u (ts_v s)) with
   | Ret (tok, u) => match queue_of tok with [] => true | _ => false end && (handed (set_vu u (ts_v s)) + 1 <? 2 ^ 32)
   | _ => false
   end) = true ->
  waits_ok before FASYNC_OUT (k_q (ts_k s)) (v_u (ts_v s)) -> p <> NULL -> t <> NULL -> v_calls (ts_v s) !! p = None -> v_data (ts_v s) !! t = None ->
  top_ok pass pass no_bytes (TRead before [] tk_args p t FASYNC_OUT) s.
Proof.
  intros Hq Hw Hp Ht Hc Hd. split; [exact Hw|]. intros tok u E. rewrite E in Hq. destruct (queue_of tok) eqn:Etok; [|discriminate Hq].
  apply Z.ltb_lt in Hq. split; [|by intros id v _ _].
  split; [exact kernel_setup_ok|]. split; [exact Hq|]. split; [reflexivity|]. split; [|by split_and!].
  intros k id Hk. apply lookup_range in Hk as (Hk & _). cbn in Hk. lia.
Qed.

Lemma tk_one_reach : wtreach tk_one.
Proof.
  apply (reach_step _ _ _ (tinit 7) tk_first); [apply reach_init| |apply texec_ret; vm_compute; reflexivity].
  apply tk_read_ok; [vm_compute; reflexivity|exact I|discriminate|discriminate|reflexivity|reflexivity].
Qed.

Lemma tk_one_fed : fed 1 (aw_turns tk_wait) (pack_id 1 0) (v_u (ts_v tk_one)).
Proof.
  intros i q _ Eid _. split; [discriminate|]. split; [apply submit_turns_okb_ok; vm_compute; reflexivity|]. rewrite Eid. eexists. vm_compute. reflexivity.
Qed.

Lemma tk_two_reach : wtreach tk_two.
Proof.
  apply (reach_step _ _ _ tk_one tk_second); [exact tk_one_reach| |apply texec_ret; vm_compute; reflexivity].
  assert (Eq : k_q (ts_k tk_one) = [(pack_id 1 0, FASYNC_OUT)]) by (vm_compute; reflexivity).
  apply tk_read_ok; [vm_compute; reflexivity| |discriminate|discriminate|vm_compute; reflexivity|vm_compute; reflexivity].
  rewrite Eq. split; [intros _ _; exact tk_one_fed|]. intros b u' _. exact I.
Qed.

Lemma token_calls_apart_witness :
  ts_out tk_one = [(pack_id 1 0, FASYNC_OUT)] /\ ts_out tk_two = [(pack_id 2 1, FASYNC_OUT)] /\ flying (pack_id 2 1) (v_u (ts_v tk_two)).
Proof.
  assert (E : ts_out tk_two = [(pack_id 2 1, FASYNC_OUT)]) by (vm_compute; reflexivity).
  split; [vm_compute; reflexivity|]. split; [exact E|].
  destruct (token_calls_apart pass pass no_bytes 7 tk_two tk_two_reach) as (_ & H & _).
  assert (Hin : (pack_id 2 1, FASYNC_OUT) ∈ ts_out tk_two) by (rewrite E; left). exact (proj1 (H _ Hin)).
Defined.
