(* ===== verification/Text.v ===== *)
(** * Text: the C library's numbers in strings

    [snprintf] with %zu and %ld, and [sscanf] with a literal, %ld and %zu, on
    strings of bytes, as the RPC runtime and its server use them.  A string
    is the list of its bytes before the NUL. *)

From Stdlib Require Import Ascii.
From S2P Require Import Prelude.
Open Scope Z_scope.

(** The bytes of a literal. *)
Definition bytes_of (s : string) : list Z := map (fun c => Z.of_nat (nat_of_ascii c)) (String.list_ascii_of_string s).

(** The string in an array: its bytes before the first NUL. *)
Fixpoint cstring (l : list Z) : list Z :=
  match l with
  | [] => []
  | c :: l => if c =? 0 then [] else c :: cstring l
  end.

Definition isspace (c : Z) : bool := (c =? 32) || (9 <=? c) && (c <=? 13).
Definition isdigit (c : Z) : bool := (48 <=? c) && (c <=? 57).

(** *** Printing *)

(** The decimal digits of [n >= 0], before [rest]; 20 are enough for 64 bits. *)
Fixpoint digits (fuel : nat) (n : Z) (rest : list Z) : list Z :=
  match fuel with
  | O => rest
  | S fuel => let rest := (48 + n mod 10) :: rest in if n / 10 =? 0 then rest else digits fuel (n / 10) rest
  end.

Definition print_zu (n : Z) : list Z := digits 20 n [].
Definition print_ld (n : Z) : list Z := if n <? 0 then 45 :: digits 20 (- n) [] else digits 20 n [].

(** *** Scanning *)

Fixpoint skip_space (l : list Z) : list Z :=
  match l with
  | c :: l' => if isspace c then skip_space l' else l
  | [] => []
  end.

(** A literal directive: white space in it matches any white space. *)
Fixpoint scan_literal (lit l : list Z) : option (list Z) :=
  match lit with
  | [] => Some l
  | c :: lit =>
      if isspace c then scan_literal lit (skip_space l)
      else match l with
           | d :: l => if c =? d then scan_literal lit l else None
           | [] => None
           end
  end.

(** The digits that begin a string, as a number. *)
Fixpoint read_digits (v : Z) (l : list Z) : Z * list Z :=
  match l with
  | c :: l' => if isdigit c then read_digits (10 * v + (c - 48)) l' else (v, l)
  | [] => (v, [])
  end.

(** A number: white space, a sign, at least one digit. *)
Definition scan_number (l : list Z) : option (Z * list Z) :=
  let l := skip_space l in
  let '(neg, l) := match l with
                   | c :: l' => if c =? 45 then (true, l') else if c =? 43 then (false, l') else (false, l)
                   | [] => (false, l)
                   end in
  match l with
  | c :: _ => if isdigit c then let '(v, l) := read_digits 0 l in Some (if (neg : bool) then - v else v, l) else None
  | [] => None
  end.

Definition LONG_MIN : Z := - 2 ^ 63.
Definition LONG_MAX : Z := 2 ^ 63 - 1.
Definition ULONG_MAX : Z := 2 ^ 64 - 1.

(** %ld: a number out of range is the nearest in range. *)
Definition scan_ld (l : list Z) : option (Z * list Z) :=
  '(v, l) ← scan_number l; Some (Z.max LONG_MIN (Z.min LONG_MAX v), l).

(** %zu, as [strtoul] reads it: out of range is the greatest, and a minus sign
    negates in 64 bits. *)
Definition scan_zu (l : list Z) : option (Z * list Z) :=
  '(v, l) ← scan_number l; Some (if ULONG_MAX <? Z.abs v then ULONG_MAX else u64 v, l).

(** *** Round trips *)

Lemma digit_isdigit n : isdigit (48 + n mod 10) = true.
Proof. unfold isdigit. pose proof (Z.mod_pos_bound n 10). apply andb_true_intro. split; apply Z.leb_le; lia. Qed.

Lemma read_digits_digit v n l : read_digits v ((48 + n mod 10) :: l) = read_digits (10 * v + n mod 10) l.
Proof. cbn [read_digits]. rewrite digit_isdigit. f_equal. lia. Qed.

Lemma read_digits_print fuel : forall n rest, 0 <= n < 10 ^ Z.of_nat fuel -> read_digits 0 (digits fuel n rest) = read_digits n rest.
Proof.
  induction fuel as [|fuel IH]; intros n rest Hn; [cbn in Hn; by replace n with 0 by lia|].
  cbn [digits]. rewrite Nat2Z.inj_succ, Z.pow_succ_r in Hn by lia. pose proof (Z.div_mod n 10 ltac:(lia)) as Hd.
  destruct (Z.eqb_spec (n / 10) 0) as [E|E].
  - rewrite read_digits_digit. f_equal. lia.
  - rewrite IH, read_digits_digit; [f_equal; lia|]. split; [apply Z.div_pos; lia|]. apply Z.div_lt_upper_bound; lia.
Qed.

Lemma digits_head fuel : forall n rest, (0 < fuel)%nat -> exists k l, digits fuel n rest = (48 + k mod 10) :: l.
Proof.
  induction fuel as [|fuel IH]; intros n rest Hf; [lia|]. cbn [digits]. destruct (n / 10 =? 0); [by exists n, rest|].
  destruct fuel; [by exists n, rest|]. apply IH. lia.
Qed.

Lemma digits_length fuel : forall n rest, (length (digits fuel n rest) <= fuel + length rest)%nat.
Proof.
  induction fuel as [|fuel IH]; intros n rest; cbn [digits]; [lia|]. destruct (n / 10 =? 0); cbn [length]; [lia|].
  specialize (IH (n / 10) ((48 + n mod 10) :: rest)). cbn [length] in IH. lia.
Qed.

Lemma digits_no_nul fuel : forall n rest, cstring (digits fuel n rest) = digits fuel n (cstring rest).
Proof.
  induction fuel as [|fuel IH]; intros n rest; cbn [digits]; [done|].
  assert (H : cstring ((48 + n mod 10) :: rest) = (48 + n mod 10) :: cstring rest).
  { cbn [cstring]. pose proof (Z.mod_pos_bound n 10). destruct (Z.eqb_spec (48 + n mod 10) 0); [lia|done]. }
  destruct (n / 10 =? 0); [done|]. by rewrite IH, H.
Qed.

Lemma digit_not_special c : isdigit c = true -> isspace c = false /\ (c =? 45) = false /\ (c =? 43) = false.
Proof.
  unfold isdigit, isspace. intros [H1%Z.leb_le H2%Z.leb_le]%andb_prop. split_and!.
  - destruct (Z.eqb_spec c 32); [lia|]. destruct (Z.leb_spec c 13); [lia|]. by rewrite andb_false_r.
  - apply Z.eqb_neq. lia.
  - apply Z.eqb_neq. lia.
Qed.

(** Text that does not begin with a digit. *)
Definition no_digit (l : list Z) : Prop := match l with c :: _ => isdigit c = false | [] => True end.

Lemma read_digits_stop v l : no_digit l -> read_digits v l = (v, l).
Proof. destruct l as [|c l]; [done|]. cbn. by intros ->. Qed.

Lemma scan_number_digits n rest : 0 <= n < 10 ^ 20 -> no_digit rest -> scan_number (digits 20 n rest) = Some (n, rest).
Proof.
  intros Hn Hr. unfold scan_number. pose proof (read_digits_print 20 n rest Hn) as Hread. rewrite (read_digits_stop n rest Hr) in Hread.
  destruct (digits_head 20 n rest ltac:(lia)) as (k & l & El). rewrite El in *. pose proof (digit_isdigit k) as Hd.
  destruct (digit_not_special _ Hd) as (Hs & Hm & Hp). cbn [skip_space]. rewrite Hs, Hm, Hp, Hd. by rewrite Hread.
Qed.

Lemma scan_number_neg n rest : 0 < n < 10 ^ 20 -> no_digit rest -> scan_number (45 :: digits 20 n rest) = Some (- n, rest).
Proof.
  intros Hn Hr. unfold scan_number. cbn [skip_space]. change (isspace 45) with false. cbv iota beta.
  pose proof (read_digits_print 20 n rest ltac:(lia)) as Hread. rewrite (read_digits_stop n rest Hr) in Hread.
  destruct (digits_head 20 n rest ltac:(lia)) as (k & l & El). rewrite El in *. pose proof (digit_isdigit k) as Hd.
  change (45 =? 45) with true. cbv iota beta. by rewrite Hd, Hread.
Qed.

Lemma digits_rest fuel : forall n rest tl, digits fuel n rest ++ tl = digits fuel n (rest ++ tl).
Proof. induction fuel as [|fuel IH]; intros n rest tl; cbn [digits]; [done|]. destruct (n / 10 =? 0); [done|]. by rewrite IH. Qed.

(** What %ld prints, %ld reads. *)
Lemma scan_print_ld n rest : LONG_MIN <= n <= LONG_MAX -> no_digit rest -> scan_ld (print_ld n ++ rest) = Some (n, rest).
Proof.
  intros Hn Hr. unfold scan_ld, print_ld. unfold LONG_MIN, LONG_MAX in *.
  destruct (Z.ltb_spec n 0); cbn [app]; rewrite digits_rest; cbn [app].
  - rewrite scan_number_neg by (done || lia). cbn [mbind option_bind]. f_equal. f_equal. lia.
  - rewrite scan_number_digits by (done || lia). cbn [mbind option_bind]. f_equal. f_equal. lia.
Qed.

(** What %zu prints, %zu reads. *)
Lemma scan_print_zu n rest : 0 <= n <= ULONG_MAX -> no_digit rest -> scan_zu (print_zu n ++ rest) = Some (n, rest).
Proof.
  intros Hn Hr. unfold scan_zu, print_zu, ULONG_MAX in *. rewrite digits_rest. cbn [app].
  rewrite scan_number_digits by (done || lia). cbn [mbind option_bind].
  destruct (Z.ltb_spec (2 ^ 64 - 1) (Z.abs n)); [lia|]. by rewrite u64_small by lia.
Qed.

(** White space in a literal before a number takes none of it. *)
Lemma skip_space_digits n rest : skip_space (digits 20 n rest) = digits 20 n rest.
Proof.
  destruct (digits_head 20 n rest ltac:(lia)) as (k & l & ->). cbn [skip_space].
  by destruct (digit_not_special _ (digit_isdigit k)) as (-> & _).
Qed.

Lemma skip_space_zu n rest : skip_space (print_zu n ++ rest) = print_zu n ++ rest.
Proof. unfold print_zu. rewrite digits_rest. apply skip_space_digits. Qed.

Lemma skip_space_ld n rest : skip_space (print_ld n ++ rest) = print_ld n ++ rest.
Proof. unfold print_ld. destruct (n <? 0); [done|]. rewrite digits_rest. apply skip_space_digits. Qed.
