(* ===== verification/Rpc.v ===== *)
(** * Rpc: the RPC runtime

    [rpc/rpc_runtime.c]: one request per annotated call over a socket.  The
    state of one call is its [request] with what its socket has taken
    ([rp_wire]), what [finish] stored through the reply argument
    ([rp_stored]) and the results reported to [filc_async_complete]
    ([rp_completed]).  A request is advanced by one thread at a time (its
    mutex).  What the kernel and the framework answer during one [advance] is
    an [io]; a socket's answers that run out are [NoFuel].  The payload's
    bytes are read only when no call is producing them any more, and are the
    list [payload]. *)

From S2P Require Import Prelude Locks Meta Text.
Open Scope Z_scope.

Definition EAGAIN : Z := 11.
Definition EPROTO : Z := 71.
Definition EINPROGRESS : Z := 115.
Definition POLLIN : Z := 1.
Definition POLLOUT : Z := 4.
Definition WAIT_PAYLOAD : Z := 0x4000.

Inductive op := OP_NONE | OP_STEP | OP_GET | OP_PUT.

Record request := mk_request {
  rq_fd : Z;
  rq_command : list Z;
  rq_command_sent : nat;
  rq_payload_len : nat;
  rq_payload_sent : nat;
  rq_reply : list Z;        (* the [received] bytes; the rest of the array is zero *)
  rq_value : ptr;           (* NULL for PUT *)
  rq_result : Z;
  rq_done : bool;
}.

Record rpc := mk_rpc {
  rp_req : request;
  rp_wire : list Z;
  rp_stored : list (ptr * Z);
  rp_completed : list Z;
}.

Definition REPLY_ROOM : nat := 31.   (* [sizeof(r->reply) - 1] *)

(** The loop over the options. *)
Fixpoint find_op (opts : list string) : op :=
  match opts with
  | [] => OP_NONE
  | opt :: opts =>
      if (opt =? "op=step")%string then OP_STEP
      else if (opt =? "op=get")%string then OP_GET
      else if (opt =? "op=put")%string then OP_PUT
      else find_op opts
  end.

Definition op_of (m : meta) : outcome op := opts ← deref (me_opts m); mret (find_op opts).

Definition arg_kind (m : meta) (i : nat) : outcome Z := a ← deref (me_args m !! i); mret (ma_kind a).

Definition rpc_validate (m : meta) : outcome bool :=
  if me_nargs m <? 1 then mret false
  else
    k0 ← arg_kind m 0;
    if negb (k0 =? FILC_ASYNC_ARG_IGNORED) then mret false
    else
      o ← op_of m;
      match o with
      | OP_STEP | OP_GET =>
          if negb (me_nargs m =? 2) then mret false
          else k1 ← arg_kind m 1; mret ((k1 =? FILC_ASYNC_ARG_BUFFER_OUT) || (k1 =? FILC_ASYNC_ARG_PENDING))
      | OP_PUT =>
          if negb (me_nargs m =? 3) then mret false
          else
            k1 ← arg_kind m 1;
            if negb (k1 =? FILC_ASYNC_ARG_BUFFER_IN) then mret false
            else k2 ← arg_kind m 2; mret (k2 =? FILC_ASYNC_ARG_IGNORED)
      | OP_NONE => mret false
      end.

Definition set_done (result : Z) (q : request) : request :=
  mk_request (rq_fd q) (rq_command q) (rq_command_sent q) (rq_payload_len q) (rq_payload_sent q) (rq_reply q) (rq_value q) result true.

(** [finish], with [store_reply] run through [filc_async_run]. *)
Definition finish (result : Z) (s : rpc) : rpc :=
  mk_rpc (set_done result (rp_req s)) (rp_wire s)
    (if rq_value (rp_req s) =? NULL then rp_stored s else rp_stored s ++ [(rq_value (rp_req s), result)])
    (rp_completed s ++ [result]).

Definition parse_reply (q : request) : Z :=
  match scan_literal (bytes_of "VALUE ") (cstring (rq_reply q)) with
  | Some l =>
      match scan_ld l with
      | Some (value, c :: _) => if c =? 10 then value else - EPROTO
      | _ => - EPROTO
      end
  | None => - EPROTO
  end.

(** *** Sending *)

(** What one [send] finds: room for [n] bytes in the socket, or an error. *)
Inductive send_answer := Room (n : nat) | Send_error (errno : Z).

(** Returns what to wait for, how much is sent, and the wire. *)
Fixpoint send_rest (answers : list send_answer) (data : list Z) (len sent : nat) (wire : list Z)
  : outcome (Z * nat * list Z * list send_answer) :=
  if negb (sent <? len)%nat then mret (0, sent, wire, answers)
  else
    match answers with
    | [] => NoFuel
    | Room n :: answers =>
        let n := Nat.min n (len - sent) in
        send_rest answers data len (sent + n) (wire ++ take n (drop sent data))
    | Send_error e :: answers => mret (if e =? EAGAIN then POLLOUT else - e, sent, wire, answers)
    end.

(** What one [recv] finds: bytes to read, none at the end of the stream, or an
    error. *)
Inductive recv_answer := Arrived (bytes : list Z) | Recv_error (errno : Z).

Definition add_reply (bytes : list Z) (s : rpc) : rpc :=
  let q := rp_req s in
  mk_rpc (mk_request (rq_fd q) (rq_command q) (rq_command_sent q) (rq_payload_len q) (rq_payload_sent q)
            (rq_reply q ++ bytes) (rq_value q) (rq_result q) (rq_done q)) (rp_wire s) (rp_stored s) (rp_completed s).

(** The loop of [advance]; with no room left [recv] is asked for 0 bytes. *)
Fixpoint recv_loop (answers : list recv_answer) (s : rpc) : outcome (Z * rpc) :=
  match answers with
  | [] => NoFuel
  | Recv_error e :: _ => if e =? EAGAIN then mret (POLLIN, s) else mret (0, finish (- e) s)
  | Arrived bytes :: answers =>
      match take (REPLY_ROOM - length (rq_reply (rp_req s))) bytes with
      | [] => mret (0, finish (parse_reply (rp_req s)) s)
      | read => recv_loop answers (add_reply read s)
      end
  end.

Definition set_sent (command payload : nat) (wire : list Z) (s : rpc) : rpc :=
  let q := rp_req s in
  mk_rpc (mk_request (rq_fd q) (rq_command q) command (rq_payload_len q) payload (rq_reply q) (rq_value q) (rq_result q) (rq_done q))
    wire (rp_stored s) (rp_completed s).

(** One [advance]: the sockets' answers and whether a call is still producing
    the payload. *)
Record io := mk_io { io_sends : list send_answer; io_pending : bool; io_recvs : list recv_answer }.

Section Request.
Context (payload : list Z).

(** The end of [advance]: what to wait for, or the reply. *)
Definition advance_reply (rc : Z) (a : io) (s : rpc) : outcome (Z * rpc) :=
  if rc <? 0 then mret (0, finish rc s)
  else if negb (rc =? 0) then mret (rc, s)
  else recv_loop (io_recvs a) s.

Definition advance (a : io) (s : rpc) : outcome (Z * rpc) :=
  let q := rp_req s in
  '(rc, sent, wire, sends) ← send_rest (io_sends a) (rq_command q) (length (rq_command q)) (rq_command_sent q) (rp_wire s);
  let s := set_sent sent (rq_payload_sent q) wire s in
  if (rc =? 0) && (rq_payload_sent q <? rq_payload_len q)%nat then
    if io_pending a then mret (WAIT_PAYLOAD, s)
    else
      '(rc, psent, wire, _) ← send_rest sends payload (rq_payload_len q) (rq_payload_sent q) wire;
      advance_reply rc a (set_sent sent psent wire s)
  else advance_reply rc a s.

(** The loop of [rpc_poll] for a thread that blocks. *)
Fixpoint block_loop (wait : Z) (ios : list io) (s : rpc) : outcome rpc :=
  if wait =? 0 then mret s
  else match ios with
       | [] => NoFuel
       | a :: ios => '(wait, s) ← advance a s; block_loop wait ios s
       end.

(** [None]: the request is not published; [busy]: another thread holds its
    lock. *)
Definition rpc_poll (mode : filc_async_poll_mode) (busy : bool) (ios : list io) (s : option rpc) : outcome (bool * option rpc) :=
  match s with
  | None => mret (false, None)
  | Some s =>
      if (busy : bool) && match mode with FILC_ASYNC_POLL_BLOCK => false | _ => true end then mret (false, Some s)
      else if rq_done (rp_req s) then mret (true, Some s)
      else
        match mode with
        | FILC_ASYNC_POLL_CHECK => mret (rq_done (rp_req s), Some s)
        | _ =>
            a ← match ios with a :: _ => mret a | [] => NoFuel end;
            '(wait, s) ← advance a s;
            s ← match mode with FILC_ASYNC_POLL_BLOCK => block_loop wait (tail ios) s | _ => mret s end;
            mret (rq_done (rp_req s), Some s)
        end
  end.
End Request.

(** *** Submission *)

(** [socket] and [connect], and the first [advance]. *)
Record connection := mk_connection { cn_fd : Z; cn_connect : Z; cn_errno : Z; cn_io : io }.

(** The call's request; the staged arguments are their low words. *)
Definition make_request (o : op) (args : list Z) (fd : Z) : outcome request :=
  match o with
  | OP_STEP => v ← deref (args !! 1%nat); mret (mk_request fd (bytes_of "STEP" ++ [10]) 0 0 0 [] v 0 false)
  | OP_GET => v ← deref (args !! 1%nat); mret (mk_request fd (bytes_of "GET" ++ [10]) 0 0 0 [] v 0 false)
  | _ => _ ← deref (args !! 1%nat); n ← deref (args !! 2%nat);
         mret (mk_request fd (take REPLY_ROOM (bytes_of "PUT " ++ print_zu n ++ [10])) 0 (Z.to_nat n) 0 [] NULL 0 false)
  end.

(** [fresh] is what [calloc] answers; the body has run. *)
Definition rpc_submit (payload : list Z) (m : meta) (args : list Z) (fresh : ptr) (c : connection) : outcome rpc :=
  if fresh =? NULL then Fatal "rpc: out of memory"
  else
    o ← op_of m;
    _ ← deref (args !! 0%nat);
    q ← make_request o args (cn_fd c);
    let s := mk_rpc q [] [] [] in
    if (cn_fd c <? 0) || (cn_connect c <? 0) && negb (cn_errno c =? EINPROGRESS)
    then mret (finish (- cn_errno c) s)
    else '(_, s) ← advance payload (cn_io c) s; mret s.

(** ** What is sent, and what is reported *)

Section Proofs.
Context (payload : list Z).

(** Everything has been sent. *)
Definition all_sent (q : request) : Prop :=
  rq_command_sent q = length (rq_command q) /\ rq_payload_sent q = rq_payload_len q.

Record rpc_inv (s : rpc) : Prop := {
  ri_command : (rq_command_sent (rp_req s) <= length (rq_command (rp_req s)))%nat;
  ri_payload : (rq_payload_sent (rp_req s) <= rq_payload_len (rp_req s) <= length payload)%nat;
  ri_order : rq_payload_sent (rp_req s) = 0%nat \/ rq_command_sent (rp_req s) = length (rq_command (rp_req s));
  ri_wire : rp_wire s = take (rq_command_sent (rp_req s)) (rq_command (rp_req s)) ++ take (rq_payload_sent (rp_req s)) payload;
  ri_reply : rq_reply (rp_req s) <> [] -> all_sent (rp_req s);
  ri_room : (length (rq_reply (rp_req s)) <= REPLY_ROOM)%nat;
  ri_report : if rq_done (rp_req s)
    then rp_completed s = [rq_result (rp_req s)] /\
         rp_stored s = if rq_value (rp_req s) =? NULL then [] else [(rq_value (rp_req s), rq_result (rp_req s))]
    else rp_completed s = [] /\ rp_stored s = [];
  ri_result : rq_done (rp_req s) = true -> 0 <= rq_result (rp_req s) -> all_sent (rp_req s) /\ rq_result (rp_req s) = parse_reply (rp_req s);
}.

(** Errors are positive. *)
Definition send_ok (a : send_answer) : Prop := match a with Send_error e => 0 < e | Room _ => True end.
Definition recv_ok (a : recv_answer) : Prop := match a with Recv_error e => 0 < e | Arrived _ => True end.
Definition io_ok (a : io) : Prop := Forall send_ok (io_sends a) /\ Forall recv_ok (io_recvs a).

Lemma take_add {A} (n m : nat) (l : list A) : take n l ++ take m (drop n l) = take (n + m) l.
Proof. revert l. induction n as [|n IH]; intros l; [done|]. destruct l as [|x l]; [by rewrite drop_nil, !take_nil|]. cbn. by rewrite IH. Qed.

Lemma send_rest_ok answers data len : forall sent wire rc sent' wire' answers',
  Forall send_ok answers -> (sent <= len)%nat -> send_rest answers data len sent wire = Ret (rc, sent', wire', answers') ->
  (sent <= sent' <= len)%nat /\ (forall pre, wire = pre ++ take sent data -> wire' = pre ++ take sent' data) /\
  (rc = 0 -> sent' = len) /\ Forall send_ok answers'.
Proof.
  induction answers as [|a answers IH]; intros sent wire rc sent' wire' answers' Hok Hs E; cbn [send_rest] in E;
    destruct (Nat.ltb_spec sent len) as [Hl|Hl]; cbn [negb] in E; try discriminate E;
    try (injection E as <- <- <- <-; split_and!; [lia|lia|done|lia|done]).
  apply Forall_cons in Hok as [Ha Hok]. destruct a as [n|e].
  - apply IH in E as (H1 & H2 & H3 & H4); [|done|lia]. split; [lia|]. split; [|done]. intros pre ->. apply H2. by rewrite <- app_assoc, take_add.
  - injection E as <- <- <- <-. split; [lia|]. split; [done|]. split; [|done]. cbn in Ha. destruct (e =? EAGAIN); unfold POLLOUT; lia.
Qed.

(** The fields [advance] leaves alone. *)
Definition same_call (q q' : request) : Prop :=
  rq_command q' = rq_command q /\ rq_payload_len q' = rq_payload_len q /\ rq_value q' = rq_value q.

Lemma finish_inv result s :
  rpc_inv s -> rq_done (rp_req s) = false -> (0 <= result -> all_sent (rp_req s) /\ result = parse_reply (rp_req s)) ->
  rpc_inv (finish result s) /\ same_call (rp_req s) (rp_req (finish result s)).
Proof.
  intros Hi Hd Hr. pose proof (ri_report _ Hi) as Hrep. rewrite Hd in Hrep. destruct Hrep as [E1 E2]. split; [|done].
  destruct Hi. split; try done; cbn [finish rp_req rp_completed rp_stored set_done rq_done rq_result rq_value].
  rewrite E1, E2. by destruct (rq_value (rp_req s) =? NULL).
Qed.

Lemma set_sent_inv c p w s :
  rpc_inv s -> (rq_command_sent (rp_req s) <= c <= length (rq_command (rp_req s)))%nat ->
  (rq_payload_sent (rp_req s) <= p <= rq_payload_len (rp_req s))%nat -> (p = 0%nat \/ c = length (rq_command (rp_req s))) ->
  w = take c (rq_command (rp_req s)) ++ take p payload -> rpc_inv (set_sent c p w s).
Proof.
  intros Hi Hc Hp Ho Hw. assert (Hall : all_sent (rp_req s) -> c = length (rq_command (rp_req s)) /\ p = rq_payload_len (rp_req s)).
  { intros [H1 H2]. lia. }
  destruct Hi. split; cbn; try done; try lia.
  - intros H. by apply Hall, ri_reply0.
  - intros H1 H2. destruct (ri_result0 H1 H2) as [Ha ?]. split; [by apply Hall|done].
Qed.

(** What [advance] leaves. *)
Definition advanced (s : rpc) (wait : Z) (s' : rpc) : Prop :=
  rpc_inv s' /\ same_call (rp_req s) (rp_req s') /\ (wait = 0 <-> rq_done (rp_req s') = true).

Lemma recv_loop_ok answers : forall s wait s',
  Forall recv_ok answers -> rpc_inv s -> rq_done (rp_req s) = false -> all_sent (rp_req s) ->
  recv_loop answers s = Ret (wait, s') -> advanced s wait s'.
Proof.
  induction answers as [|a answers IH]; intros s wait s' Hok Hi Hd Ha E; cbn [recv_loop] in E; [done|].
  apply Forall_cons in Hok as [Hao Hok]. destruct a as [bytes|e].
  - set (n := (REPLY_ROOM - length (rq_reply (rp_req s)))%nat) in E. destruct (take n bytes) as [|b read] eqn:Et.
    + injection E as <- <-. destruct (finish_inv (parse_reply (rp_req s)) s Hi Hd) as [? ?]; [by intros _; split|]. by split_and!.
    + apply (IH (add_reply (b :: read) s)) in E; try done. destruct Hi. split; try done; cbn.
      * rewrite length_app, <- Et, length_take. unfold n. lia.
      * by rewrite Hd.
  - destruct (e =? EAGAIN).
    + injection E as <- <-. unfold advanced. rewrite Hd. by split_and!.
    + injection E as <- <-. cbn in Hao. destruct (finish_inv (- e) s Hi Hd) as [? ?]; [lia|]. by split_and!.
Qed.

Lemma advance_reply_ok rc a s wait s' :
  io_ok a -> rpc_inv s -> rq_done (rp_req s) = false -> (rc = 0 -> all_sent (rp_req s)) ->
  advance_reply rc a s = Ret (wait, s') -> advanced s wait s'.
Proof.
  intros [_ Hr] Hi Hd Ha E. unfold advance_reply in E. destruct (Z.ltb_spec rc 0) as [Hn|Hn].
  - injection E as <- <-. destruct (finish_inv rc s Hi Hd) as [? ?]; [lia|]. by split_and!.
  - destruct (Z.eqb_spec rc 0) as [Hz|Hz]; cbn [negb] in E.
    + apply (recv_loop_ok (io_recvs a)); auto.
    + injection E as <- <-. unfold advanced. rewrite Hd. by split_and!.
Qed.

Lemma advance_ok a s wait s' :
  io_ok a -> rpc_inv s -> rq_done (rp_req s) = false -> advance payload a s = Ret (wait, s') -> advanced s wait s'.
Proof.
  intros Hok Hi Hd E. unfold advance in E. apply bind_Ret_inv in E as ([[[rc sent] wire] sends] & Es & E).
  destruct (send_rest_ok _ _ _ _ _ _ _ _ _ (proj1 Hok) (ri_command _ Hi) Es) as (Hs1 & Hw1 & Hz1 & Hok1).
  pose proof (ri_payload _ Hi) as [Hp1 Hp2]. set (q := rp_req s) in *.
  assert (Hwire1 : wire = take sent (rq_command q) ++ take (rq_payload_sent q) payload).
  { destruct (ri_order _ Hi) as [E0|E0]; fold q in E0.
    - rewrite E0. change (take 0 payload) with (@nil Z). rewrite app_nil_r. apply (Hw1 []). rewrite (ri_wire _ Hi). fold q. rewrite E0.
      change (take 0 payload) with (@nil Z). by rewrite app_nil_r.
    - assert (sent = length (rq_command q)) as -> by lia. rewrite E0 in Es.
      assert (Hsame : wire = rp_wire s).
      { destruct (io_sends a); cbn [send_rest] in Es; rewrite Nat.ltb_irrefl in Es; cbn [negb] in Es; by injection Es as _ <- _. }
      rewrite Hsame, (ri_wire _ Hi). fold q. by rewrite E0. }
  assert (Ho1 : rq_payload_sent q = 0%nat \/ sent = length (rq_command q)).
  { destruct (ri_order _ Hi) as [?|E0]; [by left|right]. fold q in E0. lia. }
  pose proof (set_sent_inv sent (rq_payload_sent q) wire s Hi Hs1 ltac:(fold q; lia) Ho1 Hwire1) as Hi1.
  set (s1 := set_sent sent (rq_payload_sent q) wire s) in *.
  destruct (Z.eqb_spec rc 0) as [Hz|Hz]; cbn [andb] in E.
  - specialize (Hz1 Hz). destruct (Nat.ltb_spec (rq_payload_sent q) (rq_payload_len q)) as [Hl|Hl].
    + destruct (io_pending a).
      { injection E as <- <-. unfold advanced. split; [done|]. split; [done|]. change (rq_done (rp_req s1)) with (rq_done q). by rewrite Hd. }
      apply bind_Ret_inv in E as ([[[rc2 psent] wire2] sends2] & Es2 & E).
      destruct (send_rest_ok _ _ _ _ _ _ _ _ _ Hok1 Hp1 Es2) as (Hs2 & Hw2 & Hz2 & _).
      assert (Hi2 : rpc_inv (set_sent sent psent wire2 s)) by (apply set_sent_inv; [done|done|fold q; lia|by right|by apply Hw2]).
      apply (advance_reply_ok rc2 a (set_sent sent psent wire2 s1)); try done. intros Hz0. split; cbn; [done|by apply Hz2].
    + apply (advance_reply_ok rc a s1); try done. intros _. split; cbn; fold q; lia.
  - apply (advance_reply_ok rc a s1); try done.
Qed.

Lemma block_loop_ok ios : forall wait s s',
  Forall io_ok ios -> rpc_inv s -> (wait = 0 <-> rq_done (rp_req s) = true) -> block_loop payload wait ios s = Ret s' ->
  rpc_inv s' /\ same_call (rp_req s) (rp_req s') /\ rq_done (rp_req s') = true.
Proof.
  induction ios as [|a ios IH]; intros wait s s' Hok Hi Hd E; cbn [block_loop] in E.
  - destruct (Z.eqb_spec wait 0) as [Ew|Ew]; [|done]. injection E as <-. split; [done|]. split; [done|by apply Hd].
  - destruct (Z.eqb_spec wait 0) as [Ew|Ew]; [injection E as <-; split; [done|]; split; [done|by apply Hd]|].
    apply Forall_cons in Hok as [Ha Hok]. apply bind_Ret_inv in E as ([w s1] & E1 & E).
    assert (Hn : rq_done (rp_req s) = false) by (destruct (rq_done (rp_req s)); [destruct Ew; by apply Hd|done]).
    destruct (advance_ok a s w s1 Ha Hi Hn E1) as (Hi1 & Hs1 & Hd1). destruct (IH w s1 s' Hok Hi1 Hd1 E) as (? & Hs2 & ?).
    split; [done|]. split; [|done]. unfold same_call in *. intuition congruence.
Qed.

Definition is_block (mode : filc_async_poll_mode) : bool := match mode with FILC_ASYNC_POLL_BLOCK => true | _ => false end.

Lemma rpc_poll_ok mode busy ios s d o :
  Forall io_ok ios -> rpc_inv s -> rpc_poll payload mode busy ios (Some s) = Ret (d, o) ->
  exists s', o = Some s' /\ rpc_inv s' /\ same_call (rp_req s) (rp_req s') /\
    (d = true -> rq_done (rp_req s') = true) /\ (busy = false -> d = rq_done (rp_req s')) /\
    (is_block mode = true -> d = true) /\ (rq_done (rp_req s) = true -> s' = s).
Proof.
  intros Hok Hi E. cbn [rpc_poll] in E. destruct (busy && _) eqn:Eb.
  { injection E as <- <-. exists s. split; [done|]. split; [done|]. split; [done|]. apply andb_prop in Eb as [-> Eb]. by destruct mode. }
  destruct (rq_done (rp_req s)) eqn:Hd; [injection E as <- <-; by exists s|].
  assert (Hadv : forall a ios' d o, ios = a :: ios' ->
    ('(wait, s) ← advance payload a s; s ← (if is_block mode then block_loop payload wait ios' s else mret s); mret (rq_done (rp_req s), Some s)) = Ret (d, o) ->
    exists s', o = Some s' /\ rpc_inv s' /\ same_call (rp_req s) (rp_req s') /\ d = rq_done (rp_req s') /\ (is_block mode = true -> d = true)).
  { clear E d o. intros a ios' d o -> E. apply Forall_cons in Hok as [Ha Hok]. apply bind_Ret_inv in E as ([w s1] & E1 & E).
    destruct (advance_ok a s w s1 Ha Hi Hd E1) as (Hi1 & Hs1 & Hd1). destruct (is_block mode).
    - apply bind_Ret_inv in E as (s2 & E2 & E). injection E as <- <-. destruct (block_loop_ok ios' w s1 s2 Hok Hi1 Hd1 E2) as (? & Hs2 & Hd2).
      exists s2. split; [done|]. split; [done|]. split; [unfold same_call in *; intuition congruence|]. by rewrite Hd2.
    - injection E as <- <-. by exists s1. }
  destruct mode; [injection E as <- <-; exists s; split_and!; try done; by rewrite Hd|..];
    (destruct ios as [|a ios']; [done|]; cbn [mbind outcome_bind mret outcome_ret tail] in E;
     destruct (Hadv a ios' d o eq_refl E) as (s' & -> & ? & ? & -> & ?); exists s'; split_and!; done).
Qed.

(** *** Submission *)

(** The arguments of a call whose table [rpc_validate] accepted, as far as the
    request needs them: PUT's payload holds the bytes its length says. *)
Definition args_ok (m : meta) (args : list Z) : Prop :=
  Z.of_nat (length args) = me_nargs m /\ forall opts, me_opts m = Some opts -> find_op opts = OP_PUT ->
    forall n, args !! 2%nat = Some n -> 0 <= n <= ULONG_MAX /\ (Z.to_nat n <= length payload)%nat.

Lemma deref_Some {A} (o : option A) x : o = Some x -> deref o = Ret x.
Proof. by intros ->. Qed.

(** The request a validated call makes. *)
Definition request_of (o : op) (args : list Z) (fd : Z) : request :=
  match o with
  | OP_PUT => mk_request fd (bytes_of "PUT " ++ print_zu (default 0 (args !! 2%nat)) ++ [10]) 0 (Z.to_nat (default 0 (args !! 2%nat))) 0 [] NULL 0 false
  | OP_GET => mk_request fd (bytes_of "GET" ++ [10]) 0 0 0 [] (default 0 (args !! 1%nat)) 0 false
  | _ => mk_request fd (bytes_of "STEP" ++ [10]) 0 0 0 [] (default 0 (args !! 1%nat)) 0 false
  end.

Lemma put_command_fits n : take REPLY_ROOM (bytes_of "PUT " ++ print_zu n ++ [10]) = bytes_of "PUT " ++ print_zu n ++ [10].
Proof.
  apply take_ge. rewrite !length_app. pose proof (digits_length 20 n []) as H. unfold print_zu, REPLY_ROOM. cbn [length] in *. change (length (bytes_of "PUT ")) with 4%nat. lia.
Qed.

Lemma rpc_validate_ok m : rpc_validate m = Ret true ->
  exists opts, me_opts m = Some opts /\
    match find_op opts with OP_NONE => False | OP_PUT => me_nargs m = 3 | _ => me_nargs m = 2 end.
Proof.
  unfold rpc_validate. destruct (me_nargs m <? 1); [done|]. intros (k0 & _ & E)%bind_Ret_inv. destruct (negb _); [done|].
  apply bind_Ret_inv in E as (o & Eo & E). unfold op_of in Eo. apply bind_Ret_inv in Eo as (opts & Ho%deref_Ret & Eo). injection Eo as <-.
  exists opts. split; [done|]. destruct (find_op opts); [done|..].
  - by destruct (Z.eqb_spec (me_nargs m) 2).
  - by destruct (Z.eqb_spec (me_nargs m) 2).
  - by destruct (Z.eqb_spec (me_nargs m) 3).
Qed.

Lemma make_request_ok m args fd opts :
  rpc_validate m = Ret true -> args_ok m args -> me_opts m = Some opts ->
  op_of m = Ret (find_op opts) /\ is_Some (args !! 0%nat) /\ make_request (find_op opts) args fd = Ret (request_of (find_op opts) args fd).
Proof.
  intros (opts' & Eo & Hn)%rpc_validate_ok [Hl _] Ho. rewrite Ho in Eo. injection Eo as <-. unfold op_of. rewrite Ho. split; [done|].
  destruct args as [|a0 [|a1 args]]; cbn [length] in Hl; try (destruct (find_op opts); lia || done).
  split; [by exists a0|]. destruct (find_op opts); [done|done|done|]. cbn [make_request lookup list_lookup deref mbind outcome_bind].
  destruct args as [|a2 args]; [cbn in Hl; lia|]. cbn [lookup list_lookup deref mbind outcome_bind mret outcome_ret].
  by rewrite put_command_fits.
Qed.

Lemma request_inv opts m args fd :
  rpc_validate m = Ret true -> args_ok m args -> me_opts m = Some opts -> rpc_inv (mk_rpc (request_of (find_op opts) args fd) [] [] []).
Proof.
  intros Hv [Hl Hp] Ho. split; cbn [rp_req rp_wire rp_stored rp_completed];
    try (destruct (find_op opts); cbn; (done || lia || by left)).
  destruct (find_op opts) eqn:Ef; cbn; try (split; lia).
  destruct (rpc_validate_ok m Hv) as (opts' & Eo & Hn). rewrite Ho in Eo. injection Eo as <-. rewrite Ef in Hn. rewrite Hn in Hl.
  destruct args as [|a0 [|a1 [|a2 args]]]; cbn in Hl; try lia. cbn. split; [lia|]. by destruct (Hp opts Ho Ef a2 eq_refl).
Qed.

Lemma rpc_submit_ok m args fresh c s opts :
  rpc_validate m = Ret true -> args_ok m args -> me_opts m = Some opts -> io_ok (cn_io c) -> 0 < cn_errno c ->
  rpc_submit payload m args fresh c = Ret s -> rpc_inv s /\ same_call (request_of (find_op opts) args (cn_fd c)) (rp_req s).
Proof.
  intros Hv Ha Ho Hio Hen E. unfold rpc_submit in E. destruct (fresh =? NULL); [done|].
  destruct (make_request_ok m args (cn_fd c) opts Hv Ha Ho) as (E1 & [a0 E2] & E3). rewrite E1, E2 in E. cbn [deref mbind outcome_bind] in E.
  rewrite E3 in E. cbn [mbind outcome_bind] in E. set (s0 := mk_rpc _ [] [] []) in E. assert (Hi : rpc_inv s0) by (by eapply request_inv).
  assert (Hd : rq_done (rp_req s0) = false) by (unfold s0; cbn; by destruct (find_op opts)).
  destruct ((cn_fd c <? 0) || _).
  - injection E as <-. destruct (finish_inv (- cn_errno c) s0 Hi Hd) as [? ?]; [lia|]. done.
  - apply bind_Ret_inv in E as ([w s1] & E & E4). injection E4 as <-. destruct (advance_ok _ s0 w s1 Hio Hi Hd E) as (? & ? & _). done.
Qed.

(** *** A call's life *)

Record poll_call := mk_poll { po_mode : filc_async_poll_mode; po_busy : bool; po_ios : list io }.

Definition rpc_exec (p : poll_call) (s : rpc) : outcome rpc :=
  '(_, o) ← rpc_poll payload (po_mode p) (po_busy p) (po_ios p) (Some s); deref o.
Definition poll_ok (p : poll_call) (_ : rpc) : Prop := Forall io_ok (po_ios p).

Abbreviation rpc_reach := (reach rpc_exec poll_ok).

(** The call after its submission and any polls. *)
Lemma rpc_reach_inv m args fresh c s0 s opts :
  rpc_validate m = Ret true -> args_ok m args -> me_opts m = Some opts -> io_ok (cn_io c) -> 0 < cn_errno c ->
  rpc_submit payload m args fresh c = Ret s0 -> rpc_reach s0 s ->
  rpc_inv s /\ same_call (request_of (find_op opts) args (cn_fd c)) (rp_req s).
Proof.
  intros Hv Ha Ho Hio Hen E. destruct (rpc_submit_ok _ _ _ _ _ _ Hv Ha Ho Hio Hen E) as [Hi0 Hs0].
  induction 1 as [|s1 p s2 _ [IH1 IH2] Hp He]; [done|]. unfold rpc_exec in He. apply bind_Ret_inv in He as ([d o] & He & Ho2).
  destruct (rpc_poll_ok _ _ _ _ _ _ Hp IH1 He) as (s3 & -> & Hi3 & Hs3 & _). cbn in Ho2. injection Ho2 as <-. split; [done|].
  unfold same_call in *. intuition congruence.
Qed.

(** The bytes of a call's request. *)
Definition request_bytes (q : request) : list Z := rq_command q ++ take (rq_payload_len q) payload.

Lemma wire_prefix s : rpc_inv s -> exists rest, request_bytes (rp_req s) = rp_wire s ++ rest.
Proof.
  intros Hi. unfold request_bytes. rewrite (ri_wire _ Hi). set (q := rp_req s). destruct (ri_order _ Hi) as [E|E]; fold q in E; rewrite E.
  - exists (drop (rq_command_sent q) (rq_command q) ++ take (rq_payload_len q) payload). change (take 0 payload) with (@nil Z).
    rewrite app_nil_r, app_assoc. by rewrite take_drop.
  - exists (take (rq_payload_len q - rq_payload_sent q) (drop (rq_payload_sent q) payload)).
    rewrite (firstn_all (rq_command q)), <- app_assoc, take_add. f_equal. f_equal. pose proof (ri_payload _ Hi) as Hp. fold q in Hp. lia.
Qed.

Lemma wire_all s : rpc_inv s -> all_sent (rp_req s) -> rp_wire s = request_bytes (rp_req s).
Proof. intros Hi [E1 E2]. rewrite (ri_wire _ Hi), E1, E2, (firstn_all (rq_command (rp_req s))). done. Qed.

(** C11: what an RPC call sends and reports.  Whatever the sockets take and
    deliver, and however often the call is polled: the wire holds a prefix of
    the call's command and payload, all of it before a byte of the reply is
    read; the call is completed once, and stores through its reply argument
    once, with the same result, when it is done; and a result that is not an
    error is the number the server sent. *)
Theorem rpc_call_exact (m : meta) (args : list Z) (fresh : ptr) (c : connection) (s0 s : rpc) (opts : list string) :
  rpc_validate m = Ret true -> args_ok m args -> me_opts m = Some opts -> io_ok (cn_io c) -> 0 < cn_errno c ->
  rpc_submit payload m args fresh c = Ret s0 -> rpc_reach s0 s ->
  let sent := request_bytes (request_of (find_op opts) args (cn_fd c)) in
  (exists rest, sent = rp_wire s ++ rest) /\ (rq_reply (rp_req s) <> [] -> rp_wire s = sent) /\
  (if rq_done (rp_req s)
   then rp_completed s = [rq_result (rp_req s)] /\
        rp_stored s = (if rq_value (rp_req s) =? NULL then [] else [(rq_value (rp_req s), rq_result (rp_req s))]) /\
        (0 <= rq_result (rp_req s) -> rp_wire s = sent /\ rq_result (rp_req s) = parse_reply (rp_req s))
   else rp_completed s = [] /\ rp_stored s = []).
Proof.
  intros Hv Ha Ho Hio Hen E Hr. destruct (rpc_reach_inv _ _ _ _ _ _ _ Hv Ha Ho Hio Hen E Hr) as [Hi (S1 & S2 & S3)].
  assert (Hb : request_bytes (request_of (find_op opts) args (cn_fd c)) = request_bytes (rp_req s)) by (unfold request_bytes; by rewrite S1, S2).
  cbv zeta. rewrite Hb. split; [by apply wire_prefix|]. split; [intros; by apply wire_all, ri_reply|].
  pose proof (ri_report _ Hi) as Hrep. destruct (rq_done (rp_req s)) eqn:Hd; [|done]. destruct Hrep as [-> ->]. split; [done|]. split; [done|].
  intros H0. destruct (ri_result _ Hi Hd H0). split; [by apply wire_all|done].
Qed.

(** *** Waiting ends *)

(** The sockets' answers of one turn that end by making the call wait, or by
    the end of the stream. *)
Definition io_ends (a : io) : Prop :=
  (exists l e, io_sends a = l ++ [Send_error e]) /\
  exists l r, io_recvs a = l ++ [r] /\ (r = Arrived [] \/ exists e, r = Recv_error e).

Lemma send_rest_total e answers data len : forall sent wire,
  exists rc sent' wire' answers', send_rest (answers ++ [Send_error e]) data len sent wire = Ret (rc, sent', wire', answers') /\
    ((exists l, answers' = l ++ [Send_error e]) \/ rc <> 0 \/ e = 0).
Proof.
  induction answers as [|a answers IH]; intros sent wire; cbn [app send_rest]; destruct (negb _).
  - eexists _, _, _, _. split; [done|]. left. by exists [].
  - eexists _, _, _, _. split; [done|]. right. destruct (decide (e = 0)); [by right|left]. destruct (e =? EAGAIN); unfold POLLOUT; lia.
  - eexists _, _, _, _. split; [done|]. left. by exists (a :: answers).
  - destruct a as [n|e']; [apply IH|]. eexists _, _, _, _. split; [done|]. left. by exists answers.
Qed.

Lemma recv_loop_total answers r : (r = Arrived [] \/ exists e, r = Recv_error e) -> forall s,
  exists wait s', recv_loop (answers ++ [r]) s = Ret (wait, s').
Proof.
  intros Hr. induction answers as [|a answers IH]; intros s; cbn [app recv_loop].
  - destruct Hr as [->|[e ->]]; [rewrite take_nil; by eexists _, _|]. destruct (e =? EAGAIN); by eexists _, _.
  - destruct a as [bytes|e]; [|destruct (e =? EAGAIN); by eexists _, _]. destruct (take _ bytes); [by eexists _, _|apply IH].
Qed.

Lemma advance_total a s : io_ok a -> io_ends a -> exists wait s', advance payload a s = Ret (wait, s').
Proof.
  intros [Hok _] [(l & e & Es) (l2 & r & Er & Hr)]. unfold advance. rewrite Es.
  assert (He : 0 < e) by (rewrite Es in Hok; apply Forall_app in Hok as [_ Hok]; by apply Forall_cons in Hok as [? _]).
  assert (Hrep : forall rc s, exists wait s', advance_reply rc a s = Ret (wait, s')).
  { intros rc s1. unfold advance_reply. destruct (rc <? 0); [by eexists _, _|]. destruct (negb _); [by eexists _, _|]. rewrite Er. by apply recv_loop_total. }
  destruct (send_rest_total e l (rq_command (rp_req s)) (length (rq_command (rp_req s))) (rq_command_sent (rp_req s)) (rp_wire s)) as (rc & c & w & ans & -> & Hans).
  cbn [mbind outcome_bind]. destruct (Z.eqb_spec rc 0) as [Ez|Ez]; cbn [andb]; [|apply Hrep].
  destruct (_ <? _)%nat; [|apply Hrep]. destruct (io_pending a); [by eexists _, _|].
  destruct Hans as [[l' ->]|[?|?]]; [|done|lia].
  destruct (send_rest_total e l' payload (rq_payload_len (rp_req s)) (rq_payload_sent (rp_req s)) w) as (rc2 & c2 & w2 & ans2 & -> & _).
  apply Hrep.
Qed.

(** A turn in which everything goes through: room for the whole request, no
    call producing the payload, and the reply up to the end of the stream. *)
Definition goes_through (a : io) (q : request) (reply : list (list Z)) : Prop :=
  exists n1 n2 tl, io_sends a = Room n1 :: Room n2 :: tl /\
    (length (rq_command q) + rq_payload_len q <= n1)%nat /\ (length (rq_command q) + rq_payload_len q <= n2)%nat /\
    io_pending a = false /\ io_recvs a = map Arrived reply ++ [Arrived []].

Lemma send_rest_room n answers data len sent wire :
  (sent <= len)%nat -> (len <= n)%nat ->
  send_rest (Room n :: answers) data len sent wire =
    Ret (0, len, if (sent <? len)%nat then wire ++ take (len - sent) (drop sent data) else wire, if (sent <? len)%nat then answers else Room n :: answers).
Proof.
  intros Hs Hn. cbn [send_rest]. destruct (Nat.ltb_spec sent len) as [Hl|Hl]; cbn [negb]; [|by replace sent with len by lia].
  replace (Nat.min n (len - sent)) with (len - sent)%nat by lia. replace (sent + (len - sent))%nat with len by lia.
  destruct answers; cbn [send_rest]; by rewrite Nat.ltb_irrefl.
Qed.

Lemma recv_loop_through reply : forall s, exists s',
  recv_loop (map Arrived reply ++ [Arrived []]) s = Ret (0, s') /\ rq_done (rp_req s') = true /\
  (Forall (fun b => b <> []) reply -> (length (rq_reply (rp_req s) ++ concat reply) <= REPLY_ROOM)%nat ->
   rq_reply (rp_req s') = rq_reply (rp_req s) ++ concat reply /\ rq_result (rp_req s') = parse_reply (rp_req s')).
Proof.
  induction reply as [|b reply IH]; intros s; cbn [map app recv_loop concat].
  - rewrite take_nil. eexists. split; [done|]. split; [done|]. intros _ _. cbn. by rewrite app_nil_r.
  - destruct (take _ b) as [|x l] eqn:Et.
    + eexists. split; [done|]. split; [done|]. intros [Hb _]%Forall_cons Hl. rewrite !length_app in Hl. destruct b; [done|].
      cbn [length] in Hl. destruct (REPLY_ROOM - length (rq_reply (rp_req s)))%nat eqn:En; [unfold REPLY_ROOM in *; lia|done].
    + destruct (IH (add_reply (x :: l) s)) as (s' & -> & Hd & Hr). exists s'. split; [done|]. split; [done|]. intros [Hb Hne]%Forall_cons Hl.
      assert (x :: l = b) as <-. { rewrite <- Et. apply take_ge. rewrite !length_app in Hl. lia. }
      destruct Hr as [H1 H2]; [done|cbn; by rewrite <- app_assoc|]. split; [|done]. rewrite H1. cbn. by rewrite <- app_assoc.
Qed.

Lemma advance_through a s reply :
  rpc_inv s -> goes_through a (rp_req s) reply ->
  exists s', advance payload a s = Ret (0, s') /\ rq_done (rp_req s') = true /\
  (Forall (fun b => b <> []) reply -> (length (rq_reply (rp_req s) ++ concat reply) <= REPLY_ROOM)%nat ->
   rq_reply (rp_req s') = rq_reply (rp_req s) ++ concat reply /\ rq_result (rp_req s') = parse_reply (rp_req s')).
Proof.
  intros Hi (n1 & n2 & tl & Es & Hn1 & Hn2 & Ep & Er). unfold advance. rewrite Es. pose proof (ri_command _ Hi). pose proof (ri_payload _ Hi).
  rewrite send_rest_room by lia. cbn [mbind outcome_bind]. change (0 =? 0) with true. cbn [andb].
  destruct (Nat.ltb_spec (rq_payload_sent (rp_req s)) (rq_payload_len (rp_req s))) as [Hl|Hl].
  - rewrite Ep. assert (exists p w ans, send_rest (if (rq_command_sent (rp_req s) <? length (rq_command (rp_req s)))%nat then Room n2 :: tl else Room n1 :: Room n2 :: tl) payload
      (rq_payload_len (rp_req s)) (rq_payload_sent (rp_req s))
      (if (rq_command_sent (rp_req s) <? length (rq_command (rp_req s)))%nat then rp_wire s ++ take (length (rq_command (rp_req s)) - rq_command_sent (rp_req s)) (drop (rq_command_sent (rp_req s)) (rq_command (rp_req s))) else rp_wire s)
      = Ret (0, p, w, ans)) as (p & w & ans & ->) by (destruct (_ <? _)%nat; rewrite send_rest_room by lia; by eexists _, _, _).
    cbn [mbind outcome_bind]. unfold advance_reply. cbn [Z.ltb Z.compare Z.eqb negb]. rewrite Er.
    apply (recv_loop_through reply (set_sent _ p w (set_sent _ _ _ s))).
  - unfold advance_reply. cbn [Z.ltb Z.compare Z.eqb negb]. rewrite Er. apply (recv_loop_through reply (set_sent _ _ _ s)).
Qed.

Lemma goes_same q q' a reply : same_call q q' -> goes_through a q reply -> goes_through a q' reply.
Proof. intros (S1 & S2 & _). unfold goes_through. by rewrite S1, S2. Qed.

Lemma same_call_trans q1 q2 q3 : same_call q1 q2 -> same_call q2 q3 -> same_call q1 q3.
Proof. unfold same_call. intuition congruence. Qed.

Lemma turns_return ios last reply q : forall s,
  Forall io_ok ios -> Forall io_ends ios -> goes_through last q reply -> rpc_inv s -> same_call q (rp_req s) -> rq_done (rp_req s) = false ->
  exists wait s1 rest s', (match ios ++ [last] with a :: _ => advance payload a s | [] => NoFuel end) = Ret (wait, s1) /\
    tail (ios ++ [last]) = rest /\ block_loop payload wait rest s1 = Ret s'.
Proof.
  induction ios as [|a ios IH]; intros s Hok Hends Hlast Hi Hs Hd; cbn [app tail].
  - destruct (advance_through last s reply Hi) as (s' & E & _); [by eapply goes_same|]. exists 0, s', [], s'. split; [done|]. by split.
  - apply Forall_cons in Hok as [Ha Hok]. apply Forall_cons in Hends as [He Hends].
    destruct (advance_total a s Ha He) as (w & s1 & E). rewrite E. exists w, s1, (ios ++ [last]).
    destruct (advance_ok a s w s1 Ha Hi Hd E) as (Hi1 & Hs1 & Hd1). destruct (Z.eqb_spec w 0) as [Ew|Ew].
    + exists s1. split; [done|]. split; [done|]. subst w. destruct (ios ++ [last]); done.
    + assert (Hn1 : rq_done (rp_req s1) = false) by (destruct (rq_done (rp_req s1)); [destruct Ew; by apply Hd1|done]).
      destruct (IH s1 Hok Hends Hlast Hi1 (same_call_trans _ _ _ Hs Hs1) Hn1) as (w2 & s2 & rest & s' & E2 & Et & Eb).
      exists s'. split; [done|]. split; [done|]. destruct (ios ++ [last]) as [|b l] eqn:El; [done|]. cbn [block_loop tail] in *.
      destruct (Z.eqb_spec w 0); [done|]. rewrite E2. cbn [mbind outcome_bind]. by rewrite Et.
Qed.

(** A blocking poll of an RPC call returns.  If each turn ends by waiting
    or at the end of the stream, and in the last one everything goes through,
    the poll returns true, and the call is completed. *)
Theorem rpc_block_returns (m : meta) (args : list Z) (fresh : ptr) (c : connection) (s0 s : rpc) (opts : list string) (busy : bool)
  (ios : list io) (last : io) (reply : list (list Z)) :
  rpc_validate m = Ret true -> args_ok m args -> me_opts m = Some opts -> io_ok (cn_io c) -> 0 < cn_errno c ->
  rpc_submit payload m args fresh c = Ret s0 -> rpc_reach s0 s ->
  Forall io_ok (ios ++ [last]) -> Forall io_ends ios -> goes_through last (request_of (find_op opts) args (cn_fd c)) reply ->
  exists s', rpc_poll payload FILC_ASYNC_POLL_BLOCK busy (ios ++ [last]) (Some s) = Ret (true, Some s') /\
    rp_completed s' = [rq_result (rp_req s')].
Proof.
  intros Hv Ha Ho Hio Hen E Hr Hok Hends Hlast. destruct (rpc_reach_inv _ _ _ _ _ _ _ Hv Ha Ho Hio Hen E Hr) as [Hi Hs]. clear E Hr.
  assert (Hret : exists d o, rpc_poll payload FILC_ASYNC_POLL_BLOCK busy (ios ++ [last]) (Some s) = Ret (d, o)).
  { cbn [rpc_poll]. rewrite andb_false_r. destruct (rq_done (rp_req s)) eqn:Hd; [by eexists _, _|].
    apply Forall_app in Hok as Hok'. destruct Hok' as [Hok1 _].
    destruct (turns_return ios last reply _ s Hok1 Hends Hlast Hi Hs Hd) as (w & s1 & rest & s' & E1 & E2 & E3).
    destruct (ios ++ [last]) as [|a l]; [done|]. cbn [mbind outcome_bind mret outcome_ret tail] in *. rewrite E1. cbn [mbind outcome_bind]. rewrite E2, E3.
    by eexists _, _. }
  destruct Hret as (d & o & E). destruct (rpc_poll_ok _ _ _ _ _ _ Hok Hi E) as (s' & -> & Hi' & _ & H1 & _ & H2 & _).
  rewrite (H2 eq_refl) in *. exists s'. split; [done|]. pose proof (ri_report _ Hi') as Hrep. rewrite H1 in Hrep by done. by destruct Hrep.
Qed.
End Proofs.
