(* ===== verification/RpcServer.v ===== *)
(** * RpcServer: the server of the RPC demos, and a call end to end

    [serve] and [put] of [demos/rpc/rpc_server.c], over what a connection
    delivers, and the composition with the runtime of the file Rpc: the
    request a call sends is the command the server reads, and the reply it
    prints is the result the call reports. *)

From S2P Require Import Prelude Meta Text Rpc.
Open Scope Z_scope.

(** The bytes of the payload, hashed: FNV-1a in 32 bits. *)
Definition hash_byte (hash c : Z) : Z := u32 (Z.lxor hash c * 16777619).
Definition fnv (bytes : list Z) : Z := fold_left hash_byte bytes 2166136261.

(** [put]: the checksum of [len] bytes, or -1 when the connection ends
    first. *)
Definition put (len : Z) (input : list Z) : Z :=
  if Z.of_nat (length input) <? len then -1 else fnv (take (Z.to_nat len) input).

(** The loop that reads the command one byte at a time, until the string in
    the array holds a newline, the array is full or the connection ends. *)
Fixpoint read_command (room : nat) (command input : list Z) : list Z * list Z :=
  match room with
  | O => (command, input)
  | S room =>
      if bool_decide (10 ∈ cstring command) then (command, input)
      else match input with
           | [] => (command, [])
           | c :: input => read_command room (command ++ [c]) input
           end
  end.

(** The reply to what a client sent, and the counter after it. *)
Definition serve (input : list Z) (counter : Z) : list Z * Z :=
  let '(command, input) := read_command 31 [] input in
  let command := cstring command in
  let value := match scan_literal (bytes_of "PUT ") command with
               | Some l => match scan_zu l with Some (len, _) => put len input | None => -1 end
               | None => -1
               end in
  let '(value, counter) :=
    if bool_decide (command = bytes_of "STEP" ++ [10]) then (i64 (counter + 1), i64 (counter + 1))
    else if bool_decide (command = bytes_of "GET" ++ [10]) then (counter, counter)
    else (value, counter) in
  (take 31 (if 0 <=? value then bytes_of "VALUE " ++ print_ld value ++ [10] else bytes_of "ERR" ++ [10]), counter).

(** ** The server reads what the runtime sends *)

Lemma fnv_range bytes : 0 <= fnv bytes < 2 ^ 32.
Proof.
  unfold fnv. assert (H : forall h, 0 <= h < 2 ^ 32 -> 0 <= fold_left hash_byte bytes h < 2 ^ 32); [|apply H; lia].
  induction bytes as [|c bytes IH]; intros h Hh; cbn [fold_left]; [done|]. apply IH. unfold hash_byte, u32. apply Z.mod_pos_bound. lia.
Qed.

(** A line: no newline or NUL before its end. *)
Definition plain (l : list Z) : Prop := Forall (fun c => c <> 10 /\ c <> 0) l.

Lemma cstring_plain l tl : plain l -> cstring (l ++ tl) = l ++ cstring tl.
Proof.
  induction 1 as [|c l [_ Hc] _ IH]; [done|]. cbn [app cstring]. destruct (Z.eqb_spec c 0); [done|]. by rewrite IH.
Qed.

Lemma plain_no_newline l : plain l -> 10 ∉ l.
Proof. intros H Hin. unfold plain in H. rewrite Forall_forall in H. by destruct (H 10 Hin). Qed.

Lemma read_command_line l : forall room pre rest,
  plain (pre ++ l) -> (length l < room)%nat -> read_command room pre (l ++ 10 :: rest) = (pre ++ l ++ [10], rest).
Proof.
  assert (Hstop : forall room l rest, plain l -> read_command room (l ++ [10]) rest = (l ++ [10], rest)).
  { intros [|room] l0 rest Hl; cbn [read_command]; [done|]. rewrite bool_decide_true; [done|].
    rewrite cstring_plain by done. cbn. set_solver. }
  induction l as [|c l IH]; intros room pre rest Hp Hr; (destruct room as [|room]; [lia|]); cbn [read_command app].
  - rewrite app_nil_r in Hp. pose proof (cstring_plain pre [] Hp) as E. cbn in E. rewrite !app_nil_r in E. rewrite E.
    rewrite bool_decide_false by (by apply plain_no_newline). by apply Hstop.
  - assert (Hpre : plain pre) by (unfold plain in *; by apply Forall_app in Hp as [? _]).
    pose proof (cstring_plain pre [] Hpre) as E. cbn in E. rewrite !app_nil_r in E. rewrite E.
    rewrite bool_decide_false by (by apply plain_no_newline). cbn in Hr. rewrite IH; [by rewrite <- app_assoc|by rewrite <- app_assoc|lia].
Qed.

Lemma digits_plain fuel : forall n rest, plain rest -> plain (digits fuel n rest).
Proof.
  induction fuel as [|fuel IH]; intros n rest Hr; cbn [digits]; [done|].
  assert (Hd : plain ((48 + n mod 10) :: rest)) by (constructor; [pose proof (Z.mod_pos_bound n 10); lia|done]).
  destruct (n / 10 =? 0); [done|by apply IH].
Qed.

(** What a call asks the server for. *)
Definition asked (o : op) (payload : list Z) (counter : Z) : Z :=
  match o with OP_STEP => counter + 1 | OP_GET => counter | _ => fnv payload end.

(** The reply to a value that is not negative. *)
Definition value_line (v : Z) : list Z := bytes_of "VALUE " ++ print_ld v ++ [10].

Lemma print_ld_length v : 0 <= v -> (length (print_ld v) <= 20)%nat.
Proof. intros Hv. unfold print_ld. destruct (Z.ltb_spec v 0); [lia|]. pose proof (digits_length 20 v []) as Hl. cbn [length] in Hl. lia. Qed.

Lemma value_line_length v : 0 <= v -> (length (value_line v) <= 31)%nat.
Proof. intros Hv. unfold value_line. rewrite !length_app. pose proof (print_ld_length v Hv) as Hl. change (length (bytes_of "VALUE ")) with 6%nat. cbn [length]. lia. Qed.

(** The server's answer to a request of the runtime. *)
Lemma serve_request o args fd payload counter :
  o <> OP_NONE -> 0 <= counter < LONG_MAX ->
  (o = OP_PUT -> forall n, args !! 2%nat = Some n -> 0 <= n <= ULONG_MAX /\ (Z.to_nat n <= length payload)%nat) -> (o = OP_PUT -> is_Some (args !! 2%nat)) ->
  serve (request_bytes payload (request_of o args fd)) counter =
    (value_line (asked o (take (rq_payload_len (request_of o args fd)) payload) counter), match o with OP_STEP => counter + 1 | _ => counter end).
Proof.
  intros Ho Hc Hn Hs. unfold LONG_MAX in Hc. assert (Hrep : forall v, 0 <= v -> take 31 (value_line v) = value_line v) by (intros v Hv; by apply take_ge, value_line_length).
  destruct o; [done|..]; unfold request_bytes, request_of; cbn [rq_command rq_payload_len asked].
  - change (take 0 payload) with (@nil Z). rewrite app_nil_r. unfold serve. change (bytes_of "STEP" ++ [10]) with (bytes_of "STEP" ++ 10 :: []) at 1.
    rewrite (read_command_line (bytes_of "STEP") 31 []) by first [by cbn; lia|(repeat constructor; discriminate)]. cbn [app].
    change (cstring (bytes_of "STEP" ++ [10])) with (bytes_of "STEP" ++ [10]). cbv iota zeta. rewrite bool_decide_true by done.
    rewrite i64_small by lia. destruct (Z.leb_spec 0 (counter + 1)); [|lia]. f_equal. apply Hrep. lia.
  - change (take 0 payload) with (@nil Z). rewrite app_nil_r. unfold serve. change (bytes_of "GET" ++ [10]) with (bytes_of "GET" ++ 10 :: []) at 1.
    rewrite (read_command_line (bytes_of "GET") 31 []) by first [by cbn; lia|(repeat constructor; discriminate)]. cbn [app].
    change (cstring (bytes_of "GET" ++ [10])) with (bytes_of "GET" ++ [10]). cbv iota zeta. rewrite bool_decide_false by (by vm_compute). rewrite bool_decide_true by done.
    destruct (Z.leb_spec 0 counter); [|lia]. f_equal. apply Hrep. lia.
  - destruct (Hs eq_refl) as [n En]. destruct (Hn eq_refl n En) as [Hr Hp]. rewrite En. cbn [default from_option id].
    unfold serve. rewrite <- !app_assoc. cbn [app].
    assert (Hpl : plain (bytes_of "PUT " ++ print_zu n)).
    { apply Forall_app. split; [vm_compute; repeat constructor; discriminate|]. apply digits_plain. constructor. }
    pose proof (read_command_line (bytes_of "PUT " ++ print_zu n) 31 [] (take (Z.to_nat n) payload) Hpl) as E.
    rewrite <- app_assoc in E. rewrite E; clear E.
    2: { rewrite length_app. pose proof (digits_length 20 n []) as H. change (length (bytes_of "PUT ")) with 4%nat. unfold print_zu. cbn [length] in H. lia. }
    cbn [app]. rewrite (cstring_plain (bytes_of "PUT " ++ print_zu n) [10] Hpl). change (cstring [10]) with [10].
    rewrite <- app_assoc. change (scan_literal (bytes_of "PUT ") (bytes_of "PUT " ++ print_zu n ++ [10])) with (Some (skip_space (print_zu n ++ [10]))).
    rewrite skip_space_zu, scan_print_zu by done. unfold put. rewrite length_take, Nat.min_l by lia.
    destruct (Z.ltb_spec (Z.of_nat (Z.to_nat n)) n) as [|_]; [lia|]. rewrite take_take, Nat.min_id. cbv iota zeta.
    rewrite !bool_decide_false by (by intros [=]). destruct (Z.leb_spec 0 (fnv (take (Z.to_nat n) payload))) as [_|]; [|pose proof (fnv_range (take (Z.to_nat n) payload)); lia].
    f_equal. apply Hrep, fnv_range.
Qed.

(** ** A call, end to end *)

Lemma bytes_plain v : plain (bytes_of "VALUE " ++ print_ld v).
Proof.
  apply Forall_app. split; [vm_compute; repeat constructor; discriminate|]. unfold print_ld.
  destruct (v <? 0); [constructor; [lia|]|]; apply digits_plain; constructor.
Qed.

(** A number printed as a reply is read back. *)
Lemma parse_value_line q v : LONG_MIN <= v <= LONG_MAX -> rq_reply q = value_line v -> parse_reply q = v.
Proof.
  intros Hv E. unfold parse_reply. rewrite E. unfold value_line. rewrite app_assoc, (cstring_plain _ [10] (bytes_plain v)), <- app_assoc.
  change (cstring [10]) with [10].
  change (scan_literal (bytes_of "VALUE ") (bytes_of "VALUE " ++ print_ld v ++ [10])) with (Some (skip_space (print_ld v ++ [10]))).
  by rewrite skip_space_ld, scan_print_ld.
Qed.

Lemma find_op_asked opts m (args : list Z) : rpc_validate m = Ret true -> me_opts m = Some opts -> Z.of_nat (length args) = me_nargs m ->
  find_op opts <> OP_NONE /\ (find_op opts = OP_PUT -> is_Some (args !! 2%nat)).
Proof.
  intros (opts' & E & Hn)%rpc_validate_ok Ho Hl. rewrite Ho in E. injection E as <-. destruct (find_op opts) eqn:Ef; [done|by split|by split|].
  split; [done|]. intros _. apply lookup_lt_is_Some. lia.
Qed.

(** C12: a call, end to end.  When everything a call sends reaches the server
    and the server's reply arrives, in whatever pieces, a blocking poll
    returns true with the call completed with what it asked for: the counter
    plus one for STEP, the counter for GET, and for PUT the checksum of
    exactly the payload's bytes. *)
Theorem rpc_round_trip (payload : list Z) (m : meta) (args : list Z) (fresh : ptr) (c : connection) (s0 s : rpc) (opts : list string) (busy : bool)
  (last : io) (chunks : list (list Z)) (counter : Z) :
  rpc_validate m = Ret true -> args_ok payload m args -> me_opts m = Some opts -> io_ok (cn_io c) -> 0 < cn_errno c ->
  rpc_submit payload m args fresh c = Ret s0 -> reach (rpc_exec payload) poll_ok s0 s -> rq_done (rp_req s) = false -> rq_reply (rp_req s) = [] ->
  let q := request_of (find_op opts) args (cn_fd c) in
  io_ok last -> goes_through last q chunks -> Forall (fun b => b <> []) chunks ->
  0 <= counter < LONG_MAX -> concat chunks = fst (serve (request_bytes payload q) counter) ->
  exists s', rpc_poll payload FILC_ASYNC_POLL_BLOCK busy [last] (Some s) = Ret (true, Some s') /\
    rp_completed s' = [asked (find_op opts) (take (rq_payload_len q) payload) counter].
Proof.
  intros Hv Ha Ho Hio Hen E Hr Hd Hrep q Hok Hgo Hch Hc Hcat.
  destruct (rpc_reach_inv _ _ _ _ _ _ _ _ Hv Ha Ho Hio Hen E Hr) as [Hi Hs]. fold q in Hs. clear E Hr.
  destruct (find_op_asked _ _ _ Hv Ho (proj1 Ha)) as [Hne H2].
  unfold q in Hcat. rewrite serve_request in Hcat by (try done; intros Ef; exact (proj2 Ha opts Ho Ef)). fold q in Hcat. cbn [fst] in Hcat.
  set (v := asked _ _ _) in *.
  assert (Hv0 : 0 <= v <= LONG_MAX).
  { unfold v, asked, LONG_MAX in *. pose proof (fnv_range (take (rq_payload_len q) payload)). destruct (find_op opts); lia. }
  destruct (advance_through payload last s chunks Hi (goes_same _ _ _ _ Hs Hgo)) as (s' & Ea & Hd' & Hres).
  rewrite Hrep in Hres. cbn [app] in Hres. destruct Hres as [Hr1 Hr2]; [done|rewrite Hcat; apply value_line_length; lia|].
  rewrite Hcat in Hr1. rewrite (parse_value_line _ v) in Hr2 by (done || unfold LONG_MIN; lia).
  destruct (advance_ok payload last s 0 s' Hok Hi Hd Ea) as (Hi' & _ & _). exists s'. split.
  - cbn [rpc_poll]. rewrite andb_false_r, Hd. cbn [mbind outcome_bind mret outcome_ret]. rewrite Ea. cbn [mbind outcome_bind tail block_loop Z.eqb mret outcome_ret].
    by rewrite Hd'.
  - pose proof (ri_report _ _ Hi') as Hp. rewrite Hd' in Hp. destruct Hp as [-> _]. by rewrite Hr2.
Qed.

(** ** A concrete call

    A PUT of three bytes: the socket takes two bytes of the command at
    submission, a poll finds the payload still pending, and then everything
    goes through. *)

Definition put_meta : meta :=
  mk_meta "put" 3 1 0 1 4096 [mk_meta_arg 0 0; mk_meta_arg 2 0; mk_meta_arg 0 0] (Some ["runtime=rpc"; "op=put"]%string).
Definition put_payload : list Z := [104; 105; 33].
Definition put_args : list Z := [8080; 20480; 3].
Definition put_connection : connection := mk_connection 5 (-1) EINPROGRESS (mk_io [Room 2; Send_error EAGAIN] true []).
Definition put_s0 : rpc := match rpc_submit put_payload put_meta put_args 4096 put_connection with Ret s => s | _ => mk_rpc (request_of OP_PUT put_args 5) [] [] [] end.
Definition put_wait : io := mk_io [Room 40; Send_error EAGAIN] true [Recv_error EAGAIN].
Definition put_poll : poll_call := mk_poll FILC_ASYNC_POLL_PROGRESS false [put_wait].
Definition put_s1 : rpc := match rpc_exec put_payload put_poll put_s0 with Ret s => s | _ => put_s0 end.
Definition put_reply : list Z := fst (serve (request_bytes put_payload (request_of OP_PUT put_args 5)) 41).
Definition put_chunks : list (list Z) := [take 4 put_reply; drop 4 put_reply].
Definition put_last : io := mk_io [Room 40; Room 40; Send_error EAGAIN] false (map Arrived put_chunks ++ [Arrived []]).

Lemma put_args_ok : args_ok put_payload put_meta put_args.
Proof. split; [reflexivity|]. intros opts [= <-] _ n [= <-]. vm_compute. repeat split; (discriminate || lia). Qed.

Lemma put_io_ok : io_ok (cn_io put_connection).
Proof. split; repeat constructor. Qed.

Lemma put_last_ok : io_ok put_last.
Proof. split; repeat constructor. Qed.

Lemma put_wait_ok : io_ok put_wait.
Proof. split; repeat constructor. Qed.

Lemma put_s1_reach : reach (rpc_exec put_payload) poll_ok put_s0 put_s1.
Proof.
  apply (reach_step _ _ _ put_s0 put_poll put_s1); [apply reach_init|repeat constructor|vm_compute; reflexivity].
Qed.

Lemma put_through : goes_through put_last (request_of OP_PUT put_args 5) put_chunks.
Proof. exists 40%nat, 40%nat, [Send_error EAGAIN]. split; [reflexivity|]. vm_compute. repeat split; lia. Qed.

Lemma rpc_call_exact_witness :
  (exists rest, request_bytes put_payload (request_of OP_PUT put_args 5) = rp_wire put_s1 ++ rest) /\ rp_completed put_s1 = [].
Proof.
  destruct (rpc_call_exact put_payload put_meta put_args 4096 put_connection put_s0 put_s1 ["runtime=rpc"; "op=put"]%string) as (H1 & _ & H2).
  - vm_compute. reflexivity.
  - exact put_args_ok.
  - reflexivity.
  - exact put_io_ok.
  - reflexivity.
  - vm_compute. reflexivity.
  - exact put_s1_reach.
  - split; [exact H1|]. vm_compute in H2. exact (proj1 H2).
Defined.

Lemma rpc_block_returns_witness :
  exists s', rpc_poll put_payload FILC_ASYNC_POLL_BLOCK false ([put_wait] ++ [put_last]) (Some put_s1) = Ret (true, Some s') /\
    rp_completed s' = [rq_result (rp_req s')].
Proof.
  apply (rpc_block_returns put_payload put_meta put_args 4096 put_connection put_s0 put_s1 ["runtime=rpc"; "op=put"]%string false [put_wait] put_last put_chunks).
  - vm_compute. reflexivity.
  - exact put_args_ok.
  - reflexivity.
  - exact put_io_ok.
  - reflexivity.
  - vm_compute. reflexivity.
  - exact put_s1_reach.
  - apply List.Forall_cons; [exact put_wait_ok|apply List.Forall_cons; [exact put_last_ok|apply List.Forall_nil]].
  - apply List.Forall_cons; [|apply List.Forall_nil]. split; [by exists [Room 40], EAGAIN|]. exists [], (Recv_error EAGAIN). split; [reflexivity|right; by exists EAGAIN].
  - exact put_through.
Defined.

Lemma rpc_round_trip_witness :
  exists s', rpc_poll put_payload FILC_ASYNC_POLL_BLOCK false [put_last] (Some put_s1) = Ret (true, Some s') /\
    rp_completed s' = [fnv put_payload].
Proof.
  apply (rpc_round_trip put_payload put_meta put_args 4096 put_connection put_s0 put_s1 ["runtime=rpc"; "op=put"]%string false put_last put_chunks 41).
  - vm_compute. reflexivity.
  - exact put_args_ok.
  - reflexivity.
  - exact put_io_ok.
  - reflexivity.
  - vm_compute. reflexivity.
  - exact put_s1_reach.
  - vm_compute. reflexivity.
  - vm_compute. reflexivity.
  - exact put_last_ok.
  - exact put_through.
  - repeat (apply List.Forall_cons; [discriminate|]). apply List.Forall_nil.
  - split; [discriminate|reflexivity].
  - vm_compute. reflexivity.
Defined.
