(* ===== verification/Pass.v ===== *)
(** * Pass: the descriptors the compiler pass emits

    The first half of [compiler/pass/FilAsync.cpp]: reading the annotations of
    a module, the options that name parameters ([parseKinds]) and the runtime
    ([parseRuntime]), the options array, and the descriptor ([emitMeta]), up to
    the table that the startup constructor hands to
    [filc_async_validate_table] of the file Meta.  What becomes of the calls
    is in the file Stub.

    A [StringRef] is a [string] (its bytes, NULs included).  Of LLVM's module
    the model has the functions and the constants the pass looks at; a
    [report_fatal_error] is an [Rejected] with what [errs()] was told.  A
    global's address is its index among the module's globals that have an
    initializer. *)

From Stdlib Require Import Ascii String.
From stdpp Require Import sorting.
From S2P Require Import Prelude Meta Text.
Open Scope Z_scope.

Definition ARG_IGNORED : Z := 0.
Definition ARG_BUFFER_IN : Z := 2.
Definition ARG_BUFFER_OUT : Z := 3.
Definition ARG_PENDING : Z := 5.
Definition DEP_NONE : Z := 0.
Definition DEP_READ : Z := 1.
Definition DEP_WRITE : Z := 2.
Definition DEP_POINTER : Z := 4.
Definition DEP_NAMESPACE_SHIFT : Z := 8.
Definition DEP_NAMESPACE_MASK : Z := 0x00FFFFFF.
Definition RESULT_WORD : Z := 1.
Definition RESULT_PTR : Z := 2.

(** ** Results and strings *)

(** What makes the pass give up. *)
Inductive option_error :=
  | Fd_option | Obsolete_dependency | No_namespace | Empty_namespace | No_parameter
  | Dependency_type | Conflicting_dependencies | Not_a_pointer
  | Bad_runtime_name | Two_runtimes | No_runtime | Not_a_function.

Inductive parsed (A : Type) : Type :=
  | Parsed (a : A)
  | Rejected (e : option_error).
Arguments Parsed {A} _.
Arguments Rejected {A} _.

#[export] Instance parsed_ret : MRet parsed := fun A a => Parsed a.
#[export] Instance parsed_bind : MBind parsed := fun A B f m =>
  match m with Parsed a => f a | Rejected e => Rejected e end.

Fixpoint drop_front (n : nat) (s : string) : string :=
  match n, s with
  | S n, String _ s => drop_front n s
  | _, _ => s
  end.

Fixpoint take_front (n : nat) (s : string) : string :=
  match n, s with
  | S n, String c s => String c (take_front n s)
  | _, _ => EmptyString
  end.

Fixpoint find_char (c : ascii) (s : string) : option nat :=
  match s with
  | EmptyString => None
  | String x s => if Ascii.eqb x c then Some O else S <$> find_char c s
  end.

Definition is_empty (s : string) : bool := match s with EmptyString => true | _ => false end.

(** FNV-1a over the bytes, in 32 bits. *)
Definition hashNamespace (name : string) : Z :=
  let h := fold_left (fun h c => u32 (Z.lxor h c * 16777619)) (bytes_of name) 2166136261 in
  let h := Z.land h DEP_NAMESPACE_MASK in
  if h =? 0 then 1 else h.

(** ** Constants of the module *)

(** A global variable with an initializer: whether it is constant, and the
    initializer when that is an array of bytes. *)
Record global := mk_global { gv_constant : bool; gv_bytes : option string }.

(** The string without a last NUL. *)
Fixpoint drop_nul (s : string) : string :=
  match s with
  | EmptyString => EmptyString
  | String c EmptyString => if Ascii.eqb c Ascii.zero then EmptyString else s
  | String c s => String c (drop_nul s)
  end.

(** The string of a constant that points at the [i]-th global; [None]: it
    points elsewhere. *)
Definition underlyingString (gs : list global) (c : option nat) : string :=
  match c ≫= (fun i => gs !! i) with
  | Some g => match gv_bytes g with Some s => drop_nul s | None => EmptyString end
  | None => EmptyString
  end.

Fixpoint find_string (i : nat) (gs : list global) (s : string) : option nat :=
  match gs with
  | [] => None
  | g :: gs =>
      match gv_bytes g with
      | Some b => if gv_constant g && String.eqb (drop_nul b) s then Some i else find_string (S i) gs s
      | None => find_string (S i) gs s
      end
  end.

Definition add_nul (s : string) : string := String.append s (String Ascii.zero EmptyString).

Definition findOrCreateStringGlobal (gs : list global) (s : string) : nat * list global :=
  match find_string 0 gs s with
  | Some i => (i, gs)
  | None => (length gs, gs ++ [mk_global true (Some (add_nul s))])
  end.

(** The options array: the globals of its elements; its last one is NULL. *)
Fixpoint emit_opts (gs : list global) (opts : list string) : list (option nat) * list global :=
  match opts with
  | [] => ([None], gs)
  | s :: opts =>
      let '(i, gs) := findOrCreateStringGlobal gs s in
      let '(elems, gs) := emit_opts gs opts in
      (Some i :: elems, gs)
  end.

(** ** Functions *)

Inductive ty := PointerTy | IntegerTy (bits : Z) | VoidTy | OtherTy.

#[export] Instance ty_eq_dec : EqDecision ty.
Proof. solve_decision. Defined.

Definition is_pointer (t : ty) : bool := match t with PointerTy => true | _ => false end.

(** [fn_md_params], [fn_md_const]: the metadata of the patched clang, an
    operand that is not a string, or not an integer, being [None]. *)
Record func := mk_func {
  fn_params : list ty;
  fn_ret : ty;
  fn_arg_names : list string;
  fn_md_params : option (list (option string));
  fn_md_const : option (list (option Z));
  fn_declaration : bool;
  fn_available_externally : bool;
  fn_local : bool;
}.

Definition arg_size (f : func) : nat := length (fn_params f).

Definition paramNames (f : func) : list string :=
  match fn_md_params f with
  | Some ops => resize (arg_size f) EmptyString (map (default EmptyString) ops)
  | None => fn_arg_names f
  end.

Definition constParams (f : func) : list bool :=
  resize (arg_size f) false
    match fn_md_const f with
    | Some ops => map (fun c => match c with Some n => n =? 1 | None => false end) ops
    | None => []
    end.

(** ** Options *)

Record kinds_st := mk_kinds { ks_kinds : list Z; ks_deps : list Z; ks_noped : Z }.

(** What an option's prefix says: nothing, that it is refused, or the kind or
    the dependency it sets and the length of the prefix. *)
Inductive prefix_of_option :=
  | Other_option
  | Refused_option (e : option_error)
  | Buffer_option (kind : Z) (len : nat)
  | Dependency_option (mode : Z) (len : nat).

Definition starts_with (opt p : string) : bool := String.prefix p opt.

Definition classify (opt : string) : prefix_of_option :=
  if starts_with opt "fd=" then Refused_option Fd_option
  else if starts_with opt "bin=" then Buffer_option ARG_BUFFER_IN 4
  else if starts_with opt "bout=" then Buffer_option ARG_BUFFER_OUT 5
  else if starts_with opt "buf=" then Buffer_option ARG_PENDING 4
  else if starts_with opt "r_dep=" then Dependency_option DEP_READ 6
  else if starts_with opt "w_dep=" then Dependency_option DEP_WRITE 6
  else if starts_with opt "read_dep=" || starts_with opt "write_dep=" then Refused_option Obsolete_dependency
  else Other_option.

(** The index of the parameter an option names. *)
Definition find_param (names : list string) (param : string) : parsed nat :=
  if is_empty param then Rejected No_parameter
  else match list_find (fun n => n = param) names with
       | Some (i, _) => Parsed i
       | None => Rejected No_parameter
       end.

Definition dependency_word (mode : Z) (t : ty) (value : string) : Z :=
  Z.lor (Z.lor mode (if is_pointer t then DEP_POINTER else 0)) (u32 (Z.shiftl (hashNamespace value) DEP_NAMESPACE_SHIFT)).

(** One turn of the loop over the options. *)
Definition parse_option (f : func) (opt : string) (st : kinds_st) : parsed kinds_st :=
  match classify opt with
  | Other_option => mret st
  | Refused_option e => Rejected e
  | Dependency_option mode len =>
      let value := drop_front len opt in
      match find_char ":" value with
      | None => Rejected No_namespace
      | Some colon =>
          if is_empty (drop_front (S colon) value) then Rejected Empty_namespace
          else
            idx ← find_param (paramNames f) (take_front colon value);
            let t := nth idx (fn_params f) OtherTy in
            if negb (match t with PointerTy => true | IntegerTy bits => bits <=? 64 | _ => false end) then Rejected Dependency_type
            else
              let word := dependency_word mode t value in
              let old := nth idx (ks_deps st) DEP_NONE in
              if negb (old =? DEP_NONE) && negb (old =? word) then Rejected Conflicting_dependencies
              else mret (mk_kinds (ks_kinds st) (<[idx := word]> (ks_deps st)) (ks_noped st))
      end
  | Buffer_option kind len =>
      idx ← find_param (paramNames f) (drop_front len opt);
      if negb (is_pointer (nth idx (fn_params f) OtherTy)) then Rejected Not_a_pointer
      else mret (mk_kinds (<[idx := kind]> (ks_kinds st)) (ks_deps st) (u32 (ks_noped st + 1)))
  end.

Fixpoint parse_options (f : func) (opts : list string) (st : kinds_st) : parsed kinds_st :=
  match opts with
  | [] => mret st
  | opt :: opts => st ← parse_option f opt st; parse_options f opts st
  end.

(** The kind of a parameter no option names. *)
Definition default_kind (t : ty) (is_const : bool) : Z :=
  if is_pointer t then if is_const then ARG_BUFFER_IN else ARG_PENDING else ARG_IGNORED.

Definition parseKinds (f : func) (opts : list string) : parsed kinds_st :=
  parse_options f opts (mk_kinds (zip_with default_kind (fn_params f) (constParams f)) (replicate (arg_size f) DEP_NONE) 0).

Definition isDigit (c : ascii) : bool := let n := nat_of_ascii c in (48 <=? n)%nat && (n <=? 57)%nat.
Definition isAlnum (c : ascii) : bool :=
  let n := nat_of_ascii c in isDigit c || (65 <=? n)%nat && (n <=? 90)%nat || (97 <=? n)%nat && (n <=? 122)%nat.

Definition identifier (s : string) : bool :=
  match s with
  | EmptyString => false
  | String c _ => negb (isDigit c) && forallb (fun c => isAlnum c || Ascii.eqb c "_") (list_ascii_of_string s)
  end.

(** [name]: the runtime named so far, or the empty string. *)
Fixpoint parse_runtime (opts : list string) (name : string) : parsed string :=
  match opts with
  | [] => if is_empty name then Rejected No_runtime else mret name
  | opt :: opts =>
      if negb (starts_with opt "runtime=") then parse_runtime opts name
      else
        let n := drop_front 8 opt in
        if negb (identifier n) then Rejected Bad_runtime_name
        else if negb (is_empty name) && negb (String.eqb name n) then Rejected Two_runtimes
        else parse_runtime opts n
  end.

Definition parseRuntime (opts : list string) : parsed string := parse_runtime opts EmptyString.

(** The linker names of a body and of the alias kept for it. *)
Definition renameBody (f : func) (orig_name : string) : string * option string :=
  if fn_declaration f || fn_available_externally f then (orig_name, None)
  else (String.append "__filc_async_" orig_name, if fn_local f then None else Some orig_name).

(** ** Annotations *)

(** An element of [llvm.global.annotations]: whether it is a struct of five
    operands, its second operand, the function its first one names, and the
    operands of the struct its last one points at. *)
Record entry := mk_entry { en_five : bool; en_marker : option nat; en_target : option string; en_args : list (option nat) }.

Definition isFilcAsyncEntry (gs : list global) (e : entry) : bool :=
  en_five e && String.eqb (underlyingString gs (en_marker e)) "filc_async".

(** [Annotated], by the functions' names. *)
Fixpoint enroll_annotated (gs : list global) (es : list entry) (annotated : gmap string (list string)) : parsed (gmap string (list string)) :=
  match es with
  | [] => mret annotated
  | e :: es =>
      if negb (isFilcAsyncEntry gs e) then enroll_annotated gs es annotated
      else match en_target e with
           | None => Rejected Not_a_function
           | Some f => enroll_annotated gs es (<[f := map (underlyingString gs) (en_args e)]> annotated)
           end
  end.

Definition enrollAnnotatedFunctions (gs : list global) (es : option (list entry)) : parsed (gmap string (list string)) :=
  match es with None => mret ∅ | Some es => enroll_annotated gs es ∅ end.

(** The entries of other consumers, which stay. *)
Definition foreign_entries (gs : list global) (es : list entry) : list entry := List.filter (fun e => negb (isFilcAsyncEntry gs e)) es.

(** What is emitted for one function; [em_opts]: the options array. *)
Record emitted := mk_emitted { em_name : string; em_meta : meta; em_opts : list (option nat); em_kinds : list Z; em_deps : list Z; em_body : string * option string }.

Section Pass.
(** [symbol]: the address the linker gives a name. *)
Context (symbol : string -> ptr).

(** The descriptor's options are those the annotation lists. *)
Definition emitMeta (f : func) (orig_name : string) (opts : list string) (st : kinds_st) : parsed meta :=
  runtime ← parseRuntime opts;
  mret (mk_meta orig_name (Z.of_nat (arg_size f)) (ks_noped st) 0 (if is_pointer (fn_ret f) then RESULT_PTR else RESULT_WORD)
    (symbol (String.append "filc_async_runtime_" runtime)) (zip_with mk_meta_arg (ks_kinds st) (ks_deps st)) (Some opts)).

(** The globals a function's descriptor adds: the options array, the name and
    the descriptor. *)
Definition descriptor_globals (name : string) : list global :=
  [mk_global true None; mk_global true (Some (add_nul name)); mk_global true None].

(** The loop of [run] over the work. *)
Fixpoint emit_all (functions : string -> func) (work : list (string * list string)) (gs : list global) : parsed (list emitted * list global) :=
  match work with
  | [] => mret ([], gs)
  | (name, opts) :: work =>
      let f := functions name in
      st ← parseKinds f opts;
      let body := renameBody f name in
      let '(elems, gs) := emit_opts gs opts in
      m ← emitMeta f name opts st;
      '(ems, gs) ← emit_all functions work (gs ++ descriptor_globals name);
      mret (mk_emitted name m elems (ks_kinds st) (ks_deps st) body :: ems, gs)
  end.

Definition by_name (a b : string * list string) : Prop := String.leb (fst a) (fst b) = true.
#[export] Instance by_name_dec a b : Decision (by_name a b).
Proof. unfold by_name. apply _. Defined.

#[export] Instance by_name_total : Total by_name.
Proof. intros a b. apply String.leb_total. Qed.

(** What the constructor of the emitted table does at startup. *)
Definition emitMetaTableAndCtor (validator : option (meta -> bool)) (runtime_validate : ptr -> meta -> bool) (ems : list emitted) : outcome unit :=
  filc_async_validate_table validator runtime_validate (map em_meta ems).

(** [None]: the module is left as it is. *)
Definition run (functions : string -> func) (gs : list global) (es : option (list entry)) : parsed (option (list emitted * list global)) :=
  annotated ← enrollAnnotatedFunctions gs es;
  if bool_decide (annotated = ∅) then mret None
  else r ← emit_all functions (merge_sort by_name (map_to_list annotated)) gs; mret (Some r).
End Pass.

(** ** Strings *)

Lemma append_cons c p s : (String c p ++ s)%string = String c (p ++ s).
Proof. done. Qed.

Lemma prefix_append p s : String.prefix p (p ++ s) = true.
Proof.
  induction p as [|c p IH]; [by destruct s|]. rewrite append_cons. cbn [String.prefix].
  destruct (ascii_dec c c) as [_|Hn]; [exact IH|by destruct Hn].
Qed.

Lemma prefix_split p : forall s, String.prefix p s = true -> s = (p ++ drop_front (String.length p) s)%string.
Proof.
  induction p as [|c p IH]; intros s; [by destruct s|]. destruct s as [|x s]; [done|]. rewrite append_cons. cbn [String.prefix String.length drop_front].
  destruct (ascii_dec c x) as [->|]; [|done]. intros H%IH. by rewrite <- H.
Qed.

(** [c] is not in [s]. *)
Definition lacks (c : ascii) (s : string) : Prop := find_char c s = None.

Lemma find_char_split c s : forall n, find_char c s = Some n ->
  lacks c (take_front n s) /\ s = (take_front n s ++ String c (drop_front (S n) s))%string.
Proof.
  unfold lacks. induction s as [|x s IH]; intros n; cbn [find_char]; [done|]. destruct (Ascii.eqb_spec x c) as [->|Hne].
  - intros [= <-]. by destruct s.
  - intros (m & Em & ->)%fmap_Some. destruct (IH m Em) as [H1 H2]. split.
    + cbn. by rewrite (proj2 (Ascii.eqb_neq x c) Hne), H1.
    + cbn [take_front]. rewrite append_cons. f_equal. exact H2.
Qed.

Lemma find_char_join c a b : lacks c a ->
  find_char c (a ++ String c b) = Some (String.length a) /\ take_front (String.length a) (a ++ String c b) = a /\
  drop_front (S (String.length a)) (a ++ String c b) = b.
Proof.
  unfold lacks. induction a as [|x a IH]; [intros _; change (EmptyString ++ String c b)%string with (String c b); cbn; rewrite Ascii.eqb_refl; by destruct b|].
  rewrite append_cons. cbn [find_char]. destruct (Ascii.eqb_spec x c) as [->|Hne]; [done|]. intros (H1 & H2 & H3)%fmap_None%IH. rewrite H1.
  split; [done|]. split; [cbn [String.length take_front]; by rewrite H2|exact H3].
Qed.

(** [p] is the name of the [i]-th parameter, and of none before it. *)
Definition names_param (f : func) (p : string) (i : nat) : Prop :=
  p <> EmptyString /\ paramNames f !! i = Some p /\ forall j, (j < i)%nat -> paramNames f !! j <> Some p.

Lemma find_param_iff f p i : find_param (paramNames f) p = Parsed i <-> names_param f p i.
Proof.
  unfold find_param, names_param. destruct p as [|c p]; cbn [is_empty]; [split; [done|by intros [? _]]|]. set (q := String c p).
  destruct (list_find (fun n => n = q) (paramNames f)) as [[j x]|] eqn:E.
  - apply list_find_Some in E as (Hj & -> & Hbefore). split.
    + intros [= <-]. split; [done|]. split; [done|]. intros k Hk Hq. by apply (Hbefore k q Hq Hk).
    + intros (_ & Hi & Hb). f_equal. destruct (lt_eq_lt_dec i j) as [[Hlt| ->]|Hlt]; [|done|].
      * exfalso. by apply (Hbefore i q Hi Hlt).
      * by destruct (Hb j Hlt).
  - split; [done|]. intros (_ & Hi & _). apply list_find_None in E. exfalso. rewrite Forall_forall in E. apply (E q); [|done].
    by eapply list_elem_of_lookup_2.
Qed.

(** ** What the options mean *)

Inductive meaning :=
  | Nothing
  | Buffer (i : nat) (kind : Z)
  | Dependency (i : nat) (word : Z).

Definition buffer_prefixes : list (string * Z) := [("bin=", ARG_BUFFER_IN); ("bout=", ARG_BUFFER_OUT); ("buf=", ARG_PENDING)]%string.
Definition dependency_prefixes : list (string * Z) := [("r_dep=", DEP_READ); ("w_dep=", DEP_WRITE)]%string.
Definition refused_prefixes : list string := ["fd="; "read_dep="; "write_dep="]%string.

(** A dependency's parameter: a pointer, or an integer that fits in 64 bits. *)
Definition lockable (t : ty) : Prop := match t with PointerTy => True | IntegerTy bits => bits <= 64 | _ => False end.

(** A buffer option names a pointer; a dependency is <param>:<namespace>; any
    other option is not about the parameters. *)
Inductive says (f : func) : string -> meaning -> Prop :=
  | says_nothing opt :
      (forall p, p ∈ refused_prefixes ++ map fst buffer_prefixes ++ map fst dependency_prefixes -> String.prefix p opt = false) -> says f opt Nothing
  | says_buffer pre kind param i :
      (pre, kind) ∈ buffer_prefixes -> names_param f param i -> fn_params f !! i = Some PointerTy -> says f (pre ++ param) (Buffer i kind)
  | says_dependency pre mode param ns i t :
      (pre, mode) ∈ dependency_prefixes -> lacks ":" param -> ns <> EmptyString -> names_param f param i -> fn_params f !! i = Some t -> lockable t ->
      says f (pre ++ param ++ String ":" ns) (Dependency i (dependency_word mode t (param ++ String ":" ns))).

(** The state after an option. *)
Definition apply (m : meaning) (st : kinds_st) : kinds_st :=
  match m with
  | Nothing => st
  | Buffer i kind => mk_kinds (<[i := kind]> (ks_kinds st)) (ks_deps st) (u32 (ks_noped st + 1))
  | Dependency i word => mk_kinds (ks_kinds st) (<[i := word]> (ks_deps st)) (ks_noped st)
  end.

(** A dependency may be repeated, but not changed. *)
Definition agrees (m : meaning) (st : kinds_st) : Prop :=
  match m with
  | Dependency i word => nth i (ks_deps st) DEP_NONE = DEP_NONE \/ nth i (ks_deps st) DEP_NONE = word
  | _ => True
  end.

Lemma is_empty_iff s : is_empty s = true <-> s = EmptyString.
Proof. by destruct s. Qed.

Lemma lockable_iff t : (match t with PointerTy => true | IntegerTy bits => bits <=? 64 | _ => false end) = true <-> lockable t.
Proof. destruct t as [|bits| |]; cbn; [done|apply Z.leb_le|done|done]. Qed.

Lemma classify_buffer opt kind len :
  classify opt = Buffer_option kind len -> exists pre, (pre, kind) ∈ buffer_prefixes /\ len = String.length pre /\ opt = (pre ++ drop_front len opt)%string.
Proof.
  unfold classify, starts_with. intros H.
  destruct (String.prefix "fd=" opt); [done|]. destruct (String.prefix "bin=" opt) eqn:E1; [injection H as <- <-; exists "bin="%string; split; [set_solver|]; split; [done|by apply prefix_split]|].
  destruct (String.prefix "bout=" opt) eqn:E2; [injection H as <- <-; exists "bout="%string; split; [set_solver|]; split; [done|by apply prefix_split]|].
  destruct (String.prefix "buf=" opt) eqn:E3; [injection H as <- <-; exists "buf="%string; split; [set_solver|]; split; [done|by apply prefix_split]|].
  by destruct (String.prefix "r_dep=" opt), (String.prefix "w_dep=" opt), (String.prefix "read_dep=" opt), (String.prefix "write_dep=" opt).
Qed.

Lemma classify_dependency opt mode len :
  classify opt = Dependency_option mode len -> exists pre, (pre, mode) ∈ dependency_prefixes /\ len = String.length pre /\ opt = (pre ++ drop_front len opt)%string.
Proof.
  unfold classify, starts_with. intros H.
  destruct (String.prefix "fd=" opt); [done|]. destruct (String.prefix "bin=" opt); [done|]. destruct (String.prefix "bout=" opt); [done|].
  destruct (String.prefix "buf=" opt); [done|].
  destruct (String.prefix "r_dep=" opt) eqn:E1; [injection H as <- <-; exists "r_dep="%string; split; [set_solver|]; split; [done|by apply prefix_split]|].
  destruct (String.prefix "w_dep=" opt) eqn:E2; [injection H as <- <-; exists "w_dep="%string; split; [set_solver|]; split; [done|by apply prefix_split]|].
  by destruct (String.prefix "read_dep=" opt), (String.prefix "write_dep=" opt).
Qed.

Lemma classify_other opt :
  classify opt = Other_option <-> forall p, p ∈ refused_prefixes ++ map fst buffer_prefixes ++ map fst dependency_prefixes -> String.prefix p opt = false.
Proof.
  split.
  - unfold classify, starts_with. intros H p Hp. destruct (String.prefix p opt) eqn:E; [|done]. exfalso. revert H. cbn in Hp.
    repeat (apply elem_of_cons in Hp as [->|Hp]; [rewrite E, ?orb_true_l, ?orb_true_r;
      repeat match goal with |- context [if ?b then _ else _] => destruct b end; intros H; discriminate H|]). by apply not_elem_of_nil in Hp.
  - intros H. unfold classify, starts_with. rewrite !H; [done|set_solver..].
Qed.

Lemma says_other opt f : classify opt = Other_option -> says f opt Nothing.
Proof. intros H. apply says_nothing. by apply classify_other. Qed.

Lemma classify_of_buffer pre kind param : (pre, kind) ∈ buffer_prefixes -> classify (pre ++ param) = Buffer_option kind (String.length pre) /\ drop_front (String.length pre) (pre ++ param) = param.
Proof. intros H. repeat (apply elem_of_cons in H as [[= -> ->]|H]; [by destruct param|]). by apply not_elem_of_nil in H. Qed.

Lemma classify_of_dependency pre mode param : (pre, mode) ∈ dependency_prefixes -> classify (pre ++ param) = Dependency_option mode (String.length pre) /\ drop_front (String.length pre) (pre ++ param) = param.
Proof. intros H. repeat (apply elem_of_cons in H as [[= -> ->]|H]; [by destruct param|]). by apply not_elem_of_nil in H. Qed.

Lemma nth_param (P : ty -> Prop) f i : ~ P OtherTy -> P (nth i (fn_params f) OtherTy) -> exists t, fn_params f !! i = Some t /\ nth i (fn_params f) OtherTy = t /\ P t.
Proof.
  intros Hno Hp. rewrite nth_lookup in *. destruct (fn_params f !! i) as [t|] eqn:E; cbn in *; [by exists t|by destruct Hno].
Qed.

Lemma nth_of_param f i t : fn_params f !! i = Some t -> nth i (fn_params f) OtherTy = t.
Proof. rewrite nth_lookup. by intros ->. Qed.

Lemma agrees_iff old word : negb (old =? DEP_NONE) && negb (old =? word) = false <-> old = DEP_NONE \/ old = word.
Proof. destruct (Z.eqb_spec old DEP_NONE), (Z.eqb_spec old word); cbn; naive_solver. Qed.

Lemma parse_option_says f opt st st' :
  parse_option f opt st = Parsed st' -> exists m, says f opt m /\ agrees m st /\ st' = apply m st.
Proof.
  unfold parse_option. destruct (classify opt) as [|e|kind len|mode len] eqn:Ec.
  - intros [= <-]. exists Nothing. split; [by apply says_other|done].
  - done.
  - apply classify_buffer in Ec as (pre & Hpre & _ & Eopt). destruct (find_param _ _) as [i|e] eqn:Ei; [|done]. cbn [mbind parsed_bind].
    apply find_param_iff in Ei. destruct (is_pointer _) eqn:Ep; [|done]. intros [= <-].
    destruct (nth_param (fun t => is_pointer t = true) f i ltac:(done) Ep) as (t & Ht & _ & Hp). destruct t; try done.
    exists (Buffer i kind). split; [|done]. rewrite Eopt. by apply says_buffer.
  - apply classify_dependency in Ec as (pre & Hpre & _ & Eopt). set (value := drop_front len opt) in *.
    destruct (find_char ":" value) as [colon|] eqn:Ef; [|done]. destruct (is_empty (drop_front (S colon) value)) eqn:Ee; [done|].
    apply find_char_split in Ef as [Hl Ev]. destruct (find_param _ _) as [i|e] eqn:Ei; [|done]. cbn [mbind parsed_bind]. apply find_param_iff in Ei.
    destruct (match nth i (fn_params f) OtherTy with PointerTy => true | IntegerTy bits => bits <=? 64 | _ => false end) eqn:El; [|done].
    cbn [negb]. apply lockable_iff in El. destruct (nth_param lockable f i ltac:(by intros []) El) as (t & Ht & -> & Hlk).
    destruct (negb _ && negb _) eqn:Ea; [done|]. intros [= <-]. apply agrees_iff in Ea.
    exists (Dependency i (dependency_word mode t value)). split; [|done]. rewrite Eopt, Ev.
    apply (says_dependency f pre mode _ _ i t); [done|done| |done|done|done]. intros E. by rewrite E in Ee.
Qed.

Lemma parse_option_of f opt st m : says f opt m -> agrees m st -> parse_option f opt st = Parsed (apply m st).
Proof.
  intros Hs Ha. unfold parse_option. destruct Hs as [opt Ho|pre kind param i Hpre Hn Ht|pre mode param ns i t Hpre Hl Hns Hn Ht Hlk].
  - by rewrite (proj2 (classify_other opt) Ho).
  - destruct (classify_of_buffer pre kind param Hpre) as [-> ->]. rewrite (proj2 (find_param_iff f param i) Hn). cbn [mbind parsed_bind].
    by rewrite (nth_of_param _ _ _ Ht).
  - destruct (classify_of_dependency pre mode (param ++ String ":" ns) Hpre) as [-> ->].
    destruct (find_char_join ":" param ns Hl) as (-> & -> & ->). destruct (is_empty ns) eqn:Ee; [by apply is_empty_iff in Ee|].
    rewrite (proj2 (find_param_iff f param i) Hn). cbn [mbind parsed_bind]. rewrite (nth_of_param _ _ _ Ht), (proj2 (lockable_iff t) Hlk). cbn [negb].
    by rewrite (proj2 (agrees_iff _ _) Ha).
Qed.

(** ** All the options of a function *)

Definition count_buffers (ms : list meaning) : Z := Z.of_nat (length (List.filter (fun m => match m with Buffer _ _ => true | _ => false end) ms)).

(** The kind the last option that names the [i]-th parameter gives it. *)
Definition kind_of (ms : list meaning) (i : nat) (k : Z) : Z :=
  fold_left (fun k m => match m with Buffer j kind => if decide (j = i) then kind else k | _ => k end) ms k.

(** One dependency for each parameter. *)
Definition compatible (ms : list meaning) : Prop := forall i w w', Dependency i w ∈ ms -> Dependency i w' ∈ ms -> w = w'.

(** What the options that mean [ms] leave. *)
Record describes (f : func) (ms : list meaning) (st : kinds_st) : Prop := {
  ds_length : length (ks_kinds st) = arg_size f /\ length (ks_deps st) = arg_size f;
  ds_noped : ks_noped st = u32 (count_buffers ms);
  ds_kind : forall i t c, fn_params f !! i = Some t -> constParams f !! i = Some c -> ks_kinds st !! i = Some (kind_of ms i (default_kind t c));
  ds_dep : forall i w, Dependency i w ∈ ms -> ks_deps st !! i = Some w;
  ds_no_dep : forall i, (i < arg_size f)%nat -> (forall w, Dependency i w ∉ ms) -> ks_deps st !! i = Some DEP_NONE;
}.

Lemma parse_options_iff f opts : forall st st',
  parse_options f opts st = Parsed st' <->
  exists ms, Forall2 (says f) opts ms /\ st' = fold_left (fun st m => apply m st) ms st /\
    forall pre m post, ms = pre ++ m :: post -> agrees m (fold_left (fun st m => apply m st) pre st).
Proof.
  induction opts as [|opt opts IH]; intros st st'; cbn [parse_options].
  - split.
    + intros [= <-]. exists []. split; [constructor|]. split; [done|]. by intros [|x pre] m post.
    + intros (ms & Hms & -> & _). by apply Forall2_nil_inv_l in Hms as ->.
  - split.
    + destruct (parse_option f opt st) as [st1|] eqn:E; [|done]. cbn [mbind parsed_bind]. intros (ms & Hms & -> & Hag)%IH.
      destruct (parse_option_says _ _ _ _ E) as (m & Hm & Ha & ->). exists (m :: ms). split; [by constructor|]. split; [done|].
      intros [|x pre] m' post; [by intros [= <- <-]|]. intros [= <- Ems]. by apply (Hag pre m' post).
    + intros (ms & Hms & -> & Hag). apply Forall2_cons_inv_l in Hms as (m & ms' & Hm & Hms & ->).
      rewrite (parse_option_of f opt st m Hm (Hag [] m ms' eq_refl)). cbn [mbind parsed_bind]. apply IH. exists ms'. split; [done|]. split; [done|].
      intros pre m' post ->. by apply (Hag (m :: pre) m' post).
Qed.

Definition apply_all (ms : list meaning) (st : kinds_st) : kinds_st := fold_left (fun st m => apply m st) ms st.

(** The last dependency the options give the [i]-th parameter. *)
Definition dep_of (ms : list meaning) (i : nat) (w : Z) : Z :=
  fold_left (fun w m => match m with Dependency j word => if decide (j = i) then word else w | _ => w end) ms w.

Lemma lookup_set (l : list Z) (i j : nat) (k x : Z) : l !! i = Some k -> <[j := x]> l !! i = Some (if decide (j = i) then x else k).
Proof.
  intros H. destruct (decide (j = i)) as [->|Hne]; [|by rewrite list_lookup_insert_ne]. rewrite list_lookup_insert_eq; [done|by eapply lookup_lt_Some].
Qed.

Lemma kinds_apply_all ms : forall st i k, ks_kinds st !! i = Some k -> ks_kinds (apply_all ms st) !! i = Some (kind_of ms i k).
Proof.
  unfold apply_all, kind_of. induction ms as [|m ms IH]; intros st i k H; [done|]. cbn [fold_left]. apply IH. destruct m as [|j kind|j word]; [done| |done].
  by apply lookup_set.
Qed.

Lemma deps_apply_all ms : forall st i w, ks_deps st !! i = Some w -> ks_deps (apply_all ms st) !! i = Some (dep_of ms i w).
Proof.
  unfold apply_all, dep_of. induction ms as [|m ms IH]; intros st i w H; [done|]. cbn [fold_left]. apply IH. destruct m as [|j kind|j word]; [done|done|].
  by apply lookup_set.
Qed.

Lemma length_apply_all ms : forall st, length (ks_kinds (apply_all ms st)) = length (ks_kinds st) /\ length (ks_deps (apply_all ms st)) = length (ks_deps st).
Proof.
  unfold apply_all. induction ms as [|m ms IH]; intros st; [done|]. cbn [fold_left]. destruct (IH (apply m st)) as [-> ->].
  destruct m; cbn [apply ks_kinds ks_deps]; by rewrite ?length_insert.
Qed.

Lemma noped_apply_all ms : forall st x, ks_noped st = u32 x -> ks_noped (apply_all ms st) = u32 (x + count_buffers ms).
Proof.
  unfold apply_all, count_buffers. induction ms as [|m ms IH]; intros st x H; [by rewrite Z.add_0_r|]. cbn [fold_left List.filter].
  destruct m as [|j kind|j word]; [by apply IH| |by apply IH]. rewrite (IH _ (x + 1)).
  - f_equal. cbn [length]. lia.
  - cbn [apply ks_noped]. rewrite H. unfold u32. by rewrite Zplus_mod_idemp_l.
Qed.

Lemma dep_of_cases ms i : forall w, (dep_of ms i w = w /\ forall x, Dependency i x ∉ ms) \/ Dependency i (dep_of ms i w) ∈ ms.
Proof.
  unfold dep_of. induction ms as [|m ms IH]; intros w; cbn [fold_left]; [left; split; [done|intros x; apply not_elem_of_nil]|].
  destruct m as [|j kind|j word].
  1, 2: destruct (IH w) as [[E Hno]|Hin]; [left; split; [done|]; intros x [[=]|Hx]%elem_of_cons; by apply (Hno x)|right; by right].
  destruct (decide (j = i)) as [->|Hne].
  - destruct (IH word) as [[E Hno]|Hin]; [right; rewrite E; left|right; by right].
  - destruct (IH w) as [[E Hno]|Hin]; [left; split; [done|]; intros x [[= -> ->]|Hx]%elem_of_cons; [done|by apply (Hno x)]|right; by right].
Qed.

(** The words of dependencies are never 0. *)
Definition words_ok (n : nat) (ms : list meaning) : Prop := forall i w, Dependency i w ∈ ms -> w <> DEP_NONE /\ (i < n)%nat.

Lemma dep_of_in ms i w n : words_ok n ms -> Dependency i w ∈ ms -> dep_of ms i DEP_NONE <> DEP_NONE /\ Dependency i (dep_of ms i DEP_NONE) ∈ ms.
Proof. intros Hok Hin. destruct (dep_of_cases ms i DEP_NONE) as [[_ Hno]|H]; [by destruct (Hno w)|]. split; [by apply (Hok i)|done]. Qed.

Lemma agrees_compatible n st ms :
  words_ok n ms -> (forall i, (i < n)%nat -> ks_deps st !! i = Some DEP_NONE) ->
  (forall pre m post, ms = pre ++ m :: post -> agrees m (apply_all pre st)) <-> compatible ms.
Proof.
  intros Hok Hst.
  assert (Hag : forall pre i w, Dependency i w ∈ ms -> agrees (Dependency i w) (apply_all pre st) <-> dep_of pre i DEP_NONE = DEP_NONE \/ dep_of pre i DEP_NONE = w).
  { intros pre i w Hin. cbn [agrees]. rewrite nth_lookup, (deps_apply_all pre st i DEP_NONE); [done|]. apply Hst. by apply (Hok i w). }
  split.
  - intros H. assert (Hpre : forall pre post, ms = pre ++ post -> compatible pre).
    { induction pre as [|m pre IH] using rev_ind; intros post Ems; [by intros i w w' ?%not_elem_of_nil|].
      rewrite <- app_assoc in Ems. cbn in Ems. pose proof (IH _ Ems) as Hc. specialize (H pre m post Ems).
      assert (Hsub : words_ok n pre) by (intros i w Hin; apply (Hok i w); rewrite Ems; apply elem_of_app; by left).
      assert (Hnew : forall i w w', Dependency i w ∈ pre -> m = Dependency i w' -> w = w').
      { intros i w w' Hin ->. apply Hag in H; [|rewrite Ems; apply elem_of_app; right; left]. destruct (dep_of_in pre i w n Hsub Hin) as [Hnz Hd].
        destruct H as [H|H]; [done|]. rewrite <- H. by apply (Hc i). }
      intros i w w' Hw Hw'. apply elem_of_app in Hw as [Hw|Hw], Hw' as [Hw'|Hw'].
      - by apply (Hc i).
      - apply list_elem_of_singleton in Hw'. by apply (Hnew i w w').
      - apply list_elem_of_singleton in Hw. symmetry. by apply (Hnew i w' w).
      - apply list_elem_of_singleton in Hw as <-. apply list_elem_of_singleton in Hw' as [= ->]. done. }
    apply (Hpre ms []). by rewrite app_nil_r.
  - intros Hc pre m post Ems. destruct m as [| |i w]; [done|done|]. assert (Hin : Dependency i w ∈ ms) by (rewrite Ems; apply elem_of_app; right; left).
    apply Hag; [done|]. destruct (dep_of_cases pre i DEP_NONE) as [[H _]|H]; [by left|right]. apply (Hc i); [|done].
    rewrite Ems. apply elem_of_app. by left.
Qed.

(** ** The words of dependencies *)

Lemma hash_range name : 1 <= hashNamespace name <= DEP_NAMESPACE_MASK.
Proof.
  unfold hashNamespace. set (h := fold_left _ _ _). change DEP_NAMESPACE_MASK with (Z.ones 24). rewrite Z.land_ones by lia.
  pose proof (Z.mod_pos_bound h (2 ^ 24) ltac:(lia)). change (Z.ones 24) with (2 ^ 24 - 1). destruct (Z.eqb_spec (h mod 2 ^ 24) 0); lia.
Qed.

Lemma lor_shift8 a h : 0 <= a < 256 -> 0 <= h -> Z.lor a (Z.shiftl h 8) = a + 256 * h.
Proof.
  intros Ha Hh. rewrite Z.shiftl_mul_pow2 by lia. rewrite <- Z.add_nocarry_lor; [change (2 ^ 8) with 256; lia|].
  apply Z.bits_inj'. intros n Hn. rewrite Z.land_spec, Z.bits_0. destruct (Z.lt_ge_cases n 8).
  - rewrite (Z.mul_pow2_bits_low h) by lia. apply andb_false_r.
  - rewrite (Z.bits_above_log2 a n); [done|lia|]. destruct (Z.eq_dec a 0) as [->|]; [cbn; lia|]. apply Z.log2_lt_pow2; [lia|].
    assert (2 ^ 8 <= 2 ^ n) by (apply Z.pow_le_mono_r; lia). change (2 ^ 8) with 256 in *. lia.
Qed.

(** A word the pass writes is the encoding of a dependency with a namespace
    that is not 0. *)
Lemma dependency_word_encodes mode t value :
  mode = DEP_READ \/ mode = DEP_WRITE ->
  dependency_word mode t value = dep_encode (Dep (mode =? DEP_WRITE) (is_pointer t) (hashNamespace value)).
Proof.
  intros Hm. pose proof (hash_range value) as Hh. unfold dependency_word, DEP_NAMESPACE_SHIFT, DEP_NAMESPACE_MASK in *.
  rewrite Z.shiftl_mul_pow2 by lia. unfold u32. rewrite Z.mod_small by lia. rewrite <- Z.shiftl_mul_pow2 by lia.
  set (a := Z.lor mode (if is_pointer t then DEP_POINTER else 0)).
  assert (Ha : 0 <= a < 256 /\ a = (if mode =? DEP_WRITE then 2 else 1) + (if is_pointer t then 4 else 0))
    by (unfold a; destruct Hm as [-> | ->], (is_pointer t); vm_compute; intuition discriminate).
  rewrite lor_shift8 by lia. unfold dep_encode. change (2 ^ Meta.FILC_ASYNC_DEP_NAMESPACE_SHIFT) with 256.
  destruct Ha as [_ ->]. by destruct (mode =? DEP_WRITE), (is_pointer t).
Qed.

Lemma dependency_mode pre mode : (pre, mode) ∈ dependency_prefixes -> mode = DEP_READ \/ mode = DEP_WRITE.
Proof. intros H. repeat (apply elem_of_cons in H as [[= -> ->]|H]; [by auto|]). by apply not_elem_of_nil in H. Qed.

(** Every dependency the options mean. *)
Lemma says_dep_word f opt i w :
  says f opt (Dependency i w) ->
  exists write t ns, fn_params f !! i = Some t /\ 1 <= ns <= DEP_NAMESPACE_MASK /\ w = dep_encode (Dep write (is_pointer t) ns).
Proof.
  intros H. inversion H as [| |pre mode param ns j t Hpre Hl Hns Hn Ht Hlk]; subst. eexists (mode =? DEP_WRITE), t, _. split; [done|].
  split; [|apply dependency_word_encodes; by eapply dependency_mode]. apply hash_range.
Qed.

Lemma dep_encode_pos write pointer ns : 1 <= ns -> 0 < dep_encode (Dep write pointer ns).
Proof. intros H. unfold dep_encode. change (2 ^ Meta.FILC_ASYNC_DEP_NAMESPACE_SHIFT) with 256. destruct write, pointer; vm_compute (Z.add _ 0); unfold Locks.FILC_ASYNC_DEP_WRITE, Locks.FILC_ASYNC_DEP_READ, Locks.FILC_ASYNC_DEP_POINTER; lia. Qed.

Lemma says_words f opts ms : Forall2 (says f) opts ms -> words_ok (arg_size f) ms.
Proof.
  intros Hms i w Hin. apply list_elem_of_lookup in Hin as (k & Hk). destruct (Forall2_lookup_r (says f) opts ms k _ Hms Hk) as (opt & _ & Hs).
  destruct (says_dep_word _ _ _ _ Hs) as (write & t & ns & Ht & Hns & ->). split; [|by eapply lookup_lt_Some].
  unfold DEP_NONE. pose proof (dep_encode_pos write (is_pointer t) ns (proj1 Hns)). lia.
Qed.

Definition first_kinds (f : func) : kinds_st :=
  mk_kinds (zip_with default_kind (fn_params f) (constParams f)) (replicate (arg_size f) DEP_NONE) 0.

Lemma length_constParams f : length (constParams f) = arg_size f.
Proof. apply length_resize. Qed.

Lemma first_deps f i : (i < arg_size f)%nat -> ks_deps (first_kinds f) !! i = Some DEP_NONE.
Proof. intros H. by apply lookup_replicate. Qed.

Lemma apply_all_describes f ms : words_ok (arg_size f) ms -> compatible ms -> describes f ms (apply_all ms (first_kinds f)).
Proof.
  intros Hok Hc. split.
  - destruct (length_apply_all ms (first_kinds f)) as [-> ->]. cbn [ks_kinds ks_deps first_kinds]. rewrite length_replicate, length_zip_with, length_constParams.
    unfold arg_size. split; [lia|done].
  - by apply (noped_apply_all ms (first_kinds f) 0).
  - intros i t c Ht Hco. apply kinds_apply_all. cbn [ks_kinds first_kinds]. by rewrite lookup_zip_with, Ht, Hco.
  - intros i w Hin. destruct (dep_of_in ms i w _ Hok Hin) as [_ Hd]. rewrite (deps_apply_all ms _ i DEP_NONE); [by rewrite (Hc i _ w Hd Hin)|].
    apply first_deps. by apply (Hok i w).
  - intros i Hi Hno. rewrite (deps_apply_all ms _ i DEP_NONE (first_deps f i Hi)). destruct (dep_of_cases ms i DEP_NONE) as [[-> _]|H]; [done|by destruct (Hno _ H)].
Qed.

Lemma parse_kinds_ms f opts st :
  parseKinds f opts = Parsed st -> exists ms, Forall2 (says f) opts ms /\ compatible ms /\ st = apply_all ms (first_kinds f).
Proof.
  intros (ms & Hms & -> & Hag)%parse_options_iff. exists ms. split; [done|]. split; [|done].
  apply (agrees_compatible (arg_size f) (first_kinds f)); [by eapply says_words|by apply first_deps|done].
Qed.

(** C28: what the compiler pass makes of a function's options.  It accepts
    them exactly when each one is of a known form, names a parameter of the
    right type, and no parameter is given two different dependencies.  Then a
    parameter's kind is that of the last buffer option that names it, or its
    type's default; its dependency is the one the options give it, or none; and
    the buffer options are counted, in 32 bits, repeated ones included. *)
Theorem parse_kinds_exact (f : func) (opts : list string) :
  (forall st, parseKinds f opts = Parsed st -> exists ms, Forall2 (says f) opts ms /\ compatible ms /\ describes f ms st) /\
  (forall ms, Forall2 (says f) opts ms -> compatible ms -> exists st, parseKinds f opts = Parsed st).
Proof.
  split.
  - intros st (ms & Hms & Hc & ->)%parse_kinds_ms. exists ms. split; [done|]. split; [done|]. apply apply_all_describes; [by eapply says_words|done].
  - intros ms Hms Hc. eexists. apply parse_options_iff. exists ms. split; [done|]. split; [done|].
    apply (agrees_compatible (arg_size f) (first_kinds f)); [by eapply says_words|by apply first_deps|done].
Qed.

(** ** Refusals *)

(** Why an option is refused, after options that mean [ms]. *)
Inductive fault (f : func) (ms : list meaning) (opt : string) : option_error -> Prop :=
  | fault_fd : String.prefix "fd=" opt = true -> fault f ms opt Fd_option
  | fault_obsolete : String.prefix "read_dep=" opt = true \/ String.prefix "write_dep=" opt = true -> fault f ms opt Obsolete_dependency
  | fault_namespace pre mode value :
      (pre, mode) ∈ dependency_prefixes -> opt = (pre ++ value)%string -> lacks ":" value -> fault f ms opt No_namespace
  | fault_empty pre mode param :
      (pre, mode) ∈ dependency_prefixes -> opt = (pre ++ param ++ ":")%string -> lacks ":" param -> fault f ms opt Empty_namespace
  | fault_buffer_param pre kind param :
      (pre, kind) ∈ buffer_prefixes -> opt = (pre ++ param)%string -> (forall i, ~ names_param f param i) -> fault f ms opt No_parameter
  | fault_dependency_param pre mode param ns :
      (pre, mode) ∈ dependency_prefixes -> opt = (pre ++ param ++ String ":" ns)%string -> lacks ":" param -> (forall i, ~ names_param f param i) ->
      fault f ms opt No_parameter
  | fault_type pre mode param ns i :
      (pre, mode) ∈ dependency_prefixes -> opt = (pre ++ param ++ String ":" ns)%string -> lacks ":" param -> names_param f param i ->
      (forall t, fn_params f !! i = Some t -> ~ lockable t) -> fault f ms opt Dependency_type
  | fault_conflict i w w' :
      says f opt (Dependency i w) -> Dependency i w' ∈ ms -> w <> w' -> fault f ms opt Conflicting_dependencies
  | fault_pointer pre kind param i :
      (pre, kind) ∈ buffer_prefixes -> opt = (pre ++ param)%string -> names_param f param i -> fn_params f !! i <> Some PointerTy ->
      fault f ms opt Not_a_pointer.

Lemma find_param_none f p e : find_param (paramNames f) p = Rejected e -> e = No_parameter /\ forall i, ~ names_param f p i.
Proof.
  intros E. split; [|intros i Hi%find_param_iff; congruence]. unfold find_param in E. destruct (is_empty p); [by injection E|].
  destruct (list_find _ _) as [[? ?]|]; [done|by injection E].
Qed.

Lemma classify_refused opt e :
  classify opt = Refused_option e ->
  (e = Fd_option /\ String.prefix "fd=" opt = true) \/
  (e = Obsolete_dependency /\ (String.prefix "read_dep=" opt = true \/ String.prefix "write_dep=" opt = true)).
Proof.
  unfold classify, starts_with. intros H. destruct (String.prefix "fd=" opt); [injection H as <-; by left|].
  destruct (String.prefix "bin=" opt); [done|]. destruct (String.prefix "bout=" opt); [done|]. destruct (String.prefix "buf=" opt); [done|].
  destruct (String.prefix "r_dep=" opt); [done|]. destruct (String.prefix "w_dep=" opt); [done|].
  destruct (String.prefix "read_dep=" opt); [injection H as <-; right; split; [done|by left]|].
  destruct (String.prefix "write_dep=" opt); [injection H as <-; right; split; [done|by right]|done].
Qed.

Lemma parse_option_fault f opt ms e :
  words_ok (arg_size f) ms -> parse_option f opt (apply_all ms (first_kinds f)) = Rejected e -> fault f ms opt e.
Proof.
  intros Hok. unfold parse_option. destruct (classify opt) as [|e'|kind len|mode len] eqn:Ec; [done| | |].
  - intros [= <-]. apply classify_refused in Ec as [[-> H]|[-> H]]; [by apply fault_fd|by apply fault_obsolete].
  - apply classify_buffer in Ec as (pre & Hpre & _ & Eopt). destruct (find_param _ _) as [i|e'] eqn:Ei; cbn [mbind parsed_bind].
    + apply find_param_iff in Ei. destruct (is_pointer _) eqn:Ep; [done|]. intros [= <-]. apply (fault_pointer f ms opt pre kind _ i Hpre Eopt Ei).
      intros Ht. by rewrite (nth_of_param _ _ _ Ht) in Ep.
    + intros [= <-]. apply find_param_none in Ei as [-> Hno]. by apply (fault_buffer_param f ms opt pre kind (drop_front len opt)).
  - apply classify_dependency in Ec as (pre & Hpre & _ & Eopt). set (value := drop_front len opt) in *.
    destruct (find_char ":" value) as [colon|] eqn:Ef; [|intros [= <-]; by apply (fault_namespace f ms opt pre mode value)].
    apply find_char_split in Ef as [Hl Ev]. set (param := take_front colon value) in *. set (ns := drop_front (S colon) value) in *.
    rewrite Ev in Eopt. destruct (is_empty ns) eqn:Ee.
    { intros [= <-]. apply is_empty_iff in Ee. rewrite Ee in Eopt. by apply (fault_empty f ms opt pre mode param). }
    destruct (find_param _ _) as [i|e'] eqn:Ei; cbn [mbind parsed_bind].
    2: { intros [= <-]. apply find_param_none in Ei as [-> Hno]. by apply (fault_dependency_param f ms opt pre mode param ns). }
    apply find_param_iff in Ei.
    destruct (match nth i (fn_params f) OtherTy with PointerTy => true | IntegerTy bits => bits <=? 64 | _ => false end) eqn:El; cbn [negb].
    2: { intros [= <-]. apply (fault_type f ms opt pre mode param ns i); [done..|]. intros t Ht Hlk%lockable_iff.
         rewrite (nth_of_param _ _ _ Ht) in El. congruence. }
    apply lockable_iff in El. destruct (nth_param lockable f i ltac:(by intros []) El) as (t & Ht & Enth & Hlk). rewrite Enth in *.
    destruct (negb _ && negb _) eqn:Ea; [|done]. intros [= <-].
    assert (Hi : (i < arg_size f)%nat) by (by eapply lookup_lt_Some).
    rewrite nth_lookup, (deps_apply_all ms _ i DEP_NONE (first_deps f i Hi)) in Ea. cbn [default from_option id] in Ea.
    apply andb_prop in Ea as [Hz%negb_true_iff%Z.eqb_neq Hne%negb_true_iff%Z.eqb_neq].
    destruct (dep_of_cases ms i DEP_NONE) as [[E _]|Hin]; [done|].
    apply (fault_conflict f ms opt i (dependency_word mode t value) (dep_of ms i DEP_NONE)); [|done|congruence].
    rewrite Eopt, Ev. apply says_dependency; [done|done| |done|done|done]. intros E. by rewrite E in Ee.
Qed.

Lemma parse_options_rejected f opts : forall st e,
  parse_options f opts st = Rejected e -> exists pre opt post st1, opts = pre ++ opt :: post /\ parse_options f pre st = Parsed st1 /\ parse_option f opt st1 = Rejected e.
Proof.
  induction opts as [|opt opts IH]; intros st e; cbn [parse_options]; [done|]. destruct (parse_option f opt st) as [st1|e'] eqn:E; cbn [mbind parsed_bind].
  - intros (pre & o & post & st2 & -> & Hp & Ho)%IH. exists (opt :: pre), o, post, st2. split; [done|]. split; [|done]. cbn [parse_options]. by rewrite E.
  - intros [= <-]. by exists [], opt, opts, st.
Qed.

(** C29: why the compiler pass refuses a function.  The diagnostic is about
    the first option that cannot be accepted, the options before it being fine,
    and is the one that option deserves: an option of a form no longer
    supported, a dependency without a namespace, a name that is no parameter, a
    parameter of the wrong type, or a second dependency that contradicts an
    earlier one. *)
Theorem parse_rejects (f : func) (opts : list string) (e : option_error) :
  parseKinds f opts = Rejected e ->
  exists pre opt post ms, opts = pre ++ opt :: post /\ Forall2 (says f) pre ms /\ compatible ms /\ fault f ms opt e.
Proof.
  intros (pre & opt & post & st & -> & Hp & Ho)%parse_options_rejected. apply parse_kinds_ms in Hp as (ms & Hms & Hc & ->).
  exists pre, opt, post, ms. split; [done|]. split; [done|]. split; [done|]. apply parse_option_fault; [by eapply says_words|done].
Qed.

(** ** Runtimes *)

Lemma parse_runtime_spec opts : forall name,
  (name = EmptyString \/ identifier name = true) ->
  match parse_runtime opts name with
  | Parsed n => identifier n = true /\ (name = EmptyString \/ name = n) /\
      (forall opt, opt ∈ opts -> String.prefix "runtime=" opt = true -> opt = ("runtime=" ++ n)%string) /\
      (name = EmptyString -> ("runtime=" ++ n)%string ∈ opts)
  | Rejected _ => True
  end.
Proof.
  induction opts as [|opt opts IH]; intros name Hname; cbn [parse_runtime].
  - destruct (is_empty name) eqn:E; [done|]. cbn. destruct Hname as [->|Hid]; [done|]. split; [done|]. split; [by right|].
    split; [by intros ? ?%not_elem_of_nil|]. intros ->. done.
  - unfold starts_with. destruct (String.prefix "runtime=" opt) eqn:Ep; cbn [negb].
    + set (n := drop_front 8 opt). pose proof (prefix_split _ _ Ep) as Eo. change (drop_front (String.length "runtime=") opt) with n in Eo.
      destruct (identifier n) eqn:Eid; [|done]. cbn [negb]. destruct (negb (is_empty name) && negb (String.eqb name n)) eqn:Et; [done|].
      specialize (IH n ltac:(by right)). destruct (parse_runtime opts n) as [r|]; [|done]. destruct IH as (Hid & Hr & Hall & _).
      assert (n = r) as <- by (destruct Hr as [Hr|]; [|done]; by rewrite Hr in Eid). split; [done|]. split; [|split].
      * destruct name as [|c name']; [by left|right]. cbn [is_empty negb andb] in Et. destruct (String.eqb_spec (String c name') n) as [E|E]; [exact E|discriminate Et].
      * intros o [->|Ho]%elem_of_cons Hp; [done|by apply Hall].
      * intros _. rewrite Eo. left.
    + specialize (IH name Hname). destruct (parse_runtime opts name) as [r|]; [|done]. destruct IH as (Hid & Hr & Hall & Hin).
      split; [done|]. split; [done|]. split; [|intros E; right; by apply Hin]. intros o [->|Ho]%elem_of_cons Hp; [congruence|by apply Hall].
Qed.

(** ** The table *)

Section Table.
Context (symbol : string -> ptr).

(** What is emitted for a function and its options. *)
Definition emits (functions : string -> func) (w : string * list string) (em : emitted) : Prop :=
  let f := functions w.1 in
  em_name em = w.1 /\ em_body em = renameBody f w.1 /\
  exists st n, parseKinds f w.2 = Parsed st /\ parseRuntime w.2 = Parsed n /\ em_kinds em = ks_kinds st /\ em_deps em = ks_deps st /\
    em_meta em = mk_meta w.1 (Z.of_nat (arg_size f)) (ks_noped st) 0 (if is_pointer (fn_ret f) then RESULT_PTR else RESULT_WORD)
      (symbol ("filc_async_runtime_" ++ n)) (zip_with mk_meta_arg (ks_kinds st) (ks_deps st)) (Some w.2).

Lemma emit_all_emits functions work : forall gs ems gs', emit_all symbol functions work gs = Parsed (ems, gs') -> Forall2 (emits functions) work ems.
Proof.
  induction work as [|[name opts] work IH]; intros gs ems gs'; cbn [emit_all]; [intros [= <- _]; constructor|].
  destruct (parseKinds (functions name) opts) as [st|] eqn:Ek; [|done]. cbn [mbind parsed_bind]. destruct (emit_opts gs opts) as [elems gs1].
  unfold emitMeta. destruct (parseRuntime opts) as [n|] eqn:Er; [|done]. cbn [mbind parsed_bind mret parsed_ret].
  destruct (emit_all symbol functions work _) as [[ems1 gs2]|] eqn:E; [|done]. cbn [mbind parsed_bind mret parsed_ret]. intros [= <- <-].
  constructor; [|by eapply IH]. split; [done|]. split; [done|]. exists st, n. by split_and!.
Qed.

Lemma dep_words_ok f opts st : parseKinds f opts = Parsed st -> Forall (fun w => dependency_ok w = true) (ks_deps st).
Proof.
  intros (ms & Hms & Hc & ->)%parse_kinds_ms. pose proof (says_words _ _ _ Hms) as Hok. apply Forall_lookup. intros i w Hw.
  pose proof (apply_all_describes f ms Hok Hc) as [[_ Hl] _ _ Hd Hno]. pose proof (lookup_lt_Some _ _ _ Hw) as Hi. rewrite Hl in Hi.
  destruct (dep_of_cases ms i DEP_NONE) as [[_ Hn]|Hin].
  - rewrite (Hno i Hi Hn) in Hw. by injection Hw as <-.
  - rewrite (Hd i _ Hin) in Hw. injection Hw as Ew. rewrite Ew in Hin. apply list_elem_of_lookup in Hin as (k & Hk).
    destruct (Forall2_lookup_r (says f) opts ms k _ Hms Hk) as (opt & _ & Hs). destruct (says_dep_word _ _ _ _ Hs) as (write & t & ns & _ & Hns & ->).
    apply dep_encode_ok. unfold dep_wf. change Meta.FILC_ASYNC_DEP_NAMESPACE_MASK with DEP_NAMESPACE_MASK. lia.
Qed.

(** A descriptor the pass emits passes the startup check of the framework
    unless it counts more buffer options than parameters. *)
Lemma emits_registrable functions w em validator runtime_validate :
  (forall s, symbol s <> NULL) -> emits functions w em ->
  meta_wf (em_meta em) /\
  (registrable validator runtime_validate (em_meta em) <->
    me_noped_args (em_meta em) <= me_nargs (em_meta em) /\
    match validator with Some v => v (em_meta em) | None => runtime_validate (me_runtime (em_meta em)) (em_meta em) end = true).
Proof.
  intros Hsym (_ & _ & st & n & Hk & _ & _ & _ & Em). pose proof (dep_words_ok _ _ _ Hk) as Hd.
  destruct (parse_kinds_ms _ _ _ Hk) as (ms & Hms & Hc & Est).
  pose proof (apply_all_describes _ ms (says_words _ _ _ Hms) Hc) as [[L1 L2] _ _ _ _]. rewrite <- Est in L1, L2. split.
  - unfold meta_wf. rewrite Em. cbn [me_args me_nargs]. rewrite length_zip_with, L1, L2. lia.
  - unfold registrable. assert (Hr : me_runtime (em_meta em) <> NULL) by (rewrite Em; apply Hsym).
    assert (Ha : Forall (fun a => dependency_ok (ma_dependency a) = true) (me_args (em_meta em))).
    { rewrite Em. cbn [me_args]. apply Forall_lookup. intros i a Hi. rewrite lookup_zip_with in Hi.
      destruct (ks_kinds st !! i), (ks_deps st !! i) as [x|] eqn:E; cbn in Hi; try done. injection Hi as <-. cbn. rewrite Forall_lookup in Hd. by eapply Hd. }
    tauto.
Qed.

(** C19: the table the pass emits.  It has one descriptor for each annotated
    function, with the options of its last annotation, in the order of the
    functions' names; and the startup check of the framework accepts it exactly
    when no function has more buffer options than parameters and the validator
    accepts each descriptor: every dependency word the pass writes passes, and
    every descriptor names a runtime. *)
Theorem pass_table_registers (functions : string -> func) (gs gs' : list global) (es : option (list entry)) (ems : list emitted)
  (validator : option (meta -> bool)) (runtime_validate : ptr -> meta -> bool) :
  (forall s, symbol s <> NULL) -> run symbol functions gs es = Parsed (Some (ems, gs')) ->
  (exists annotated work, enrollAnnotatedFunctions gs es = Parsed annotated /\ work ≡ₚ map_to_list annotated /\ Sorted by_name work /\
    Forall2 (emits functions) work ems) /\
  (emitMetaTableAndCtor validator runtime_validate ems = Ret tt <->
    Forall (fun em => me_noped_args (em_meta em) <= me_nargs (em_meta em) /\
      match validator with Some v => v (em_meta em) | None => runtime_validate (me_runtime (em_meta em)) (em_meta em) end = true) ems).
Proof.
  intros Hsym. unfold run. destruct (enrollAnnotatedFunctions gs es) as [annotated|] eqn:Een; [|done]. cbn [mbind parsed_bind].
  case_bool_decide as Hne; [done|]. destruct (emit_all _ _ _ _) as [[ems1 gs1]|] eqn:E; [|done]. cbn [mbind parsed_bind mret parsed_ret]. intros [= <- <-].
  pose proof (emit_all_emits _ _ _ _ _ E) as Hem. split.
  - exists annotated, (merge_sort by_name (map_to_list annotated)). split; [done|]. split; [apply merge_sort_Permutation|]. split; [|exact Hem]. apply (Sorted_merge_sort by_name).
  - unfold emitMetaTableAndCtor. assert (Hall : forall em, em ∈ ems1 -> exists w, emits functions w em).
    { intros em Hin. apply list_elem_of_lookup in Hin as (k & Hk). destruct (Forall2_lookup_r _ _ _ _ _ Hem Hk) as (w & _ & Hw). by exists w. }
    rewrite (proj1 (validate_table_spec validator runtime_validate (map em_meta ems1) ltac:(
      apply Forall_map, Forall_forall; intros em (w & Hw)%Hall; by destruct (emits_registrable functions w em validator runtime_validate Hsym Hw)))).
    rewrite Forall_map, !Forall_forall. split; intros H em Hin; destruct (Hall em Hin) as (w & Hw);
      destruct (emits_registrable functions w em validator runtime_validate Hsym Hw) as [_ Hr]; apply Hr, H, Hin.
Qed.
End Table.

(** ** The options array *)

(** The C string at the start of an array, if it is terminated. *)
Fixpoint c_read (b : string) : option string :=
  match b with
  | EmptyString => None
  | String c b => if Ascii.eqb c Ascii.zero then Some EmptyString else String c <$> c_read b
  end.

(** A runtime's walk over the options, up to the NULL. *)
Fixpoint read_opts (gs : list global) (elems : list (option nat)) : option (list string) :=
  match elems with
  | [] => None
  | None :: _ => Some []
  | Some i :: elems => b ← gs !! i ≫= gv_bytes; s ← c_read b; rest ← read_opts gs elems; Some (s :: rest)
  end.

Lemma drop_nul_cases b : drop_nul b = b \/ b = add_nul (drop_nul b).
Proof.
  induction b as [|c b IH]; [by left|]. unfold add_nul in *. destruct b as [|x b]; cbn [drop_nul].
  - destruct (Ascii.eqb_spec c Ascii.zero) as [->|]; [by right|by left].
  - rewrite append_cons. destruct IH as [E|E]; [left|right]; f_equal; exact E.
Qed.

Lemma drop_nul_add s : drop_nul (add_nul s) = s.
Proof.
  unfold add_nul. induction s as [|c s IH]; [done|]. rewrite append_cons. destruct s as [|x s]; [done|]. rewrite append_cons in *. cbn [drop_nul] in *.
  f_equal. exact IH.
Qed.

Lemma c_read_terminated s : lacks Ascii.zero s -> c_read (add_nul s) = Some s.
Proof.
  unfold add_nul, lacks. induction s as [|c s IH]; [done|]. rewrite append_cons. cbn [c_read find_char].
  destruct (Ascii.eqb c Ascii.zero); [done|]. intros H%fmap_None%IH. by rewrite H.
Qed.

Lemma find_string_some s gs : forall i j, find_string i gs s = Some j ->
  exists k b, j = (i + k)%nat /\ gs !! k = Some (mk_global true (Some b)) /\ drop_nul b = s.
Proof.
  induction gs as [|[con [b|]] gs IH]; intros i j; cbn [find_string gv_bytes gv_constant]; [done| |].
  - destruct (con && String.eqb (drop_nul b) s) eqn:E.
    + apply andb_prop in E as [-> E%String.eqb_eq]. intros [= <-]. exists 0%nat, b. split; [lia|done].
    + intros (k & b' & -> & Hk & Hb)%IH. exists (S k), b'. split; [lia|done].
  - intros (k & b' & -> & Hk & Hb)%IH. exists (S k), b'. split; [lia|done].
Qed.

(** The global found or made: constant, and it reads as written; what was
    there stays. *)
Lemma find_or_create s gs i gs' :
  findOrCreateStringGlobal gs s = (i, gs') ->
  (exists new, gs' = gs ++ new /\ forall g, g ∈ new -> g = mk_global true (Some (add_nul s))) /\
  exists b, gs' !! i = Some (mk_global true (Some b)) /\ drop_nul b = s.
Proof.
  unfold findOrCreateStringGlobal. destruct (find_string 0 gs s) as [j|] eqn:E; intros [= <- <-].
  - apply find_string_some in E as (k & b & -> & Hk & Hb). split; [|by exists b]. exists []. rewrite app_nil_r. split; [done|]. by intros g ?%not_elem_of_nil.
  - split; [eexists; split; [done|]; by intros g ->%list_elem_of_singleton|]. exists (add_nul s). split; [|apply drop_nul_add].
    by rewrite lookup_app_r, Nat.sub_diag by done.
Qed.

(** No constant array of the module holds one of the options without a NUL. *)
Definition terminated (opts : list string) (gs : list global) : Prop := forall s, s ∈ opts -> mk_global true (Some s) ∉ gs.

Lemma add_nul_not s s' : lacks Ascii.zero s' -> add_nul s <> s'.
Proof.
  unfold add_nul, lacks. revert s'. induction s as [|c s IH]; intros s' H E; subst s'.
  - done.
  - rewrite append_cons in H. cbn [find_char] in H. destruct (Ascii.eqb c Ascii.zero); [done|]. apply fmap_None in H. by apply (IH _ H).
Qed.

Lemma emit_opts_reads_at opts : forall gs elems gs',
  emit_opts gs opts = (elems, gs') -> Forall (lacks Ascii.zero) opts -> terminated opts gs ->
  (exists new, gs' = gs ++ new) /\ forall more, read_opts (gs' ++ more) elems = Some opts.
Proof.
  induction opts as [|s opts IH]; intros gs elems gs'; cbn [emit_opts]; [intros [= <- <-] _ _; split; [exists []; by rewrite app_nil_r|done]|].
  destruct (findOrCreateStringGlobal gs s) as [i gs1] eqn:E1. destruct (emit_opts gs1 opts) as [elems1 gs2] eqn:E2. intros [= <- <-].
  intros [Hs Hopts]%Forall_cons Ht. destruct (find_or_create s gs i gs1 E1) as ((new & -> & Hnew) & b & Hi & Hb).
  assert (Ht1 : terminated opts (gs ++ new)).
  { intros o Ho [Hin|Hin]%elem_of_app; [by apply (Ht o); [right|]|]. apply Hnew in Hin as [= Eo]. rewrite Forall_forall in Hopts. by apply (add_nul_not s o); [apply Hopts|]. }
  destruct (IH (gs ++ new) elems1 gs2 E2 Hopts Ht1) as [(new' & ->) Hread]. split; [exists (new ++ new'); by rewrite app_assoc|]. intros more. cbn [read_opts].
  rewrite <- app_assoc, (lookup_app_l_Some _ _ _ _ Hi). cbn [mbind option_bind gv_bytes]. rewrite app_assoc, Hread.
  assert (Hc : c_read b = Some s).
  { destruct (drop_nul_cases b) as [E|E]; [|rewrite E, Hb; by apply c_read_terminated]. exfalso. rewrite Hb in E. subst b.
    apply list_elem_of_lookup_2, elem_of_app in Hi as [Hi|Hi]; [by apply (Ht s); [left|]|]. apply Hnew in Hi as [= Eo]. by apply (add_nul_not s s). }
  by rewrite Hc.
Qed.

(** C32: the options array round trip.  The array the pass emits makes the
    runtime read exactly the options the annotation lists, in their order, and
    the globals of the module stay as they are; as long as no constant array of
    the module holds one of the options without a terminating NUL (such an
    array would be reused). *)
Theorem emit_opts_reads (gs gs' : list global) (opts : list string) (elems : list (option nat)) :
  Forall (lacks Ascii.zero) opts -> terminated opts gs -> emit_opts gs opts = (elems, gs') ->
  (exists new, gs' = gs ++ new) /\ read_opts gs' elems = Some opts.
Proof.
  intros Ho Ht E. destruct (emit_opts_reads_at opts gs elems gs' E Ho Ht) as [Hn Hr]. split; [done|]. specialize (Hr []). by rewrite app_nil_r in Hr.
Qed.

(** An array without room for its NUL, say [const char tag[8] = "op=pread"],
    is reused for the option it spells, and the runtime reads past its end. *)
Theorem unterminated_option_reused :
  let '(elems, gs') := emit_opts [mk_global true (Some "op=pread"%string)] ["op=pread"%string] in read_opts gs' elems = None.
Proof. reflexivity. Qed.

(** ** A concrete module *)

Definition reads_into : func := mk_func [IntegerTy 32; PointerTy; IntegerTy 64] (IntegerTy 64) ["fd"; "buf"; "n"]%string None None false false false.
Definition read_opts_text : list string := ["op=pread"; "runtime=io_uring"; "w_dep=fd:file"; "bout=buf"]%string.
Definition module_globals : list global := map (fun s => mk_global true (Some (add_nul s))) ("filc_async"%string :: read_opts_text).
Definition module_entries : list entry := [mk_entry true (Some 0%nat) (Some "reads"%string) (map Some (seq 1 4)); mk_entry true (Some 1%nat) None []].

Definition run_result : list emitted * list global :=
  match run (fun _ => 4096) (fun _ => reads_into) module_globals (Some module_entries) with Parsed (Some r) => r | _ => ([], []) end.

Lemma pass_table_registers_witness :
  length run_result.1 = 1%nat /\ emitMetaTableAndCtor None (fun _ _ => true) run_result.1 = Ret tt.
Proof.
  split; [vm_compute; reflexivity|].
  apply (pass_table_registers (fun _ => 4096) (fun _ => reads_into) module_globals run_result.2 (Some module_entries) run_result.1 None (fun _ _ => true)).
  - intros s. discriminate.
  - vm_compute. reflexivity.
  - vm_compute. repeat constructor. discriminate.
Defined.

Lemma emit_opts_reads_witness : read_opts (module_globals ++ [mk_global true (Some (add_nul "bin=x"))]) [Some 1%nat; Some 5%nat; None] = Some ["op=pread"; "bin=x"]%string.
Proof.
  apply (emit_opts_reads module_globals (module_globals ++ [mk_global true (Some (add_nul "bin=x"))]) ["op=pread"; "bin=x"]%string [Some 1%nat; Some 5%nat; None]).
  - repeat constructor.
  - intros s Hs Hin. apply list_elem_of_In in Hs, Hin. cbn in Hs, Hin. intuition (subst; discriminate).
  - vm_compute. reflexivity.
Defined.

(** Repeating a buffer option is counted twice, and the function refused at
    startup. *)
Theorem repeated_buffer_refused :
  let f := mk_func [PointerTy] VoidTy ["p"]%string None None false false false in
  let emitted opts := st ← parseKinds f opts; emitMeta (fun _ => 4096) f "f" opts st in
  (exists m, emitted ["runtime=io"; "bin=p"]%string = Parsed m /\ dependencies_ok m = Ret true) /\
  (exists m, emitted ["runtime=io"; "bin=p"; "bin=p"]%string = Parsed m /\ dependencies_ok m = Ret false).
Proof. split; eexists; (split; [vm_compute; reflexivity|reflexivity]). Qed.

Lemma parse_rejects_witness :
  exists pre opt post ms, ["w_dep=fd:file"; "r_dep=fd:file"; "fd=fd"]%string = pre ++ opt :: post /\ Forall2 (says reads_into) pre ms /\ compatible ms /\
    fault reads_into ms opt Conflicting_dependencies.
Proof. apply (parse_rejects reads_into ["w_dep=fd:file"; "r_dep=fd:file"; "fd=fd"]%string Conflicting_dependencies). vm_compute. reflexivity. Defined.
