(* ===== verification/Stub.v ===== *)
(** * Stub: the code the compiler pass puts around a call

    The second half of [compiler/pass/FilAsync.cpp]: the staging of a call's
    arguments ([stageArguments]), the thunk that takes them out again and runs
    the body ([emitRunThunk]), the calls of the framework a stub makes
    ([emitStub]), and which calls are redirected to it ([rewriteCallSites]).

    The model is of the emitted code, run on given arguments.  An integer is
    its unsigned value; a value of a type the stub does not pass on is opaque.
    The staging block is memory, by the address of each 8-byte word; a word
    holds a pointer with its capability, or a number ([fptr], as in the files
    Uring and UringMeta).  Argument [I]'s cell is the words [I*2] and
    [I*2 + 1]. *)

From S2P Require Import Prelude Locks Meta Text Pass.
Open Scope Z_scope.

Inductive value :=
  | VPtr (p : fptr)
  | VInt (bits n : Z)
  | VOther (x : Z).

Definition typed (v : value) (t : ty) : Prop :=
  match v, t with
  | VPtr _, PointerTy => True
  | VInt bits n, IntegerTy bits' => bits = bits' /\ 0 < bits /\ 0 <= n < 2 ^ bits
  | VOther _, (OtherTy | VoidTy) => True
  | _, _ => False
  end.

(** [Constant::getNullValue]. *)
Definition null_value (t : ty) : value :=
  match t with PointerTy => VPtr fnull | IntegerTy bits => VInt bits 0 | VoidTy | OtherTy => VOther 0 end.

(** ** Staging *)

(** Memory, by the address of each 8-byte word. *)
Abbreviation memory := (gmap ptr fptr).

(** [CreateGEP(Int64Ty, Staging, {i})] *)
Definition gep (staging : ptr) (i : Z) : ptr := staging + 8 * i.

(** A word with a number in it: it has no capability. *)
Definition number (n : Z) : fptr := mk_fptr n NULL NULL.

(** The stores of argument [I]: a pointer, or a word and a zero. *)
Definition stage_argument (staging : ptr) (I : Z) (v : value) (mem : memory) : memory :=
  let slot := gep staging (I * 2) in
  match v with
  | VPtr p => <[slot := p]> mem
  | _ =>
      let int_val := match v with VInt bits n => if bits <? 64 then n else if bits =? 64 then n else 0 | _ => 0 end in
      <[gep staging (I * 2 + 1) := number 0]> (<[slot := number int_val]> mem)
  end.

(** The loop, from argument [I] on. *)
Fixpoint stage_from (staging : ptr) (I : Z) (args : list value) (mem : memory) : memory :=
  match args with
  | [] => mem
  | v :: args => stage_from staging (I + 1) args (stage_argument staging I v mem)
  end.

Definition stageArguments (staging : ptr) (args : list value) (mem : memory) : memory := stage_from staging 0 args mem.

(** The load of argument [I] in the thunk. *)
Definition load_argument (staging : ptr) (I : Z) (t : ty) (mem : memory) : outcome value :=
  let slot := gep staging (I * 2) in
  match t with
  | PointerTy => p ← deref (mem !! slot); mret (VPtr p)
  | IntegerTy bits =>
      if bits <=? 64 then w ← deref (mem !! slot); mret (VInt bits (if bits <? 64 then f_addr w mod 2 ^ bits else f_addr w))
      else mret (null_value t)
  | _ => mret (null_value t)
  end.

(** The loop over the parameters, from [I] on. *)
Fixpoint load_from (staging : ptr) (I : Z) (params : list ty) (mem : memory) : outcome (list value) :=
  match params with
  | [] => mret []
  | t :: params => v ← load_argument staging I t mem; vs ← load_from staging (I + 1) params mem; mret (v :: vs)
  end.

(** What a runtime finds at the cells of a staging block: the low words. *)
Definition staged_cells (staging : ptr) (n : nat) (mem : memory) : list Z :=
  map (fun I => match mem !! gep staging (Z.of_nat I * 2) with Some w => f_addr w | None => 0 end) (seq 0 n).

(** The body's result as a word; it is sign-extended or truncated. *)
Definition result_word (t : ty) (v : value) : Z :=
  match t, v with
  | PointerTy, VPtr p => i64 (f_addr p)
  | IntegerTy bits, VInt _ n => if bits <? 64 then (n + 2 ^ (bits - 1)) mod 2 ^ bits - 2 ^ (bits - 1) else i64 n
  | _, _ => 0
  end.

(** The thunk; [body] is the function. *)
Definition run_thunk (f : func) (body : list value -> value) (staging : ptr) (mem : memory) : outcome Z :=
  args ← load_from staging 0 (fn_params f) mem; mret (result_word (fn_ret f) (body args)).

(** ** The stub *)

(** The calls of the framework, by their arguments other than the task, the
    descriptor, the staging area and the thunk. *)
Inductive stub_call :=
  | Alloc (size align : Z)
  | Begin
  | Lock_word (value space mode : Z)
  | Lock_ptr (p : fptr) (space mode : Z)
  | Mark_pending (p : fptr)
  | Mark_input (p : fptr)
  | Submit (nargs : Z).

Definition mode_of (dep : Z) : Z := Z.land dep (Z.lor DEP_READ DEP_WRITE).
Definition space_of (dep : Z) : Z := Z.land dep (u32 (Z.lnot (Z.lor DEP_READ DEP_WRITE))).

(** [CreateZExtOrTrunc] to 64 bits; a dependency of another type is refused
    by [parseKinds]. *)
Definition lock_value (v : value) : Z := match v with VInt _ n => u64 n | _ => 0 end.

Definition lock_call (dep : Z) (v : value) : list stub_call :=
  if mode_of dep =? 0 then []
  else [match v with VPtr p => Lock_ptr p (space_of dep) (mode_of dep) | _ => Lock_word (lock_value v) (space_of dep) (mode_of dep) end].

(** A buffer argument is a pointer ([parseKinds]). *)
Definition mark_call (kind : Z) (v : value) : list stub_call :=
  match v with VPtr p => if (kind =? ARG_BUFFER_OUT) || (kind =? ARG_PENDING) then [Mark_pending p] else [] | _ => [] end.

Definition input_call (kind : Z) (v : value) : list stub_call :=
  match v with VPtr p => if kind =? ARG_BUFFER_IN then [Mark_input p] else [] | _ => [] end.

(** What the stub of a function with these kinds and dependencies calls, in
    order, for the arguments [args]. *)
Definition emitStub (kinds deps : list Z) (args : list value) : list stub_call :=
  let nargs := Z.of_nat (length args) in
  [Alloc (nargs * 16) 16; Begin] ++
  concat (zip_with lock_call deps args) ++
  concat (zip_with mark_call kinds args) ++
  concat (zip_with input_call kinds args) ++
  [Submit nargs].

(** What the stub returns: the task, unless the function returns nothing. *)
Definition stub_returns_task (f : func) : bool := match fn_ret f with VoidTy => false | _ => true end.

(** A use of the function: whether it calls it, as a plain call instruction of
    the function's own type. *)
Record use := mk_use { us_call : bool; us_plain : bool; us_same_type : bool }.

(** The uses [rewriteCallSites] redirects to the stub. *)
Definition redirected (f : func) (u : use) : bool :=
  us_call u && us_plain u && us_same_type u && match fn_ret f with VoidTy | PointerTy => true | _ => false end.

(** Whether a stub is emitted at all. *)
Definition needs_stub (f : func) (uses : list use) : bool := existsb (redirected f) uses.

(** What a use refers to: an annotated function (by its original name), or
    the stub of one. *)
Inductive callee := Own (name : string) | Stub_of (name : string).
#[export] Instance callee_dec : EqDecision callee.
Proof. solve_decision. Defined.

Record site := mk_site { si_callee : callee; si_use : use }.

(** The uses of [name] in the module. *)
Definition users (name : string) (sites : list site) : list use :=
  map si_use (List.filter (fun s => bool_decide (si_callee s = Own name)) sites).

Definition retarget (functions : string -> func) (name : string) (s : site) : site :=
  if bool_decide (si_callee s = Own name) && redirected (functions name) (si_use s) then mk_site (Stub_of name) (si_use s) else s.

(** The call of the body in the thunk that comes with a stub. *)
Definition thunk_site (name : string) : site := mk_site (Own name) (mk_use true true true).

(** The loop over the annotated functions; [emitted]: those with a
    descriptor. *)
Fixpoint rewriteCallSites (functions : string -> func) (emitted : list string) (annotated : list string) (sites : list site) : outcome (list site) :=
  match annotated with
  | [] => mret sites
  | name :: annotated =>
      if negb (bool_decide (name ∈ emitted)) then Fatal "FilAsync: internal error: missing descriptor"
      else
        rewriteCallSites functions emitted annotated
          (if needs_stub (functions name) (users name sites) then map (retarget functions name) sites ++ [thunk_site name] else sites)
  end.

(** ** Staging is undone *)

Definition passed (t : ty) : Prop := match t with PointerTy => True | IntegerTy bits => bits <= 64 | _ => False end.

#[export] Instance passed_dec t : Decision (passed t).
Proof. destruct t; cbn; apply _. Defined.

(** What arrives of an argument. *)
Definition arrives (v : value) (t : ty) : value := if decide (passed t) then v else null_value t.

(** Only the words of the arguments from [I] on are written. *)
Lemma stage_argument_frame staging I v mem a : a < gep staging (I * 2) \/ gep staging (I * 2 + 2) <= a -> stage_argument staging I v mem !! a = mem !! a.
Proof. unfold stage_argument, gep. intros Ha. destruct v; rewrite !lookup_insert_ne by lia; done. Qed.

Lemma stage_from_frame staging args : forall I mem a,
  a < gep staging (I * 2) \/ gep staging ((I + Z.of_nat (length args)) * 2) <= a -> stage_from staging I args mem !! a = mem !! a.
Proof.
  unfold gep. induction args as [|v args IH]; intros I mem a Ha; cbn [stage_from length] in *; [done|].
  rewrite IH by lia. apply stage_argument_frame. unfold gep. lia.
Qed.

(** A cell that has just been written holds the argument. *)
Lemma load_stage staging I v t mem : typed v t -> load_argument staging I t (stage_argument staging I v mem) = Ret (arrives v t).
Proof.
  unfold arrives, load_argument, stage_argument, gep. cbv zeta. intros Hv. destruct v as [p|bits n|x], t as [|bits'| |]; cbn [passed]; try done.
  - by rewrite lookup_insert_eq.
  - destruct Hv as (<- & Hpos & Hn). destruct (Z.leb_spec bits 64) as [Hle|Hgt]; [|by rewrite decide_False by lia].
    rewrite lookup_insert_ne, lookup_insert_eq by lia. rewrite decide_True by done. cbn [deref mbind outcome_bind number f_addr]. destruct (Z.ltb_spec bits 64).
    + by rewrite Z.mod_small.
    + by rewrite (proj2 (Z.eqb_eq bits 64)) by lia.
Qed.

(** A load depends on its own cell only. *)
Lemma load_argument_same staging I t mem mem' : mem' !! gep staging (I * 2) = mem !! gep staging (I * 2) -> load_argument staging I t mem' = load_argument staging I t mem.
Proof. unfold load_argument. by intros ->. Qed.

Lemma load_from_stage staging args params : Forall2 typed args params -> forall I mem,
  load_from staging I params (stage_from staging I args mem) = Ret (zip_with arrives args params).
Proof.
  induction 1 as [|v t args ts Hv _ IH]; intros I mem; [done|]. cbn [stage_from load_from zip_with].
  rewrite (load_argument_same _ _ _ (stage_argument staging I v mem)) by (apply stage_from_frame; unfold gep; lia).
  rewrite load_stage by done. cbn [mbind outcome_bind]. by rewrite IH.
Qed.

(** C20: the staging round trip.  The stub's stores at the words [I*2] and
    [I*2 + 1] of a staging block and the thunk's loads at [I*2] agree: the
    body runs on the caller's pointers, with their capabilities, and on its
    integers of up to 64 bits; an integer wider than 64 bits, or a value of
    another type, arrives as the null value of its type.  Nothing outside the
    block's 16 bytes an argument is written. *)
Theorem staging_round_trip (f : func) (body : list value -> value) (args : list value) (staging : ptr) (mem : memory) :
  Forall2 typed args (fn_params f) ->
  run_thunk f body staging (stageArguments staging args mem) =
    Ret (result_word (fn_ret f) (body (zip_with (fun v t => if decide (passed t) then v else null_value t) args (fn_params f)))) /\
  forall a, a < staging \/ staging + 16 * Z.of_nat (length args) <= a -> stageArguments staging args mem !! a = mem !! a.
Proof.
  intros Ht. unfold run_thunk, stageArguments. split; [by rewrite (load_from_stage staging args (fn_params f) Ht)|].
  intros a Ha. apply stage_from_frame. unfold gep. lia.
Qed.

(** ** The calls of the stub *)

Lemma mode_of_mod dep : mode_of dep = dep mod 4.
Proof. unfold mode_of. change (Z.lor DEP_READ DEP_WRITE) with (Z.ones 2). by rewrite Z.land_ones. Qed.

Lemma space_of_rest dep : 0 <= dep < 2 ^ 32 -> space_of dep = dep - mode_of dep.
Proof.
  intros Hd. rewrite mode_of_mod. unfold space_of. change (u32 (Z.lnot _)) with (Z.shiftl (Z.ones 30) 2).
  replace (Z.land dep (Z.shiftl (Z.ones 30) 2)) with (Z.shiftl (Z.land (Z.shiftr dep 2) (Z.ones 30)) 2).
  - rewrite Z.land_ones, Z.shiftl_mul_pow2, Z.shiftr_div_pow2 by lia. change (2 ^ 2) with 4.
    pose proof (Z.div_mod dep 4 ltac:(lia)). rewrite Z.mod_small; [lia|]. split; [apply Z.div_pos; lia|apply Z.div_lt_upper_bound; lia].
  - apply Z.bits_inj'. intros n Hn. rewrite Z.land_spec. destruct (Z.lt_ge_cases n 2).
    + rewrite !Z.shiftl_spec_low by done. by rewrite andb_false_r.
    + rewrite !Z.shiftl_spec_high by lia. rewrite Z.land_spec, Z.shiftr_spec by lia. by replace (n - 2 + 2) with n by lia.
Qed.

(** The mode and space of an encoded dependency. *)
Lemma encoded_parts write pointer ns :
  1 <= ns <= DEP_NAMESPACE_MASK ->
  mode_of (dep_encode (Dep write pointer ns)) = (if write then DEP_WRITE else DEP_READ) /\
  space_of (dep_encode (Dep write pointer ns)) = (if pointer then DEP_POINTER else 0) + 256 * ns.
Proof.
  intros Hns. assert (Hwf : dep_wf (Dep write pointer ns)) by (cbn; unfold DEP_NAMESPACE_MASK, Meta.FILC_ASYNC_DEP_NAMESPACE_MASK in *; lia).
  destruct (dep_encode_ok _ Hwf) as [Hr _]. rewrite space_of_rest by done. rewrite mode_of_mod. unfold dep_encode in *.
  change (2 ^ Meta.FILC_ASYNC_DEP_NAMESPACE_SHIFT) with 256 in *. unfold Locks.FILC_ASYNC_DEP_WRITE, Locks.FILC_ASYNC_DEP_READ, Locks.FILC_ASYNC_DEP_POINTER.
  set (low := (if write then 2 else 1) + (if pointer then 4 else 0)). replace (low + 256 * ns) with (low + (64 * ns) * 4) by lia. rewrite Z.mod_add by lia.
  assert (Hm : low mod 4 = if write then 2 else 1) by (by destruct write, pointer). rewrite Hm. unfold low, DEP_WRITE, DEP_READ, DEP_POINTER.
  destruct write, pointer; split; lia.
Qed.

(** The kind of a parameter: pointers are buffers, other parameters are not. *)
Lemma parsed_kinds f opts st i t k :
  parseKinds f opts = Parsed st -> fn_params f !! i = Some t -> ks_kinds st !! i = Some k ->
  if is_pointer t then k = ARG_BUFFER_IN \/ k = ARG_BUFFER_OUT \/ k = ARG_PENDING else k = ARG_IGNORED.
Proof.
  intros (ms & Hms & Hc & ->)%parse_kinds_ms Ht Hk. pose proof (apply_all_describes f ms (says_words _ _ _ Hms) Hc) as [_ _ Hd _ _].
  destruct (lookup_lt_is_Some_2 (constParams f) i) as [c Hco]; [rewrite length_constParams; by eapply lookup_lt_Some|].
  rewrite (Hd i t c Ht Hco) in Hk. injection Hk as <-. clear Hd Hc. unfold kind_of.
  assert (Hdef : if is_pointer t then default_kind t c = ARG_BUFFER_IN \/ default_kind t c = ARG_BUFFER_OUT \/ default_kind t c = ARG_PENDING else default_kind t c = ARG_IGNORED)
    by (unfold default_kind; destruct (is_pointer t), c; auto).
  revert Hdef. generalize (default_kind t c). induction Hms as [|opt m opts ms Hs _ IH]; intros k Hk; [done|]. cbn [fold_left]. apply IH.
  destruct m as [|j kind|j w]; [done| |done]. case_decide as Ej; [subst j|done].
  inversion Hs as [|pre kind' param i' Hpre _ Hp|]; subst. rewrite Ht in Hp. injection Hp as ->. cbn.
  repeat (apply elem_of_cons in Hpre as [[= _ ->]|Hpre]; [by auto|]). by apply not_elem_of_nil in Hpre.
Qed.

(** The pointers among the arguments. *)
Definition pointers (args : list value) : list fptr := omap (fun v => match v with VPtr p => Some p | _ => None end) args.

(** The pointers whose parameter has one of the kinds. *)
Fixpoint of_kind (wanted : Z -> bool) (kinds : list Z) (args : list value) : list fptr :=
  match kinds, args with
  | k :: kinds, VPtr p :: args => if wanted k then p :: of_kind wanted kinds args else of_kind wanted kinds args
  | _ :: kinds, _ :: args => of_kind wanted kinds args
  | _, _ => []
  end.

Definition is_output (k : Z) : bool := (k =? ARG_BUFFER_OUT) || (k =? ARG_PENDING).
Definition is_input (k : Z) : bool := k =? ARG_BUFFER_IN.

Lemma mark_calls kinds : forall args, concat (zip_with mark_call kinds args) = map Mark_pending (of_kind is_output kinds args).
Proof.
  induction kinds as [|k kinds IH]; intros [|v args]; [done|done|done|]. cbn [zip_with concat of_kind]. rewrite IH. destruct v as [p|b n|x]; [|done|done].
  cbn [mark_call]. unfold is_output. by destruct (_ || _).
Qed.

Lemma input_calls kinds : forall args, concat (zip_with input_call kinds args) = map Mark_input (of_kind is_input kinds args).
Proof.
  induction kinds as [|k kinds IH]; intros [|v args]; [done|done|done|]. cbn [zip_with concat of_kind]. rewrite IH. destruct v as [p|b n|x]; [|done|done].
  cbn [input_call]. unfold is_input. by destruct (_ =? _).
Qed.

(** Each pointer is an output or an input, never both. *)
Lemma pointers_split kinds : forall args,
  length kinds = length args -> (forall i p k, args !! i = Some (VPtr p) -> kinds !! i = Some k -> is_output k = negb (is_input k)) ->
  of_kind is_output kinds args ++ of_kind is_input kinds args ≡ₚ pointers args.
Proof.
  induction kinds as [|k kinds IH]; intros [|v args] Hl Hk; try done. injection Hl as Hl.
  assert (Hrest : of_kind is_output kinds args ++ of_kind is_input kinds args ≡ₚ pointers args)
    by (apply IH; [done|]; intros i p k' Hi Hki; exact (Hk (S i) p k' Hi Hki)).
  destruct v as [p|b n|x]; [|done|done]. cbn [of_kind]. change (pointers (VPtr p :: args)) with (p :: pointers args).
  rewrite (Hk 0%nat p k eq_refl eq_refl). destruct (is_input k); cbn [negb]; [rewrite <- Permutation_middle|cbn]; by rewrite Hrest.
Qed.

(** The lock call of an argument, if its parameter has a dependency. *)
Inductive locks_argument (w : Z) (v : value) : list stub_call -> Prop :=
  | locks_nothing : w = DEP_NONE -> locks_argument w v []
  | locks_pointer write ns p : v = VPtr p -> w = dep_encode (Dep write true ns) -> 1 <= ns <= DEP_NAMESPACE_MASK ->
      locks_argument w v [Lock_ptr p (DEP_POINTER + 256 * ns) (if write then DEP_WRITE else DEP_READ)]
  | locks_word write ns bits n : v = VInt bits n -> bits <= 64 -> w = dep_encode (Dep write false ns) -> 1 <= ns <= DEP_NAMESPACE_MASK ->
      locks_argument w v [Lock_word n (256 * ns) (if write then DEP_WRITE else DEP_READ)].

Lemma lock_call_locks f opts st i t v w :
  parseKinds f opts = Parsed st -> fn_params f !! i = Some t -> typed v t -> ks_deps st !! i = Some w -> locks_argument w v (lock_call w v).
Proof.
  intros (ms & Hms & Hc & ->)%parse_kinds_ms Ht Hv Hw. pose proof (apply_all_describes f ms (says_words _ _ _ Hms) Hc) as [[_ Hl] _ _ Hd Hno].
  pose proof (lookup_lt_Some _ _ _ Ht) as Hi. destruct (dep_of_cases ms i DEP_NONE) as [[_ Hn]|Hin].
  - rewrite (Hno i Hi Hn) in Hw. injection Hw as <-. by apply locks_nothing.
  - rewrite (Hd i _ Hin) in Hw. injection Hw as Ew. rewrite Ew in Hin. apply list_elem_of_lookup in Hin as (k & Hk).
    destruct (Forall2_lookup_r (says f) opts ms k _ Hms Hk) as (opt & _ & Hs).
    destruct (says_dep_word _ _ _ _ Hs) as (write & t' & ns & Ht' & Hns & Ewe). rewrite Ht in Ht'. injection Ht' as <-.
    assert (Hlk : lockable t) by (inversion Hs as [| |pre mode param ns' j t' Hpre Hl' Hns' Hn Ht' Hlk]; subst; rewrite Ht in Ht'; by injection Ht' as <-).
    destruct (encoded_parts write (is_pointer t) ns Hns) as [Em Es]. rewrite <- Ewe in Em, Es. unfold lock_call. rewrite Em, Es.
    replace ((if write then DEP_WRITE else DEP_READ) =? 0) with false by (by destruct write).
    destruct v as [p|bits n|x], t as [|bits'| |]; try done; cbn [is_pointer] in *.
    + by apply (locks_pointer w (VPtr p) write ns p).
    + destruct Hv as (<- & Hpos & Hn). cbn in Hlk. cbn [lock_value]. rewrite Z.add_0_l, u64_small.
      * by apply (locks_word w (VInt bits n) write ns bits n).
      * assert (2 ^ bits <= 2 ^ 64) by (apply Z.pow_le_mono_r; lia). lia.
Qed.

(** C17: what the stub of a call does.  For arguments of the function's types
    it allocates a cell for each, starts the task, and then, in this order:
    takes the lock of each argument whose parameter has a dependency, in a
    space that is never 0, by the object for a pointer and by the number
    otherwise; marks the objects it may write, then those it reads, every
    pointer argument exactly once; and submits the call. *)
Theorem stub_calls_exact (f : func) (opts : list string) (st : kinds_st) (args : list value) :
  parseKinds f opts = Parsed st -> Forall2 typed args (fn_params f) ->
  exists locks outputs inputs,
    emitStub (ks_kinds st) (ks_deps st) args =
      [Alloc (Z.of_nat (length args) * 16) 16; Begin] ++ concat locks ++ map Mark_pending outputs ++ map Mark_input inputs ++ [Submit (Z.of_nat (length args))] /\
    length locks = length args /\
    (forall i v w calls, args !! i = Some v -> ks_deps st !! i = Some w -> locks !! i = Some calls -> locks_argument w v calls) /\
    outputs = of_kind is_output (ks_kinds st) args /\ inputs = of_kind is_input (ks_kinds st) args /\
    outputs ++ inputs ≡ₚ pointers args.
Proof.
  intros Hp Ht. pose proof (Forall2_length _ _ _ Ht) as Hlen. destruct (parse_kinds_ms _ _ _ Hp) as (ms & Hms & Hc & Est).
  pose proof (apply_all_describes _ ms (says_words _ _ _ Hms) Hc) as [[L1 L2] _ _ _ _]. rewrite <- Est in L1, L2. unfold arg_size in L1, L2.
  exists (zip_with lock_call (ks_deps st) args), (of_kind is_output (ks_kinds st) args), (of_kind is_input (ks_kinds st) args).
  split; [unfold emitStub; by rewrite mark_calls, input_calls|]. split; [rewrite length_zip_with; lia|]. split; [|split; [done|split; [done|]]].
  - intros i v w calls Hv Hw Hcalls. rewrite lookup_zip_with, Hv, Hw in Hcalls. injection Hcalls as <-.
    destruct (Forall2_lookup_l typed args (fn_params f) i v Ht Hv) as (t & Hti & Htv). by eapply lock_call_locks.
  - apply pointers_split; [lia|]. intros i p k Hv Hk. destruct (Forall2_lookup_l typed args (fn_params f) i _ Ht Hv) as (t & Hti & Htv).
    destruct t; try done. pose proof (parsed_kinds f opts st i PointerTy k Hp Hti Hk) as Hkind. cbn in Hkind. by destruct Hkind as [->|[->| ->]].
Qed.

(** ** Which calls are redirected *)

(** All of them at once. *)
Definition retarget_all (functions : string -> func) (annotated : list string) (s : site) : site :=
  match si_callee s with
  | Own name => if bool_decide (name ∈ annotated) then retarget functions name s else s
  | Stub_of _ => s
  end.

Lemma retarget_idle functions name sites : needs_stub (functions name) (users name sites) = false -> map (retarget functions name) sites = sites.
Proof.
  intros Hn. transitivity (map id sites); [|apply map_id]. apply map_ext_in. intros s Hs. unfold retarget.
  destruct (bool_decide (si_callee s = Own name)) eqn:E; [|done]. cbn [andb]. destruct (redirected (functions name) (si_use s)) eqn:Er; [|done].
  assert (Ht : needs_stub (functions name) (users name sites) = true); [|congruence].
  apply existsb_exists. exists (si_use s). split; [|done]. apply in_map, filter_In. by split.
Qed.

Lemma users_app name l1 l2 : users name (l1 ++ l2) = users name l1 ++ users name l2.
Proof. unfold users. by rewrite List.filter_app, map_app. Qed.

Lemma users_retarget functions name other sites : name <> other -> users name (map (retarget functions other) sites) = users name sites.
Proof.
  intros Hne. unfold users, retarget. induction sites as [|[c u] sites IH]; [done|]. cbn [map List.filter si_callee si_use].
  destruct (decide (c = Own other)) as [->|Hc].
  - rewrite (bool_decide_true (Own other = Own other)) by done. cbn [andb]. rewrite (bool_decide_false (Own other = Own name)) by congruence.
    destruct (redirected (functions other) u); cbn [si_callee]; rewrite bool_decide_false by congruence; exact IH.
  - rewrite (bool_decide_false (c = Own other)) by done. cbn [andb si_callee]. destruct (bool_decide (c = Own name)); cbn [map]; [by f_equal|done].
Qed.

Lemma retarget_all_cons functions name annotated s : name ∉ annotated ->
  retarget_all functions annotated (retarget functions name s) = retarget_all functions (name :: annotated) s.
Proof.
  intros Hn. unfold retarget_all. destruct s as [[f|f] u]; unfold retarget; cbn [si_callee si_use]; [|by rewrite bool_decide_false].
  destruct (decide (f = name)) as [->|Hne].
  - rewrite !(bool_decide_true (Own name = Own name)), (bool_decide_true (name ∈ name :: annotated)) by (done || set_solver). cbn [andb].
    destruct (redirected (functions name) u); [done|]. cbn [si_callee]. by rewrite bool_decide_false.
  - rewrite (bool_decide_false (Own f = Own name)) by congruence. cbn [andb si_callee]. rewrite (bool_decide_ext (f ∈ name :: annotated) (f ∈ annotated)) by set_solver.
    by destruct (bool_decide (f ∈ annotated)).
Qed.

Lemma retarget_thunk functions name annotated : name ∉ annotated -> retarget_all functions annotated (thunk_site name) = thunk_site name.
Proof. intros Hn. unfold retarget_all. cbn [thunk_site si_callee]. by rewrite bool_decide_false. Qed.

(** The result in closed form. *)
Lemma rewriteCallSites_all (functions : string -> func) (emitted annotated : list string) (sites : list site) :
  NoDup annotated -> annotated ⊆ emitted ->
  rewriteCallSites functions emitted annotated sites =
    Ret (map (retarget_all functions annotated) sites ++
         map thunk_site (List.filter (fun name => needs_stub (functions name) (users name sites)) annotated)).
Proof.
  revert sites. induction annotated as [|name annotated IH]; intros sites Hnd Hsub; cbn [rewriteCallSites].
  - cbn. rewrite app_nil_r. f_equal. transitivity (map id sites); [by rewrite map_id|]. apply map_ext. intros [[f|f] u]; [|done].
    unfold retarget_all. cbn. by rewrite bool_decide_false by set_solver.
  - apply NoDup_cons in Hnd as [Hn Hnd]. rewrite bool_decide_true by set_solver. cbn [negb].
    assert (Hfilter : forall sites', (forall f, f ∈ annotated -> users f sites' = users f sites) ->
      List.filter (fun f => needs_stub (functions f) (users f sites')) annotated = List.filter (fun f => needs_stub (functions f) (users f sites)) annotated).
    { intros sites' Hu. apply filter_ext_in. intros f Hf%list_elem_of_In. by rewrite Hu. }
    cbn [List.filter]. destruct (needs_stub (functions name) (users name sites)) eqn:En.
    + rewrite IH by (done || set_solver). f_equal. rewrite map_app, map_map, <- app_assoc. f_equal.
      * apply map_ext. intros s. by apply retarget_all_cons.
      * cbn [map app]. rewrite retarget_thunk by done. f_equal. f_equal. apply Hfilter. intros f Hf.
        rewrite users_app, users_retarget by (intros ->; done). unfold users at 2. cbn. rewrite bool_decide_false by (intros [= ->]; done). apply app_nil_r.
    + rewrite IH by (done || set_solver). f_equal. f_equal. rewrite <- (retarget_idle functions name sites En) at 1. rewrite map_map. apply map_ext.
      intros s. by apply retarget_all_cons.
Qed.

(** The uses that can go to the stub of [f]: it is what the instruction calls,
    the instruction is a plain call of [f]'s own type, and it expects nothing
    or a pointer, as the stub returns the task. *)
Record takes_stub (f : func) (u : use) : Prop := {
  ts_call : us_call u = true;
  ts_plain : us_plain u = true;
  ts_type : us_same_type u = true;
  ts_result : fn_ret f = VoidTy \/ fn_ret f = PointerTy;
}.

Lemma redirected_takes_stub f u : redirected f u = true <-> takes_stub f u.
Proof.
  unfold redirected. rewrite !andb_true_iff. split.
  - intros [[[? ?] ?] Hr]. split; try done. destruct (fn_ret f); try done; auto.
  - intros [? ? ? [Hr|Hr]]; by rewrite Hr.
Qed.

(** What becomes of a use of the module. *)
Inductive rewritten (functions : string -> func) (annotated : list string) : site -> site -> Prop :=
  | to_stub name u : name ∈ annotated -> takes_stub (functions name) u -> rewritten functions annotated (mk_site (Own name) u) (mk_site (Stub_of name) u)
  | stays s : (forall name, si_callee s = Own name -> name ∈ annotated -> ~ takes_stub (functions name) (si_use s)) -> rewritten functions annotated s s.

Lemma retarget_all_rewritten functions annotated s : rewritten functions annotated s (retarget_all functions annotated s).
Proof.
  destruct s as [[name|name] u]; unfold retarget_all; cbn [si_callee]; [|apply stays; by intros ? [=]].
  case_bool_decide as Hin; [|apply stays; by intros ? [= ->]]. unfold retarget. cbn [si_callee si_use]. rewrite bool_decide_true by done. cbn [andb].
  destruct (redirected (functions name) u) eqn:E; [apply to_stub; [done|by apply redirected_takes_stub]|].
  apply stays. intros ? [= <-] _ Ht%redirected_takes_stub. cbn in Ht. congruence.
Qed.

Lemma needs_stub_iff f name sites : needs_stub f (users name sites) = true <-> exists u, mk_site (Own name) u ∈ sites /\ takes_stub f u.
Proof.
  unfold needs_stub, users. rewrite existsb_exists. setoid_rewrite in_map_iff. setoid_rewrite filter_In. setoid_rewrite redirected_takes_stub. split.
  - intros (u & ([c u'] & <- & Hin & Hc%bool_decide_eq_true) & Ht). cbn in *. subst c. exists u'. by rewrite list_elem_of_In.
  - intros (u & Hin & Ht). exists u. split; [|done]. exists (mk_site (Own name) u). rewrite <- list_elem_of_In. split; [done|]. split; [done|]. by apply bool_decide_eq_true.
Qed.

(** C31: redirecting the calls.  When every annotated function has a
    descriptor the pass returns, and of the uses it started from exactly the
    plain calls of an annotated function, through its own type, that expect
    nothing or a pointer go to the function's stub; every other use stays.
    And it adds, once for each annotated function with such a call, the call
    of the body in its thunk, which stays a call of the body. *)
Theorem call_sites_rewritten (functions : string -> func) (emitted annotated : list string) (sites : list site) :
  NoDup annotated -> annotated ⊆ emitted ->
  exists sites' stubs, rewriteCallSites functions emitted annotated sites = Ret (sites' ++ map thunk_site stubs) /\
    Forall2 (rewritten functions annotated) sites sites' /\ NoDup stubs /\
    forall name, name ∈ stubs <-> name ∈ annotated /\ exists u, mk_site (Own name) u ∈ sites /\ takes_stub (functions name) u.
Proof.
  intros Hnd Hsub. rewrite (rewriteCallSites_all functions emitted annotated sites Hnd Hsub). eexists _, _. split; [done|]. split; [|split].
  - apply Forall2_fmap_r, Forall_Forall2_diag, Forall_true. intros s. apply retarget_all_rewritten.
  - apply NoDup_ListNoDup, List.NoDup_filter. by apply NoDup_ListNoDup.
  - intros name. rewrite list_elem_of_In, filter_In, <- list_elem_of_In. by rewrite needs_stub_iff.
Qed.

(** ** A concrete stub *)

Definition read_st : kinds_st :=
  match parseKinds reads_into read_opts_text with Parsed st => st | _ => mk_kinds [] [] 0 end.
Definition read_args : list value := [VInt 32 5; VPtr (mk_fptr 4096 4096 4160); VInt 64 64].

Lemma read_args_typed : Forall2 typed read_args (fn_params reads_into).
Proof. repeat constructor; vm_compute; congruence. Qed.

Lemma staging_round_trip_witness :
  run_thunk reads_into (fun args => match args with [VInt _ fd; VPtr p; VInt _ n] => VInt 64 (fd + f_upper p + n) | _ => VInt 64 0 end) 65536
    (stageArguments 65536 read_args ∅) = Ret 4229.
Proof. rewrite (proj1 (staging_round_trip reads_into _ read_args 65536 ∅ read_args_typed)). vm_compute. reflexivity. Defined.

Lemma stub_calls_exact_witness :
  emitStub (ks_kinds read_st) (ks_deps read_st) read_args =
    [Alloc 48 16; Begin; Lock_word 5 (256 * hashNamespace "fd:file") 2; Mark_pending (mk_fptr 4096 4096 4160); Submit 3] /\
  exists locks outputs inputs,
    emitStub (ks_kinds read_st) (ks_deps read_st) read_args =
      [Alloc 48 16; Begin] ++ concat locks ++ map Mark_pending outputs ++ map Mark_input inputs ++ [Submit 3] /\ outputs ++ inputs ≡ₚ pointers read_args.
Proof.
  split; [vm_compute; reflexivity|]. destruct (stub_calls_exact reads_into read_opts_text read_st read_args) as (l & o & i & H1 & _ & _ & _ & _ & H2).
  - vm_compute. reflexivity.
  - exact read_args_typed.
  - exists l, o, i. split; [exact H1|exact H2].
Defined.

Definition returns_task : func := mk_func (fn_params reads_into) PointerTy ["fd"; "buf"; "n"]%string None None false false false.
Definition returns_int : func := mk_func (fn_params reads_into) (IntegerTy 64) ["fd"; "buf"; "n"]%string None None false false false.

(** A plain call of [read]; its address taken; an invoke of it; a call through
    another type; a plain call of [size], which returns an integer; and a call
    of a function that is not annotated. *)
Definition some_uses : list site :=
  [mk_site (Own "read") (mk_use true true true); mk_site (Own "read") (mk_use false false false); mk_site (Own "read") (mk_use true false true);
   mk_site (Own "read") (mk_use true true false); mk_site (Own "size") (mk_use true true true); mk_site (Own "other") (mk_use true true true)].
Definition some_functions (name : string) : func := if bool_decide (name = "size"%string) then returns_int else returns_task.

Lemma call_sites_rewritten_witness :
  exists sites' stubs, rewriteCallSites some_functions ["read"; "size"]%string ["read"; "size"]%string some_uses = Ret (sites' ++ map thunk_site stubs) /\
    Forall2 (rewritten some_functions ["read"; "size"]%string) some_uses sites' /\
    sites' ++ map thunk_site stubs = mk_site (Stub_of "read") (mk_use true true true) :: tail some_uses ++ [thunk_site "read"].
Proof.
  destruct (call_sites_rewritten some_functions ["read"; "size"]%string ["read"; "size"]%string some_uses) as (sites' & stubs & E & H & _).
  - apply (bool_decide_unpack _). vm_compute. exact I.
  - done.
  - exists sites', stubs. split; [exact E|]. split; [exact H|]. vm_compute in E. injection E as E. symmetry. exact E.
Defined.
