(* ===== verification/Teardown.v ===== *)
(** * Teardown: the annotations the pass has consumed

    [FilAsyncPass::eraseAnnotations] of compiler/pass/FilAsync.cpp.  A module's
    constants are a graph: each node is an array, a struct, a vector, an
    expression, a global variable (its operand is the initializer), a function
    or a constant without constants in it.  The pass takes
    [llvm.global.annotations] out, gives the entries of other consumers a new
    one, and destroys what is left unused of the old one's graph. *)

From S2P Require Import Prelude.
Open Scope Z_scope.

(** ** The graph *)

Inductive kind := CArray | CStruct | CVector | CExpr | CVariable | CFunction | CData.
#[export] Instance kind_dec : EqDecision kind.
Proof. solve_decision. Defined.

Record node := mk_node { n_kind : kind; n_ops : list Z }.
#[export] Instance node_dec : EqDecision node.
Proof. solve_decision. Defined.

Abbreviation graph := (gmap Z node) (only parsing).

Definition isPoolConstant (k : kind) : bool :=
  match k with CArray | CStruct | CVector | CExpr => true | _ => false end.

(** [ext]: the constants with a use that is not a constant, such as an
    instruction. *)
Definition use_empty (ext : gset Z) (g : graph) (c : Z) : bool :=
  bool_decide (c ∉ ext) && bool_decide (map_Forall (fun _ n => c ∉ n_ops n) g).

(** [ConstantArray::get]: constants are unique, so an array with these
    elements may be there already; [fresh] is where a new one goes. *)
Definition array_get (elements : list Z) (fresh : Z) (g : graph) : Z * graph :=
  match List.find (fun cn : Z * node => bool_decide (n_kind cn.2 = CArray) && bool_decide (n_ops cn.2 = elements)) (map_to_list g) with
  | Some (c, _) => (c, g)
  | None => (fresh, <[fresh := mk_node CArray elements]> g)
  end.

(** ** The worklist *)

(** The inner loop: [Worklist] and [Seen]. *)
Definition push_operands (ops : list Z) (st : list Z * gset Z) : list Z * gset Z :=
  fold_left (fun '(work, seen) child => if decide (child ∈ seen) then (work, seen) else (work ++ [child], {[child]} ∪ seen)) ops st.

(** The loop from index [i]. *)
Fixpoint discover (fuel : nat) (g : graph) (i : nat) (st : list Z * gset Z) : outcome (list Z) :=
  match fst st !! i with
  | None => mret (fst st)
  | Some c =>
      match fuel with
      | O => NoFuel
      | S fuel => n ← deref (g !! c); discover fuel g (S i) (push_operands (n_ops n) st)
      end
  end.

(** What the last loop does with one constant. *)
Definition destroy (ext : gset Z) (c : Z) (g : graph) : outcome graph :=
  n ← deref (g !! c);
  match n_kind n with
  | CFunction => mret g
  | CVariable => mret (if use_empty ext g c then delete c g else g)
  | k => mret (if isPoolConstant k && use_empty ext g c then delete c g else g)
  end.

Fixpoint teardown (ext : gset Z) (work : list Z) (g : graph) : outcome graph :=
  match work with
  | [] => mret g
  | c :: work => g ← destroy ext c g; teardown ext work g
  end.

Section Erase.
(** [is_filc]: [isFilcAsyncEntry]; [ext] as above; [fresh_var] and
    [fresh_array] are where new constants go. *)
Context (is_filc : Z -> bool) (ext : gset Z) (fresh_var fresh_array : Z).

(** [Foreign]. *)
Definition foreign_of (root : node) : list Z :=
  if decide (n_kind root = CArray) then List.filter (fun e => negb (is_filc e)) (n_ops root) else [].

(** The module once [GA] is gone and the foreign entries have a new one. *)
Definition keep_foreign (foreign : list Z) (g : graph) : graph :=
  match foreign with
  | [] => g
  | _ => let '(arr, g) := array_get foreign fresh_array g in <[fresh_var := mk_node CVariable [arr]]> g
  end.

(** [ga]: what [llvm.global.annotations] names; the result says what it names
    afterwards.  Erasing a variable that is used is an error of LLVM's. *)
Definition eraseAnnotations (ga : option Z) (g : graph) : outcome (option Z * graph) :=
  match ga with
  | None => mret (None, g)
  | Some a =>
      n ← deref (g !! a);
      match n_ops n with
      | [] => mret (Some a, g)
      | root :: _ =>
          r ← deref (g !! root);
          let foreign := foreign_of r in
          if negb (use_empty ext g a) then Trap
          else
            let g := keep_foreign foreign (delete a g) in
            work ← discover (S (size g)) g 0 ([root], {[root]});
            g ← teardown ext work g;
            mret (match foreign with [] => None | _ => Some fresh_var end, g)
      end
  end.
End Erase.

(** ** The worklist is what the root reaches *)

Definition edge (g : graph) (u c : Z) : Prop := exists n, g !! u = Some n /\ c ∈ n_ops n.
Definition reaches (g : graph) : Z -> Z -> Prop := rtc (edge g).

(** Every operand is a constant of the module. *)
Definition closed (g : graph) : Prop := forall u c, edge g u c -> is_Some (g !! c).

Lemma push_operands_ok ops : forall work seen,
  NoDup work -> (forall x, x ∈ seen <-> x ∈ work) ->
  exists new seen', push_operands ops (work, seen) = (work ++ new, seen') /\ NoDup (work ++ new) /\
    (forall x, x ∈ seen' <-> x ∈ work ++ new) /\ (forall x, x ∈ new -> x ∈ ops) /\ forall x, x ∈ ops -> x ∈ work ++ new.
Proof.
  induction ops as [|c ops IH]; intros work seen Hnd Hseen; unfold push_operands; cbn [fold_left].
  - exists [], seen. rewrite app_nil_r. split_and!; set_solver.
  - destruct (decide (c ∈ seen)) as [Hin|Hout].
    + destruct (IH work seen Hnd Hseen) as (new & seen' & E & H1 & H2 & H3 & H4). exists new, seen'. split; [exact E|]. split_and!; set_solver.
    + destruct (IH (work ++ [c]) ({[c]} ∪ seen)) as (new & seen' & E & H1 & H2 & H3 & H4).
      * apply NoDup_app. split; [done|]. split; [|apply NoDup_singleton]. intros x Hx ->%list_elem_of_singleton. by apply Hout, Hseen.
      * set_solver.
      * exists (c :: new), seen'. rewrite <- app_assoc in E, H1, H2, H4. split; [exact E|]. split_and!; set_solver.
Qed.

Lemma reaches_dom g root x : closed g -> is_Some (g !! root) -> reaches g root x -> is_Some (g !! x).
Proof. intros Hc Hr. induction 1 as [|x y z Hxy Hyz IH]; [done|]. apply IH. by eapply Hc. Qed.

(** The loop at its end. *)
Lemma worklist_done g root i work :
  NoDup work -> work !! 0%nat = Some root -> (forall x, x ∈ work -> reaches g root x) -> work !! i = None ->
  (forall k u c, (k < i)%nat -> work !! k = Some u -> edge g u c -> c ∈ work) ->
  exists work', Ret work = Ret work' /\ NoDup work' /\ forall x, x ∈ work' <-> reaches g root x.
Proof.
  intros Hnd H0 Hre Eu Hdone. exists work. split; [done|]. split; [done|]. intros x. split; [apply Hre|]. intros Hx.
  apply rtc_ind_r with (P := fun y => y ∈ work) in Hx; [done|by eapply list_elem_of_lookup_2|].
  intros y z _ Hyz Hy. apply list_elem_of_lookup in Hy as (k & Hk). eapply Hdone; [|done..].
  apply lookup_lt_Some in Hk. apply lookup_ge_None in Eu. lia.
Qed.

Lemma discover_ok g root fuel : forall i work seen,
  closed g -> is_Some (g !! root) -> NoDup work -> (forall x, x ∈ seen <-> x ∈ work) -> work !! 0%nat = Some root ->
  (forall x, x ∈ work -> reaches g root x) -> (forall k u c, (k < i)%nat -> work !! k = Some u -> edge g u c -> c ∈ work) ->
  (i <= length work)%nat -> (size g + 1 <= i + fuel)%nat ->
  exists work', discover fuel g i (work, seen) = Ret work' /\ NoDup work' /\ forall x, x ∈ work' <-> reaches g root x.
Proof.
  induction fuel as [|fuel IH]; intros i work seen Hc Hr Hnd Hs H0 Hre Hdone Hi Hf.
  all: assert (Hlen : (length work <= size g)%nat)
    by (rewrite <- size_dom, <- (size_list_to_set (C := gset Z) work Hnd); apply subseteq_size; intros x Hx%elem_of_list_to_set; apply elem_of_dom; apply (reaches_dom g root); auto).
  all: cbn [discover fst]; destruct (work !! i) as [u|] eqn:Eu.
  - apply lookup_lt_Some in Eu. lia.
  - by eapply worklist_done.
  - assert (Hu : reaches g root u) by (apply Hre; by eapply list_elem_of_lookup_2). destruct (reaches_dom g root u Hc Hr Hu) as [n En]. rewrite En. cbn [deref mbind outcome_bind].
    destruct (push_operands_ok (n_ops n) work seen Hnd Hs) as (new & seen' & -> & H1 & H2 & H3 & H4). apply lookup_lt_Some in Eu as Hlt. apply IH; [done..| | | | |].
    + by rewrite lookup_app_l by lia.
    + intros x [Hx|Hx]%elem_of_app; [by apply Hre|]. eapply rtc_r; [exact Hu|]. exists n. split; [done|by apply H3].
    + intros k v c Hk Hv Hvc. destruct (decide (k = i)) as [->|Hne].
      * rewrite lookup_app_l in Hv by lia. rewrite Eu in Hv. injection Hv as <-. destruct Hvc as (n' & En' & Hin). rewrite En in En'. injection En' as <-. by apply H4.
      * rewrite lookup_app_l in Hv by lia. apply elem_of_app. left. apply (Hdone k v); [lia|done..].
    + rewrite length_app. lia.
    + lia.
  - by eapply worklist_done.
Qed.

(** ** Destroying *)

Definition removable (n : node) : bool := bool_decide (n_kind n = CVariable) || isPoolConstant (n_kind n).

Lemma destroy_spec ext c g n : g !! c = Some n -> destroy ext c g = Ret (if removable n && use_empty ext g c then delete c g else g).
Proof. intros E. unfold destroy, removable. rewrite E. cbn [deref mbind outcome_bind]. by destruct (n_kind n). Qed.

Lemma use_empty_spec ext g c : use_empty ext g c = true <-> (c ∉ ext) /\ forall u, ~ edge g u c.
Proof.
  unfold use_empty. rewrite andb_true_iff, !bool_decide_eq_true. split; intros [H1 H2]; (split; [done|]).
  - intros u (n & Hu & Hc). by apply (H2 u n Hu).
  - intros u n Hu Hc. apply (H2 u). by exists n.
Qed.

Lemma edge_delete g x u c : edge (delete x g) u c <-> edge g u c /\ u <> x.
Proof. unfold edge. setoid_rewrite lookup_delete_Some. naive_solver. Qed.

(** Without an unused constant, the graph is as sound as before. *)
Lemma delete_closed g x : closed g -> (forall u, ~ edge g u x) -> closed (delete x g).
Proof.
  intros Hc Hx u c [He Hu]%edge_delete. rewrite lookup_delete_ne; [by eapply Hc|]. intros ->. by apply (Hx u).
Qed.

Lemma teardown_ok ext work : forall g,
  closed g -> NoDup work -> (forall c, c ∈ work -> is_Some (g !! c)) ->
  exists g', teardown ext work g = Ret g' /\ closed g' /\ g' ⊆ g /\
    forall c n, g !! c = Some n -> g' !! c = None -> c ∈ work /\ removable n = true /\ c ∉ ext.
Proof.
  induction work as [|c work IH]; intros g Hc Hnd Hw; cbn [teardown]; [exists g; naive_solver|].
  apply NoDup_cons in Hnd as [Hcw Hnd]. destruct (Hw c ltac:(set_solver)) as [n En]. rewrite (destroy_spec _ _ _ n) by done. cbn [mbind outcome_bind].
  destruct (removable n && use_empty ext g c) eqn:Er.
  - apply andb_true_iff in Er as [Hr [Hext Hun]%use_empty_spec]. destruct (IH (delete c g)) as (g' & E & Hc' & Hsub & Hgone).
    + by apply delete_closed.
    + done.
    + intros x Hx. rewrite lookup_delete_ne by (intros ->; done). apply Hw. set_solver.
    + exists g'. split; [exact E|]. split; [done|]. split; [etransitivity; [exact Hsub|apply delete_subseteq]|].
      intros x m Hx Hno. destruct (decide (x = c)) as [->|Hne]; [rewrite En in Hx; injection Hx as <-; set_solver|].
      destruct (Hgone x m) as (? & ? & ?); [by rewrite lookup_delete_ne|done|]. set_solver.
  - destruct (IH g Hc Hnd) as (g' & E & Hc' & Hsub & Hgone); [set_solver|]. exists g'. split; [exact E|]. split; [done|]. split; [done|].
    intros x m Hx Hno. destruct (Hgone x m Hx Hno). set_solver.
Qed.

(** Whoever uses a constant of the worklist stands before it. *)
Fixpoint users_first (g : graph) (work : list Z) : Prop :=
  match work with
  | [] => True
  | c :: work => (forall u, u ∈ c :: work -> ~ edge g u c) /\ users_first g work
  end.

Lemma users_first_mono g g' work : g' ⊆ g -> users_first g work -> users_first g' work.
Proof.
  intros Hs. induction work as [|c work IH]; [done|]. intros [Hc Hw]. split; [|by apply IH].
  intros u Hu (n & Hn & Hin). apply (Hc u Hu). exists n. split; [by eapply lookup_weaken|done].
Qed.

(** Then nothing is left over: what remains is used. *)
Lemma teardown_complete ext work : forall g g',
  closed g -> NoDup work -> (forall c, c ∈ work -> is_Some (g !! c)) -> users_first g work -> teardown ext work g = Ret g' ->
  forall c n, c ∈ work -> g' !! c = Some n -> removable n = true -> use_empty ext g' c = false.
Proof.
  induction work as [|c work IH]; intros g g' Hc Hnd Hw Huf E x m Hx Hm Hr; [by apply not_elem_of_nil in Hx|]. destruct Huf as [Hfirst Hrest]. cbn [teardown] in E.
  apply NoDup_cons in Hnd as [Hcw Hnd]. destruct (Hw c ltac:(set_solver)) as [n En]. rewrite (destroy_spec _ _ _ n) in E by done. cbn [mbind outcome_bind] in E.
  set (g1 := if removable n && use_empty ext g c then delete c g else g) in *.
  assert (H1 : closed g1 /\ g1 ⊆ g /\ forall y, y ∈ work -> is_Some (g1 !! y)).
  { unfold g1. destruct (removable n && use_empty ext g c) eqn:Er; [|by split_and!; [| |set_solver]].
    apply andb_true_iff in Er as [_ [_ Hun]%use_empty_spec]. split; [by apply delete_closed|]. split; [apply delete_subseteq|].
    intros y Hy. rewrite lookup_delete_ne by (intros ->; done). set_solver. }
  destruct H1 as (Hc1 & Hs1 & Hw1). destruct (teardown_ok ext work g1 Hc1 Hnd Hw1) as (g2 & E2 & _ & Hs2 & Hgone). rewrite E in E2. injection E2 as <-.
  apply elem_of_cons in Hx as [->|Hx]; [|by eapply IH; [exact Hc1|done|done|by eapply users_first_mono|exact E|..]].
  assert (Em : g1 !! c = Some m) by (by eapply lookup_weaken). assert (Em' : g !! c = Some m) by (by eapply lookup_weaken). rewrite En in Em'. injection Em' as ->.
  destruct (use_empty ext g' c) eqn:Eu'; [exfalso|done]. apply use_empty_spec in Eu' as [Hext Hun].
  assert (Eu : use_empty ext g c = true).
  { apply use_empty_spec. split; [done|]. intros u Hu. destruct (decide (u ∈ c :: work)) as [Hin|Hout]; [by apply (Hfirst u)|].
    destruct Hu as (k & Hk & Hck). assert (Hu1 : g1 !! u = Some k).
    { unfold g1. destruct (removable m && use_empty ext g c); [|done]. rewrite lookup_delete_ne; [done|set_solver]. }
    destruct (g' !! u) as [k'|] eqn:Eg; [|by destruct (Hgone u k Hu1 Eg); set_solver].
    assert (k' = k) by (eapply lookup_weaken in Eg; [|exact Hs2]; congruence). subst k'. apply (Hun u). by exists k. }
  unfold g1 in Em. rewrite Hr, Eu in Em. cbn in Em. by rewrite lookup_delete_eq in Em.
Qed.

(** ** The entries of others *)

Lemma array_get_ok elements fresh g :
  closed g -> g !! fresh = None -> (forall e, e ∈ elements -> is_Some (g !! e)) ->
  exists arr g', array_get elements fresh g = (arr, g') /\ closed g' /\ g ⊆ g' /\ g' !! arr = Some (mk_node CArray elements) /\
    forall x, is_Some (g' !! x) -> is_Some (g !! x) \/ x = fresh.
Proof.
  intros Hc Hf He. unfold array_get. destruct (List.find _ (map_to_list g)) as [[c n]|] eqn:E.
  - apply find_some in E as [Hin Hp]. apply list_elem_of_In, elem_of_map_to_list in Hin. cbn in Hp. apply andb_true_iff in Hp as [Hk Ho].
    apply bool_decide_eq_true in Hk, Ho. exists c, g. destruct n as [k ops]. cbn in Hk, Ho. subst k ops. split_and!; naive_solver.
  - exists fresh, (<[fresh := mk_node CArray elements]> g). split; [done|]. split; [|split; [by apply insert_subseteq|split; [apply lookup_insert_eq|]]].
    + intros u c (n & Hu & Hin). rewrite lookup_insert in Hu. rewrite lookup_insert. case_decide; [injection Hu as <-|]; (case_decide; [done|]); [by apply He|].
      apply (Hc u). by exists n.
    + intros x Hx. rewrite lookup_insert in Hx. case_decide; [by right|by left].
Qed.

Lemma keep_foreign_ok v arr foreign g :
  closed g -> g !! v = None -> g !! arr = None -> v <> arr -> (forall e, e ∈ foreign -> is_Some (g !! e)) ->
  let g' := keep_foreign v arr foreign g in
  closed g' /\ g ⊆ g' /\ (forall x, is_Some (g' !! x) -> is_Some (g !! x) \/ x = v \/ x = arr) /\
  (foreign <> [] -> exists a, g' !! v = Some (mk_node CVariable [a]) /\ g' !! a = Some (mk_node CArray foreign)).
Proof.
  intros Hc Hv Ha Hne He. unfold keep_foreign. destruct foreign as [|e es]; [by split_and!; [| |left|]|].
  destruct (array_get_ok (e :: es) arr g Hc Ha He) as (a & g2 & -> & Hc2 & Hs2 & Hl2 & Hd2). cbv zeta.
  assert (Hv2 : g2 !! v = None) by (apply eq_None_not_Some; intros [[? ?]|?]%Hd2; [congruence|done]).
  split; [|split; [etransitivity; [exact Hs2|by apply insert_subseteq]|split]].
  - intros u c (n & Hu & Hin). rewrite lookup_insert in Hu. rewrite lookup_insert. case_decide; (case_decide; [done|]).
    + injection Hu as <-. apply list_elem_of_singleton in Hin as ->. by exists (mk_node CArray (e :: es)).
    + apply (Hc2 u). by exists n.
  - intros x Hx. rewrite lookup_insert in Hx. case_decide; [by right; left|]. destruct (Hd2 x Hx); [by left|by right; right].
  - intros _. exists a. split; [apply lookup_insert_eq|]. rewrite lookup_insert_ne; [done|congruence].
Qed.

Lemma reaches_weaken g g' x y : g ⊆ g' -> reaches g x y -> reaches g' x y.
Proof. intros Hs. induction 1 as [|x y z (n & Hn & Hin) _ IH]; [done|]. eapply rtc_l; [|exact IH]. exists n. split; [by eapply lookup_weaken|done]. Qed.

Lemma reaches_strengthen g g' x y : g ⊆ g' -> closed g -> is_Some (g !! x) -> reaches g' x y -> reaches g x y.
Proof.
  intros Hs Hc. induction 2 as [|x y z (n & Hn & Hin) _ IH]; [done|]. destruct H as [m Hm].
  assert (m = n) by (eapply lookup_weaken in Hm; [|exact Hs]; congruence). subst m.
  assert (He : edge g x y) by (by exists n). eapply rtc_l; [exact He|]. apply IH. by eapply Hc.
Qed.

Lemma reaches_without g a x y : (forall u, ~ edge g u a) -> x <> a -> reaches g x y -> reaches (delete a g) x y.
Proof.
  intros Ha Hx. induction 1 as [|x y z Hxy _ IH]; [apply rtc_refl|]. eapply rtc_l; [by apply edge_delete|].
  apply IH. intros ->. by apply (Ha x).
Qed.

(** ** The module afterwards *)

Section Erased.
Context (is_filc : Z -> bool) (ext : gset Z) (v arr a root : Z) (g : graph) (r : node).
Context (Hclosed : closed g) (Ha : g !! a = Some (mk_node CVariable [root])) (Hroot : g !! root = Some r) (Hun : use_empty ext g a = true).
Context (Hv : g !! v = None) (Harr : g !! arr = None) (Hva : v <> arr).

Abbreviation foreign := (foreign_of is_filc r).
Abbreviation kept := (keep_foreign v arr foreign (delete a g)).

Lemma foreign_in e : e ∈ foreign -> edge g root e.
Proof.
  unfold foreign_of. case_decide; [|by intros ?%not_elem_of_nil]. intros He%list_elem_of_In. apply filter_In in He as [He%list_elem_of_In _]. by exists r.
Qed.

Lemma not_used u : ~ edge g u a.
Proof. apply use_empty_spec in Hun. apply Hun. Qed.

(** The steps of [eraseAnnotations], and what is known of each. *)
Lemma erase_steps :
  closed kept /\ delete a g ⊆ kept /\ is_Some (delete a g !! root) /\
  exists work, discover (S (size kept)) kept 0 ([root], {[root]}) = Ret work /\ NoDup work /\
    (forall x, x ∈ work -> reaches g root x /\ is_Some (delete a g !! x)) /\ (forall x, x ∈ work <-> reaches kept root x) /\
    (foreign <> [] -> exists b, kept !! v = Some (mk_node CVariable [b]) /\ kept !! b = Some (mk_node CArray foreign)) /\
    eraseAnnotations is_filc ext v arr (Some a) g =
      (g' ← teardown ext work kept; mret (match foreign with [] => None | _ => Some v end, g')).
Proof.
  assert (Hra : root <> a) by (intros ->; apply (not_used a); eexists; split; [exact Ha|]; by apply list_elem_of_singleton).
  assert (Hcd : closed (delete a g)) by (apply delete_closed; [done|apply not_used]).
  assert (Hrd : is_Some (delete a g !! root)) by (rewrite lookup_delete_ne by done; by eexists).
  destruct (keep_foreign_ok v arr foreign (delete a g)) as (Hck & Hsk & Hdk & Hfor); [done|by rewrite lookup_delete_None; right..|done| |].
  { intros e He%foreign_in. rewrite lookup_delete_ne by (intros <-; by apply (not_used root)). by eapply Hclosed. }
  assert (Hrk : is_Some (kept !! root)) by (destruct Hrd as [m Hm]; exists m; by eapply lookup_weaken).
  split; [done|]. split; [done|]. split; [done|].
  destruct (discover_ok kept root (S (size kept)) 0 [root] {[root]}) as (work & E & Hnd & Hw); [done|done|apply NoDup_singleton|set_solver|done| |lia|cbn; lia|lia|].
  { intros x ->%list_elem_of_singleton. apply rtc_refl. }
  exists work. split; [exact E|]. split; [done|]. split; [|split; [done|split; [done|]]].
  - intros x Hx%Hw. pose proof (reaches_strengthen _ _ _ _ Hsk Hcd Hrd Hx) as Hx'. split; [eapply reaches_weaken; [apply delete_subseteq|exact Hx']|by eapply reaches_dom].
  - unfold eraseAnnotations. rewrite Ha. cbn [deref mbind outcome_bind n_ops]. rewrite Hroot. cbn [deref mbind outcome_bind]. rewrite Hun. cbn [negb]. rewrite E. done.
Qed.
End Erased.

(** Nothing that is needed goes. *)
Lemma erase_safe (is_filc : Z -> bool) (ext : gset Z) (v arr a root : Z) (g : graph) (r : node) :
  closed g -> g !! a = Some (mk_node CVariable [root]) -> g !! root = Some r -> use_empty ext g a = true ->
  g !! v = None -> g !! arr = None -> v <> arr ->
  exists named g', eraseAnnotations is_filc ext v arr (Some a) g = Ret (named, g') /\ closed g' /\
    (forall c n, c <> a -> g !! c = Some n ->
       g' !! c = Some n \/ g' !! c = None /\ reaches g root c /\ removable n = true /\ (c ∉ ext) /\ forall u, ~ edge g' u c) /\
    (forall e c, e ∈ foreign_of is_filc r -> reaches g e c -> g' !! c = g !! c) /\
    match named with
    | None => foreign_of is_filc r = []
    | Some k => exists b, g' !! k = Some (mk_node CVariable [b]) /\ g' !! b = Some (mk_node CArray (foreign_of is_filc r))
    end.
Proof.
  intros Hc Ha Hr Hun Hv Harr Hva. destruct (erase_steps is_filc ext v arr a root g r Hc Ha Hr Hun Hv Harr Hva) as (Hck & Hsk & Hrd & work & _ & Hnd & Hw & _ & Hfor & ->).
  set (gk := keep_foreign v arr (foreign_of is_filc r) (delete a g)) in *.
  destruct (teardown_ok ext work gk Hck Hnd) as (g' & -> & Hc' & Hs' & Hgone).
  { intros c Hcw. destruct (Hw c Hcw) as [_ [n Hn]]. exists n. by eapply lookup_weaken. }
  cbn [mbind outcome_bind mret outcome_ret]. eexists _, g'. split; [done|]. split; [done|].
  assert (Hstay : forall c n, c <> a -> g !! c = Some n -> gk !! c = Some n) by (intros c n Hne Hn; eapply lookup_weaken; [|exact Hsk]; by rewrite lookup_delete_ne).
  assert (Hsame : forall c n m, g' !! c = Some m -> gk !! c = Some n -> m = n) by (intros c n m Hm Hn; eapply lookup_weaken in Hm; [|exact Hs']; congruence).
  assert (Hkept : foreign_of is_filc r <> [] -> exists b, g' !! v = Some (mk_node CVariable [b]) /\ g' !! b = Some (mk_node CArray (foreign_of is_filc r))).
  { intros (b & Hb1 & Hb2)%Hfor. exists b. assert (Hv' : g' !! v = Some (mk_node CVariable [b])).
    { destruct (g' !! v) as [m|] eqn:E; [by f_equal; eapply Hsame|]. destruct (Hgone v _ Hb1 E) as (Hin & _). destruct (Hw v Hin) as [_ [n Hn]].
      apply lookup_delete_Some in Hn as [_ Hn]. congruence. }
    split; [done|]. destruct (Hc' v b) as [m Hm]; [eexists; split; [exact Hv'|]; by apply list_elem_of_singleton|]. rewrite Hm. f_equal. by eapply Hsame. }
  split; [|split].
  - intros c n Hne Hn. destruct (g' !! c) as [m|] eqn:E; [left; f_equal; by eapply Hsame; [|apply Hstay]|].
    right. destruct (Hgone c n (Hstay c n Hne Hn) E) as (Hin & Hrm & Hext). split; [done|]. split; [by apply Hw|]. split; [done|]. split; [done|].
    intros u [? ?]%Hc'. congruence.
  - intros e c He Hec. assert (Hf : foreign_of is_filc r <> []) by (intros E; rewrite E in He; by apply not_elem_of_nil in He).
    destruct (Hkept Hf) as (b & _ & Hb). assert (He' : is_Some (g' !! e)) by (apply (Hc' b); by eexists).
    assert (Hea : e <> a) by (intros ->; eapply (not_used ext a g Hun); by eapply foreign_in).
    assert (Hgo : forall x, reaches g e x -> x <> a /\ is_Some (g' !! x)).
    { intros x Hx. apply rtc_ind_r with (P := fun y => y <> a /\ is_Some (g' !! y)) in Hx; [done|done|]. intros y z _ (n & Hn & Hin) [Hya [m Hm]]. split.
      - intros ->. apply (not_used ext a g Hun y). by exists n.
      - assert (m = n) by (eapply Hsame; [exact Hm|by apply Hstay]). subst m. apply (Hc' y). by exists n. }
    destruct (Hgo c Hec) as [Hca [m Hm]]. assert (Hcg : is_Some (g !! c)).
    { eapply reaches_dom; [exact Hc| |exact Hec]. eapply Hc. by eapply foreign_in. }
    destruct Hcg as [n Hn]. rewrite Hm, Hn. f_equal. by eapply Hsame; [|apply Hstay].
  - destruct (foreign_of is_filc r) eqn:Ef; [done|]. by apply Hkept.
Qed.

(** ** Nothing is left over

    The worklist is in the order of discovery, level by level.  That is an
    order in which users come first when every constant is at one depth only,
    as in the annotations clang writes: the array, its entries, their
    strings, functions and arguments, the arguments' structs, the options. *)

Definition graded (g : graph) (root : Z) (depth : Z -> nat) : Prop := forall u c, reaches g root u -> edge g u c -> depth c = S (depth u).

Definition by_level (depth : Z -> nat) (work : list Z) : Prop :=
  forall i j x y, work !! i = Some x -> work !! j = Some y -> (i <= j)%nat -> (depth x <= depth y)%nat.

Lemma by_level_app depth work new m :
  by_level depth work -> (forall x, x ∈ work -> (depth x <= m)%nat) -> (forall x, x ∈ new -> depth x = m) -> by_level depth (work ++ new).
Proof.
  intros Hl Hw Hn i j x y Hi Hj Hij. destruct (decide (j < length work)%nat) as [Hlt|Hge].
  - rewrite lookup_app_l in Hi, Hj by lia. by apply (Hl i j).
  - rewrite lookup_app_r in Hj by lia. rewrite (Hn y) by (by eapply list_elem_of_lookup_2).
    apply lookup_app_Some in Hi as [Hi|[_ Hi]]; [apply Hw; by eapply list_elem_of_lookup_2|].
    rewrite (Hn x); [done|by eapply list_elem_of_lookup_2].
Qed.

Lemma discover_by_level g root depth fuel : forall i work seen work',
  graded g root depth -> NoDup work -> (forall x, x ∈ seen <-> x ∈ work) -> (forall x, x ∈ work -> reaches g root x) ->
  by_level depth work -> (forall u, work !! i = Some u -> forall x, x ∈ work -> (depth x <= S (depth u))%nat) ->
  discover fuel g i (work, seen) = Ret work' -> by_level depth work'.
Proof.
  induction fuel as [|fuel IH]; intros i work seen work' Hg Hnd Hs Hre Hl Hnext; cbn [discover fst]; destruct (work !! i) as [u|] eqn:Eu; try by intros [= <-].
  destruct (g !! u) as [n|] eqn:En; [|done]. cbn [deref mbind outcome_bind].
  destruct (push_operands_ok (n_ops n) work seen Hnd Hs) as (new & seen' & -> & H1 & H2 & H3 & _).
  assert (Hu : u ∈ work) by (by eapply list_elem_of_lookup_2). assert (He : forall c, c ∈ new -> edge g u c) by (intros c Hc; exists n; split; [done|by apply H3]).
  assert (Hnew : forall x, x ∈ new -> depth x = S (depth u)) by (intros x Hx; apply (Hg u); [by apply Hre|by apply He]).
  assert (Hl' : by_level depth (work ++ new)) by (apply (by_level_app _ _ _ (S (depth u))); [done|by apply Hnext|done]).
  apply IH; [done..| |done|].
  - intros x [Hx|Hx]%elem_of_app; [by apply Hre|]. apply rtc_r with u; [by apply Hre|by apply He].
  - intros u' Hu' x Hx. assert (depth u <= depth u')%nat by (apply (Hl' i (S i)); [by rewrite lookup_app_l by (by eapply lookup_lt_Some)|done|lia]).
    apply elem_of_app in Hx as [Hx|Hx]; [pose proof (Hnext u eq_refl x Hx); lia|rewrite (Hnew x Hx); lia].
Qed.

Lemma by_level_users_first g root depth work :
  graded g root depth -> (forall x, x ∈ work -> reaches g root x) -> by_level depth work -> users_first g work.
Proof.
  intros Hg. induction work as [|c work IH]; intros Hre Hl; [done|]. split.
  - intros u Hu He. pose proof (Hg u c (Hre u Hu) He) as Hd. apply list_elem_of_lookup in Hu as (j & Hj).
    pose proof (Hl 0%nat j c u eq_refl Hj ltac:(lia)). lia.
  - apply IH; [set_solver|]. intros i j x y Hi Hj Hij. apply (Hl (S i) (S j)); [done|done|lia].
Qed.

(** And all that is not needed does. *)
Lemma erase_complete (is_filc : Z -> bool) (ext : gset Z) (v arr a root : Z) (g : graph) (r : node) (depth : Z -> nat) :
  closed g -> g !! a = Some (mk_node CVariable [root]) -> g !! root = Some r -> use_empty ext g a = true ->
  g !! v = None -> g !! arr = None -> v <> arr -> graded g root depth ->
  exists named g', eraseAnnotations is_filc ext v arr (Some a) g = Ret (named, g') /\
    forall c n, reaches g root c -> g' !! c = Some n -> removable n = true -> c ∈ ext \/ exists u, edge g' u c.
Proof.
  intros Hc Ha Hr Hun Hv Harr Hva Hg. destruct (erase_steps is_filc ext v arr a root g r Hc Ha Hr Hun Hv Harr Hva) as (Hck & Hsk & Hrd & work & E & Hnd & Hw & Hwk & _ & ->).
  set (gk := keep_foreign v arr (foreign_of is_filc r) (delete a g)) in *.
  assert (Hdom : forall c, c ∈ work -> is_Some (gk !! c)) by (intros c Hcw; destruct (Hw c Hcw) as [_ [n Hn]]; exists n; by eapply lookup_weaken).
  destruct (teardown_ok ext work gk Hck Hnd Hdom) as (g' & Et & _). rewrite Et. cbn [mbind outcome_bind mret outcome_ret]. eexists _, g'. split; [done|].
  assert (Hgk : graded gk root depth).
  { intros u c Hu (n & Hn & Hin). apply Hwk in Hu. destruct (Hw u Hu) as [Hru [m Hm]]. apply Hg; [done|]. exists n. split; [|done].
    assert (m = n) by (eapply lookup_weaken in Hm as Hm'; [|exact Hsk]; congruence). subst m. by apply lookup_delete_Some in Hm as [_ Hm]. }
  assert (Hlev : by_level depth work).
  { eapply (discover_by_level gk root depth _ 0 [root] {[root]}); [done|apply NoDup_singleton|set_solver| | | |exact E].
    - intros x ->%list_elem_of_singleton. apply rtc_refl.
    - intros i j x y Hi%list_elem_of_lookup_2 Hj%list_elem_of_lookup_2 _. apply list_elem_of_singleton in Hi, Hj. by subst.
    - intros u [= <-] x ->%list_elem_of_singleton. lia. }
  assert (Hfirst : users_first gk work) by (eapply by_level_users_first; [exact Hgk|by intros x ?%Hwk|done]).
  intros c n Hcr Hn Hrm. assert (Hcw : c ∈ work).
  { apply Hwk. apply (reaches_weaken _ _ _ _ Hsk). assert (Hra : root <> a) by (intros ->; rewrite lookup_delete_eq in Hrd; by destruct Hrd).
    by apply reaches_without; [apply (not_used ext a g Hun)|..]. }
  pose proof (teardown_complete ext work gk g' Hck Hnd Hdom Hfirst Et c n Hcw Hn Hrm) as Hue.
  unfold use_empty in Hue. apply andb_false_iff in Hue as [Hue|Hue]; apply bool_decide_eq_false in Hue; [left; by destruct (decide (c ∈ ext))|right].
  apply map_not_Forall in Hue as (u & m & Hm & Hin); [|apply _]. exists u, m. split; [done|]. by destruct (decide (c ∈ n_ops m)).
Qed.

(** C30: erasing the annotations.  It returns; every operand of what remains
    is still there; a constant is destroyed only if it is a variable or a
    container that the annotations reach and nothing that remains uses, and
    all others are as before, in particular whatever an entry of another
    consumer reaches; those entries, if any, are the elements of the new
    [llvm.global.annotations], in their order; and when every constant of the
    old one's graph is at one depth, no variable or container of it is left
    over unused. *)
Theorem erase_exact (is_filc : Z -> bool) (ext : gset Z) (v arr a root : Z) (g : graph) (r : node) :
  closed g -> g !! a = Some (mk_node CVariable [root]) -> g !! root = Some r -> use_empty ext g a = true ->
  g !! v = None -> g !! arr = None -> v <> arr ->
  exists named g', eraseAnnotations is_filc ext v arr (Some a) g = Ret (named, g') /\ closed g' /\
    (forall c n, c <> a -> g !! c = Some n ->
       g' !! c = Some n \/ g' !! c = None /\ reaches g root c /\ removable n = true /\ (c ∉ ext) /\ forall u, ~ edge g' u c) /\
    (forall e c, e ∈ foreign_of is_filc r -> reaches g e c -> g' !! c = g !! c) /\
    match named with
    | None => foreign_of is_filc r = []
    | Some k => exists b, g' !! k = Some (mk_node CVariable [b]) /\ g' !! b = Some (mk_node CArray (foreign_of is_filc r))
    end /\
    forall depth, graded g root depth ->
      forall c n, reaches g root c -> g' !! c = Some n -> removable n = true -> c ∈ ext \/ exists u, edge g' u c.
Proof.
  intros Hc Ha Hr Hun Hv Harr Hva. destruct (erase_safe is_filc ext v arr a root g r Hc Ha Hr Hun Hv Harr Hva) as (named & g' & E & H1 & H2 & H3 & H4).
  exists named, g'. split_and!; try done. intros depth Hg.
  destruct (erase_complete is_filc ext v arr a root g r depth Hc Ha Hr Hun Hv Harr Hva Hg) as (named' & g2 & E2 & H5).
  rewrite E in E2. by injection E2 as <- <-.
Qed.

(** The order is that of discovery, which is parents before children only
    then: an option that is the same global as an entry's string is met
    before the struct that uses it, and is left behind unused. *)
Definition shared_string : graph := list_to_map
  [(1, mk_node CVariable [2]); (2, mk_node CArray [3]); (3, mk_node CStruct [10; 5; 6]); (10, mk_node CFunction []);
   (5, mk_node CVariable [8]); (6, mk_node CVariable [7]); (7, mk_node CStruct [5]); (8, mk_node CData [])].

Theorem erase_order_leaks :
  exists g', eraseAnnotations (fun _ => true) {[10]} 30 31 (Some 1) shared_string = Ret (None, g') /\
    g' !! 5 = Some (mk_node CVariable [8]) /\ use_empty {[10]} g' 5 = true /\ g' !! 7 = None.
Proof.
  eexists. split; [vm_compute; reflexivity|]. split_and!; vm_compute; reflexivity.
Qed.

(** ** A concrete module

    An annotation of the pass (3) and one of another consumer (4): they share
    the function, the file name and nothing else; the option string (13) is
    also an element of the options array the pass has emitted (20, 21). *)
Definition annotated_module : graph := list_to_map
  [(1, mk_node CVariable [2]); (2, mk_node CArray [3; 4]);
   (3, mk_node CStruct [10; 5; 6; 9; 7]); (4, mk_node CStruct [10; 16; 6; 9]);
   (10, mk_node CFunction []); (5, mk_node CVariable [11]); (6, mk_node CVariable [12]); (9, mk_node CData []); (7, mk_node CVariable [8]);
   (8, mk_node CStruct [13]); (13, mk_node CVariable [14]); (16, mk_node CVariable [17]);
   (11, mk_node CData []); (12, mk_node CData []); (14, mk_node CData []); (17, mk_node CData []);
   (20, mk_node CVariable [21]); (21, mk_node CArray [13])].

Definition the_pass_own (e : Z) : bool := e =? 3.
Definition used_outside : gset Z := {[10; 20]}.

Definition depth_of (c : Z) : nat :=
  if bool_decide (c ∈ [2]) then 0 else if bool_decide (c ∈ [3; 4]) then 1 else if bool_decide (c ∈ [10; 5; 6; 9; 7; 16]) then 2
  else if bool_decide (c ∈ [11; 12; 8; 17]) then 3 else if bool_decide (c ∈ [13]) then 4 else 5.

Lemma closed_dec g : map_Forall (fun _ n => Forall (fun c => is_Some (g !! c)) (n_ops n)) g -> closed g.
Proof. intros H u c (n & Hn & Hin). specialize (H u n Hn). cbn in H. rewrite List.Forall_forall in H. apply H. by apply list_elem_of_In. Qed.

Lemma annotated_closed : closed annotated_module.
Proof. apply closed_dec. apply (bool_decide_unpack _). vm_compute. reflexivity. Qed.

Lemma graded_dec g root depth (seen : list Z) :
  root ∈ seen ->
  forallb (fun u => match g !! u with
                    | Some n => forallb (fun c => bool_decide (c ∈ seen) && (depth c =? S (depth u))%nat) (n_ops n)
                    | None => true
                    end) seen = true ->
  graded g root depth.
Proof.
  intros Hr Hall. rewrite forallb_forall in Hall.
  assert (Hstep : forall u c, u ∈ seen -> edge g u c -> c ∈ seen /\ depth c = S (depth u)).
  { intros u c Hu%list_elem_of_In (n & Hn & Hc%list_elem_of_In). specialize (Hall u Hu). rewrite Hn, forallb_forall in Hall.
    specialize (Hall c Hc). rewrite andb_true_iff, bool_decide_eq_true, Nat.eqb_eq in Hall. done. }
  assert (Hin : forall u, reaches g root u -> u ∈ seen).
  { intros u Hu. apply rtc_ind_r with (P := fun y => y ∈ seen) in Hu; [done|done|]. intros y z _ Hyz Hy. by eapply Hstep. }
  intros u c Hu He. by eapply Hstep; [apply Hin|].
Qed.

Lemma annotated_graded : graded annotated_module 2 depth_of.
Proof. apply (graded_dec _ _ _ [2; 3; 4; 10; 5; 6; 9; 7; 16; 11; 12; 8; 17; 13; 14]); point. Qed.

Definition erased : outcome (option Z * graph) := eraseAnnotations the_pass_own used_outside 30 31 (Some 1) annotated_module.

(** What is left: the foreign entry and what it uses, and the option string. *)
Example erased_is :
  (match erased with Ret (named, g') => (named, map fst (map_to_list g')) | _ => (None, []) end) =
  (Some 30, map fst (map_to_list (list_to_map (M := gmap Z unit) (map (fun c => (c, tt)) [4; 10; 16; 6; 9; 12; 17; 13; 14; 20; 21; 30; 31; 11])))).
Proof. vm_compute. reflexivity. Qed.

Lemma erase_exact_witness :
  exists named g', erased = Ret (named, g') /\ closed g' /\ g' !! 16 = annotated_module !! 16 /\
    forall c n, reaches annotated_module 2 c -> g' !! c = Some n -> removable n = true -> c ∈ used_outside \/ exists u, edge g' u c.
Proof.
  destruct (erase_exact the_pass_own used_outside 30 31 1 2 annotated_module (mk_node CArray [3; 4])) as (named & g' & E & Hc & _ & Hf & _ & Hg).
  - exact annotated_closed.
  - vm_compute. reflexivity.
  - vm_compute. reflexivity.
  - vm_compute. reflexivity.
  - vm_compute. reflexivity.
  - vm_compute. reflexivity.
  - discriminate.
  - exists named, g'. split; [exact E|]. split; [exact Hc|]. split; [|exact (Hg depth_of annotated_graded)].
    apply (Hf 4 16); [vm_compute; apply list_elem_of_singleton; reflexivity|].
    apply rtc_once. exists (mk_node CStruct [10; 16; 6; 9]). split; [vm_compute; reflexivity|]. cbn. point.
Defined.
