(* ===== verification/Calls.v ===== *)
(** * Calls: an annotated call, from its stub to its submission

    The calls a stub makes (the file Stub), run on the framework's state (the
    file Framework): the loop of [filc_async_mark_pending],
    [filc_async_submit] and [filc_async_run] of [framework/filc_async.c],
    and the stub as a whole.  What a call has once it is submitted, its locks
    and its marks, it keeps until it completes; so two calls that are in
    flight together never conflict.

    [env] says, for each call of the stub, what the other threads do before
    it, the addresses the allocator answers, and the rounds of its waits. *)

From S2P Require Import Prelude Buckets Handles RunList Locks Marks Joins Meta Framework JoinPoll Pass Stub.
Open Scope Z_scope.

(** ** The calls active on a thread *)

(** [g_active] with [g_nactive], and [g_running_body]: one thread's. *)
Record thread := mk_thread { th_active : list ptr; th_running_body : ptr }.

Section Thread.
Context {S : Type}.

(** [submit]: the runtime's, with the thread and its own state. *)
Definition filc_async_submit (submit : thread -> S -> outcome (thread * S)) (t : ptr) (th : thread) (s : S) : outcome (thread * S) :=
  act ← active_push t (th_active th);
  '(th, s) ← submit (mk_thread act (th_running_body th)) s;
  mret (mk_thread (active_pop (th_active th)) (th_running_body th), s).

(** [run]: the emitted thunk, or NULL. *)
Definition filc_async_run (run : option (thread -> S -> outcome (Z * thread * S))) (t : ptr) (th : thread) (s : S) : outcome (Z * thread * S) :=
  match run with
  | None => mret (0, th, s)
  | Some run =>
      let outer := th_running_body th in
      act ← active_push t (th_active th);
      '(result, th, s) ← run (mk_thread act t) s;
      mret (result, mk_thread (active_pop (th_active th)) outer, s)
  end.
End Thread.

(** ** Running a stub *)

Record env := mk_env { e_before : list fw_op; e_fresh1 : ptr; e_fresh2 : ptr; e_rounds : list round }.

(** The thread's variables and the stub's, with the framework's state. *)
Record stub_st := mk_stub_st { sb_thread : thread; sb_staging : ptr; sb_task : ptr; sb_fw : fw }.

Definition set_fw (s : fw) (st : stub_st) : stub_st := mk_stub_st (sb_thread st) (sb_staging st) (sb_task st) s.

(** The turns of a wait that its rounds leave room for. *)
Definition turns_of (e : env) : nat := S (2 * length (e_rounds e)).

Section Stub.
Context (readonly : ptr -> bool).
(** The [submit] of the call's runtime, for a task. *)
Context (submit : ptr -> thread -> fw -> outcome (thread * fw)).

(** One call of the stub of a function with the descriptor [m], called with
    [args]. *)
Definition exec_call (m : meta) (args : list value) (c : stub_call) (e : env) (st : stub_st) : outcome stub_st :=
  s ← fw_execs readonly (e_before e) (sb_fw st);
  let t := sb_task st in
  match c with
  | Alloc _ _ =>
      if (e_fresh1 e =? NULL) && negb (bool_decide (args = [])) then Trap
      else mret (mk_stub_st (sb_thread st) (e_fresh1 e) t (set_staged (<[e_fresh1 e := staged_cells (e_fresh1 e) (length args) (stageArguments (e_fresh1 e) args ∅)]> (f_staged s)) s))
  | Begin =>
      '(t, s) ← filc_async_begin (Some m) (sb_staging st) (e_fresh1 e) (e_fresh2 e) s;
      mret (mk_stub_st (sb_thread st) (sb_staging st) t s)
  | Lock_word value space mode =>
      '(s, _) ← filc_async_lock_word readonly (turns_of e) (e_rounds e) t value space mode (e_fresh1 e) (e_fresh2 e) s;
      mret (set_fw s st)
  | Lock_ptr p space mode =>
      '(s, _) ← filc_async_lock_ptr readonly (turns_of e) (e_rounds e) t p space mode (e_fresh1 e) (e_fresh2 e) s;
      mret (set_fw s st)
  | Stub.Mark_pending p =>
      '(s, _) ← filc_async_mark_pending readonly (turns_of e) (e_rounds e) (th_active (sb_thread st)) t p (e_fresh1 e) s;
      mret (set_fw s st)
  | Stub.Mark_input p =>
      k ← filc_async_mark_input readonly t p (e_fresh1 e) (f_marks s);
      mret (set_fw (set_marks k s) st)
  | Submit _ =>
      '(th, s) ← filc_async_submit (submit t) t (sb_thread st) s;
      mret (mk_stub_st th (sb_staging st) t s)
  end.

Fixpoint exec_calls (m : meta) (args : list value) (cs : list stub_call) (es : list env) (st : stub_st) : outcome stub_st :=
  match cs, es with
  | c :: cs, e :: es => st ← exec_call m args c e st; exec_calls m args cs es st
  | [], _ => mret st
  | _, [] => NoFuel
  end.

(** The stub of a function, as the pass emits it; [em] is what the pass
    emitted for the function. *)
Definition run_stub (em : emitted) (args : list value) (es : list env) (th : thread) (s : fw) : outcome stub_st :=
  exec_calls (em_meta em) args (emitStub (em_kinds em) (em_deps em) args) es (mk_stub_st th NULL NULL s).
End Stub.

(** ** What a call keeps

    A call loses none of its locks and none of its marks before it
    completes, unless a runtime resolves one of its objects early. *)

(** The operation neither completes [t] nor resolves one of its [objects]. *)
Definition spares (t : ptr) (objects : list ptr) (op : fw_op) : Prop :=
  match op with
  | Complete u _ => u <> t
  | Mark_op (Mark_resolved b) => f_lower b ∉ objects
  | Mark_op (Resolve_buffer u b) => u <> t \/ f_lower b ∉ objects
  | _ => True
  end.

(** [t] owns a mark on the object at [lower], a write mark if [write]. *)
Definition owns (t lower : ptr) (write : bool) (k : marks) : Prop :=
  exists x m, mark_on k lower x m /\ m_owner m = t /\ (write = true -> m_write m = true).

(** [t] holds the lock of a key. *)
Definition locked (t : ptr) (value space : Z) (write : bool) (s : fw) : Prop := exists h, holds_key h t value space write s.

Section Kept.
Context (readonly : ptr -> bool).
Abbreviation fw_inv := (fw_inv readonly).

Lemma owns_marked s s' b u w t lower write :
  marked s s' b u w -> owns t lower write s -> owns t lower write s'.
Proof.
  intros (y & m0 & Hy & Ho & _ & Hold & Hk) (x & m & Hm & Hmo & Hw). destruct (decide (x = y)) as [->|Hne].
  - destruct (Hold _ _ Hm) as (-> & Ho' & Hw'). exists y, m0. split; [done|]. split; [congruence|]. auto.
  - exists x, m. split; [by apply Hk|]. by split.
Qed.

Lemma owns_one_less s s' l (Q : mark -> Prop) t lower write :
  one_less s s' l Q -> owns t lower write s -> (forall m, Q m -> m_owner m = t -> l <> lower) -> owns t lower write s'.
Proof.
  intros [[-> _]|(y & m0 & Hy & HQ & Hk)] Hown HQt; [done|]. destruct Hown as (x & m & Hm & Hmo & Hw).
  exists x, m. split; [|by split]. apply Hk. split; [done|]. intros ->.
  destruct Hy as (_ & Hy & El), Hm as (_ & Hm & El'). rewrite Hy in Hm. injection Hm as <-. apply (HQt _ HQ Hmo). congruence.
Qed.

(** No marking call takes a mark of [t] away. *)
Lemma mk_exec_owns s op s' t lower write :
  marks_inv readonly s -> mk_op_ok op s -> mk_exec readonly op s = Ret s' -> t <> NULL ->
  spares t [lower] (Mark_op op) -> match op with Drop_marks _ => False | _ => True end ->
  owns t lower write s -> owns t lower write s'.
Proof.
  intros Hi Hop He Ht Hsp Hnd Hown. destruct op as [act u b fresh|u b fresh|u b fresh|b|u b|u]; cbn [mk_exec] in He; [..|done].
  - destruct Hop as (Hb & (Hf & Hfm & Hroom) & Hact).
    destruct (mark_pending_turn_ok readonly s act u b fresh) as (r & s1 & E & _ & Hr); try done.
    rewrite E in He. cbn in He. injection He as <-. destruct r; cbn in Hr.
    + by destruct Hr as (-> & _).
    + destruct Hr as (y & m0 & Hy & Ho & Hk). apply (owns_one_less s s1 (f_lower b) (fun m => m_owner m = NULL) _ _ _); [|done|congruence].
      right. by exists y, m0.
    + destruct Hr as [Hr _]. by apply (owns_marked s s1 b u true).
  - destruct (decide (f_addr b = NULL \/ u = NULL)) as [Hn|Hn].
    { unfold filc_async_mark_shared in He. destruct (Z.eqb_spec (f_addr b) NULL), (Z.eqb_spec u NULL); try (by injection He as ->); naive_solver. }
    destruct Hop as [?|[?|(Hb & Hf & Hfm & Hroom)]]; [naive_solver..|].
    destruct (filc_async_mark_shared_ok readonly s u b fresh) as (s1 & E & _ & Hr); try done; [naive_solver|].
    rewrite E in He. injection He as <-. by eapply owns_marked.
  - destruct (decide (f_addr b = NULL \/ u = NULL)) as [Hn|Hn].
    { unfold filc_async_mark_input in He. destruct (Z.eqb_spec (f_addr b) NULL), (Z.eqb_spec u NULL); try (by injection He as ->); naive_solver. }
    destruct Hop as [?|[?|(Hb & Hf & Hfm & Hroom)]]; [naive_solver..|].
    destruct (filc_async_mark_input_ok readonly s u b fresh) as (s1 & E & _ & Hr); try done; [naive_solver|].
    rewrite E in He. injection He as <-. by eapply owns_marked.
  - destruct (decide (f_addr b = NULL)) as [E|E].
    { unfold filc_async_mark_resolved in He. rewrite E in He. by injection He as ->. }
    destruct (filc_async_mark_resolved_ok readonly s b Hi E) as (s1 & E1 & _ & Hr). rewrite E1 in He. injection He as <-.
    eapply owns_one_less; [done..|]. intros m _ _ El. apply Hsp. rewrite El. left.
  - destruct (decide (f_addr b = NULL)) as [E|E].
    { unfold filc_async_resolve_buffer in He. rewrite E in He. by injection He as ->. }
    destruct (filc_async_resolve_buffer_ok readonly s u b Hi E) as (s1 & E1 & _ & Hr). rewrite E1 in He. injection He as <-.
    eapply owns_one_less; [done..|]. intros m Hm Hm' El. destruct Hsp as [Hne|Hno]; [congruence|]. apply Hno. rewrite El. left.
Qed.

Lemma spares_sub t l1 l2 op : l2 ⊆ l1 -> spares t l1 op -> spares t l2 op.
Proof. intros Hl. destruct op as [| |op|op| | | |]; try done. destruct op; cbn; set_solver. Qed.

(** What starting or delivering a task leaves alone. *)
Lemma task_start_frame rt m sa fresh ft s t s' :
  task_start rt m sa fresh ft s = Ret (t, s') -> f_locks s' = f_locks s /\ f_marks s' = f_marks s.
Proof.
  unfold task_start. destruct (rt =? NULL); [done|]. intros (? & _ & He)%bind_Ret_inv. apply bind_Ret_inv in He as (? & _ & He).
  apply bind_Ret_inv in He as (? & _ & He). injection He as _ <-. by destruct m.
Qed.

Lemma deliver_frame t s r : poll_deliver t s = Ret r -> f_locks (snd r) = f_locks s /\ f_marks (snd r) = f_marks s.
Proof.
  unfold poll_deliver. intros (tk & _ & He)%bind_Ret_inv. destruct (t_state tk =? 1); [by injection He as <-|].
  apply bind_Ret_inv in He as (? & _ & He). by injection He as <-.
Qed.

Lemma fw_exec_owns op s s' t lower write :
  fw_inv s -> fw_op_ok op s -> fw_exec readonly op s = Ret s' -> t <> NULL -> spares t [lower] op ->
  owns t lower write (f_marks s) -> owns t lower write (f_marks s').
Proof.
  intros Hi Hop He Ht Hsp Hown. destruct op as [rt m sa fresh ft|u result|op|op|u|c|rt snap tok st fr fm|u]; cbn [fw_exec] in He.
  - apply bind_Ret_inv in He as ([v s1] & He & E). injection E as <-. by destruct (task_start_frame _ _ _ _ _ _ _ _ He) as [_ ->].
  - destruct Hop as [->|[[tku Hu] Hnw]]; [cbn in He; by injection He as <-|].
    destruct (decide (t_state tku = 1)) as [E|E].
    + destruct (filc_async_complete_ok readonly s u result Hi) as (s1 & E1 & _ & Hc); [by exists tku|done|].
      rewrite E1 in He. injection He as <-. destruct Hown as (x & m & Hm & Ho & Hw). exists x, m. split; [|by split].
      apply (co_marks _ _ _ _ Hc). split; [done|]. cbn in Hsp. congruence.
    + rewrite (complete_not_running readonly s u result tku) in He by done. by injection He as <-.
  - apply bind_Ret_inv in He as (? & _ & He). by injection He as <-.
  - apply bind_Ret_inv in He as (k & He & E). injection E as <-. destruct Hop as (Hmk & _ & Hnd).
    apply (mk_exec_owns (f_marks s) op k); try done. apply Hi.
  - apply bind_Ret_inv in He as ([[? ?] s1] & He & E). injection E as <-. destruct (deliver_frame _ _ _ He) as [_ E]. cbn in E. by rewrite E.
  - injection He as <-. by destruct c.
  - destruct (join_start_ok readonly _ _ _ _ _ _ _ Hi Hop) as (s1 & es & E & _ & _ & [[_ ->]|[_ Hj]]); rewrite E in He; injection He as <-; [done|].
    destruct (js_marks _ _ _ _ _ _ Hj) as (x0 & gen & _ & Hon). destruct Hown as (x & m & Hm & Ho & Hw). exists x, m. split; [|by split].
    apply Hon. by right.
  - by injection He as <-.
Qed.

Lemma fw_exec_locked op s s' t value space write objs :
  fw_inv s -> fw_op_ok op s -> fw_exec readonly op s = Ret s' -> spares t objs op ->
  locked t value space write s -> locked t value space write s'.
Proof.
  intros Hi Hop He Hsp (h & hd & Hh & Ht & Hw & Hk).
  assert (Hsame : f_locks s' = f_locks s -> locked t value space write s') by (intros E; exists h, hd; by rewrite E).
  destruct op as [rt m sa fresh ft|u result|op|op|u|c|rt snap tok st fr fm|u]; cbn [fw_exec] in He.
  - apply bind_Ret_inv in He as ([v s1] & He & E). injection E as <-. apply Hsame. by destruct (task_start_frame _ _ _ _ _ _ _ _ He).
  - destruct Hop as [->|[[tku Hu] Hnw]]; [cbn in He; injection He as <-; by apply Hsame|].
    destruct (decide (t_state tku = 1)) as [E|E].
    + destruct (filc_async_complete_ok readonly s u result Hi) as (s1 & E1 & _ & Hc); [by exists tku|done|].
      rewrite E1 in He. injection He as <-. destruct (co_waiting _ _ _ _ Hc) as [Hsw _].
      exists h, hd. split; [apply (co_held _ _ _ _ Hc); split; [done|]; cbn in Hsp; congruence|]. split; [done|]. split; [done|].
      rewrite <- Hk. unfold hold_key. pose proof (Hsw (hd_lock hd)) as Hq. unfold lock_queue in Hq.
      destruct (lk_mem (f_locks s1) !! hd_lock hd), (lk_mem (f_locks s) !! hd_lock hd); try done. cbn in *. by injection Hq as -> -> _.
    + rewrite (complete_not_running readonly s u result tku) in He by done. injection He as <-. by apply Hsame.
  - apply bind_Ret_inv in He as (l' & He & E). injection E as <-. destruct Hop as [Hlk Hrel].
    destruct (lk_exec_held _ _ _ h hd (value, space) (fi_locks _ _ Hi) Hlk He) as [Hh' Hk']; [by destruct op|done|done|].
    by exists h, hd.
  - apply bind_Ret_inv in He as (k & He & E). injection E as <-. by apply Hsame.
  - apply bind_Ret_inv in He as ([[? ?] s1] & He & E). injection E as <-. apply Hsame. by destruct (deliver_frame _ _ _ He).
  - injection He as <-. apply Hsame. by destruct c.
  - apply Hsame. by destruct (join_start_running readonly _ _ _ _ _ _ _ _ He).
  - injection He as <-. by apply Hsame.
Qed.

(** ** What a call of the stub achieves *)

(** The key of a pointer. *)
Definition ptr_key (p : fptr) : Z := if f_addr p =? NULL then NULL else f_lower p.

Definition call_done (t : ptr) (s : fw) (c : stub_call) : Prop :=
  match c with
  | Lock_word value space mode => locked t value (word_space space) (mode =? FILC_ASYNC_DEP_WRITE) s
  | Lock_ptr p space mode => locked t (ptr_key p) (ptr_space space) (mode =? FILC_ASYNC_DEP_WRITE) s
  | Stub.Mark_pending p => f_addr p = NULL \/ owns t (f_lower p) true (f_marks s)
  | Stub.Mark_input p => f_addr p = NULL \/ owns t (f_lower p) false (f_marks s)
  | Alloc _ _ | Begin | Submit _ => True
  end.

(** The objects of the calls that mark. *)
Definition objects (cs : list stub_call) : list ptr :=
  omap (fun c => match c with Stub.Mark_pending p | Stub.Mark_input p => Some (f_lower p) | _ => None end) cs.

(** [t] runs, with what the calls [cs] achieve. *)
Definition prepared (t : ptr) (cs : list stub_call) (s : fw) : Prop := running s t /\ Forall (call_done t s) cs.

Lemma prepared_counts t cs : count_blind (prepared t cs).
Proof. intros a b c s [Hr Hf]. split; [done|]. eapply Forall_impl; [exact Hf|]. by intros []. Qed.

Lemma prepared_step op s s' t cs :
  fw_inv s -> fw_op_ok op s -> fw_exec readonly op s = Ret s' -> spares t (objects cs) op -> prepared t cs s -> prepared t cs s'.
Proof.
  intros Hi Hop He Hsp [Hr Hf]. pose proof Hr as (tk & Ht & _).
  assert (Htn : t <> NULL) by (apply (running_addr readonly s); [done|by eexists]).
  split; [eapply running_kept; try done; intros r ->; by apply Hsp|].
  rewrite Forall_forall in *. intros c Hc. specialize (Hf c Hc).
  assert (Hobj : forall p, (c = Stub.Mark_pending p \/ c = Stub.Mark_input p) -> spares t [f_lower p] op).
  { intros p Hp. apply (spares_sub t (objects cs)); [|done]. intros l ->%list_elem_of_singleton. unfold objects.
    apply list_elem_of_omap. exists c. split; [done|]. by destruct Hp as [->| ->]. }
  destruct c; cbn in *; try done; try (by eapply fw_exec_locked); (destruct Hf as [|Hf]; [by left|right]);
    eapply fw_exec_owns; try done; apply Hobj; auto.
Qed.

Lemma prepared_execs ops s s' t cs :
  fw_inv s -> ops_ok (fw_exec readonly) fw_op_ok ops s -> fw_execs readonly ops s = Ret s' -> Forall (spares t (objects cs)) ops ->
  prepared t cs s -> prepared t cs s' /\ fw_inv s'.
Proof.
  revert s. induction ops as [|op ops IH]; intros s Hi Hok He Hsp Hp; cbn in *; [by injection He as <-|].
  destruct Hok as [Hop Hok]. apply bind_Ret_inv in He as (s1 & H1 & He). apply Forall_cons in Hsp as [Hs1 Hsp].
  destruct (fw_exec_ok readonly s op Hi Hop) as (s1' & H1' & Hi1). rewrite H1 in H1'. injection H1' as <-.
  eapply IH; [done|by apply Hok|done|done|]. by apply (prepared_step op s s1).
Qed.

(** ** The loop of [filc_async_mark_pending] *)

Abbreviation fw_exec := (fw_exec readonly).
Abbreviation in_vain := (in_vain readonly).
Abbreviation sched_ok := (sched_ok readonly).

(** What a turn that marks relies on; every mark on the object has an owner. *)
Definition markable (act : list ptr) (t : ptr) (b : fptr) (fresh : ptr) (s : fw) : Prop :=
  running s t /\ fw_op_ok (Mark_op (Marks.Mark_pending act t b fresh)) s /\
  forall x m, mark_on (f_marks s) (f_lower b) x m -> m_owner m <> NULL.

Lemma markable_counts act t b fresh : count_blind (markable act t b fresh).
Proof. by intros a b' c s. Qed.

(** Nobody else is in the way on the object. *)
Definition sole (act : list ptr) (t : ptr) (b : fptr) (k : marks) : Prop :=
  forall x m, mark_on k (f_lower b) x m -> m_owner m = t \/ m_write m = false /\ m_owner m ∈ act.

(** The state that an operation leaves, from one where [W] holds. *)
Definition from_op (op : fw_op) (W : fw -> Prop) (s' : fw) : Prop :=
  fw_inv s' /\ exists s0, fw_inv s0 /\ W s0 /\ fw_op_ok op s0 /\ fw_exec op s0 = Ret s'.

(** [p] is in the way of [t]'s marking the object of [b]: it owns the object,
    and is neither [t] itself nor a reader that is active on this thread. *)
Definition owner_in_the_way (act : list ptr) (t : ptr) (b : fptr) (s : fw) (p : ptr) : Prop :=
  exists x m, mark_on (f_marks s) (f_lower b) x m /\ m_owner m = p /\ p <> t /\ (m_write m = true \/ ~ (p ∈ act)).

Lemma owner_in_the_way_turn act t b s x m :
  mark_on (f_marks s) (f_lower b) x m -> t <> NULL -> ~ not_in_the_way act t m -> owner_in_the_way act t b s (m_owner m).
Proof.
  intros Hm Ht Hno. exists x, m. split; [done|]. split; [done|]. split; [intros E; apply Hno; by left|].
  destruct (m_write m) eqn:E; [by left|right]. intros Hin. apply Hno. by right.
Qed.

Lemma mark_pending_loop_ok (W : fw -> Prop) fuel sched act t b fresh s :
  count_blind W -> fw_inv s -> sched_ok (fun s => markable act t b fresh s /\ W s) sched s -> (length sched <= fuel)%nat ->
  (exists s' rest, mark_pending_loop readonly fuel sched act t b fresh s = Ret (s', rest) /\
     owns t (f_lower b) true (f_marks s') /\ sole act t b (f_marks s') /\ from_op (Mark_op (Marks.Mark_pending act t b fresh)) W s') \/
  (mark_pending_loop readonly fuel sched act t b fresh s = NoFuel /\ in_vain (owner_in_the_way act t b) sched s).
Proof.
  intros HWc. revert sched s. induction fuel as [|fuel IH]; intros sched s Hi Hok Hf; cbn [mark_pending_loop];
    (assert (Hk : markable act t b fresh s /\ W s) by (by destruct sched; destruct Hok));
    destruct Hk as [(Hr & Hop & Hown) HW]; pose proof Hop as ((Hb & (Hfr & Hfm & Hroom) & Hact) & _);
    destruct (mark_pending_turn_ok readonly (f_marks s) act t b fresh (fi_marks _ _ Hi) Hb Hfr Hfm Hroom Hact) as (r & k & Er & Hk & Hturn);
    rewrite Er; cbn [mbind outcome_bind]; destruct r as [owner| |]; cbn in Hturn.
  2, 5: destruct Hturn as (x & m & Hm & Ho & _); by destruct (Hown x m Hm).
  2, 4: left; eexists _, sched; split; [done|]; destruct Hturn as [(x & m & Hm & Ho & Hw & _ & Hk') Hall];
    (split; [exists x, m; split; [done|]; split; [done|by apply Hw]|]);
    (split; [intros y m' Hy; destruct (decide (y = x)) as [->|Hne];
       [left; destruct Hy as (_ & Hy & _), Hm as (_ & Hm & _); change (mk_mem k !! x = Some m') in Hy; congruence|];
       apply Hk' in Hy; [|done]; destruct (Hall y m' Hy) as [[_ ?]|?]; auto|]);
    destruct (fw_exec_ok readonly s _ Hi Hop) as (s1 & E1 & Hi1); cbn in E1; rewrite Er in E1; cbn in E1; injection E1 as <-;
    (split; [done|]); exists s; split_and!; try done; cbn; rewrite Er; done.
  all: destruct Hturn as (-> & Hon & x & m & Hm & Hmo & Hno);
    assert (Htn : t <> NULL) by (destruct Hr as (tk & Ht & _); apply (running_addr readonly s); [done|by eexists]);
    pose proof (owner_in_the_way_turn act t b s x m Hm Htn Hno) as Hway; rewrite Hmo in Hway;
    assert (Hro : running s owner) by (rewrite <- Hmo; eapply fi_owns; [done|done|congruence]);
    replace (set_marks (f_marks s) s) with s by (by destruct s).
  { right. split; [done|]. eapply in_vain_here; [done| |done]. destruct sched; [done|cbn in Hf; lia]. }
  assert (Hkn : is_Some (f_tasks s !! owner)) by (destruct Hro as (? & ? & _); by eexists).
  destruct (wait_for_ok readonly _ sched owner s Hi Hok Hkn) as [(s1 & rest & -> & _ & Hw1 & Hl)|(-> & e & He & Hre)].
  2: { right. split; [done|]. by eapply in_vain_here. }
  cbn [mbind outcome_bind]. pose proof Hw1 as (Hi1 & Hok1 & _). specialize (Hl Hro).
  assert (Hs2 : exists a b c, count Pending_resolves s1 = set_wait_counts a b c s1) by (by eexists _, _, _). destruct Hs2 as (a & b' & c & ->).
  destruct (IH rest (set_wait_counts a b' c s1)) as [(s' & rest' & -> & H')|(-> & Hvain)].
  - by apply fw_inv_counts.
  - apply sched_ok_counts; [|done]. intros ? ? ? ? [? ?]. split; [by apply markable_counts|by apply HWc].
  - lia.
  - left. by exists s', rest'.
  - right. split; [done|]. eapply waited_in_vain; [exact Hw1|]. by apply (in_vain_counts _ _ a b' c).
Qed.

(** Marking an object returns, unless it waits in vain for a call that is in
    the way; then the call owns a write mark on the object, and no other call
    is in the way: the other marks are read marks of calls active on this
    thread.  As many turns as there are rounds are enough. *)
Theorem mark_pending_returns (s : fw) (sched : list round) (act : list ptr) (t : ptr) (b : fptr) (fresh : ptr) (fuel : nat) :
  fw_inv s -> f_addr b <> NULL -> sched_ok (markable act t b fresh) sched s -> (length sched <= fuel)%nat ->
  ~ in_vain (owner_in_the_way act t b) sched s ->
  exists s' rest, filc_async_mark_pending readonly fuel sched act t b fresh s = Ret (s', rest) /\
    owns t (f_lower b) true (f_marks s') /\ sole act t b (f_marks s').
Proof.
  intros Hi Hb Hok Hf Hend. unfold filc_async_mark_pending. destruct (Z.eqb_spec (f_addr b) NULL); [done|].
  destruct (mark_pending_loop_ok (fun _ => True) fuel sched act t b fresh s) as [(s' & rest & -> & H1 & H2 & _)|(_ & Hvain)]; try done.
  - apply (sched_ok_and readonly _ _ (fun _ => True)); try done. apply Forall_true. intros r. split; by apply Forall_true.
  - by exists s', rest.
Qed.

(** ** One call of a stub *)

Context (submit : ptr -> thread -> fw -> outcome (thread * fw)).
Abbreviation exec_call := (exec_call readonly submit).
Abbreviation fw_ops_ok := (ops_ok fw_exec fw_op_ok).

(** What the other threads do in the meantime satisfies [P]. *)
Definition meanwhile (P : fw_op -> Prop) (e : env) : Prop :=
  Forall P (e_before e) /\ Forall (fun r => Forall P (during_poll r) /\ Forall P (during_wait r)) (e_rounds e).

Definition lock_ready (t : ptr) (value space mode : Z) (e : env) (s : fw) : Prop :=
  fw_op_ok (Lock_op (Request t value space mode (e_fresh1 e) (e_fresh2 e))) s /\
  (forall h l, lock_enqueue t value space mode (e_fresh1 e) (e_fresh2 e) (f_locks s) = Ret (h, l) ->
     sched_ok (fun s => running s t) (e_rounds e) (set_locks l s)) /\
  meanwhile (fun op => op <> Lock_op (Grant (e_fresh2 e))) e.

(** What a call relies on when the lock is taken for it. *)
Definition call_ready (m : meta) (st : stub_st) (c : stub_call) (e : env) (s : fw) : Prop :=
  let t := sb_task st in
  match c with
  | Lock_word value space mode => lock_ready t value (word_space space) mode e s
  | Lock_ptr p space mode => lock_ready t (ptr_key p) (ptr_space space) mode e s
  | Stub.Mark_pending p => f_addr p = NULL \/ sched_ok (markable (th_active (sb_thread st)) t p (e_fresh1 e)) (e_rounds e) s
  | Stub.Mark_input p => fw_op_ok (Mark_op (Marks.Mark_input t p (e_fresh1 e))) s
  | Alloc _ _ => e_fresh1 e <> NULL
  | Begin => fw_op_ok (Start (me_runtime m) (Some m) (sb_staging st) (e_fresh1 e) (e_fresh2 e)) s
  | Submit _ => True
  end.

Definition step_ok (objs : list ptr) (m : meta) (c : stub_call) (e : env) (st : stub_st) : Prop :=
  fw_ops_ok (e_before e) (sb_fw st) /\ (sb_task st <> NULL -> meanwhile (spares (sb_task st) objs) e) /\
  forall s, fw_execs readonly (e_before e) (sb_fw st) = Ret s -> call_ready m st c e s.

(** The call waits in vain: its rounds are spent while a call that is in its
    way goes on running. *)
Definition call_stuck (c : stub_call) (e : env) (st : stub_st) : Prop :=
  exists s, fw_execs readonly (e_before e) (sb_fw st) = Ret s /\
  match c with
  | Lock_word value space mode => exists h l, lock_enqueue (sb_task st) value (word_space space) mode (e_fresh1 e) (e_fresh2 e) (f_locks s) = Ret (h, l) /\
      in_vain (in_the_way (sb_task st) h) (e_rounds e) (set_locks l s)
  | Lock_ptr p space mode => exists h l, lock_enqueue (sb_task st) (ptr_key p) (ptr_space space) mode (e_fresh1 e) (e_fresh2 e) (f_locks s) = Ret (h, l) /\
      in_vain (in_the_way (sb_task st) h) (e_rounds e) (set_locks l s)
  | Stub.Mark_pending p => in_vain (owner_in_the_way (th_active (sb_thread st)) (sb_task st) p) (e_rounds e) s
  | _ => False
  end.

(** The calls between the start of the task and its submission. *)
Definition of_body (c : stub_call) : bool := match c with Alloc _ _ | Begin | Submit _ => false | _ => true end.

(** The outcome of a call of the stub for which [cs] have been made. *)
Definition call_returns (cs : list stub_call) (c : stub_call) (st : stub_st) (o : outcome stub_st) : Prop :=
  exists s, o = Ret (set_fw s st) /\ fw_inv s /\ prepared (sb_task st) (cs ++ [c]) s.

Lemma prepared_snoc t cs c s : prepared t cs s -> call_done t s c -> prepared t (cs ++ [c]) s.
Proof. intros [Hr Hf] Hc. split; [done|]. by apply Forall_app, conj; [|apply Forall_singleton]. Qed.

Lemma turns_enough e : (length (e_rounds e) <= turns_of e)%nat.
Proof. unfold turns_of. lia. Qed.

Lemma meanwhile_rounds P Q e : meanwhile P e -> meanwhile Q e ->
  Forall (fun r => Forall (fun op => P op /\ Q op) (during_poll r) /\ Forall (fun op => P op /\ Q op) (during_wait r)) (e_rounds e).
Proof.
  intros [_ HP] [_ HQ]. rewrite !Forall_forall in *. intros r Hr. destruct (HP r Hr) as [P1 P2], (HQ r Hr) as [Q1 Q2].
  rewrite !Forall_forall in *. split; intros op Hop; auto.
Qed.

Lemma lock_step_ok objs cs c e st s value space mode :
  fw_inv s -> prepared (sb_task st) cs s -> objects cs ⊆ objs -> meanwhile (spares (sb_task st) objs) e ->
  lock_ready (sb_task st) value space mode e s -> (forall s', locked (sb_task st) value space (mode =? FILC_ASYNC_DEP_WRITE) s' -> call_done (sb_task st) s' c) ->
  (call_returns cs c st ('(s, _) ← lock_take readonly (turns_of e) (e_rounds e) (sb_task st) value space mode (e_fresh1 e) (e_fresh2 e) s; mret (set_fw s st))) \/
  lock_take readonly (turns_of e) (e_rounds e) (sb_task st) value space mode (e_fresh1 e) (e_fresh2 e) s = NoFuel /\
  exists h l, lock_enqueue (sb_task st) value space mode (e_fresh1 e) (e_fresh2 e) (f_locks s) = Ret (h, l) /\ in_vain (in_the_way (sb_task st) h) (e_rounds e) (set_locks l s).
Proof.
  intros Hi Hp Hobj Hsp (Hop & Hsched & Hng) Hdone. set (t := sb_task st) in *.
  destruct (lock_take_ok readonly (prepared t cs) (spares t objs) (turns_of e) (e_rounds e) t value space mode (e_fresh1 e) (e_fresh2 e) s)
    as [(s' & rest & -> & Hi' & _ & Hkey & s0 & Hi0 & Hp0 & Hop0 & He0)|(-> & l & El & Hvain)].
  - done.
  - done.
  - apply turns_enough.
  - apply prepared_counts.
  - intros op s1 s2 Hi1 Hop1 He1 Hg. eapply prepared_step; try done. by eapply spares_sub.
  - intros h l El. split; [|by eapply Hsched]. apply (prepared_step (Lock_op (Request t value space mode (e_fresh1 e) (e_fresh2 e))) s); try done.
    cbn. by rewrite El.
  - by apply meanwhile_rounds.
  - left. cbn. exists s'. split; [done|]. split; [done|]. apply prepared_snoc.
    + by apply (prepared_step (Lock_op (Grant (e_fresh2 e))) s0).
    + apply Hdone. by exists (e_fresh2 e).
  - right. split; [done|]. exists (e_fresh2 e), l. split; [done|done].
Qed.

Lemma mark_step_ok objs cs m e st s p :
  fw_inv s -> prepared (sb_task st) cs s -> objects cs ⊆ objs -> meanwhile (spares (sb_task st) objs) e ->
  call_ready m st (Stub.Mark_pending p) e s ->
  (call_returns cs (Stub.Mark_pending p) st
    ('(s, _) ← filc_async_mark_pending readonly (turns_of e) (e_rounds e) (th_active (sb_thread st)) (sb_task st) p (e_fresh1 e) s; mret (set_fw s st))) \/
  filc_async_mark_pending readonly (turns_of e) (e_rounds e) (th_active (sb_thread st)) (sb_task st) p (e_fresh1 e) s = NoFuel /\
  in_vain (owner_in_the_way (th_active (sb_thread st)) (sb_task st) p) (e_rounds e) s.
Proof.
  intros Hi Hp Hobj Hsp Hready. unfold filc_async_mark_pending. destruct (Z.eqb_spec (f_addr p) NULL) as [E|E].
  { left. exists s. split; [done|]. split; [done|]. apply prepared_snoc; [done|by left]. }
  destruct Hready as [|Hok]; [done|].
  destruct (mark_pending_loop_ok (prepared (sb_task st) cs) (turns_of e) (e_rounds e) (th_active (sb_thread st)) (sb_task st) p (e_fresh1 e) s)
    as [(s' & rest & -> & Hown & _ & Hi' & s0 & Hi0 & Hp0 & Hop0 & He0)|(-> & Hst)].
  - apply prepared_counts.
  - done.
  - apply (sched_ok_and readonly _ _ (spares (sb_task st) objs)); try done; [|apply Hsp].
    intros op s1 s2 Hi1 Hop1 He1 Hg. eapply prepared_step; try done. by eapply spares_sub.
  - apply turns_enough.
  - left. exists s'. split; [done|]. split; [done|]. apply prepared_snoc; [|by right].
    by apply (prepared_step (Mark_op (Marks.Mark_pending (th_active (sb_thread st)) (sb_task st) p (e_fresh1 e))) s0).
  - by right.
Qed.

(** A call of the stub, when the task has what the calls before it got: it
    adds what it is for, or waits in vain. *)
Lemma exec_call_ok objs cs m args c e st :
  fw_inv (sb_fw st) -> prepared (sb_task st) cs (sb_fw st) -> objects cs ⊆ objs -> step_ok objs m c e st -> of_body c = true ->
  call_returns cs c st (exec_call m args c e st) \/ (exec_call m args c e st = NoFuel /\ call_stuck c e st).
Proof.
  intros Hi0 Hp0 Hobj (Hops & Hsp0 & Hready) Hkind. assert (Hsp : meanwhile (spares (sb_task st) objs) e).
  { apply Hsp0. destruct Hp0 as [(tk & Ht & _) _]. apply (running_addr readonly (sb_fw st)); [done|by eexists]. }
  destruct (fw_execs_ok readonly _ _ Hi0 Hops) as (s & Es & _).
  destruct (prepared_execs (e_before e) (sb_fw st) s (sb_task st) cs Hi0 Hops Es) as [Hp Hi]; [|done|].
  { eapply Forall_impl; [apply Hsp|]. intros op. by apply spares_sub. }
  specialize (Hready s Es). unfold Calls.exec_call. rewrite Es. cbn [mbind outcome_bind].
  destruct c as [size align| |value space mode|p space mode|p|p|n]; try done.
  - destruct (lock_step_ok objs cs (Lock_word value space mode) e st s value (word_space space) mode) as [Hret|(E & h & l & Hst)]; try done.
    + by left.
    + right. unfold filc_async_lock_word. rewrite E. split; [done|]. exists s. split; [done|]. by exists h, l.
  - destruct (lock_step_ok objs cs (Lock_ptr p space mode) e st s (ptr_key p) (ptr_space space) mode) as [Hret|(E & h & l & Hst)]; try done.
    + by left.
    + right. unfold filc_async_lock_ptr. fold (ptr_key p). rewrite E. split; [done|]. exists s. split; [done|]. by exists h, l.
  - destruct (mark_step_ok objs cs m e st s p) as [Hret|(E & Hst)]; try done; [by left|]. right. rewrite E. split; [done|]. by exists s.
  - left. destruct (fw_exec_ok readonly s _ Hi Hready) as (s' & E & Hi'). pose proof E as E0. cbn in E.
    apply bind_Ret_inv in E as (k & Ek & E). injection E as <-. rewrite Ek. eexists. split; [done|]. split; [done|].
    apply prepared_snoc; [by apply (prepared_step _ _ _ _ _ Hi Hready E0)|]. cbn. destruct (decide (f_addr p = NULL)) as [En|En]; [by left|right].
    destruct Hready as (Hmk & _ & _). destruct Hp as [(tk & Ht & _) _].
    assert (Htn : sb_task st <> NULL) by (apply (running_addr readonly s); [done|by eexists]).
    destruct Hmk as [?|[?|(Hb & Hf & Hfm & Hroom)]]; [done..|].
    destruct (filc_async_mark_input_ok readonly (f_marks s) (sb_task st) p (e_fresh1 e)) as (k' & Ek' & _ & x & mm & Hx & Ho & _); try done; [apply Hi|].
    rewrite Ek in Ek'. injection Ek' as <-. by exists x, mm.
Qed.

(** ** The calls of a stub *)

Abbreviation exec_calls := (exec_calls readonly submit).

(** Every call finds what it relies on, where the run takes it. *)
Fixpoint calls_ok (objs : list ptr) (m : meta) (args : list value) (cs : list stub_call) (es : list env) (st : stub_st) : Prop :=
  match cs, es with
  | [], _ => True
  | _, [] => False
  | c :: cs, e :: es => step_ok objs m c e st /\ forall st', exec_call m args c e st = Ret st' -> calls_ok objs m args cs es st'
  end.

(** Some call waits in vain. *)
Fixpoint calls_stuck (m : meta) (args : list value) (cs : list stub_call) (es : list env) (st : stub_st) : Prop :=
  match cs, es with
  | c :: cs, e :: es => call_stuck c e st \/ exists st', exec_call m args c e st = Ret st' /\ calls_stuck m args cs es st'
  | _, _ => False
  end.

Lemma exec_calls_ok objs m args cs : forall cs0 es st rest,
  fw_inv (sb_fw st) -> prepared (sb_task st) cs0 (sb_fw st) -> objects (cs0 ++ cs) ⊆ objs -> forallb of_body cs = true ->
  calls_ok objs m args (cs ++ rest) es st ->
  (exists s es', exec_calls m args (cs ++ rest) es st = exec_calls m args rest es' (set_fw s st) /\ fw_inv s /\ prepared (sb_task st) (cs0 ++ cs) s /\
     calls_ok objs m args rest es' (set_fw s st) /\ (calls_stuck m args rest es' (set_fw s st) -> calls_stuck m args (cs ++ rest) es st)) \/
  (exec_calls m args (cs ++ rest) es st = NoFuel /\ calls_stuck m args (cs ++ rest) es st).
Proof.
  induction cs as [|c cs IH]; intros cs0 es st rest Hi Hp Hobj Hbody Hok; cbn [app] in *.
  - left. exists (sb_fw st), es. rewrite app_nil_r. replace (set_fw (sb_fw st) st) with st by (by destruct st). by split.
  - destruct es as [|e es]; [done|]. destruct Hok as [Hstep Hok]. apply andb_true_iff in Hbody as [Hbc Hbody].
    assert (Hobj0 : objects cs0 ⊆ objs) by (unfold objects in *; rewrite omap_app in Hobj; set_solver).
    cbn [Calls.exec_calls calls_stuck].
    destruct (exec_call_ok objs cs0 m args c e st Hi Hp Hobj0 Hstep Hbc) as [(s & E & Hi' & Hp')|(-> & Hst)]; [|right; by split; [|left]].
    rewrite E. cbn [mbind outcome_bind].
    destruct (IH (cs0 ++ [c]) es (set_fw s st) rest) as [(s' & es' & -> & H1 & H2 & H3 & H4)|(-> & Hst)]; try done.
    + by rewrite <- app_assoc.
    + by apply Hok.
    + left. exists s', es'. split; [done|]. split; [done|]. rewrite <- app_assoc in H2. split; [done|]. split; [done|].
      intros Hst. right. exists (set_fw s st). split; [done|]. by apply H4.
    + right. split; [done|]. right. by exists (set_fw s st).
Qed.

(** ** The stub as a whole *)

Definition body_calls (kinds deps : list Z) (args : list value) : list stub_call :=
  concat (zip_with lock_call deps args) ++ concat (zip_with mark_call kinds args) ++ concat (zip_with input_call kinds args).

Lemma emitStub_body kinds deps args :
  emitStub kinds deps args =
    [Alloc (Z.of_nat (length args) * 16) 16; Begin] ++ body_calls kinds deps args ++ [Submit (Z.of_nat (length args))].
Proof. unfold emitStub, body_calls. by rewrite <- !app_assoc. Qed.

Lemma forallb_concat {A} (f : A -> bool) (ls : list (list A)) : (forall l, l ∈ ls -> forallb f l = true) -> forallb f (concat ls) = true.
Proof.
  induction ls as [|l ls IH]; intros H; [done|]. cbn. rewrite forallb_app, IH by (intros; apply H; by right). by rewrite H by left.
Qed.

Lemma body_calls_body kinds deps args : forallb of_body (body_calls kinds deps args) = true.
Proof.
  unfold body_calls. rewrite !forallb_app, !forallb_concat; try done; intros l (x & v & -> & _)%elem_of_zip_with.
  - unfold input_call. destruct v; try done. by destruct (_ =? _).
  - unfold mark_call. destruct v; try done. by destruct (_ || _).
  - unfold lock_call. destruct (_ =? 0); [done|]. by destruct v.
Qed.

Lemma objects_emitStub kinds deps args : objects (body_calls kinds deps args) ⊆ objects (emitStub kinds deps args).
Proof. rewrite emitStub_body. unfold objects. rewrite !omap_app. set_solver. Qed.

Lemma set_staged_inv m s : fw_inv s -> fw_inv (set_staged m s).
Proof. intros []. by split. Qed.

Abbreviation run_stub := (run_stub readonly submit).

(** What the stub has done when it calls the runtime: [t] is its task. *)
Definition submits (em : emitted) (args : list value) (th : thread) (o : outcome stub_st) : Prop :=
  exists t staging s, fw_inv s /\ prepared t (emitStub (em_kinds em) (em_deps em) args) s /\
    o = ('(th', s') ← filc_async_submit (submit t) t th s; mret (mk_stub_st th' staging t s')).

(** The environment of a run. *)
Definition stub_ok (em : emitted) (args : list value) (es : list env) (th : thread) (s : fw) : Prop :=
  let cs := emitStub (em_kinds em) (em_deps em) args in
  calls_ok (objects cs) (em_meta em) args cs es (mk_stub_st th NULL NULL s).

Definition stub_stuck (em : emitted) (args : list value) (es : list env) (th : thread) (s : fw) : Prop :=
  calls_stuck (em_meta em) args (emitStub (em_kinds em) (em_deps em) args) es (mk_stub_st th NULL NULL s).

(** The start of the task. *)
Lemma begin_ok objs m args e st :
  fw_inv (sb_fw st) -> step_ok objs m Begin e st ->
  exists t s, exec_call m args Begin e st = Ret (mk_stub_st (sb_thread st) (sb_staging st) t s) /\ fw_inv s /\ prepared t [] s.
Proof.
  intros Hi (Hops & _ & Hready). destruct (fw_execs_ok readonly _ _ Hi Hops) as (s & Es & Hi1). specialize (Hready s Es).
  unfold Calls.exec_call. rewrite Es. cbn [mbind outcome_bind filc_async_begin].
  destruct (task_start_ok readonly s (me_runtime m) (Some m) (sb_staging st) (e_fresh1 e) (e_fresh2 e) Hi1 Hready) as (s' & -> & Hi' & Et & _). cbn.
  eexists _, s'. split; [done|]. split; [done|]. split; [|constructor]. eexists. by rewrite Et, lookup_insert_eq.
Qed.

(** The last call: the other threads, then the runtime. *)
Lemma submit_step_ok objs m args cs n es st :
  fw_inv (sb_fw st) -> prepared (sb_task st) cs (sb_fw st) -> objects cs ⊆ objs -> calls_ok objs m args [Submit n] es st ->
  exists s, fw_inv s /\ prepared (sb_task st) cs s /\
    exec_calls m args [Submit n] es st =
      ('(th', s') ← filc_async_submit (submit (sb_task st)) (sb_task st) (sb_thread st) s; mret (mk_stub_st th' (sb_staging st) (sb_task st) s')).
Proof.
  intros Hi Hp Hobj Hok. destruct es as [|e es]; [done|]. destruct Hok as [(Hops & Hsp & _) _].
  destruct (fw_execs_ok readonly _ _ Hi Hops) as (s & Es & _).
  destruct (prepared_execs (e_before e) (sb_fw st) s (sb_task st) cs Hi Hops Es) as [Hp' Hi']; [|done|].
  { assert (Hn : sb_task st <> NULL) by (destruct Hp as [(tk & Ht & _) _]; apply (running_addr readonly (sb_fw st)); [done|by eexists]).
    eapply Forall_impl; [apply (Hsp Hn)|]. intros op. by apply spares_sub. }
  exists s. split; [done|]. split; [done|]. cbn [Calls.exec_calls]. unfold Calls.exec_call. rewrite Es. cbn [mbind outcome_bind].
  by destruct (filc_async_submit _ _ _ _) as [[th' s']| | |].
Qed.

Lemma run_stub_ok em args es th s :
  fw_inv s -> stub_ok em args es th s ->
  submits em args th (run_stub em args es th s) \/ (run_stub em args es th s = NoFuel /\ stub_stuck em args es th s).
Proof.
  intros Hi Hok. unfold Calls.run_stub, stub_stuck, stub_ok, submits in *. pose proof (objects_emitStub (em_kinds em) (em_deps em) args) as Hobj.
  set (cs := emitStub (em_kinds em) (em_deps em) args) in *. set (objs := objects cs) in *. revert Hok. set (m := em_meta em).
  assert (Ecs : forall t s, prepared t (body_calls (em_kinds em) (em_deps em) args) s ->
    prepared t ([Alloc (Z.of_nat (length args) * 16) 16; Begin] ++ body_calls (em_kinds em) (em_deps em) args ++ [Submit (Z.of_nat (length args))]) s).
  { intros t s0 [Hr Hf]. split; [done|]. repeat constructor. by apply Forall_app; split; [|repeat constructor]. }
  unfold cs. rewrite emitStub_body. intros Hok. destruct es as [|ea es]; [done|]. destruct Hok as [(Hops & _ & Hready) Hok].
  destruct (fw_execs_ok readonly _ _ Hi Hops) as (s1 & E1 & Hi1). specialize (Hready s1 E1). cbn in Hready.
  assert (Ea : exists s2, exec_call m args (Alloc (Z.of_nat (length args) * 16) 16) ea (mk_stub_st th NULL NULL s) =
      Ret (mk_stub_st th (e_fresh1 ea) NULL s2) /\ fw_inv s2).
  { unfold Calls.exec_call. cbn [sb_fw]. cbn [sb_fw] in E1. rewrite E1. cbn [mbind outcome_bind]. destruct (Z.eqb_spec (e_fresh1 ea) NULL); [done|].
    eexists. split; [done|]. by apply set_staged_inv. }
  destruct Ea as (s2 & Ea & Hi2). cbn [app Calls.exec_calls calls_stuck]. specialize (Hok _ Ea). rewrite Ea. cbn [mbind outcome_bind].
  destruct es as [|eb es]; [done|]. destruct Hok as [Hstep Hok].
  destruct (begin_ok objs m args eb (mk_stub_st th (e_fresh1 ea) NULL s2) Hi2 Hstep) as (t & s3 & Eb & Hi3 & Hp3). specialize (Hok _ Eb). rewrite Eb. cbn [mbind outcome_bind sb_thread sb_staging] in *.
  cbn [app] in Hok.
  destruct (exec_calls_ok objs m args (body_calls (em_kinds em) (em_deps em) args) [] es (mk_stub_st th (e_fresh1 ea) t s3) [Submit (Z.of_nat (length args))] Hi3 Hp3 Hobj
    (body_calls_body _ _ _) Hok) as [(s4 & es' & -> & Hi4 & Hp4 & Hok4 & _)|(-> & Hst)].
  - left. destruct (submit_step_ok objs m args _ _ es' (set_fw s4 (mk_stub_st th (e_fresh1 ea) t s3)) Hi4 Hp4 Hobj Hok4) as (s5 & Hi5 & Hp5 & ->). exists t, (e_fresh1 ea), s5. cbn.
    split; [done|]. split; [by apply Ecs|done].
  - right. split; [done|]. right. eexists. split; [reflexivity|]. right. eexists. split; [exact Eb|exact Hst].
Qed.

(** C6: what a stub has done when it hands its call to the runtime.  If the
    stub returns, it did so by submitting its task to the runtime in a state
    where the task is running, holds the lock of every dependency in the mode
    and for the key the stub names, and owns a write mark on the object of
    every output and a mark on the object of every input; whatever the other
    threads do in the meantime, short of completing the task or resolving its
    objects. *)
Theorem stub_prepares (em : emitted) (args : list value) (es : list env) (th : thread) (s : fw) (st : stub_st) :
  fw_inv s -> stub_ok em args es th s -> run_stub em args es th s = Ret st -> submits em args th (Ret st).
Proof. intros Hi Hok He. destruct (run_stub_ok em args es th s Hi Hok) as [Hs|[E _]]; [by rewrite <- He|congruence]. Qed.


(** C15: what a submitted call has it keeps.  As long as nobody completes the
    call or resolves one of its objects, it goes on running, with every lock
    and every mark its stub took, whatever else happens. *)
Theorem call_keeps (t : ptr) (cs : list stub_call) (s s' : fw) (ops : list fw_op) :
  fw_inv s -> prepared t cs s -> fw_ops_ok ops s -> Forall (spares t (objects cs)) ops -> fw_execs readonly ops s = Ret s' ->
  fw_inv s' /\ prepared t cs s'.
Proof. intros Hi Hp Hok Hsp He. by destruct (prepared_execs ops s s' t cs Hi Hok He Hsp Hp). Qed.

(** ** Calls that are in flight together *)

Lemma locked_exclusive t1 t2 value space w1 w2 s :
  fw_inv s -> locked t1 value space w1 s -> locked t2 value space w2 s -> t1 <> t2 -> w1 = false /\ w2 = false.
Proof.
  intros Hi (h1 & hd1 & Hh1 & <- & <- & Hk1) (h2 & hd2 & Hh2 & <- & <- & Hk2) Hne.
  apply (held_exclusive (f_locks s) h1 h2); try done; [apply Hi|congruence].
Qed.

(** Two arguments are the same resource: the same number, or pointers into
    one object. *)
Definition same_resource (v1 v2 : value) : Prop :=
  match v1, v2 with
  | VPtr p1, VPtr p2 => ptr_key p1 = ptr_key p2
  | VInt _ n1, VInt _ n2 => u64 n1 = u64 n2
  | _, _ => False
  end.

(** The calls that take a stub's locks. *)
Definition stub_locks (deps : list Z) (args : list value) : list stub_call := concat (zip_with lock_call deps args).

Lemma prepared_locks t kinds deps args s : prepared t (emitStub kinds deps args) s -> prepared t (stub_locks deps args) s.
Proof.
  intros [Hr Hf]. split; [done|]. rewrite emitStub_body in Hf. apply Forall_app in Hf as [_ Hf]. apply Forall_app in Hf as [Hf _].
  by apply Forall_app in Hf as [Hf _].
Qed.

Lemma stub_locks_objects deps args : objects (stub_locks deps args) = [].
Proof.
  unfold objects, stub_locks. revert args. induction deps as [|d deps IH]; intros [|v args]; try done. cbn [zip_with concat]. rewrite omap_app, IH, app_nil_r.
  unfold lock_call. destruct (_ =? 0); [done|]. by destruct v.
Qed.

(** The lock an argument's dependency takes. *)
Lemma dependency_locked t deps args s i v write pointer ns :
  prepared t (stub_locks deps args) s -> args !! i = Some v -> deps !! i = Some (dep_encode (Dep write pointer ns)) ->
  1 <= ns <= DEP_NAMESPACE_MASK ->
  match v with
  | VPtr p => locked t (ptr_key p) (ptr_space ((if pointer then DEP_POINTER else 0) + 256 * ns)) write s
  | _ => locked t (lock_value v) (word_space ((if pointer then DEP_POINTER else 0) + 256 * ns)) write s
  end.
Proof.
  intros [_ Hf] Hv Hd Hns. destruct (encoded_parts write pointer ns Hns) as [Em Es].
  assert (Hin : forall c, c ∈ lock_call (dep_encode (Dep write pointer ns)) v -> call_done t s c).
  { intros c Hc. rewrite Forall_forall in Hf. apply Hf. unfold stub_locks. apply list_elem_of_In, in_concat. exists (lock_call (dep_encode (Dep write pointer ns)) v). split; [|by apply list_elem_of_In].
    apply list_elem_of_In, elem_of_lookup_zip_with. by exists i, (dep_encode (Dep write pointer ns)), v. }
  unfold lock_call in Hin. rewrite Em, Es in Hin. assert (Hmode : ((if write then DEP_WRITE else DEP_READ) =? 0) = false) by (by destruct write).
  rewrite Hmode in Hin. assert (Hw : ((if write then DEP_WRITE else DEP_READ) =? FILC_ASYNC_DEP_WRITE) = write) by (by destruct write).
  destruct v; specialize (Hin _ ltac:(left)); cbn [call_done] in Hin; by rewrite Hw in Hin.
Qed.

(** What is in the staging blocks does not matter to the locks. *)
Lemma prepared_staged m t cs s : prepared t cs s -> prepared t cs (set_staged m s).
Proof. intros [Hr Hf]. split; [done|]. eapply Forall_impl; [exact Hf|]. by intros []. Qed.
End Kept.

(** A [submit] that leaves the framework alone: what the call's runtime does
    to it is among the operations that follow. *)
Definition submit_later (t : ptr) (th : thread) (s : fw) : outcome (thread * fw) := Ret (th, s).

(** In the state [s] the call [t] of a function, which the pass gave the stub
    [em], is in flight: a thread has run the stub to its end, against whatever
    the others did meanwhile, and of all the operations since then, its
    runtime's and the other threads', none has completed it.  (Other stubs may
    have filled staging blocks, too: [m].) *)
Definition in_flight (readonly : ptr -> bool) (em : emitted) (args : list value) (t : ptr) (s : fw) : Prop :=
  exists es th s0 st ops s1 m, fw_inv readonly s0 /\ stub_ok readonly submit_later em args es th s0 /\
    run_stub readonly submit_later em args es th s0 = Ret st /\ sb_task st = t /\
    ops_ok (fw_exec readonly) fw_op_ok ops (sb_fw st) /\ Forall (fun op => forall r, op <> Complete t r) ops /\
    fw_execs readonly ops (sb_fw st) = Ret s1 /\ s = set_staged m s1.

Section Flight.
Context (readonly : ptr -> bool).
Abbreviation fw_inv := (fw_inv readonly).
Abbreviation fw_exec := (fw_exec readonly).

Lemma in_flight_locks em args t s : in_flight readonly em args t s -> fw_inv s /\ prepared t (stub_locks (em_deps em) args) s.
Proof.
  intros (es & th & s0 & st & ops & s1 & m & Hi & Hok & E & <- & Hops & Hsp & He & ->).
  destruct (run_stub_ok readonly submit_later em args es th s0 Hi Hok) as [(t & staging & s2 & Hi2 & Hp & E2)|[E2 _]]; [|congruence].
  rewrite E in E2. symmetry in E2. apply bind_Ret_inv in E2 as ([th' s'] & Es & E2). injection E2 as <-. cbn [sb_task sb_fw] in *.
  unfold filc_async_submit in Es. apply bind_Ret_inv in Es as (act & _ & Es). cbn in Es. injection Es as _ <-.
  apply prepared_locks in Hp. destruct (prepared_execs readonly ops s2 s1 t (stub_locks (em_deps em) args) Hi2 Hops He) as [Hp1 Hi1]; [|done|].
  - rewrite stub_locks_objects. eapply Forall_impl; [exact Hsp|]. intros op Hop. destruct op as [|u r| |op| | | |]; try done; [intros ->; by destruct (Hop r)|].
    destruct op; cbn; try done; [apply not_elem_of_nil|right; apply not_elem_of_nil].
  - split; [by apply set_staged_inv|by apply prepared_staged].
Qed.

(** C4: calls in flight together do not conflict.  When the stubs of two calls
    have returned and neither call has been completed, and an argument of each
    has a dependency on the same resource in the same namespace, both
    dependencies are reads; however the two stubs, the runtimes and the other
    threads were interleaved. *)
Theorem calls_apart (em1 em2 : emitted) (args1 args2 : list value) (t1 t2 : ptr) (s : fw)
  (i j : nat) (v1 v2 : value) (write1 write2 pointer : bool) (ns : Z) :
  in_flight readonly em1 args1 t1 s -> in_flight readonly em2 args2 t2 s -> t1 <> t2 ->
  args1 !! i = Some v1 -> em_deps em1 !! i = Some (dep_encode (Dep write1 pointer ns)) ->
  args2 !! j = Some v2 -> em_deps em2 !! j = Some (dep_encode (Dep write2 pointer ns)) ->
  1 <= ns <= DEP_NAMESPACE_MASK -> same_resource v1 v2 -> write1 = false /\ write2 = false.
Proof.
  intros [Hi Hp1]%in_flight_locks [_ Hp2]%in_flight_locks Hne Hv1 Hd1 Hv2 Hd2 Hns Hsame.
  pose proof (dependency_locked _ _ _ _ _ _ _ _ _ Hp1 Hv1 Hd1 Hns) as H1.
  pose proof (dependency_locked _ _ _ _ _ _ _ _ _ Hp2 Hv2 Hd2 Hns) as H2.
  destruct v1 as [p1|b1 n1|x1], v2 as [p2|b2 n2|x2]; try done; cbn in Hsame, H1, H2; rewrite Hsame in H1; by apply (locked_exclusive readonly t1 t2 _ _ _ _ s Hi H1 H2).
Qed.

(** *** Producers *)

(** An object has at most one producer. *)
Definition one_producer (k : marks) : Prop :=
  forall l x y m1 m2, mark_on k l x m1 -> mark_on k l y m2 -> m_write m1 = true -> m_write m2 = true -> x = y.

Lemma one_producer_sub k k' : (forall l x m, mark_on k' l x m -> mark_on k l x m) -> one_producer k -> one_producer k'.
Proof. intros Hsub H l x y m1 m2 H1 H2. by apply (H l x y m1 m2); apply Hsub. Qed.

Lemma one_less_sub k k' l Q : one_less k k' l Q -> one_producer k -> one_producer k'.
Proof. intros [[-> _]|(y & m & _ & _ & Hk)]; [done|]. apply one_producer_sub. by intros l' x m' [? _]%Hk. Qed.

Lemma mark_add_producer k k' b t write fresh :
  marks_inv readonly k -> buf_ok k b -> fresh_ok k fresh -> mark_owned (f_lower b) t k = Ret None -> t <> NULL ->
  mark_add readonly b t write fresh k = Ret k' ->
  (write = true -> forall x m, mark_on k (f_lower b) x m -> m_write m = false) -> one_producer k -> one_producer k'.
Proof.
  intros Hi Hb (Hf & Hfm & Hroom) Hown Ht He Hno H. destruct (mark_owned_ok readonly k b t Hi) as (r & Er & Hs).
  rewrite Hown in Er. injection Er as <-.
  destruct (mark_add_ok readonly k b t write fresh Hi Hb Hf Hfm Hroom) as (k1 & z & gen & E & _ & _ & Hon & _); [done|].
  rewrite He in E. injection E as <-. intros l x y m1 m2 [(-> & -> & ->)|H1]%Hon [(-> & E & ->)|H2]%Hon W1 W2; cbn in *; try done; subst.
  - rewrite (Hno eq_refl _ _ H2) in W2. done.
  - rewrite (Hno eq_refl _ _ H1) in W1. done.
  - by apply (H l x y m1 m2).
Qed.

Lemma mk_exec_producer k op k' :
  marks_inv readonly k -> mk_op_ok op k -> mk_exec readonly op k = Ret k' -> match op with Mark_shared _ _ _ => False | _ => True end ->
  one_producer k -> one_producer k'.
Proof.
  intros Hi Hop He Hns H. destruct op as [act t b fresh|t b fresh|t b fresh|b|t b|t]; cbn [mk_exec] in He; [|done|..].
  - destruct Hop as (Hb & (Hf & Hfm & Hroom) & Hact).
    destruct (mark_pending_turn_ok readonly k act t b fresh) as (r & k1 & E & Hi' & Hr); try done.
    rewrite E in He. cbn in He. injection He as <-. destruct r; cbn in Hr.
    + by destruct Hr as (-> & _).
    + destruct Hr as (y & m0 & _ & _ & Hk). revert H. apply one_producer_sub. by intros l x m [? _]%Hk.
    + destruct Hr as [(z & m0 & Hz & Ho & _ & _ & Hk) Hall].
      assert (Hz1 : forall y m2, y <> z -> mark_on k1 (f_lower b) y m2 -> m_write m2 = true -> False).
      { intros y m2 Hne H2 W2. pose proof H2 as H2k. apply Hk in H2k; [|done]. destruct (Hall y m2 H2k) as [[Htn Eo]|[W _]]; [|congruence].
        apply Hne. apply (mi_one _ _ Hi' (f_lower b) y z m2 m0); try done; congruence. }
      assert (Hl : forall l x m, x = z -> mark_on k1 l x m -> l = f_lower b).
      { intros l x m -> (_ & Hm & El). destruct Hz as (_ & Hz & El'). rewrite Hz in Hm. injection Hm as <-. congruence. }
      intros l x y m1 m2 H1 H2 W1 W2. destruct (decide (x = z)) as [Ex|Ex], (decide (y = z)) as [Ey|Ey]; [congruence|..].
      * destruct (Hz1 y m2 Ey); [|done]. by rewrite <- (Hl _ _ _ Ex H1).
      * destruct (Hz1 x m1 Ex); [|done]. by rewrite <- (Hl _ _ _ Ey H2).
      * apply (H l x y m1 m2); try done; by apply Hk.
  - unfold filc_async_mark_input in He. destruct (Z.eqb_spec (f_addr b) NULL); [by injection He as <-|].
    destruct (Z.eqb_spec t NULL); [by injection He as <-|]. cbn in He. apply bind_Ret_inv in He as (own & Eown & He).
    destruct own as [x|]; [by injection He as <-|]. destruct Hop as [?|[?|(Hb & Hf)]]; [done..|].
    by apply (mark_add_producer k k' b t false fresh).
  - destruct (decide (f_addr b = NULL)) as [E|E].
    { unfold filc_async_mark_resolved in He. rewrite E in He. by injection He as <-. }
    destruct (filc_async_mark_resolved_ok readonly k b Hi E) as (k1 & E1 & _ & Hr). rewrite E1 in He. injection He as <-. by eapply one_less_sub.
  - destruct (decide (f_addr b = NULL)) as [E|E].
    { unfold filc_async_resolve_buffer in He. rewrite E in He. by injection He as <-. }
    destruct (filc_async_resolve_buffer_ok readonly k t b Hi E) as (k1 & E1 & _ & Hr). rewrite E1 in He. injection He as <-. by eapply one_less_sub.
  - destruct (remove_marks_ok readonly t k _ Hi Hop (le_n _)) as (k1 & E1 & _ & Hon & _). rewrite E1 in He. injection He as <-.
    revert H. apply one_producer_sub. by intros l x m [? _]%Hon.
Qed.

(** The histories without explicit reads, which share an object with the
    calls that produce it, and with wait_all's tokens new. *)
Definition plain (op : fw_op) (s : fw) : Prop :=
  match op with
  | Mark_op (Mark_shared _ _ _) => False
  | Wait_all _ _ token _ _ _ => forall x m, ~ mark_on (f_marks s) (f_lower token) x m
  | _ => True
  end.

Lemma fw_exec_producer op s s' :
  fw_inv s -> fw_op_ok op s /\ plain op s -> fw_exec op s = Ret s' -> one_producer (f_marks s) -> one_producer (f_marks s').
Proof.
  intros Hi [Hop Hpl] He H. destruct op as [rt m sa fresh ft|u result|op|op|u|c|rt snap tok st fr fm|u]; cbn [Framework.fw_exec] in He.
  - apply bind_Ret_inv in He as ([v s1] & He & E). injection E as <-. by destruct (task_start_frame _ _ _ _ _ _ _ _ He) as [_ ->].
  - destruct Hop as [->|[[tku Hu] Hnw]]; [cbn in He; by injection He as <-|].
    destruct (decide (t_state tku = 1)) as [E|E].
    + destruct (filc_async_complete_ok readonly s u result Hi) as (s1 & E1 & _ & Hc); [by exists tku|done|].
      rewrite E1 in He. injection He as <-. revert H. apply one_producer_sub. by intros l x m [? _]%(co_marks _ _ _ _ Hc).
    + rewrite (complete_not_running readonly s u result tku) in He by done. by injection He as <-.
  - apply bind_Ret_inv in He as (? & _ & He). by injection He as <-.
  - apply bind_Ret_inv in He as (k & He & E). injection E as <-. destruct Hop as (Hmk & _ & _).
    apply (mk_exec_producer (f_marks s) op k); try done. apply Hi.
  - apply bind_Ret_inv in He as ([[? ?] s1] & He & E). injection E as <-. destruct (deliver_frame _ _ _ He) as [_ E]. cbn in E. by rewrite E.
  - injection He as <-. by destruct c.
  - destruct (join_start_ok readonly _ _ _ _ _ _ _ Hi Hop) as (s1 & es & E & _ & _ & [[_ ->]|[_ Hj]]); rewrite E in He; injection He as <-; [done|].
    destruct (js_marks _ _ _ _ _ _ Hj) as (z & gen & _ & Hon). intros l x y m1 m2 H1 H2 W1 W2. apply Hon in H1, H2.
    destruct H1 as [(-> & -> & ->)|H1], H2 as [(-> & E2 & ->)|H2]; try done; subst; [by destruct (Hpl _ _ H2)|by destruct (Hpl _ _ H1)|].
    by apply (H l x y m1 m2).
  - by injection He as <-.
Qed.

Abbreviation plain_reach := (reach fw_exec (fun op s => fw_op_ok op s /\ plain op s) fw_init).

Lemma plain_reach_ok s : plain_reach s -> fw_inv s /\ one_producer (f_marks s).
Proof.
  intros H. induction H as [|s op s' _ [Hi Hp] Hop He]; [split; [apply fw_init_inv|]|].
  - intros l x y m1 m2 (_ & Hm & _). cbn in Hm. by rewrite lookup_empty in Hm.
  - destruct (fw_exec_ok readonly s op Hi (proj1 Hop)) as (s1 & E & Hi1). rewrite He in E. injection E as <-. split; [done|].
    by apply (fw_exec_producer op s s').
Qed.

(** C16: calls in flight together write different objects.  Without explicit
    reads, two calls that both run, each with an output its stub marked, do
    not have an object in common among their outputs. *)
Theorem outputs_apart (t1 t2 : ptr) (cs1 cs2 : list stub_call) (s : fw) (p1 p2 : fptr) :
  plain_reach s -> prepared t1 cs1 s -> prepared t2 cs2 s ->
  Stub.Mark_pending p1 ∈ cs1 -> Stub.Mark_pending p2 ∈ cs2 -> f_addr p1 <> NULL -> f_addr p2 <> NULL ->
  f_lower p1 = f_lower p2 -> t1 = t2.
Proof.
  intros [Hi H]%plain_reach_ok [_ F1] [_ F2] I1 I2 N1 N2 El. rewrite Forall_forall in F1, F2.
  destruct (F1 _ I1) as [|(x & m1 & M1 & <- & W1)]; [done|]. destruct (F2 _ I2) as [|(y & m2 & M2 & <- & W2)]; [done|].
  rewrite <- El in M2. pose proof (H _ x y m1 m2 M1 M2 (W1 eq_refl) (W2 eq_refl)) as ->.
  destruct M1 as (_ & M1 & _), M2 as (_ & M2 & _). congruence.
Qed.

(** A call's body reaches the call's own objects.  While
    [filc_async_run] runs the body of a call that owns a mark on an object,
    and nobody else produces the object, an access of the body returns at
    once, whoever else reads the object; and the thread is as it was. *)
Theorem run_reaches_own (t : ptr) (th : thread) (s : fw) (p : fptr) (write : bool) (result : Z) :
  fw_inv s -> buf_ok (f_marks s) p -> t <> NULL -> owns t (f_lower p) write (f_marks s) ->
  (forall x m, mark_on (f_marks s) (f_lower p) x m -> m_write m = true -> m_owner m = t \/ m_owner m = NULL) ->
  NULL ∉ th_active th -> Z.of_nat (length (th_active th)) <> MAX_ACTIVE ->
  filc_async_run (Some (fun th s => '(s, _) ← filc_async_wait_access readonly 0 [] (th_active th) p s; mret (result, th, s))) t th s =
    Ret (result, th, s).
Proof.
  intros Hi Hb Ht (x & m & Hm & Ho & _) Hw Hnull Hact. unfold filc_async_run, active_push.
  destruct (Z.eqb_spec (Z.of_nat (length (th_active th))) MAX_ACTIVE); [done|]. cbn [mbind outcome_bind mret outcome_ret th_active].
  unfold filc_async_wait_access. destruct (Z.eqb_spec (f_addr p) NULL) as [E|E]; [by destruct th|].
  unfold wait_access_locked. destruct (access_own_ok readonly (f_marks s) (t :: th_active th) p (fi_marks _ _ Hi) Hb) as (own & Eown & Hown); [by apply not_elem_of_cons|].
  rewrite Eown. cbn [mbind outcome_bind].
  assert (own = true) as ->. { apply Hown. exists x, m. split; [done|]. rewrite Ho. by left. }
  cbn [wait_access_loop]. destruct (access_owner_ok readonly (f_marks s) (t :: th_active th) true p (fi_marks _ _ Hi) Hb) as (q & -> & _ & Hq).
  cbn [mbind outcome_bind]. destruct (Z.eqb_spec q NULL) as [|Eq]; [by destruct th|]. exfalso.
  destruct (Hq Eq) as (y & my & Hy & Ha & Eo). unfold access_waits, is_active in Ha. rewrite Eo in Ha.
  apply andb_true_iff in Ha as [[_ Hna]%andb_true_iff Hwr]. rewrite orb_false_r in Hwr.
  destruct (Hw y my Hy Hwr) as [Et|En]; [|congruence]. apply negb_true_iff, bool_decide_eq_false in Hna. apply Hna. rewrite <- Eo, Et. left.
Qed.
End Flight.

(** ** A concrete call

    Call 64 is producing the object at 4096 when another thread calls [reads]
    (the file Pass) with a pointer into it: the stub waits until call 64 is
    completed. *)

Lemma owners_check k l :
  map_Forall (fun x m => x ∈ mk_free k \/ m_owner m <> NULL) (mk_mem k) -> forall x m, mark_on k l x m -> m_owner m <> NULL.
Proof.
  intros H x m (Hx & Hm & _). destruct (H x m Hm) as [Hf|]; [|done]. unfold mark_live in Hx.
  apply elem_of_difference in Hx as [_ Hx]. by rewrite elem_of_list_to_set in Hx.
Qed.

Definition call_ops : list fw_op := [Start 4096 (Some meta_read) NULL 64 20480; Mark_op (Marks.Mark_pending [] 64 buf_a 28672)].
Definition fw_c : fw := fw_run call_ops.

Lemma fw_c_reach : reach (fw_exec ro_8192) (fun op s => fw_op_ok op s /\ plain op s) fw_init fw_c.
Proof.
  assert (Hok : ops_ok (fw_exec ro_8192) (fun op s => fw_op_ok op s /\ plain op s) call_ops fw_init)
    by (unfold call_ops; ops_concrete ltac:(split; [fw_op_concrete|exact I])).
  eapply execs_reach; [apply reach_init|exact Hok|point].
Qed.

Lemma fw_c_inv : fw_inv ro_8192 fw_c.
Proof. apply (plain_reach_ok ro_8192 fw_c fw_c_reach). Qed.

Definition em_read : emitted := Eval vm_compute in match run_result.1 with em :: _ => em | [] => mk_emitted "" meta_read [] [] [] (EmptyString, None) end.
Definition call_args : list value := [VInt 32 5; VPtr buf_a; VInt 64 64].
Definition call_round : round := mk_round [Complete 64 9] true [Complete 64 9].
Definition call_envs : list env :=
  [mk_env [] 40960 NULL []; mk_env [] 192 20480 []; mk_env [] 32768 32832 [call_round]; mk_env [] 28736 NULL [call_round]; mk_env [] NULL NULL []].
Definition idle : thread := mk_thread [] NULL.

(** A runtime that completes the call at once. *)
Definition submit_done (t : ptr) (th : thread) (s : fw) : outcome (thread * fw) :=
  s ← filc_async_complete ro_8192 t 0 s; mret (th, s).

Definition fd_space : Z := Eval vm_compute in 256 * hashNamespace "fd:file".
Definition call_list : list stub_call :=
  [Alloc 48 16; Begin; Lock_word 5 fd_space DEP_WRITE; Stub.Mark_pending buf_a; Submit 3].

Lemma call_list_is : emitStub (em_kinds em_read) (em_deps em_read) call_args = call_list.
Proof. vm_compute. reflexivity. Qed.

Ltac markable_concrete := split; [fw_running|split; [fw_op_concrete|apply owners_check; point]].
Ltac meanwhile_concrete := split; cbn [e_before e_rounds];
  repeat first [apply Forall_nil_2 | (apply Forall_cons; split) | split]; cbn [during_poll during_wait call_round spares];
  repeat first [apply Forall_nil_2 | (apply Forall_cons; split)]; first [exact I | point | discriminate].

Lemma after_pair_ret {A B} (o : outcome (A * B)) (d : A * B) (P : A -> B -> Prop) :
  P (fst (after d o)) (snd (after d o)) -> forall a b, o = Ret (a, b) -> P a b.
Proof. by intros H a b ->. Qed.
Ltac after_pair :=
  lazymatch goal with |- forall a b, ?o = Ret (a, b) -> @?P a b =>
    let d := lazymatch o with _ ?s => s end in refine (after_pair_ret o (NULL, d) P _); cbv beta end.

(** The next call of [calls_ok]: the others' operations, what spares the task,
    and by [tac] what the call itself relies on. *)
Ltac call_step tac :=
  split; [split; [exact I|split; [intros _; meanwhile_concrete|after_call; lazy beta iota zeta delta [call_ready lock_ready e_rounds e_fresh1 e_fresh2 em_read em_meta me_runtime]; tac]]|after_call].
Ltac lock_concrete := split; [fw_op_concrete|split; [after_pair; sched_concrete ltac:(cbn beta; fw_running)|meanwhile_concrete]].

Lemma call_stub_ok : stub_ok ro_8192 submit_done em_read call_args call_envs idle fw_c.
Proof.
  unfold stub_ok. rewrite call_list_is. change (objects call_list) with [4096]. unfold call_list, call_envs.
  call_step ltac:(discriminate).
  call_step ltac:(fw_op_concrete).
  call_step ltac:(lock_concrete).
  call_step ltac:(right; sched_concrete ltac:(markable_concrete)).
  call_step ltac:(exact I).
  exact I.
Qed.

Definition only_192_running (s : fw) : Prop := running_list s = [192].
Definition only_192_after (o : outcome fw) : Prop := match o with Ret s => running_list s = [192] | _ => True end.

(** After the round only call 192 runs, and it is not in its own way. *)
Lemma call_round_leaves s :
  (forall a b c, only_192_after (fw_execs ro_8192 [Complete 64 9] (set_wait_counts a b c s))) -> leaves ro_8192 call_round s only_192_running.
Proof.
  intros H. apply leaves_one; [| |by intros a b c s0].
  - intros a b c t s1 He. apply (wait_round_done _ t call_round _ _ eq_refl) in He. specialize (H a b c). cbn [during_poll call_round] in He. by rewrite He in H.
  - intros a b c s1 He. specialize (H a b c). cbn [during_wait call_round] in He. by rewrite He in H.
Qed.

Lemma call_round_not_in_vain P s :
  (forall s p, P s p -> p <> 192) -> (forall a b c, only_192_after (fw_execs ro_8192 [Complete 64 9] (set_wait_counts a b c s))) ->
  ~ in_vain ro_8192 P [call_round] s.
Proof.
  intros HP H (e & p & He & Hp & Hway)%in_vain_one. apply (call_round_leaves s H) in He. apply running_listed in Hp. rewrite He in Hp.
  apply list_elem_of_singleton in Hp as ->. destruct Hway as [Hw|(a & b & c & Hw)]; by apply HP in Hw.
Qed.


Lemma owner_in_the_way_ne act t b s p : owner_in_the_way act t b s p -> p <> t.
Proof. by intros (x & m & _ & _ & Hne & _). Qed.






Lemma stub_prepares_witness : exists st, run_stub ro_8192 submit_done em_read call_args call_envs idle fw_c = Ret st /\ sb_task st = 192 /\
  submits ro_8192 submit_done em_read call_args idle (Ret st).
Proof.
  set (o := run_stub ro_8192 submit_done em_read call_args call_envs idle fw_c).
  assert (E : o = Ret (after (mk_stub_st idle NULL NULL fw_c) o)) by (vm_compute; reflexivity).
  exists (after (mk_stub_st idle NULL NULL fw_c) o). split; [exact E|]. split; [vm_compute; reflexivity|].
  exact (stub_prepares ro_8192 submit_done em_read call_args call_envs idle fw_c _ fw_c_inv call_stub_ok E).
Defined.


Lemma call_64_prepared : prepared 64 [Stub.Mark_pending buf_a] fw_c.
Proof.
  split; [fw_running|]. apply Forall_singleton. right. eexists 28672, _. split; [|split; [|intros _]]; [split; [point|split; [point|]]|..]; reflexivity.
Qed.

Lemma call_keeps_witness :
  prepared 64 [Stub.Mark_pending buf_a] (after fw_c (fw_execs ro_8192 [Start 4096 (Some meta_read) NULL 192 20480; Complete 192 0] fw_c)).
Proof.
  apply (call_keeps ro_8192 64 [Stub.Mark_pending buf_a] fw_c _ [Start 4096 (Some meta_read) NULL 192 20480; Complete 192 0]).
  - exact fw_c_inv.
  - exact call_64_prepared.
  - ops_concrete fw_op_concrete.
  - repeat constructor. discriminate.
  - vm_compute. reflexivity.
Defined.

Lemma outputs_apart_witness : 64 = 64 /\ prepared 64 [Stub.Mark_pending buf_a] fw_c.
Proof.
  split; [|exact call_64_prepared].
  apply (outputs_apart ro_8192 64 64 [Stub.Mark_pending buf_a] [Stub.Mark_pending buf_a] fw_c buf_a buf_a fw_c_reach);
    [exact call_64_prepared|exact call_64_prepared|left|left|discriminate|discriminate|reflexivity].
Defined.

Lemma run_reaches_own_witness :
  filc_async_run (Some (fun th s => '(s, _) ← filc_async_wait_access ro_8192 0 [] (th_active th) buf_a s; mret (7, th, s))) 64 idle fw_c = Ret (7, idle, fw_c).
Proof.
  apply (run_reaches_own ro_8192 64 idle fw_c buf_a true 7).
  - exact fw_c_inv.
  - mk_buf.
  - discriminate.
  - destruct call_64_prepared as [_ H]. apply Forall_singleton in H as [H|H]; [discriminate|exact H].
  - intros x m (_ & Hm & _) _. left. revert x m Hm. apply (bool_decide_unpack (map_Forall (fun _ m => m_owner m = 64) (mk_mem (f_marks fw_c)))). vm_compute. reflexivity.
  - intros H. by apply not_elem_of_nil in H.
  - discriminate.
Defined.

Definition fw_d : fw := fw_run (call_ops ++ [Start 4096 (Some meta_read) NULL 192 20480]).

Lemma fw_d_inv : fw_inv ro_8192 fw_d.
Proof. apply fw_reach_inv. apply (fw_run_reach (call_ops ++ [Start 4096 (Some meta_read) NULL 192 20480])); [unfold call_ops; cbn [app]; ops_concrete fw_op_concrete|point]. Qed.

Lemma mark_pending_returns_witness :
  exists s' rest, filc_async_mark_pending ro_8192 1 [call_round] [] 192 buf_a 28736 fw_d = Ret (s', rest) /\ owns 192 4096 true (f_marks s').
Proof.
  destruct (mark_pending_returns ro_8192 fw_d [call_round] [] 192 buf_a 28736 1 fw_d_inv) as (s' & rest & H1 & H2 & _).
  - discriminate.
  - sched_concrete ltac:(markable_concrete).
  - cbn. lia.
  - apply call_round_not_in_vain; [intros ? ?; apply owner_in_the_way_ne|]. intros a b c. vm_compute. reflexivity.
  - exists s', rest. split; [exact H1|exact H2].
Defined.


(** Two calls in flight that read the resource 5: those of a function whose
    descriptor says so, by the stubs the pass gives it, one after the other. *)
Definition size_of : func := mk_func [IntegerTy 32] (IntegerTy 64) ["fd"]%string None None false false false.
Definition size_opts_text : list string := ["op=size"; "runtime=io_uring"; "r_dep=fd:file"]%string.
Definition size_globals : list global := map (fun s => mk_global true (Some (add_nul s))) ("filc_async"%string :: size_opts_text).
Definition size_entries : list entry := [mk_entry true (Some 0%nat) (Some "size"%string) (map Some (seq 1 3)); mk_entry true (Some 1%nat) None []].
Definition em_size : emitted := Eval vm_compute in
  match run (fun _ => 4096) (fun _ => size_of) size_globals (Some size_entries) with
  | Parsed (Some (em :: _, _)) => em | _ => mk_emitted "" meta_read [] [] [] (EmptyString, None) end.

Definition size_args : list value := [VInt 32 5].
Definition size_envs (staging t lock hold : ptr) : list env :=
  [mk_env [] staging NULL []; mk_env [] t 20480 []; mk_env [] lock hold []; mk_env [] NULL NULL []].
Definition size_run (es : list env) (s : fw) : stub_st :=
  after (mk_stub_st idle NULL NULL fw_init) (run_stub ro_8192 submit_later em_size size_args es idle s).
Definition size_1 : stub_st := size_run (size_envs 40960 64 24576 24640) fw_init.
Definition fw_size : fw := sb_fw size_1.
Definition size_2 : stub_st := size_run (size_envs 41024 192 24704 24768) fw_size.

(** What the second stub does, as the first call sees it. *)
Definition second_ops : list fw_op :=
  [Start 4096 (Some (em_meta em_size)) 41024 192 20480; Lock_op (Request 192 5 fd_space FILC_ASYNC_DEP_READ 24704 24768); Lock_op (Grant 24768)].
Definition second_fw : fw := after fw_init (fw_execs ro_8192 second_ops fw_size).

Definition size_list : list stub_call := [Alloc 16 16; Begin; Lock_word 5 fd_space DEP_READ; Submit 1].
Lemma size_list_is : emitStub (em_kinds em_size) (em_deps em_size) size_args = size_list.
Proof. vm_compute. reflexivity. Qed.

Definition size_meta : meta := em_meta em_size.
Ltac size_stub_concrete := unfold stub_ok; rewrite size_list_is; change (objects size_list) with (@nil ptr); change (em_meta em_size) with size_meta; unfold size_list, size_envs;
  call_step ltac:(discriminate); call_step ltac:(fw_op_concrete);
  call_step ltac:(lock_concrete);
  call_step ltac:(exact I); exact I.

Lemma size_1_ok : stub_ok ro_8192 submit_later em_size size_args (size_envs 40960 64 24576 24640) idle fw_init.
Proof. size_stub_concrete. Qed.

Lemma size_2_ok : stub_ok ro_8192 submit_later em_size size_args (size_envs 41024 192 24704 24768) idle fw_size.
Proof. size_stub_concrete. Qed.

Lemma fw_init_inv_ro : fw_inv ro_8192 fw_init.
Proof. apply fw_init_inv. Qed.

Lemma size_1_run : run_stub ro_8192 submit_later em_size size_args (size_envs 40960 64 24576 24640) idle fw_init = Ret size_1.
Proof. vm_compute. reflexivity. Qed.

Lemma size_2_run : run_stub ro_8192 submit_later em_size size_args (size_envs 41024 192 24704 24768) idle fw_size = Ret size_2.
Proof. vm_compute. reflexivity. Qed.

(** The state a stub leaves when the runtime only queues its call. *)
Lemma queued_inv readonly em args es th s st :
  fw_inv readonly s -> stub_ok readonly submit_later em args es th s -> run_stub readonly submit_later em args es th s = Ret st -> fw_inv readonly (sb_fw st).
Proof.
  intros Hi Hok E. destruct (run_stub_ok readonly submit_later em args es th s Hi Hok) as [(t & staging & s2 & Hi2 & _ & E2)|[E2 _]]; [|congruence].
  rewrite E in E2. symmetry in E2. apply bind_Ret_inv in E2 as ([th' s'] & Es & E2). injection E2 as <-.
  unfold filc_async_submit in Es. apply bind_Ret_inv in Es as (act & _ & Es). cbn in Es. by injection Es as _ <-.
Qed.

Lemma size_1_inv : fw_inv ro_8192 fw_size.
Proof. exact (queued_inv ro_8192 em_size size_args _ idle fw_init size_1 fw_init_inv_ro size_1_ok size_1_run). Qed.

Lemma size_1_in_flight : in_flight ro_8192 em_size size_args 64 (sb_fw size_2).
Proof.
  exists (size_envs 40960 64 24576 24640), idle, fw_init, size_1, second_ops, second_fw, (f_staged (sb_fw size_2)).
  split; [exact fw_init_inv_ro|]. split; [exact size_1_ok|]. split; [exact size_1_run|]. split; [point|].
  split; [change (sb_fw size_1) with fw_size; unfold second_ops; ops_concrete fw_op_concrete|]. split; [repeat constructor; discriminate|]. split; vm_compute; reflexivity.
Qed.

Lemma size_2_in_flight : in_flight ro_8192 em_size size_args 192 (sb_fw size_2).
Proof.
  exists (size_envs 41024 192 24704 24768), idle, fw_size, size_2, [], (sb_fw size_2), (f_staged (sb_fw size_2)).
  split; [exact size_1_inv|]. split; [exact size_2_ok|]. split; [exact size_2_run|]. split; [point|].
  split; [exact I|]. split; [apply Forall_nil_2|]. split; vm_compute; reflexivity.
Qed.

(** The two calls are in flight together, and the mode of a dependency of the
    one and of the other on that resource is the mode of a read. *)
Lemma calls_apart_witness :
  in_flight ro_8192 em_size size_args 64 (sb_fw size_2) /\ in_flight ro_8192 em_size size_args 192 (sb_fw size_2) /\
  forall write1 write2, em_deps em_size !! 0%nat = Some (dep_encode (Dep write1 false (hashNamespace "fd:file"))) ->
    em_deps em_size !! 0%nat = Some (dep_encode (Dep write2 false (hashNamespace "fd:file"))) -> write1 = false /\ write2 = false.
Proof.
  split; [exact size_1_in_flight|]. split; [exact size_2_in_flight|]. intros write1 write2 H1 H2.
  apply (calls_apart ro_8192 em_size em_size size_args size_args 64 192 (sb_fw size_2) 0 0 (VInt 32 5) (VInt 32 5) write1 write2 false (hashNamespace "fd:file")).
  - exact size_1_in_flight.
  - exact size_2_in_flight.
  - discriminate.
  - reflexivity.
  - exact H1.
  - reflexivity.
  - exact H2.
  - split; vm_compute; discriminate.
  - reflexivity.
Defined.
