(* ===== verification/DemoReads.v ===== *)
(** * DemoReads: the demos' files, and the ways they are read

    The test data of [demos/common/utils.hh], the read loops of
    [demos/pragma/pragma_reads.hh], [demo_pragma_overlap.c] and
    [demo_pragma_slowdown.c], and the sums and counts that
    [demos/pragma/pragma_report.hh] compares them with.

    The loops exist twice, with a blocking read and with an annotated one.
    What they need of a read is the interface [Reads]: a buffer gives, when
    it is touched, the bytes of the last read issued into it.  Two instances
    implement it, one that copies at once and one that waits for the touch;
    the theorems hold of every instance. *)

From S2P Require Import Prelude Text.
Open Scope Z_scope.

(** ** Words (utils.hh) *)

(** The value, and the state after it. *)
Definition demo_rand (state : Z) : Z * Z :=
  let state := u32 (state * 1103515245 + 12345) in (Z.shiftr state 16, state).

Definition demo_words : list (list Z) := map bytes_of ["alpha"; "beta"; "gamma"; "delta"; "epsilon"]%string.
Definition DEMO_NWORDS : Z := Z.of_nat (length demo_words).

(** The loop: [p] is what it has written. *)
Fixpoint fill_loop (fuel : nat) (cap : Z) (p : list Z) (words state : Z) : outcome (list Z * Z * Z) :=
  let n := Z.of_nat (length p) in
  if negb (n <? cap) then mret (p, words, state)
  else match fuel with
       | O => NoFuel
       | S fuel =>
           let '(r, state) := demo_rand state in
           w ← deref (demo_words !! Z.to_nat (r mod DEMO_NWORDS));
           if cap <? u64 (n + Z.of_nat (length w) + if words =? 0 then 0 else 1) then mret (p, words, state)
           else
             let '(p, state) :=
               if words =? 0 then (p, state)
               else let '(r, state) := demo_rand state in (p ++ [if Z.land r 8 =? 0 then 32 else 10], state) in
             fill_loop fuel cap (p ++ w) (u64 (words + 1)) state
       end.

(** The bytes, the number of words, and the state. *)
Definition demo_fill_words (cap state : Z) : outcome (list Z * Z * Z) :=
  '(p, words, state) ← fill_loop (Z.to_nat cap) cap [] 0 state;
  mret (p ++ replicate (Z.to_nat (cap - Z.of_nat (length p))) 32, words, state).

Definition count_byte (st : Z * bool) (c : Z) : Z * bool :=
  let '(words, in_word) := st in
  let separator := (c =? 32) || (c =? 10) in
  (if negb separator && negb in_word then u64 (words + 1) else words, negb separator).

(** Of the first [demo_bytes] bytes. *)
Definition wordcount (p : list Z) : Z := fst (fold_left count_byte p (0, false)).

Definition DEMO_MAX_FILES : Z := 2048.

(** The loop of [demo_files]: [io i] tells whether everything done with file
    [i] succeeds. *)
Fixpoint files_loop (io : nat -> bool) (bytes : Z) (i n : nat) (state : Z) : outcome (option (list (list Z) * list Z)) :=
  match n with
  | O => mret (Some ([], []))
  | S n =>
      '(b, words, state) ← demo_fill_words bytes state;
      if negb (io i) then mret None
      else
        rest ← files_loop io bytes (S i) n state;
        mret (match rest with Some (files, expect) => Some (b :: files, words :: expect) | None => None end)
  end.

(** What the files hold and [demo_expect], or an error. *)
Definition demo_files (mem : bool) (io : nat -> bool) (n : nat) (bytes : Z) : outcome (option (list (list Z) * list Z)) :=
  if DEMO_MAX_FILES <? Z.of_nat n then mret None
  else if negb mem then mret None
  else files_loop io bytes 0 n 7.

(** [words_counted] of pragma_report.hh, over the [words] of the passes. *)
Definition words_counted (passes expect : list Z) (files : nat) : bool :=
  let expect := fold_left (fun sum e => u64 (sum + e)) (take files expect) 0 in
  forallb (fun words => words =? expect) passes.

(** ** Reads *)

Class Reads (C S : Type) := {
  issue : nat -> C -> S -> S;       (* a read into buffer [b] of what the file holds there *)
  touch : nat -> S -> C * S;        (* an access to the buffer *)
  holds : S -> nat -> C;            (* what an access would see *)
  holds_issue b c s b' : holds (issue b c s) b' = if decide (b' = b) then c else holds s b';
  touch_holds b s : fst (touch b s) = holds s b;
  holds_touch b s b' : holds (snd (touch b s)) b' = holds s b';
}.

(** A blocking read. *)
#[export, program] Instance blocking C : Reads C (nat -> C) := {|
  issue b c s := fun b' => if decide (b' = b) then c else s b';
  touch b s := (s b, s);
  holds s := s;
|}.
Solve Obligations with done.

(** An annotated one: the bytes land when the buffer is next touched. *)
Record deferred (C : Type) := mk_deferred { d_mem : nat -> C; d_pending : gmap nat C }.
Arguments mk_deferred {C}.
Arguments d_mem {C}.
Arguments d_pending {C}.

Definition deferred_touch {C} (b : nat) (s : deferred C) : C * deferred C :=
  match d_pending s !! b with
  | Some c => (c, mk_deferred (fun b' => if decide (b' = b) then c else d_mem s b') (delete b (d_pending s)))
  | None => (d_mem s b, s)
  end.

#[export, program] Instance annotated C : Reads C (deferred C) := {|
  issue b c s := mk_deferred (d_mem s) (<[b := c]> (d_pending s));
  touch := deferred_touch;
  holds s := fun b => default (d_mem s b) (d_pending s !! b);
|}.
Next Obligation. intros C b c s b'. cbn. rewrite lookup_insert. by repeat case_decide; simplify_eq/=. Qed.
Next Obligation. intros C b s. unfold deferred_touch. by destruct (d_pending s !! b). Qed.
Next Obligation.
  intros C b s b'. unfold deferred_touch. destruct (d_pending s !! b) eqn:E; [|done]. cbn. rewrite lookup_delete.
  repeat case_decide; simplify_eq/=; by rewrite ?E.
Qed.

(** ** The read loops *)

Section Loops.
Context {S : Type} `{Reads (list Z) S} (file : nat -> list Z).

(** The reads of the files [bs], each into its own buffer. *)
Definition issue_all (bs : list nat) (s : S) : S := fold_left (fun s i => issue i (file i) s) bs s.

Definition count_all (bs : list nat) (st : Z * S) : Z * S :=
  fold_left (fun '(words, s) i => let '(p, s) := touch i s in (u64 (words + wordcount p), s)) bs st.

(** [read_blocking] and [read_annotated], the same two loops. *)
Definition read_files (n : nat) (s : S) : Z * S := count_all (seq 0 n) (0, issue_all (seq 0 n) s).

Definition WAVE : nat := 512.

Fixpoint read_waves (fuel base n : nat) (st : Z * S) : outcome (Z * S) :=
  if negb (base <? n)%nat then mret st
  else match fuel with
       | O => NoFuel
       | Datatypes.S fuel =>
           let wave := if (n - base <? WAVE)%nat then (n - base)%nat else WAVE in
           let s := issue_all (seq base wave) (snd st) in
           read_waves fuel (base + WAVE) n (count_all (seq base wave) (fst st, s))
       end.

Definition read_by_hand (n : nat) (s : S) : outcome (Z * S) := read_waves (n / WAVE + 1) 0 n (0, s).
End Loops.

(** ** Hashing files while they are read (demo_pragma_overlap.c) *)

(** The 8-byte words of [p], as a little-endian machine reads them. *)
Definition long_of (b : list Z) : Z := i64 (foldr (fun c v => c + 256 * v) 0 b).

Fixpoint longs (k : nat) (p : list Z) : list Z :=
  match k with
  | O => []
  | S k => long_of (take 8 p) :: longs k (drop 8 p)
  end.

Definition hash_mix (h : Z) (step : Z * Z) : Z :=
  Z.rem (i64 (i64 (i64 (h * 31) + Z.rem (fst step) 1000003) + snd step)) 1000000007.

(** The words, each with the rounds it is mixed in. *)
Definition hash_steps (hash_rounds : Z) (p : list Z) : list (Z * Z) :=
  flat_map (fun w => map (fun r => (w, r)) (seqZ 0 hash_rounds)) (longs (length p / 8) p).

Definition hash_file (hash_rounds : Z) (p : list Z) : Z := fold_left hash_mix (hash_steps hash_rounds p) 0.

Section Hashing.
Context {S : Type} `{Reads (list Z) S} (file : nat -> list Z) (hash_rounds : Z).

Definition hash_next (st : Z * S) (i : nat) : Z * S :=
  let '(h, s) := st in let '(p, s) := touch i s in (Z.lxor h (hash_file hash_rounds p), s).

Definition hash_only (n : nat) (s : S) : Z * S := fold_left hash_next (seq 0 n) (0, s).

Definition read_then_hash (n : nat) (s : S) : Z * S :=
  fold_left (fun '(h, s) i => hash_next (h, issue i (file i) s) i) (seq 0 n) (0, s).

Definition async_then_hash (n : nat) (s : S) : Z * S := hash_only n (issue_all file (seq 0 n) s).
End Hashing.

(** [hashes_ok] of [overlap_report], over the runs' hashes. *)
Definition hashes_ok (expect : Z) (runs : list (Z * Z)) : bool :=
  forallb (fun r => (fst r =? expect) && (snd r =? expect)) runs.

(** ** A chain of records (demo_pragma_slowdown.c) *)

Definition CHAIN_RECORD : Z := 4096.
Definition CHAIN_MAX_RECORDS : Z := 1024.

(** A record: where the next one is, and the byte its data repeats. *)
Record record := mk_record { r_next : Z; r_data : Z }.

(** The loop that shuffles [order], from [i] down to 1. *)
Fixpoint shuffle (i : nat) (order : list Z) (state : Z) : outcome (list Z) :=
  match i with
  | O => mret order
  | S i' =>
      let '(r, state) := demo_rand state in
      let j := Z.to_nat (r mod (Z.of_nat i + 1)) in
      t ← deref (order !! i);
      u ← deref (order !! j);
      shuffle i' (<[j := t]> (<[i := u]> order)) state
  end.

Record chain := mk_chain {
  ch_offset : list Z;            (* chain_offset *)
  ch_file : gmap Z record;       (* the file, by offset *)
  ch_expect : Z;
}.

(** The loop that writes the records. *)
Fixpoint write_records (n i : nat) (c : chain) : outcome chain :=
  match n with
  | O => mret c
  | S n =>
      next ← deref (ch_offset c !! ((i + 1) mod length (ch_offset c))%nat);
      at_ ← deref (ch_offset c !! i);
      write_records n (S i) (mk_chain (ch_offset c) (<[at_ := mk_record next (97 + Z.of_nat i mod 26)]> (ch_file c)) (i64 (ch_expect c + next)))
  end.

Definition PRAGMA_MAX_PASSES : Z := 15.

(** [chain_setup] of [n] records, with writes that succeed; [None] is the
    usage error. *)
Definition chain_setup (n passes : Z) : outcome (option chain) :=
  if (n <? 2) || (CHAIN_MAX_RECORDS <? n) || (passes <? 1) || (PRAGMA_MAX_PASSES <? passes) then mret None
  else
    order ← shuffle (Z.to_nat n - 1) (seqZ 0 n) 11;
    c ← write_records (Z.to_nat n) 0 (mk_chain (map (fun o => o * CHAIN_RECORD) order) ∅ 0);
    mret (Some c).

Section Chains.
Context {S : Type} `{Reads record S} (c : chain).

(** One turn of the loop of [chain_blocking] and [chain_annotated]: [at] and
    [sum]. *)
Definition chain_next (st : Z * Z * S) (i : nat) : outcome (Z * Z * S) :=
  let '(at_, sum, s) := st in
  r ← deref (ch_file c !! at_);
  let '(r, s) := touch i (issue i r s) in
  mret (r_next r, i64 (sum + r_next r), s).

Fixpoint chain_loop (bs : list nat) (st : Z * Z * S) : outcome (Z * Z * S) :=
  match bs with
  | [] => mret st
  | i :: bs => st ← chain_next st i; chain_loop bs st
  end.

Definition chain_annotated (n : nat) (s : S) : outcome (Z * S) :=
  first_record ← deref (ch_offset c !! 0%nat);
  '(_, sum, s) ← chain_loop (seq 0 n) (first_record, 0, s);
  mret (sum, s).

Fixpoint known_issue (bs : list nat) (s : S) : outcome S :=
  match bs with
  | [] => mret s
  | i :: bs =>
      at_ ← deref (ch_offset c !! i);
      r ← deref (ch_file c !! at_);
      known_issue bs (issue i r s)
  end.

Definition known_annotated (n : nat) (s : S) : outcome (Z * S) :=
  s ← known_issue (seq 0 n) s;
  mret (fold_left (fun '(sum, s) i => let '(r, s) := touch i s in (i64 (sum + r_next r), s)) (seq 0 n) (0, s)).
End Chains.

(** ** The words counted are the words written *)

Lemma count_word w words : w ∈ demo_words -> fold_left count_byte w (words, false) = (u64 (words + 1), true).
Proof.
  intros Hw. unfold demo_words in Hw. cbn [map] in Hw.
  repeat (apply elem_of_cons in Hw as [->|Hw]; [reflexivity|]). by apply not_elem_of_nil in Hw.
Qed.

Lemma word_bounds w : w ∈ demo_words -> (4 <= length w <= 7)%nat.
Proof.
  intros Hw. unfold demo_words in Hw. cbn [map] in Hw.
  repeat (apply elem_of_cons in Hw as [->|Hw]; [cbn; lia|]). by apply not_elem_of_nil in Hw.
Qed.

Lemma count_spaces k words b : fst (fold_left count_byte (replicate k 32) (words, b)) = words.
Proof. revert b. induction k as [|k IH]; intros b; [done|]. apply IH. Qed.

(** What has been written: nothing, or words up to the end of one. *)
Definition filled (p : list Z) (words : Z) : Prop :=
  fold_left count_byte p (0, false) = (words, negb (words =? 0)) /\ 0 <= words <= Z.of_nat (length p) /\ (words = 0 -> p = []).

Lemma filled_nil : filled [] 0.
Proof. done. Qed.

Lemma filled_word p words w sep :
  filled p words -> w ∈ demo_words -> Z.of_nat (length p) < 2 ^ 63 ->
  filled ((if words =? 0 then p else p ++ [if sep : bool then 32 else 10]) ++ w) (u64 (words + 1)).
Proof.
  intros (Hc & Hw & H0) Hin Hlt. pose proof (word_bounds w Hin). rewrite u64_small by lia.
  split; [|split; [|lia]].
  - rewrite fold_left_app. destruct (Z.eqb_spec words 0) as [->|Hne].
    + change (negb (0 =? 0)) with false in Hc. by rewrite Hc, count_word.
    + rewrite fold_left_app, Hc. transitivity (fold_left count_byte w (words, false)); [by destruct sep|].
      rewrite count_word by done. rewrite u64_small by lia. by destruct (Z.eqb_spec (words + 1) 0); [lia|].
  - rewrite length_app. destruct (words =? 0); rewrite ?length_app; cbn; lia.
Qed.

Lemma demo_word_in r : exists w, demo_words !! Z.to_nat (r mod DEMO_NWORDS) = Some w /\ w ∈ demo_words.
Proof.
  destruct (lookup_lt_is_Some_2 demo_words (Z.to_nat (r mod DEMO_NWORDS))) as [w Hw].
  - pose proof (Z.mod_pos_bound r DEMO_NWORDS eq_refl). unfold DEMO_NWORDS in *. lia.
  - exists w. split; [done|]. by eapply list_elem_of_lookup_2.
Qed.

Lemma fill_loop_ok fuel : forall cap p words state,
  0 <= cap < 2 ^ 63 -> Z.of_nat (length p) <= cap -> cap - Z.of_nat (length p) <= Z.of_nat fuel -> filled p words ->
  exists q words' state', fill_loop fuel cap p words state = Ret (q, words', state') /\ Z.of_nat (length q) <= cap /\ filled q words'.
Proof.
  induction fuel as [|fuel IH]; intros cap p words state Hcap Hlen Hfuel Hf; cbn [fill_loop]; destruct (Z.ltb_spec (Z.of_nat (length p)) cap); cbn [negb]; try lia.
  - by exists p, words, state.
  - destruct (demo_rand state) as [r st]. destruct (demo_word_in r) as (w & -> & Hw). pose proof (word_bounds w Hw). cbn [deref mbind outcome_bind].
    rewrite u64_small by (destruct (words =? 0); lia). destruct (Z.ltb_spec cap (Z.of_nat (length p) + Z.of_nat (length w) + (if words =? 0 then 0 else 1))); [by exists p, words, st|].
    assert (Hgo : exists sep st', (if words =? 0 then (p, st) else let '(r, state) := demo_rand st in (p ++ [if Z.land r 8 =? 0 then 32 else 10], state))
      = (if words =? 0 then p else p ++ [if sep : bool then 32 else 10], st')).
    { destruct (words =? 0); [by exists true, st|]. destruct (demo_rand st) as [r' st']. by exists (Z.land r' 8 =? 0), st'. }
    destruct Hgo as (sep & st' & ->). apply IH; [done|..].
    + destruct (words =? 0); rewrite ?length_app; cbn; lia.
    + destruct (words =? 0); rewrite ?length_app; cbn; lia.
    + apply filled_word; [done|done|lia].
  - by exists p, words, state.
Qed.

(** A buffer of [cap] bytes is filled with as many words as are counted. *)
Lemma fill_counted cap state :
  0 <= cap < 2 ^ 63 ->
  exists p words state', demo_fill_words cap state = Ret (p, words, state') /\ length p = Z.to_nat cap /\ wordcount p = words.
Proof.
  intros Hcap. destruct (fill_loop_ok (Z.to_nat cap) cap [] 0 state Hcap) as (p & words & state' & E & Hlen & Hc & _); [cbn; lia..|apply filled_nil|].
  unfold demo_fill_words. rewrite E. eexists _, words, state'. split; [done|]. split; [rewrite length_app, length_replicate; lia|].
  unfold wordcount. by rewrite fold_left_app, Hc, count_spaces.
Qed.

Lemma files_loop_ok io bytes n : forall i state,
  0 <= bytes < 2 ^ 63 ->
  exists r, files_loop io bytes i n state = Ret r /\
    (r = None <-> exists k, (k < n)%nat /\ io (i + k)%nat = false) /\
    forall files expect, r = Some (files, expect) -> length files = n /\ Forall (fun f => length f = Z.to_nat bytes) files /\ map wordcount files = expect.
Proof.
  induction n as [|n IH]; intros i state Hb; cbn [files_loop].
  - eexists. split; [done|]. split; [split; [done|intros (k & ? & _); lia]|]. intros files expect [= <- <-]. by split_and!.
  - destruct (fill_counted bytes state Hb) as (p & words & st & -> & Hlen & Hw). cbn [mbind outcome_bind].
    destruct (io i) eqn:Eio; cbn [negb].
    + destruct (IH (S i) st Hb) as (r & -> & Hn & Hs). cbn [mbind outcome_bind]. eexists. split; [done|]. split.
      * destruct r as [[f e]|].
        -- split; [done|]. intros (k & Hk & Hi). destruct k as [|k]; [rewrite Nat.add_0_r in Hi; congruence|].
           assert (Some (f, e) = None); [|done]. apply Hn. exists k. split; [lia|]. by replace (S i + k)%nat with (i + S k)%nat by lia.
        -- split; [|done]. intros _. destruct (proj1 Hn eq_refl) as (k & Hk & Hi). exists (S k). split; [lia|]. by replace (i + S k)%nat with (S i + k)%nat by lia.
      * destruct r as [[f e]|]; [|done]. intros files expect [= <- <-]. destruct (Hs f e eq_refl) as (Hl & Hf & He). cbn. rewrite Hl, Hw, He. split; [done|]. split; [by constructor|done].
    + eexists. split; [done|]. split; [|done]. split; [|done]. intros _. exists 0%nat. rewrite Nat.add_0_r. split; [lia|done].
Qed.

(** ** The read loops, whatever a read does *)

Section Read_loops.
Context {S : Type} `{Reads (list Z) S} (file : nat -> list Z).

Lemma issue_all_holds bs : forall s b, holds (issue_all file bs s) b = if decide (b ∈ bs) then file b else holds s b.
Proof.
  induction bs as [|i bs IH]; intros s b; [done|]. change (issue_all file (i :: bs) s) with (issue_all file bs (issue i (file i) s)).
  rewrite IH, holds_issue. repeat case_decide; set_solver.
Qed.

(** The sum of the counts of the buffers [bs]. *)
Definition counts (f : nat -> list Z) (bs : list nat) (words : Z) : Z := fold_left (fun words i => u64 (words + wordcount (f i))) bs words.

Lemma counts_ext f g bs : forall words, (forall i, i ∈ bs -> f i = g i) -> counts f bs words = counts g bs words.
Proof.
  induction bs as [|i bs IH]; intros words He; [done|]. cbn. rewrite (He i) by set_solver. apply IH. set_solver.
Qed.

Lemma counts_app f bs1 bs2 words : counts f (bs1 ++ bs2) words = counts f bs2 (counts f bs1 words).
Proof. apply fold_left_app. Qed.

Lemma count_all_ok bs : forall words s,
  fst (count_all bs (words, s)) = counts (holds s) bs words /\ forall b, holds (snd (count_all bs (words, s))) b = holds s b.
Proof.
  induction bs as [|i bs IH]; intros words s; [done|]. pose proof (touch_holds i s) as Ht. pose proof (holds_touch i s) as Hh.
  unfold count_all. cbn [fold_left]. destruct (touch i s) as [p s1]. cbn [fst snd] in Ht, Hh. subst p.
  destruct (IH (u64 (words + wordcount (holds s i))) s1) as [E1 E2]. split.
  - etransitivity; [exact E1|]. cbn. apply counts_ext. intros j _. apply Hh.
  - intros b. exact (eq_trans (E2 b) (Hh b)).
Qed.

(** Issuing the reads of [bs] and counting them. *)
Lemma issue_count bs words s : fst (count_all bs (words, issue_all file bs s)) = counts file bs words.
Proof.
  rewrite (proj1 (count_all_ok bs words _)). apply counts_ext. intros i Hi. rewrite issue_all_holds. by rewrite decide_True.
Qed.

Lemma read_waves_ok fuel : forall base n st,
  (n - base <= fuel * WAVE)%nat -> exists s', read_waves file fuel base n st = Ret (counts file (seq base (n - base)) (fst st), s').
Proof.
  induction fuel as [|fuel IH]; intros base n [words s] Hf; cbn [read_waves];
    destruct (Nat.ltb_spec base n) as [Hlt|Hge]; cbn [negb]; try (exists s; by replace (n - base)%nat with 0%nat by lia); [lia|].
  set (wave := if (n - base <? WAVE)%nat then (n - base)%nat else WAVE).
  assert (Hw : (wave = n - base /\ n - base <= WAVE \/ wave = WAVE /\ WAVE <= n - base)%nat) by (unfold wave; destruct (Nat.ltb_spec (n - base) WAVE); lia).
  clearbody wave.
  destruct (IH (base + WAVE)%nat n (count_all (seq base wave) (words, issue_all file (seq base wave) s))) as (s' & E); [lia|].
  exists s'. cbn [fst snd] in *. rewrite E, issue_count, <- counts_app. do 3 f_equal.
  destruct Hw as [[-> Hle]|[-> Hle]].
  - replace (n - (base + WAVE))%nat with 0%nat by lia. apply app_nil_r.
  - rewrite <- seq_app. f_equal. lia.
Qed.
End Read_loops.

(** What file [i] holds. *)
Definition contents (files : list (list Z)) (i : nat) : list Z := nth i files [].

Lemma expected_counts (files : list (list Z)) n :
  (n <= length files)%nat -> fold_left (fun sum e => u64 (sum + e)) (take n (map wordcount files)) 0 = counts (contents files) (seq 0 n) 0.
Proof.
  intros Hn. rewrite firstn_map. assert (E : take n files = map (contents files) (seq 0 n)).
  { apply list_eq. intros i. destruct (Nat.lt_ge_cases i n).
    - rewrite lookup_take_lt by done. rewrite list_lookup_fmap, lookup_seq_lt by done. cbn. destruct (lookup_lt_is_Some_2 files i ltac:(lia)) as [f Hf].
      rewrite Hf. by unfold contents; rewrite (nth_lookup_Some _ _ _ _ Hf).
    - rewrite !lookup_ge_None_2; [done|rewrite length_map, length_seq; lia|rewrite length_take; lia]. }
  rewrite E, map_map. unfold counts. rewrite <- !fold_left_rev_right. by rewrite <- map_rev, foldr_fmap.
Qed.

(** The files of the timing demos.  Creating [n] of them (at most 2048,
    of a size below 2^63) ends, with an error exactly when one of the steps
    fails; otherwise there are [n] files of that size, and however the reads
    deliver, reading the first [m] of them with the two plain loops, or by
    hand in waves of 512, counts the same number of words, the one the report
    accepts and no other. *)
Theorem files_counted (mem : bool) (io : nat -> bool) (n : nat) (bytes : Z) :
  0 <= bytes < 2 ^ 63 ->
  exists r, demo_files mem io n bytes = Ret r /\
    (r = None <-> DEMO_MAX_FILES < Z.of_nat n \/ mem = false \/ exists i, (i < n)%nat /\ io i = false) /\
    forall files expect, r = Some (files, expect) ->
      length files = n /\ Forall (fun f => length f = Z.to_nat bytes) files /\
      forall (S : Type) (R : Reads (list Z) S) (s : S) (m : nat), (m <= n)%nat ->
        exists words s', read_by_hand (contents files) m s = Ret (words, s') /\ fst (read_files (contents files) m s) = words /\
          forall passes, words_counted passes expect m = true <-> Forall (fun w => w = words) passes.
Proof.
  intros Hb. unfold demo_files. destruct (Z.ltb_spec DEMO_MAX_FILES (Z.of_nat n)) as [|Hn]; [exists None; naive_solver|].
  destruct mem; cbn [negb]; [|exists None; naive_solver]. destruct (files_loop_ok io bytes n 0 7 Hb) as (r & -> & Hnone & Hsome). exists r.
  split; [done|]. split; [rewrite Hnone; split; [naive_solver|]; intros [?|[?|?]]; [lia|done|naive_solver]|].
  intros files expect Hr. destruct (Hsome files expect Hr) as (Hlen & Hall & He). split; [done|]. split; [done|].
  intros S R s m Hm. destruct (read_waves_ok (contents files) (m / WAVE + 1) 0 m (0, s)) as (s' & E).
  { pose proof (Nat.div_mod_eq m WAVE). pose proof (Nat.mod_upper_bound m WAVE ltac:(done)). lia. }
  exists (counts (contents files) (seq 0 m) 0), s'. rewrite Nat.sub_0_r in E. split; [exact E|]. split; [apply issue_count|].
  intros passes. unfold words_counted. rewrite <- He, expected_counts by lia. rewrite forallb_forall, List.Forall_forall.
  split; intros Hp w Hw; [by apply Z.eqb_eq, Hp|by apply Z.eqb_eq, Hp].
Qed.

(** ** Hashes *)

Section Hash_runs.
Context {S : Type} `{Reads (list Z) S} (file : nat -> list Z) (rounds : Z).

(** The hash of the files [bs]. *)
Definition hashes (bs : list nat) (h : Z) : Z := fold_left (fun h i => Z.lxor h (hash_file rounds (file i))) bs h.

Lemma hash_next_ok h s i : hash_next rounds (h, s) i = (Z.lxor h (hash_file rounds (holds s i)), snd (touch i s)).
Proof. unfold hash_next. rewrite <- (touch_holds i s). by destruct (touch i s). Qed.

Lemma hash_only_ok bs : forall h s, (forall i, i ∈ bs -> holds s i = file i) ->
  fst (fold_left (hash_next rounds) bs (h, s)) = hashes bs h /\ forall b, holds (snd (fold_left (hash_next rounds) bs (h, s))) b = holds s b.
Proof.
  induction bs as [|i bs IH]; intros h s Hs; [done|]. cbn [fold_left]. rewrite hash_next_ok, Hs by set_solver.
  destruct (IH (Z.lxor h (hash_file rounds (file i))) (snd (touch i s))) as [E1 E2].
  - intros j Hj. rewrite holds_touch. apply Hs. set_solver.
  - split; [exact E1|]. intros b. rewrite E2. apply holds_touch.
Qed.

Lemma read_then_hash_ok bs : forall h s,
  let r := fold_left (fun '(h, s) i => hash_next rounds (h, issue i (file i) s) i) bs (h, s) in
  fst r = hashes bs h /\ forall b, holds (snd r) b = if decide (b ∈ bs) then file b else holds s b.
Proof.
  induction bs as [|i bs IH]; intros h s; [done|]. cbn [fold_left]. rewrite hash_next_ok, holds_issue, decide_True by done.
  destruct (IH (Z.lxor h (hash_file rounds (file i))) (snd (touch i (issue i (file i) s)))) as [E1 E2].
  split; [exact E1|]. intros b. rewrite E2, holds_touch, holds_issue. repeat case_decide; set_solver.
Qed.
End Hash_runs.

(** The overlap demo's two ways of hashing.  However the reads deliver,
    hashing each file straight after its read, and issuing every read before
    hashing any, give the same hash, that of hashing files already in memory,
    and leave every buffer with its file; the report accepts such runs, any
    number of them, and only such. *)
Theorem hashes_agree (S1 S2 S3 : Type) (R1 : Reads (list Z) S1) (R2 : Reads (list Z) S2) (R3 : Reads (list Z) S3)
  (file : nat -> list Z) (rounds : Z) (n : nat) (s1 : S1) (s2 : S2) (s3 : S3) :
  (forall i, (i < n)%nat -> holds s3 i = file i) ->
  let expect := fst (hash_only rounds n s3) in
  let a := read_then_hash file rounds n s1 in
  let b := async_then_hash file rounds n s2 in
  fst a = expect /\ fst b = expect /\
  (forall i, (i < n)%nat -> holds (snd a) i = file i /\ holds (snd b) i = file i) /\
  forall runs, hashes_ok expect runs = true <-> Forall (fun r => r = (fst a, fst b)) runs.
Proof.
  intros H3 expect a b. assert (Hin : forall i, i ∈ seq 0 n <-> (i < n)%nat) by (intros i; rewrite elem_of_seq; lia).
  assert (Ee : expect = hashes file rounds (seq 0 n) 0) by (apply hash_only_ok; intros i Hi%Hin; by apply H3).
  assert (fst a = hashes file rounds (seq 0 n) 0 /\ forall b, holds (snd a) b = if decide (b ∈ seq 0 n) then file b else holds s1 b) as [Ea Hha]
    by apply read_then_hash_ok.
  assert (fst b = hashes file rounds (seq 0 n) 0 /\ forall i, holds (snd b) i = holds (issue_all file (seq 0 n) s2) i) as [Eb Hhb]
    by (apply hash_only_ok; intros i Hi; by rewrite issue_all_holds, decide_True).
  clearbody expect a b. rewrite Ee, Ea, Eb. split; [done|]. split; [done|]. split.
  - intros i Hi%Hin. by rewrite Hha, Hhb, issue_all_holds, !decide_True.
  - intros runs. unfold hashes_ok. rewrite forallb_forall, List.Forall_forall.
    assert (Hr : forall (e : Z) (r : Z * Z), (fst r =? e) && (snd r =? e) = true <-> r = (e, e))
      by (intros e [x y]; cbn [fst snd]; rewrite andb_true_iff, !Z.eqb_eq; naive_solver).
    split; intros Hp r Hi; by apply Hr, Hp.
Qed.

Lemma hash_mix_exact h w r :
  Z.abs h < 1000000007 -> 0 <= r < 2 ^ 31 ->
  let v := h * 31 + Z.rem w 1000003 + r in
  Z.abs v < 2 ^ 35 /\ hash_mix h (w, r) = Z.rem v 1000000007 /\ Z.abs (Z.rem v 1000000007) < 1000000007.
Proof.
  intros Hh Hr v. pose proof (Z.rem_bound_abs w 1000003 ltac:(done)) as Hw. change (Z.abs 1000003) with 1000003 in Hw.
  assert (Hv : Z.abs v < 2 ^ 35) by (unfold v; lia). split; [done|]. split; [|apply (Z.rem_bound_abs v 1000000007); done].
  unfold hash_mix. cbn [fst snd]. fold v. by rewrite (i64_small (h * 31)), (i64_small (h * 31 + _)), i64_small by (fold v; lia).
Qed.

(** C38: the hash of the overlap demo stays small.  Whatever the bytes and
    the number of rounds (an int), every sum the hash reduces is below 2^35
    in magnitude, so no step overflows a long, and what the code computes is
    the unbounded arithmetic. *)
Theorem hash_no_overflow (rounds : Z) (p : list Z) (before rest : list (Z * Z)) (w r : Z) :
  rounds < 2 ^ 31 -> hash_steps rounds p = before ++ (w, r) :: rest ->
  let h := fold_left hash_mix before 0 in
  let v := h * 31 + Z.rem w 1000003 + r in
  Z.abs h < 1000000007 /\ Z.abs v < 2 ^ 35 /\ hash_mix h (w, r) = Z.rem v 1000000007.
Proof.
  intros Hr E. assert (Hall : Forall (fun st => 0 <= snd st < 2 ^ 31) (hash_steps rounds p)).
  { unfold hash_steps. apply Forall_flat_map, List.Forall_forall. intros x _. apply Forall_map, List.Forall_forall.
    intros i Hi%list_elem_of_In. apply elem_of_seqZ in Hi. cbn. lia. }
  rewrite E in Hall. apply Forall_app in Hall as [Hb Hw]. apply Forall_cons in Hw as [Hw _]. cbn in Hw.
  assert (Hh : forall h, Z.abs h < 1000000007 -> Z.abs (fold_left hash_mix before h) < 1000000007).
  { clear E. induction Hb as [|[w1 r1] before H1 _ IH]; intros h Hh; [done|]. cbn [fold_left]. apply IH.
    destruct (hash_mix_exact h w1 r1 Hh H1) as (_ & -> & ?). done. }
  intros h v. pose proof (Hh 0 ltac:(done)) as Hh0. destruct (hash_mix_exact h w r Hh0 Hw) as (Hv & Em & _). done.
Qed.

(** ** The chain *)

Lemma i64_add_idemp_l x y : i64 (i64 x + y) = i64 (x + y).
Proof.
  unfold i64. replace ((x + 2 ^ 63) mod 2 ^ 64 - 2 ^ 63 + y + 2 ^ 63) with ((x + 2 ^ 63) mod 2 ^ 64 + y) by lia.
  rewrite Zplus_mod_idemp_l. do 2 f_equal. lia.
Qed.

Lemma shuffle_ok i : forall order state, (i < length order)%nat -> exists order', shuffle i order state = Ret order' /\ order' ≡ₚ order.
Proof.
  induction i as [|i IH]; intros order state Hi; [by exists order|]. cbn [shuffle]. destruct (demo_rand state) as [r st].
  pose proof (Z.mod_pos_bound r (Z.of_nat (S i) + 1) ltac:(lia)) as Hj. set (j := Z.to_nat _).
  destruct (lookup_lt_is_Some_2 order (S i) Hi) as [t Ht]. destruct (lookup_lt_is_Some_2 order j ltac:(unfold j; lia)) as [u Hu].
  rewrite Ht, Hu. cbn [deref mbind outcome_bind].
  destruct (IH (<[j := t]> (<[S i := u]> order)) st) as (o & E & Hp); [rewrite !length_insert; lia|].
  exists o. split; [exact E|]. rewrite Hp. by apply Permutation_insert_swap.
Qed.

Section Chain.
Context (offs : list Z) (n : nat) (Hlen : length offs = n) (Hn : (0 < n)%nat) (Hnd : NoDup offs).

Definition offset_at (i : nat) : Z := nth (i mod length offs) offs 0.

(** The record the chain has at position [i]. *)
Definition record_at (i : nat) : record := mk_record (offset_at (i + 1)) (97 + Z.of_nat i mod 26).

Definition nexts (bs : list nat) : Z := foldr (fun i v => r_next (record_at i) + v) 0 bs.

Lemma nexts_cons i bs : nexts (i :: bs) = offset_at (i + 1) + nexts bs.
Proof. done. Qed.

Lemma offset_lookup i : offs !! (i mod length offs)%nat = Some (offset_at i).
Proof.
  unfold offset_at. destruct (lookup_lt_is_Some_2 offs (i mod length offs)) as [x Hx].
  - apply Nat.mod_upper_bound. lia.
  - rewrite Hx. by rewrite (nth_lookup_Some _ _ _ _ Hx).
Qed.

Lemma offset_lookup_lt i : (i < n)%nat -> offs !! i = Some (offset_at i).
Proof. intros Hi. rewrite <- offset_lookup, Nat.mod_small; [done|lia]. Qed.

(** The file once every record is written. *)
Definition file_ok (file : gmap Z record) : Prop := forall i, (i < n)%nat -> file !! offset_at i = Some (record_at i).

Lemma write_records_ok m : forall i file v, (i + m = n)%nat -> (forall k, (k < i)%nat -> file !! offset_at k = Some (record_at k)) ->
  exists file', write_records m i (mk_chain offs file (i64 v)) = Ret (mk_chain offs file' (i64 (v + nexts (seq i m)))) /\ file_ok file'.
Proof.
  induction m as [|m IH]; intros i file v Hi Hf; cbn [write_records].
  - exists file. cbn. rewrite Z.add_0_r. split; [done|]. intros k Hk. apply Hf. lia.
  - cbn [ch_offset ch_file ch_expect]. rewrite offset_lookup, (offset_lookup_lt i) by lia. cbn [deref mbind outcome_bind].
    rewrite i64_add_idemp_l. destruct (IH (S i) (<[offset_at i := record_at i]> file) (v + offset_at (i + 1))) as (file' & E & Hok); [lia|..].
    + intros k Hk. rewrite lookup_insert. case_decide as Ek.
      * f_equal. f_equal. apply (NoDup_lookup offs i k (offset_at i) Hnd); [apply offset_lookup_lt; lia|rewrite Ek; apply offset_lookup_lt; lia].
      * apply Hf. destruct (Nat.eq_dec k i) as [->|]; [done|lia].
    + exists file'. split; [|done]. cbn [seq]. rewrite nexts_cons, Z.add_assoc. exact E.
Qed.

Section Reading.
Context {S : Type} `{Reads record S} (c : chain) (Hc : ch_offset c = offs) (Hf : file_ok (ch_file c)).

Lemma chain_loop_ok m : forall i v s, (i + m <= n)%nat ->
  exists s', chain_loop c (seq i m) (offset_at i, i64 v, s) = Ret (offset_at (i + m), i64 (v + nexts (seq i m)), s') /\
    forall b, holds s' b = if decide (b ∈ seq i m) then record_at b else holds s b.
Proof.
  induction m as [|m IH]; intros i v s Hi; cbn [seq chain_loop].
  - exists s. rewrite Nat.add_0_r. cbn. by rewrite Z.add_0_r.
  - unfold chain_next. rewrite Hf by lia. cbn [deref mbind outcome_bind]. pose proof (touch_holds i (issue i (record_at i) s)) as Ht.
    pose proof (holds_touch i (issue i (record_at i) s)) as Hh. destruct (touch i _) as [r s1]. cbn [fst snd] in *.
    rewrite holds_issue, decide_True in Ht by done. subst r. cbn [mbind outcome_bind mret outcome_ret]. rewrite i64_add_idemp_l.
    change (r_next (record_at i)) with (offset_at (i + 1)). rewrite Nat.add_1_r.
    destruct (IH (Datatypes.S i) (v + offset_at (Datatypes.S i)) s1 ltac:(lia)) as (s' & E & Hs). exists s'. split.
    + rewrite E, nexts_cons, Nat.add_succ_r, <- Nat.add_succ_l, Nat.add_1_r, Z.add_assoc. done.
    + intros b. rewrite Hs, Hh, holds_issue. repeat case_decide; set_solver.
Qed.

Lemma known_issue_ok bs : forall s, (forall i, i ∈ bs -> (i < n)%nat) ->
  exists s', known_issue c bs s = Ret s' /\ forall b, holds s' b = if decide (b ∈ bs) then record_at b else holds s b.
Proof.
  induction bs as [|i bs IH]; intros s Hb; cbn [known_issue]; [by exists s|].
  rewrite Hc, offset_lookup_lt by (apply Hb; set_solver). cbn [deref mbind outcome_bind].
  rewrite Hf by (apply Hb; set_solver). cbn [deref mbind outcome_bind].
  destruct (IH (issue i (record_at i) s)) as (s' & E & Hs); [set_solver|]. exists s'. split; [exact E|].
  intros b. rewrite Hs, holds_issue. repeat case_decide; set_solver.
Qed.

Lemma known_sum_ok bs : forall v s, (forall i, i ∈ bs -> holds s i = record_at i) ->
  let r := fold_left (fun '(sum, s) i => let '(r, s) := touch i s in (i64 (sum + r_next r), s)) bs (i64 v, s) in
  fst r = i64 (v + nexts bs) /\ forall b, holds (snd r) b = holds s b.
Proof.
  induction bs as [|i bs IH]; intros v s Hs; cbn [fold_left]; [cbn; by rewrite Z.add_0_r|].
  pose proof (touch_holds i s) as Ht. pose proof (holds_touch i s) as Hh. destruct (touch i s) as [r s1]. cbn [fst snd] in *.
  rewrite Hs in Ht by set_solver. subst r. rewrite i64_add_idemp_l. destruct (IH (v + r_next (record_at i)) s1) as [E1 E2].
  - intros j Hj. rewrite Hh. apply Hs. set_solver.
  - split; [by rewrite nexts_cons, Z.add_assoc|]. intros b. exact (eq_trans (E2 b) (Hh b)).
Qed.

(** Both ways of reading the whole chain. *)
Lemma chain_both s :
  let total := i64 (nexts (seq 0 n)) in
  (exists s', chain_annotated c n s = Ret (total, s') /\ forall i, (i < n)%nat -> holds s' i = record_at i) /\
  exists s', known_annotated c n s = Ret (total, s') /\ forall i, (i < n)%nat -> holds s' i = record_at i.
Proof.
  assert (Hin : forall i, i ∈ seq 0 n <-> (i < n)%nat) by (intros i; rewrite elem_of_seq; lia). split.
  - destruct (chain_loop_ok n 0 0 s ltac:(lia)) as (s' & E & Hs). exists s'. unfold chain_annotated. rewrite Hc, offset_lookup_lt by done.
    cbn [deref mbind outcome_bind]. change (i64 0) with 0 in E. rewrite E. split; [done|]. intros i Hi%Hin. by rewrite Hs, decide_True.
  - destruct (known_issue_ok (seq 0 n) s) as (s1 & E & Hs); [by intros i Hi%Hin|]. unfold known_annotated. rewrite E. cbn [mbind outcome_bind mret outcome_ret].
    destruct (known_sum_ok (seq 0 n) 0 s1) as [E1 E2]; [intros i Hi; by rewrite Hs, decide_True|]. change (i64 0) with 0 in E1, E2.
    destruct (fold_left _ _ (0, s1)) as [sum s2]. cbn [fst snd] in *. exists s2. rewrite E1. split; [done|]. intros i Hi%Hin. by rewrite E2, Hs, decide_True.
Qed.
End Reading.

(** The chain goes once around the file. *)
Lemma nexts_around : map (fun i => offset_at (i + 1)) (seq 0 n) ≡ₚ offs.
Proof.
  assert (E : offs = map offset_at (seq 0 n)).
  { apply list_eq. intros i. destruct (Nat.lt_ge_cases i n) as [Hi|Hi].
    - rewrite list_lookup_fmap, lookup_seq_lt by done. by apply offset_lookup_lt.
    - rewrite !lookup_ge_None_2; [done|rewrite length_map, length_seq; lia|lia]. }
  assert (En : offset_at n = offset_at 0) by (unfold offset_at; by rewrite Hlen, Nat.Div0.mod_same, Nat.Div0.mod_0_l).
  assert (E1 : map (fun i => offset_at (i + 1)) (seq 0 n) = map offset_at (seq 1 n)).
  { rewrite <- seq_shift, map_map. apply map_ext. intros i. by rewrite Nat.add_1_r. }
  rewrite E1, E. clear E E1. destruct n as [|m]; [lia|]. rewrite seq_S, map_app. cbn [seq map Nat.add]. rewrite En. by rewrite Permutation_app_comm.
Qed.
End Chain.

Lemma sum_perm (l1 l2 : list Z) : l1 ≡ₚ l2 -> foldr Z.add 0 l1 = foldr Z.add 0 l2.
Proof. induction 1; cbn; lia. Qed.

Lemma nexts_sum offs bs : nexts offs bs = foldr Z.add 0 (map (fun i => offset_at offs (i + 1)) bs).
Proof. induction bs as [|i bs IH]; [done|]. by rewrite nexts_cons, IH. Qed.

Lemma offsets_sum n : foldr Z.add 0 (map (fun o => o * CHAIN_RECORD) (seqZ 0 (Z.of_nat n))) = 2048 * Z.of_nat n * (Z.of_nat n - 1).
Proof.
  induction n as [|n IH]; [done|]. rewrite seqZ_S, map_app. assert (Ha : forall l k, foldr Z.add 0 (l ++ [k]) = foldr Z.add 0 l + k).
  { intros l k. induction l as [|x l IHl]; cbn; [lia|]. rewrite IHl. lia. }
  cbn [map]. rewrite Ha, IH. unfold CHAIN_RECORD. lia.
Qed.

(** C37: the chain of the slowdown demo.  For every number of records it
    accepts (2 to 1024), the chain's offsets are those of the records in some
    order; a reader that follows the offsets it has just read, and one that
    knows them up front, both return the sum the report expects,
    2048 n (n - 1), with in buffer [i] the record at the chain's [i]-th
    offset: every record, each once, however the reads deliver. *)
Theorem chain_read (n passes : Z) (S1 S2 : Type) (R1 : Reads record S1) (R2 : Reads record S2) (s1 : S1) (s2 : S2) :
  2 <= n <= CHAIN_MAX_RECORDS -> 1 <= passes <= PRAGMA_MAX_PASSES ->
  exists c s1' s2', chain_setup n passes = Ret (Some c) /\
    ch_offset c ≡ₚ map (fun o => o * CHAIN_RECORD) (seqZ 0 n) /\ ch_expect c = 2048 * n * (n - 1) /\
    chain_annotated c (Z.to_nat n) s1 = Ret (ch_expect c, s1') /\
    known_annotated c (Z.to_nat n) s2 = Ret (ch_expect c, s2') /\
    forall i at_, ch_offset c !! i = Some at_ -> ch_file c !! at_ = Some (holds s1' i) /\ ch_file c !! at_ = Some (holds s2' i).
Proof.
  intros Hn Hp0. unfold chain_setup, CHAIN_MAX_RECORDS, PRAGMA_MAX_PASSES in *.
  destruct (Z.ltb_spec n 2), (Z.ltb_spec 1024 n), (Z.ltb_spec passes 1), (Z.ltb_spec 15 passes); try lia. cbn [orb]. repeat match goal with H : _ <= _ |- _ => clear H end.
  set (k := Z.to_nat n). assert (En : n = Z.of_nat k) by lia.
  destruct (shuffle_ok (k - 1) (seqZ 0 n) 11) as (order & -> & Hp); [rewrite length_seqZ; lia|]. cbn [mbind outcome_bind].
  set (offs := map (fun o => o * CHAIN_RECORD) order).
  assert (Hperm : offs ≡ₚ map (fun o => o * CHAIN_RECORD) (seqZ 0 n)) by (unfold offs; by rewrite Hp).
  assert (Hlen : length offs = k) by (rewrite Hperm, length_map, length_seqZ; lia).
  assert (Hnd : NoDup offs). { rewrite Hperm. apply NoDup_fmap_2; [|apply NoDup_seqZ]. intros x y Exy. unfold CHAIN_RECORD in Exy. lia. }
  assert (Hsum : nexts offs (seq 0 k) = 2048 * n * (n - 1)).
  { rewrite nexts_sum, (sum_perm _ _ (nexts_around offs k Hlen ltac:(lia))), (sum_perm _ _ Hperm), En. apply offsets_sum. }
  destruct (write_records_ok offs k Hlen ltac:(lia) Hnd k 0 ∅ 0 ltac:(lia) ltac:(lia)) as (file & E & Hf). change (i64 0) with 0 in E. rewrite E, Hsum.
  rewrite Z.add_0_l, i64_small by nia. cbn [mbind outcome_bind mret outcome_ret].
  set (c := mk_chain _ _ _).
  destruct (chain_both offs k Hlen ltac:(lia) Hnd c eq_refl Hf s1) as [(s1' & E1 & H1) _].
  destruct (chain_both offs k Hlen ltac:(lia) Hnd c eq_refl Hf s2) as [_ (s2' & E2 & H2)].
  rewrite Hsum, i64_small in E1, E2 by nia. exists c, s1', s2'. split; [done|]. split; [done|]. split; [done|]. split; [done|]. split; [done|].
  intros i at_ Hi. change (ch_offset c) with offs in Hi. assert (Hik : (i < k)%nat) by (rewrite <- Hlen; by eapply lookup_lt_Some).
  rewrite (offset_lookup_lt offs k Hlen ltac:(lia)) in Hi by done. injection Hi as <-. by rewrite H1, H2, Hf.
Qed.

(** ** Concrete runs *)

Definition blank : nat -> list Z := fun _ => [].
Definition lazy_blank : deferred (list Z) := mk_deferred blank ∅.

(** Three files of 64 bytes: 31 words in all. *)
Definition three_files : list (list Z) * list Z :=
  match demo_files true (fun _ => true) 3 64 with Ret (Some r) => r | _ => ([], []) end.

Example three_counts : snd three_files = [10; 11; 10].
Proof. vm_compute. reflexivity. Qed.

Lemma files_counted_witness :
  exists words s', read_by_hand (contents (fst three_files)) 3 lazy_blank = Ret (words, s') /\ fst (read_files (contents (fst three_files)) 3 lazy_blank) = words /\
    forall passes, words_counted passes (snd three_files) 3 = true <-> Forall (fun w => w = words) passes.
Proof.
  destruct (files_counted true (fun _ => true) 3 64 ltac:(lia)) as (r & E & _ & Hs).
  assert (Er : r = Some three_files) by (apply Ret_inj; rewrite <- E; vm_compute; reflexivity). subst r.
  destruct (Hs (fst three_files) (snd three_files) ltac:(by rewrite <- surjective_pairing)) as (_ & _ & H). apply (H _ _ lazy_blank 3%nat). lia.
Defined.

Lemma hashes_agree_witness :
  fst (read_then_hash (contents (fst three_files)) 2 3 blank) = fst (async_then_hash (contents (fst three_files)) 2 3 lazy_blank).
Proof.
  destruct (hashes_agree _ _ _ _ _ _ (contents (fst three_files)) 2 3 blank lazy_blank (contents (fst three_files))) as (H1 & H2 & _); [done|].
  by rewrite H1, H2.
Defined.

Lemma hash_no_overflow_witness :
  let h := 8 in Z.abs h < 1000000007 /\ hash_mix h (8, 1) = Z.rem (8 * 31 + 8 + 1) 1000000007.
Proof.
  destruct (hash_no_overflow 2 [8; 0; 0; 0; 0; 0; 0; 0] [(8, 0)] [] 8 1 ltac:(lia) eq_refl) as (H1 & _ & H2). exact (conj H1 H2).
Defined.

Definition no_record : nat -> record := fun _ => mk_record 0 0.

Lemma chain_read_witness :
  exists c s1' s2', chain_setup 512 5 = Ret (Some c) /\ chain_annotated c (Z.to_nat 512) (mk_deferred no_record ∅) = Ret (2048 * 512 * 511, s1') /\
    known_annotated c (Z.to_nat 512) no_record = Ret (2048 * 512 * 511, s2').
Proof.
  destruct (chain_read 512 5 _ _ _ _ (mk_deferred no_record ∅) no_record ltac:(unfold CHAIN_MAX_RECORDS; lia) ltac:(unfold PRAGMA_MAX_PASSES; lia)) as (c & s1' & s2' & E & _ & Ee & E1 & E2 & _).
  rewrite Ee in E1, E2. exists c, s1', s2'. exact (conj E (conj E1 E2)).
Defined.
