(* ===== verification/Demos.v ===== *)
(** * Demos: what the demos check

    The demos' own logic around the calls they demonstrate: the checks and
    the verdict of [demos/common/demo_checks.hh]; the scenarios of the
    ordering demo ([demos/pragma/pragma_report.hh]); the pattern file of
    [utils.hh]; the dependency scenario of [demos/explicit/demo_async_io.hh];
    and the upload demo ([demos/rpc/rpc_upload_report.hh]) against the server
    it talks to.  What they print is left out, except the failed checks.  The
    files they read and how are in the file DemoReads. *)

From S2P Require Import Prelude Text Meta Rpc RpcServer Dag.
Open Scope Z_scope.

(** ** Checks and the verdict *)

Definition PRAGMA_MAX_CHECKS : nat := 32.

(** [pragma_check_what] and [pragma_check_ok] up to [pragma_nchecks], and
    [pragma_failures]. *)
Record checks := mk_checks { ck_done : list (string * bool); ck_failures : Z }.
Definition no_checks : checks := mk_checks [] 0.

Definition pragma_check (what : string) (ok : bool) (c : checks) : checks :=
  mk_checks (if (length (ck_done c) <? PRAGMA_MAX_CHECKS)%nat then ck_done c ++ [(what, ok)] else ck_done c)
            (if ok then ck_failures c else i32 (ck_failures c + 1)).

(** What [pragma_finish] prints of the checks, and its result. *)
Record verdict := mk_verdict { vd_passed : Z; vd_of : Z; vd_failed : list string; vd_code : Z }.

Definition pragma_finish (c : checks) : verdict :=
  mk_verdict (i32 (Z.of_nat (length (ck_done c)) - ck_failures c)) (Z.of_nat (length (ck_done c)))
             (omap (fun e : string * bool => if e.2 then None else Some e.1) (ck_done c))
             (if ck_failures c =? 0 then 0 else 1).

(** ** Counters *)

Record snap := mk_snap {
  sn_calls : Z; sn_completed : Z; sn_failed : Z; sn_sqes : Z; sn_submits : Z; sn_waits : Z; sn_hook_resolves : Z; sn_sleeps : Z;
}.

(** [pragma_since], [now] being what the counters hold. *)
Definition pragma_since (now : snap) (then_ : snap) : snap :=
  mk_snap (u64 (sn_calls now - sn_calls then_)) (u64 (sn_completed now - sn_completed then_)) (u64 (sn_failed now - sn_failed then_))
    (u64 (sn_sqes now - sn_sqes then_)) (u64 (sn_submits now - sn_submits then_)) (u64 (sn_waits now - sn_waits then_))
    (u64 (sn_hook_resolves now - sn_hook_resolves then_)) (u64 (sn_sleeps now - sn_sleeps then_)).

(** [pragma_check_bodies]: [bodies] is [pragma_body_calls], an int. *)
Definition pragma_check_bodies (bodies : Z) (now : snap) : checks -> checks :=
  pragma_check "the runtime ran each annotated call's body once" (u64 bodies =? sn_calls now).

(** ** The scenarios of the ordering demo *)

Inductive expectation := INDEPENDENT | CONFLICTING.
#[export] Instance expectation_dec : EqDecision expectation.
Proof. solve_decision. Defined.

Record scenario := mk_scenario {
  sc_what : string; sc_expect : expectation; sc_calls : Z; sc_issuing : Z; sc_submits : Z; sc_ok : bool; sc_outcome : string;
}.

(** [scenarios] up to [nscenarios], the row being filled, the two snapshots
    and the checks. *)
Record ordering := mk_ordering {
  od_rows : list scenario; od_row : option (string * expectation); od_snap : snap; od_issued : snap; od_checks : checks;
}.

Definition scenario_start (what : string) (expect : expectation) (now : snap) (o : ordering) : outcome ordering :=
  if (length (od_rows o) <? 4)%nat then mret (mk_ordering (od_rows o) (Some (what, expect)) now (od_issued o) (od_checks o)) else Trap.

Definition scenario_issued (now : snap) (o : ordering) : ordering :=
  mk_ordering (od_rows o) (od_row o) (od_snap o) (pragma_since now (od_snap o)) (od_checks o).

Definition scenario_done (ok : bool) (outcome_ : string) (now : snap) (o : ordering) : outcome ordering :=
  '(what, expect) ← deref (od_row o);
  let done_ := pragma_since now (od_snap o) in
  let issuing := u64 (sn_submits (od_issued o) + sn_waits (od_issued o)) in
  let row := mk_scenario what expect (sn_calls (od_issued o)) issuing (sn_submits done_) ok (if ok then outcome_ else "FAILED"%string) in
  let c := pragma_check what ok (od_checks o) in
  mret (mk_ordering (od_rows o ++ [row]) None (od_snap o) (od_issued o)
    (if decide (expect = CONFLICTING) then pragma_check "  conflicting calls waited inside the call" (0 <? issuing) c
     else pragma_check "  the batch reached the kernel in one submit" (sn_submits done_ =? 1)
            (pragma_check "  independent calls did not wait while issued" (issuing =? 0) c))).

(** A scenario of [main], with the counters at its three points. *)
Record run := mk_run { rn_what : string; rn_expect : expectation; rn_at : snap * snap * snap; rn_ok : bool; rn_outcome : string }.

Definition run_scenario (r : run) (o : ordering) : outcome ordering :=
  let '(s0, s1, s2) := rn_at r in
  o ← scenario_start (rn_what r) (rn_expect r) s0 o;
  scenario_done (rn_ok r) (rn_outcome r) s2 (scenario_issued s1 o).

Fixpoint run_scenarios (rs : list run) (o : ordering) : outcome ordering :=
  match rs with
  | [] => mret o
  | r :: rs => o ← run_scenario r o; run_scenarios rs o
  end.

Definition ordering_report (bodies : Z) (now : snap) (o : ordering) : verdict :=
  pragma_finish (pragma_check_bodies bodies now (od_checks o)).

(** ** The reports of single demos

    Each takes what the demo has measured, and the counters when
    [pragma_check_bodies] reads them ([bodies], [now]). *)

(** [memcmp(a, b, n) == 0]. *)
Definition memcmp_eq (a b : list Z) (n : nat) : bool := bool_decide (take n a = take n b).

(** A step of the hello demo: the counters since the start, and whether the
    buffer was pending after it. *)
Record hello_step := mk_hello_step { hs_used : snap; hs_pending : bool }.

Definition hello_message : list Z := bytes_of "Hello from io_uring: these bytes were read by an annotated call.".

Definition hello_report (call touch : hello_step) (n : Z) (buf : list Z) (bodies : Z) (now : snap) : verdict :=
  let c := pragma_check_bodies bodies now no_checks in
  let c := pragma_check "the call only queued a request (no kernel entry)"
    ((sn_sqes (hs_used call) =? 1) && (sn_submits (hs_used call) =? 0) && (sn_waits (hs_used call) =? 0)) c in
  let c := pragma_check "buf was pending until it was first read" (hs_pending call && negb (hs_pending touch)) c in
  let c := pragma_check "the first read sent the request to the kernel" (sn_submits (hs_used touch) =? 1) c in
  let c := pragma_check "the bytes are the ones in the file"
    ((n =? Z.of_nat (length hello_message)) && memcmp_eq buf hello_message (length hello_message)) c in
  pragma_finish c.

Record lifecycle_results := mk_lifecycle { lc_fd : Z; lc_wrote : Z; lc_synced : Z; lc_read : Z; lc_closed : Z }.

(** [disk_n] and [disk]: what a plain read of the file gave; [fd_closed]: what
    [fcntl] said of the descriptor. *)
Definition lifecycle_report (r : lifecycle_results) (text back : list Z) (disk_n : Z) (disk : list Z) (fd_closed : bool) (used : snap) (bodies : Z) : verdict :=
  let len := length text in
  let c := pragma_check "every step succeeded"
    ((0 <=? lc_fd r) && (lc_wrote r =? Z.of_nat len) && (lc_synced r =? 0) && (lc_read r =? Z.of_nat len) && (lc_closed r =? 0)) no_checks in
  let c := pragma_check "the read saw the write issued before it" (memcmp_eq back text len) c in
  let c := pragma_check "the file holds the text (checked with plain read)" ((disk_n =? Z.of_nat len) && memcmp_eq disk text len) c in
  let c := pragma_check "the fd was closed by the last call" fd_closed c in
  let c := pragma_check "five calls, five requests, five bodies run" ((sn_calls used =? 5) && (sn_sqes used =? 5) && (bodies =? 5)) c in
  pragma_finish c.

Definition WAITALL_READS : nat := 30.
Definition waitall_file : list Z := bytes_of "abcdefghijklmnopqrstuvwxyz1234".

(** [reads] and [wrote]: the results waited for; [seen]: the byte each read
    got; [first]: the file's first byte; [done_]: whether the group is still
    pending in the end. *)
Definition waitall_report (pending : bool) (issued : snap) (reads : list Z) (wrote : Z) (seen : list Z) (first : Z) (still : bool) (bodies : Z) (now : snap) : verdict :=
  let reads_ok := forallb (fun r => r =? 1) reads in
  let old_bytes := forallb (fun e : Z * Z => e.1 =? e.2) (zip seen waitall_file) in
  let c := pragma_check_bodies bodies now no_checks in
  let c := pragma_check "the group was pending until the reads were waited for" pending c in
  let c := pragma_check "issuing the write sent all 30 reads to the kernel in one submit" ((sn_submits issued =? 1) && (sn_waits issued =? 0)) c in
  let c := pragma_check "all 30 reads and the write succeeded" (reads_ok && (wrote =? 1)) c in
  let c := pragma_check "no read saw the byte the write stored" old_bytes c in
  let c := pragma_check "the write reached the file" (first =? 33) c in
  let c := pragma_check "the group is done once the write is" (negb still) c in
  pragma_finish c.

(** ** The pattern file *)

(** What [demo_seed_file] writes. *)
Fixpoint seed_blocks (i blocks : nat) (block_size : nat) : list Z :=
  match blocks with
  | O => []
  | S blocks => replicate block_size (Z.land (Z.of_nat i + 1) 255) ++ seed_blocks (S i) blocks block_size
  end.

Definition demo_seed_file (blocks block_size : nat) : list Z := seed_blocks 0 blocks block_size.

(** The loop over every 512th byte of [demo_block_ok]. *)
Fixpoint block_loop (fuel : nat) (buf : list Z) (block_size i : Z) (expected : Z) : outcome bool :=
  if negb (i <? block_size) then mret true
  else match fuel with
       | O => NoFuel
       | S fuel =>
           b ← deref (buf !! Z.to_nat i);
           if negb (b =? expected) then mret false else block_loop fuel buf block_size (u64 (i + 512)) expected
       end.

Definition demo_block_ok (buf : list Z) (block_size index : Z) : outcome bool :=
  block_loop (Z.to_nat block_size) buf block_size 0 (Z.land (i32 (index + 1)) 255).

(** ** Dependencies *)

Definition access_range (p : fptr) (len kind : Z) : access := mk_access p len kind 0.

(** [write(a)], [write(b)], [copy(a,c)] and [read(c)]. *)
Definition demo_ops (a b c : fptr) : list (list access) :=
  [[access_range a 1024 FASYNC_OUT]; [access_range b 1024 FASYNC_OUT];
   [access_range a 1024 FASYNC_IN; access_range c 1024 FASYNC_OUT]; [access_range c 1024 FASYNC_IN]].

(** The edges [scenario_dependencies] prints, and the statistics. *)
Definition scenario_dependencies (a b c : fptr) : list (Z * Z) * dag_stats :=
  let '(n, edges, st) := fasync_build_dag (demo_ops a b c) 16 in
  (map (fun e => (e / 4, e mod 4)) (take (Z.to_nat n) edges), st).

(** ** Uploads *)

Definition UPLOAD_FILES : nat := 4.
Definition UPLOAD_BYTES : Z := 4096.

Definition upload_checksum (p : list Z) : Z := fold_left (fun hash c => u32 (Z.lxor hash c * 16777619)) p 2166136261.

Definition alphabet : list Z := bytes_of "abcdefghijklmnopqrstuvwxyz" ++ [10].

(** The bytes of file [i]. *)
Definition upload_text (i : Z) : list Z := map (fun j => nth (Z.to_nat (j * (i + 3) mod 27)) alphabet 0) (seqZ 0 UPLOAD_BYTES).

(** [matched] of [upload_report], from the replies and the buffers. *)
Definition upload_matched (expect replies : list Z) (bufs : list (list Z)) : Z :=
  foldr (fun e n => n + if (fst (fst e) =? snd (fst e)) && (upload_checksum (snd e) =? fst (fst e)) then 1 else 0) 0
    (zip (zip expect replies) bufs).

Definition upload_report (expect replies : list Z) (bufs : list (list Z)) (used : snap) : verdict :=
  let c := pragma_check "every upload sent the bytes its read produced" (upload_matched expect replies bufs =? Z.of_nat UPLOAD_FILES) no_checks in
  let c := pragma_check "the reads reached the kernel in one submit" ((sn_sqes used =? Z.of_nat UPLOAD_FILES) && (sn_submits used =? 1)) c in
  let c := pragma_check "every call completed without failing"
    ((sn_calls used =? 2 * Z.of_nat UPLOAD_FILES) && (sn_completed used =? 2 * Z.of_nat UPLOAD_FILES) && (sn_failed used =? 0)) c in
  pragma_finish c.

(** ** The verdict is about every check *)

Definition run_checks (l : list (string * bool)) (c : checks) : checks := fold_left (fun c e => pragma_check e.1 e.2 c) l c.

(** The number of checks of [l] that failed. *)
Definition failures (l : list (string * bool)) : Z := Z.of_nat (length (List.filter (fun e => negb e.2) l)).

Lemma failures_app l1 l2 : failures (l1 ++ l2) = failures l1 + failures l2.
Proof. unfold failures. rewrite List.filter_app, length_app. lia. Qed.

Lemma run_checks_ok l : Z.of_nat (length l) < 2 ^ 31 -> run_checks l no_checks = mk_checks (take PRAGMA_MAX_CHECKS l) (failures l).
Proof.
  induction l as [|[what ok] l IH] using rev_ind; intros Hl; [done|]. rewrite length_app in Hl. cbn [length] in Hl.
  unfold run_checks in *. rewrite fold_left_app, IH by lia. cbn [fold_left]. unfold pragma_check. cbn [ck_done ck_failures fst snd].
  rewrite failures_app, length_take. f_equal.
  - destruct (Nat.ltb_spec (PRAGMA_MAX_CHECKS `min` length l) PRAGMA_MAX_CHECKS) as [Hlt|Hge].
    + rewrite take_ge by lia. symmetry. apply take_ge. rewrite length_app. cbn. lia.
    + rewrite take_app_le by lia. done.
  - assert (failures l <= Z.of_nat (length l)) by (unfold failures; pose proof (List.filter_length_le (fun e : string * bool => negb e.2) l); lia).
    destruct ok; [unfold failures; cbn; lia|]. rewrite i32_small by (unfold failures in *; lia). unfold failures. cbn. lia.
Qed.

Lemma failures_zero l : failures l = 0 <-> Forall (fun e => e.2 = true) l.
Proof.
  induction l as [|[what ok] l IH]; [done|]. change ((what, ok) :: l) with ([(what, ok)] ++ l). rewrite failures_app, Forall_app, Forall_singleton. cbn [snd].
  assert (0 <= failures l) by (unfold failures; lia). destruct ok; unfold failures at 1; cbn.
  - rewrite <- IH. split; [split; [done|lia]|intros [_ ?]; lia].
  - split; [lia|]. by intros [? _].
Qed.

(** The verdict of a demo.  After any checks (fewer than 2^31), it is 0
    exactly when every one of them passed, also beyond the 32 that are
    recorded; the failed ones among the first 32 are named, in order; and
    with at most 32 checks the count printed is that of the passed ones. *)
Theorem finish_verdict (l : list (string * bool)) :
  Z.of_nat (length l) < 2 ^ 31 ->
  let v := pragma_finish (run_checks l no_checks) in
  vd_code v = (if bool_decide (Forall (fun e => e.2 = true) l) then 0 else 1) /\
  vd_failed v = map fst (List.filter (fun e => negb e.2) (take PRAGMA_MAX_CHECKS l)) /\
  vd_of v = Z.min 32 (Z.of_nat (length l)) /\
  ((length l <= PRAGMA_MAX_CHECKS)%nat -> vd_passed v = Z.of_nat (length (List.filter snd l))).
Proof.
  intros Hl. rewrite run_checks_ok by done. unfold pragma_finish. cbn [ck_done ck_failures vd_code vd_failed vd_of vd_passed]. split; [|split; [|split]].
  - case_bool_decide as E; [by rewrite (proj2 (failures_zero l) E)|]. destruct (Z.eqb_spec (failures l) 0) as [Ez|]; [|done]. by apply failures_zero in Ez.
  - induction (take PRAGMA_MAX_CHECKS l) as [|[what ok] l0 IH]; [done|]. destruct ok; cbn; [exact IH|by rewrite IH].
  - rewrite length_take. change PRAGMA_MAX_CHECKS with 32%nat. lia.
  - intros H32. rewrite take_ge by done. pose proof (List.filter_length (fun e : string * bool => negb e.2) l) as Hf.
    assert (E : List.filter (fun e : string * bool => negb (negb e.2)) l = List.filter snd l) by (apply List.filter_ext; intros [? b]; apply negb_involutive).
    cbv beta in Hf. rewrite E in Hf. rewrite i32_small; unfold failures; lia.
Qed.

(** A demo passes when its checks do. *)
Lemma report_passes (l : list (string * bool)) :
  (length l <= PRAGMA_MAX_CHECKS)%nat -> vd_code (pragma_finish (run_checks l no_checks)) = 0 <-> Forall (fun e => e.2 = true) l.
Proof.
  intros Hl. unfold PRAGMA_MAX_CHECKS in Hl. rewrite run_checks_ok by lia. unfold pragma_finish. cbn [vd_code ck_failures].
  rewrite <- failures_zero. destruct (Z.eqb_spec (failures l) 0); [done|]. by split.
Qed.

Lemma memcmp_spec a b n : memcmp_eq a b n = true <-> take n a = take n b.
Proof. unfold memcmp_eq. by rewrite bool_decide_eq_true. Qed.

Lemma check_snoc what ok l : pragma_check what ok (run_checks l no_checks) = run_checks (l ++ [(what, ok)]) no_checks.
Proof. unfold run_checks. by rewrite fold_left_app. Qed.

(** Turns a report's verdict into its conditions. *)
Ltac verdict_of report :=
  unfold report, pragma_check_bodies; cbv zeta;
  change no_checks with (run_checks [] no_checks) at 1; rewrite !check_snoc; cbn [app];
  rewrite report_passes by (cbn; unfold PRAGMA_MAX_CHECKS; lia); rewrite !Forall_cons, Forall_nil; cbn [snd];
  repeat first [rewrite andb_true_iff | rewrite Z.eqb_eq | rewrite Z.leb_le | rewrite negb_true_iff | rewrite memcmp_spec].

(** The bytes seen are the old ones, as far as both go. *)
Lemma old_bytes_spec (seen file : list Z) :
  length seen = length file -> forallb (fun e : Z * Z => e.1 =? e.2) (zip seen file) = true <-> seen = file.
Proof.
  revert file. induction seen as [|x seen IH]; intros [|y file]; try done. intros [= Hl]. cbn [zip zip_with forallb fst snd].
  rewrite andb_true_iff, Z.eqb_eq. change (zip_with pair seen file) with (zip seen file). rewrite (IH file Hl). naive_solver.
Qed.

(** ** The ordering demo's scenarios *)

(** The checks of a scenario. *)
Definition scenario_checks (r : run) : list (string * bool) :=
  let '(s0, s1, s2) := rn_at r in
  let issued := pragma_since s1 s0 in
  let issuing := u64 (sn_submits issued + sn_waits issued) in
  (rn_what r, rn_ok r) ::
  match rn_expect r with
  | CONFLICTING => [("  conflicting calls waited inside the call"%string, 0 <? issuing)]
  | INDEPENDENT => [("  independent calls did not wait while issued"%string, issuing =? 0);
                    ("  the batch reached the kernel in one submit"%string, sn_submits (pragma_since s2 s0) =? 1)]
  end.

Lemma run_checks_app l1 l2 c : run_checks (l1 ++ l2) c = run_checks l2 (run_checks l1 c).
Proof. apply fold_left_app. Qed.

Lemma run_scenarios_ok rs : forall o, (length (od_rows o) + length rs <= 4)%nat ->
  exists o', run_scenarios rs o = Ret o' /\ od_checks o' = run_checks (flat_map scenario_checks rs) (od_checks o).
Proof.
  induction rs as [|r rs IH]; intros o Hl; cbn [run_scenarios length] in *; [by exists o|].
  unfold run_scenario. destruct r as [what expect [[s0 s1] s2] ok out]. cbn [rn_what rn_expect rn_at rn_ok rn_outcome].
  unfold scenario_start. destruct (Nat.ltb_spec (length (od_rows o)) 4); [|lia]. cbn [mbind outcome_bind mret outcome_ret scenario_done scenario_issued od_row deref].
  edestruct IH as (o' & E & Ec); [|rewrite E; exists o'; split; [done|]; rewrite Ec]; cbn [od_rows od_checks].
  - rewrite length_app. cbn. lia.
  - cbn [flat_map]. rewrite run_checks_app. f_equal. unfold scenario_checks. cbn [rn_at rn_what rn_ok rn_expect]. by destruct expect.
Qed.

(** Counters only grow, and are far from wrapping. *)
Definition grows (s t : snap) : Prop :=
  0 <= sn_submits s <= sn_submits t /\ 0 <= sn_waits s <= sn_waits t /\ sn_submits t < 2 ^ 62 /\ sn_waits t < 2 ^ 62.

(** What a scenario is meant to show. *)
Definition as_expected (r : run) : Prop :=
  let '(s0, s1, s2) := rn_at r in
  rn_ok r = true /\
  match rn_expect r with
  | CONFLICTING => sn_submits s0 < sn_submits s1 \/ sn_waits s0 < sn_waits s1
  | INDEPENDENT => sn_submits s1 = sn_submits s0 /\ sn_waits s1 = sn_waits s0 /\ sn_submits s2 = sn_submits s0 + 1
  end.

Lemma scenario_checks_ok r :
  (let '(s0, s1, s2) := rn_at r in grows s0 s1 /\ grows s1 s2) -> Forall (fun e => e.2 = true) (scenario_checks r) <-> as_expected r.
Proof.
  destruct r as [what expect [[s0 s1] s2] ok out]. cbn [rn_at]. intros [(Hs & Hw & Hs2 & Hw2) (Hs' & Hw' & Hs2' & Hw2')].
  unfold scenario_checks, as_expected, pragma_since. cbn [rn_at rn_what rn_ok rn_expect sn_submits sn_waits].
  rewrite (u64_small (sn_submits s1 - sn_submits s0)), (u64_small (sn_waits s1 - sn_waits s0)), (u64_small (sn_submits s2 - sn_submits s0)), u64_small by lia.
  destruct expect; rewrite !Forall_cons, Forall_nil; cbn [snd]; rewrite ?Z.eqb_eq, ?Z.ltb_lt; split; intros H; destruct_and?; split_and?; (done || lia).
Qed.

(** The ordering demo's verdict.  With at most four scenarios the report
    returns, and the demo passes exactly when every scenario's outcome is
    right, its conflicting calls entered the kernel while they were issued,
    its independent ones did not and went to the kernel in one submit, and
    every call ran its body once. *)
Theorem ordering_verdict (rs : list run) (bodies : Z) (now : snap) (s : snap) :
  (length rs <= 4)%nat -> 0 <= bodies < 2 ^ 31 -> Forall (fun r => let '(s0, s1, s2) := rn_at r in grows s0 s1 /\ grows s1 s2) rs ->
  exists o, run_scenarios rs (mk_ordering [] None s s no_checks) = Ret o /\
    (vd_code (ordering_report bodies now o) = 0 <-> Forall as_expected rs /\ sn_calls now = bodies).
Proof.
  intros Hl Hb Hg. destruct (run_scenarios_ok rs (mk_ordering [] None s s no_checks) Hl) as (o & E & Ec). exists o. split; [done|].
  unfold ordering_report. rewrite Ec. cbn [od_checks]. set (l := flat_map scenario_checks rs).
  assert (Hlen : (length l <= 3 * length rs)%nat).
  { unfold l. clear. induction rs as [|r rs IH]; [done|]. cbn [flat_map length]. rewrite length_app.
    assert (length (scenario_checks r) <= 3)%nat by (unfold scenario_checks; destruct (rn_at r) as [[? ?] ?]; destruct (rn_expect r); cbn; lia). lia. }
  change (pragma_check_bodies bodies now (run_checks l no_checks)) with
    (run_checks [("the runtime ran each annotated call's body once"%string, u64 bodies =? sn_calls now)] (run_checks l no_checks)).
  rewrite <- run_checks_app, run_checks_ok by (rewrite length_app; cbn; lia). unfold pragma_finish. cbn [vd_code ck_failures].
  set (fs := failures _). assert (Hz : fs = 0 <-> Forall as_expected rs /\ sn_calls now = bodies).
  { unfold fs. rewrite failures_zero, Forall_app, Forall_singleton. cbn [snd]. rewrite Z.eqb_eq, u64_small by lia.
    assert (Hs : Forall (fun e => e.2 = true) l <-> Forall as_expected rs); [|naive_solver].
    unfold l. clear - Hg. induction Hg as [|r rs Hr _ IH]; [done|]. cbn [flat_map]. rewrite Forall_app, Forall_cons, IH. by rewrite scenario_checks_ok. }
  rewrite <- Hz. destruct (Z.eqb_spec fs 0); [tauto|]. split; [done|tauto].
Qed.

(** ** The pattern file *)

Lemma land_255 x : Z.land x 255 = x mod 256.
Proof. change 255 with (Z.ones 8). by rewrite Z.land_ones. Qed.

Lemma seed_block j : forall i blocks size, (j < blocks)%nat ->
  take size (drop (j * size) (seed_blocks i blocks size)) = replicate size ((Z.of_nat (i + j) + 1) mod 256).
Proof.
  induction j as [|j IH]; intros i blocks size Hj; (destruct blocks as [|blocks]; [lia|]); cbn [seed_blocks].
  - rewrite land_255, Nat.add_0_r, Nat.mul_0_l, drop_0, take_app_length'; [done|by rewrite length_replicate].
  - rewrite drop_app_ge by (rewrite length_replicate; lia). rewrite length_replicate.
    replace (S j * size - size)%nat with (j * size)%nat by lia. rewrite IH by lia. by rewrite Nat.add_succ_l, Nat.add_succ_r.
Qed.

Lemma pattern_loop_ok fuel : forall v size i expected,
  0 <= i < 2 ^ 63 -> Z.of_nat size < 2 ^ 62 -> Z.of_nat size - i <= Z.of_nat fuel ->
  block_loop fuel (replicate size v) (Z.of_nat size) i expected = Ret (bool_decide (Z.of_nat size <= i \/ v = expected)).
Proof.
  induction fuel as [|fuel IH]; intros v size i expected Hi Hs Hf; cbn [block_loop]; destruct (Z.ltb_spec i (Z.of_nat size)); cbn [negb]; try lia.
  - rewrite bool_decide_true by lia. done.
  - rewrite lookup_replicate_2 by lia. cbn [deref mbind outcome_bind]. destruct (Z.eqb_spec v expected) as [->|]; cbn [negb].
    + rewrite u64_small by lia. rewrite IH by lia. f_equal. apply bool_decide_ext. naive_solver.
    + rewrite bool_decide_false by lia. done.
  - rewrite bool_decide_true by lia. done.
Qed.

(** The pattern file read back.  Of a file of [blocks] blocks, block [j]
    passes the check of index [i] exactly when the two agree modulo 256: each
    block is accepted as itself, and a read of any of the 255 blocks after it
    is refused. *)
Theorem seeded_block_ok (blocks size : nat) (j : nat) (i : Z) :
  (j < blocks)%nat -> 0 <= i < 2 ^ 31 - 1 -> (0 < size)%nat -> Z.of_nat size < 2 ^ 62 ->
  demo_block_ok (take size (drop (j * size) (demo_seed_file blocks size))) (Z.of_nat size) i =
    Ret (bool_decide (i mod 256 = Z.of_nat j mod 256)).
Proof.
  intros Hj Hi H0 Hs. unfold demo_seed_file, demo_block_ok. rewrite seed_block by done. rewrite pattern_loop_ok by lia.
  rewrite land_255, i32_small by lia. cbn [Nat.add]. f_equal. apply bool_decide_ext.
  split; [intros [?|E]; [lia|]|intros E; right]; Z.to_euclidean_division_equations; lia.
Qed.

(** ** Dependencies *)

(** An allocation of at least the 1024 bytes the operations touch. *)
Definition allocated (p : fptr) : Prop :=
  0 < f_addr p /\ f_lower p <= f_addr p /\ f_addr p + 1024 <= f_upper p /\ f_upper p < 2 ^ 64.

Definition apart (p q : fptr) : Prop := f_upper p <= f_lower q \/ f_upper q <= f_lower p.

Lemma range_of p : allocated p -> fasync_capability_range p 1024 = mk_range (f_lower p) (f_upper p).
Proof.
  intros (H0 & Hl & Hu & H64). unfold fasync_capability_range. rewrite u64_small by lia.
  destruct (Z.ltb_spec (f_addr p) (f_lower p)), (Z.ltb_spec (f_upper p) (f_addr p + 1024)); (done || lia).
Qed.

Lemma conflict_apart p q k1 k2 : allocated p -> allocated q -> apart p q ->
  fasync_access_conflict (access_range p 1024 k1) (access_range q 1024 k2) = (0, true).
Proof.
  intros Hp Hq Ha. unfold fasync_access_conflict, access_range. cbn [a_buf a_len a_kind].
  pose proof Hp as (H1 & _). pose proof Hq as (H2 & _). rewrite (proj2 (Z.eqb_neq (f_addr p) NULL)), (proj2 (Z.eqb_neq (f_addr q) NULL)) by (unfold NULL; lia).
  cbn [orb]. rewrite !range_of by done. unfold fasync_ranges_disjoint. cbn [r_lo r_hi].
  destruct Ha as [Ha|Ha]; [rewrite (proj2 (Z.leb_le (f_upper p) (f_lower q)) Ha)|rewrite (proj2 (Z.leb_le (f_upper q) (f_lower p)) Ha), orb_true_r]; done.
Qed.

Lemma conflict_self p k1 k2 : allocated p ->
  fasync_access_conflict (access_range p 1024 k1) (access_range p 1024 k2) = (edge_kind k1 k2, false).
Proof.
  intros Hp. unfold fasync_access_conflict, access_range. cbn [a_buf a_len a_kind].
  pose proof Hp as (H1 & H2 & H3 & _). rewrite (proj2 (Z.eqb_neq (f_addr p) NULL)) by (unfold NULL; lia).
  cbn [orb]. rewrite !range_of by done. unfold fasync_ranges_disjoint. cbn [r_lo r_hi].
  by rewrite (proj2 (Z.leb_gt (f_upper p) (f_lower p))) by lia.
Qed.

(** What the loop of [fasync_build_dag] asks of a pair. *)
Definition pair_answer (ops : list (list access)) (i j : nat) : bool * bool * Z :=
  (fasync_ops_conflict (nth i ops []) (nth j ops []), first_kind (nth i ops []) (nth j ops [])).

Lemma loop_next ops max_edges i j ps edges local conflict auto kind :
  pair_answer ops i j = (conflict, auto, kind) ->
  build_dag_loop ops max_edges ((i, j) :: ps) edges local =
    let local := if auto : bool then count_auto local else local in
    if negb conflict then build_dag_loop ops max_edges ps edges local
    else if max_edges <=? Z.of_nat (length edges) then (0, edges, local)
    else build_dag_loop ops max_edges ps (edges ++ [edge_code (Z.of_nat (length ops)) (Z.of_nat i) (Z.of_nat j)]) (count_edge kind local).
Proof.
  intros E. pose proof (f_equal fst E) as E1. pose proof (f_equal snd E) as E2. cbn [pair_answer fst snd] in E1, E2.
  cbn [build_dag_loop]. by rewrite E1, E2.
Qed.

Ltac conflicts :=
  unfold pair_answer, fasync_ops_conflict, first_kind, demo_ops; cbn [nth fold_left]; unfold conflict_step;
  repeat match goal with |- context [fasync_access_conflict (access_range ?p 1024 ?k1) (access_range ?q 1024 ?k2)] =>
    first [rewrite (conflict_self p k1 k2) by done | rewrite (conflict_apart p q k1 k2) by done] end; reflexivity.

Ltac next_pair P :=
  rewrite (loop_next _ _ _ _ _ _ _ _ _ _ P); cbv zeta; cbn [negb]; try (change (16 <=? _) with false; cbv iota).

(** The dependency demo.  Wherever its three buffers are, it finds the
    two dependencies of its four operations, both read after write, and
    proves the other four pairs disjoint. *)
Theorem demo_edges (a b c : fptr) :
  allocated a -> allocated b -> allocated c -> apart a b -> apart a c -> apart b c ->
  scenario_dependencies a b c = ([(0, 2); (2, 3)], mk_dag_stats 4 2 2 4 2 0 0).
Proof.
  intros Ha Hb Hc Hab Hac Hbc. assert (Hba : apart b a) by (unfold apart in *; tauto).
  assert (Hca : apart c a) by (unfold apart in *; tauto). assert (Hcb : apart c b) by (unfold apart in *; tauto).
  assert (P01 : pair_answer (demo_ops a b c) 0 1 = (false, true, 0)) by conflicts.
  assert (P02 : pair_answer (demo_ops a b c) 0 2 = (true, false, 1)) by conflicts.
  assert (P03 : pair_answer (demo_ops a b c) 0 3 = (false, true, 0)) by conflicts.
  assert (P12 : pair_answer (demo_ops a b c) 1 2 = (false, true, 0)) by conflicts.
  assert (P13 : pair_answer (demo_ops a b c) 1 3 = (false, true, 0)) by conflicts.
  assert (P23 : pair_answer (demo_ops a b c) 2 3 = (true, false, 1)) by conflicts.
  unfold scenario_dependencies, fasync_build_dag. change (loop_pairs _) with [(0, 1); (0, 2); (0, 3); (1, 2); (1, 3); (2, 3)]%nat.
  next_pair P01. next_pair P02. next_pair P03. next_pair P12. next_pair P13. next_pair P23. reflexivity.
Qed.

(** ** Uploads *)

Lemma upload_checksum_fnv p : upload_checksum p = fnv p.
Proof. done. Qed.

Lemma upload_text_length i : length (upload_text i) = Z.to_nat UPLOAD_BYTES.
Proof. unfold upload_text. by rewrite length_map, length_seqZ. Qed.

Lemma upload_matched_all expect : forall replies bufs,
  length replies = length expect -> length bufs = length expect ->
  0 <= upload_matched expect replies bufs <= Z.of_nat (length expect) /\
  (upload_matched expect replies bufs = Z.of_nat (length expect) <-> replies = expect /\ map upload_checksum bufs = expect).
Proof.
  induction expect as [|e expect IH]; intros [|r replies] [|b bufs]; try discriminate; [done|]. intros [= Hr] [= Hb].
  destruct (IH replies bufs Hr Hb) as [Hle Hiff]. unfold upload_matched. cbn [zip zip_with foldr fst snd map length].
  change (foldr _ 0 (zip (zip expect replies) bufs)) with (upload_matched expect replies bufs).
  destruct (Z.eqb_spec e r) as [->|Hne1], (Z.eqb_spec (upload_checksum b) r) as [<-|Hne2]; cbn [andb]; (split; [lia|]).
  1: split; [intros H; assert (H1 : upload_matched expect replies bufs = Z.of_nat (length expect)) by lia; apply Hiff in H1 as [-> <-]; done|].
  1: intros [[= E1] [= E2]]; rewrite (proj2 Hiff (conj E1 E2)); lia.
  all: split; [lia|intros [E1 E2]; exfalso; congruence].
Qed.

(** The upload demo against its server.  The request that uploads file
    [i] is answered with the checksum the demo computed when it wrote the
    file; and the demo counts every file as matched exactly when each reply
    is that checksum and each buffer has it too. *)
Theorem upload_checked (fd counter : Z) (args : list Z) :
  args !! 2%nat = Some UPLOAD_BYTES -> 0 <= counter < LONG_MAX ->
  let expect := map (fun i => upload_checksum (upload_text (Z.of_nat i))) (seq 0 UPLOAD_FILES) in
  (forall i, (i < UPLOAD_FILES)%nat ->
    exists sum, expect !! i = Some sum /\
      serve (request_bytes (upload_text (Z.of_nat i)) (request_of OP_PUT args fd)) counter = (value_line sum, counter)) /\
  forall replies bufs, length replies = UPLOAD_FILES -> length bufs = UPLOAD_FILES ->
    upload_matched expect replies bufs = Z.of_nat UPLOAD_FILES <-> replies = expect /\ map upload_checksum bufs = expect.
Proof.
  intros Ha Hc expect. split.
  - intros i Hi. exists (upload_checksum (upload_text (Z.of_nat i))). split.
    + unfold expect. rewrite list_lookup_fmap, lookup_seq_lt by done. done.
    + rewrite serve_request; [|done|done|intros _ n; rewrite Ha; intros [= <-]; rewrite upload_text_length; unfold UPLOAD_BYTES, ULONG_MAX; lia|by rewrite Ha].
      cbn [asked]. unfold request_of. rewrite Ha. cbn [default from_option rq_payload_len].
      rewrite take_ge by (rewrite upload_text_length; apply Nat.le_refl).
      exact (f_equal (fun sum => (value_line sum, counter)) (eq_sym (upload_checksum_fnv _))).
  - intros replies bufs Hr Hb. by apply upload_matched_all.
Qed.

(** ** What the single demos show *)

(** The verdicts of the hello, lifecycle, wait-all and upload demos.
    The hello demo passes exactly when its call queued one request without
    entering the kernel, the buffer was pending after the call and not after
    the touch, the touch made one submission, the bytes are the message, and
    every call ran its body once; the lifecycle demo when its five calls
    succeeded and the write was seen by the read and by a plain read of the
    file; the wait-all demo when the thirty reads saw the file as it was and
    the write went after them; the upload demo when every reply and every
    buffer has the checksum of the file. *)
Theorem demo_verdicts (bodies : Z) (now : snap) :
  0 <= bodies < 2 ^ 31 ->
  (forall call touch n buf, vd_code (hello_report call touch n buf bodies now) = 0 <->
     bodies = sn_calls now /\ (sn_sqes (hs_used call) = 1 /\ sn_submits (hs_used call) = 0 /\ sn_waits (hs_used call) = 0) /\
     (hs_pending call = true /\ hs_pending touch = false) /\ sn_submits (hs_used touch) = 1 /\
     n = Z.of_nat (length hello_message) /\ take (length hello_message) buf = hello_message) /\
  (forall r text back disk_n disk fd_closed used, vd_code (lifecycle_report r text back disk_n disk fd_closed used bodies) = 0 <->
     (0 <= lc_fd r /\ lc_wrote r = Z.of_nat (length text) /\ lc_synced r = 0 /\ lc_read r = Z.of_nat (length text) /\ lc_closed r = 0) /\
     take (length text) back = text /\ (disk_n = Z.of_nat (length text) /\ take (length text) disk = text) /\ fd_closed = true /\
     sn_calls used = 5 /\ sn_sqes used = 5 /\ bodies = 5) /\
  (forall pending issued reads wrote seen first still, length seen = WAITALL_READS ->
     vd_code (waitall_report pending issued reads wrote seen first still bodies now) = 0 <->
     bodies = sn_calls now /\ pending = true /\ (sn_submits issued = 1 /\ sn_waits issued = 0) /\
     (Forall (fun r => r = 1) reads /\ wrote = 1) /\ seen = waitall_file /\ first = 33 /\ still = false) /\
  (forall expect replies bufs used, length expect = UPLOAD_FILES -> length replies = UPLOAD_FILES -> length bufs = UPLOAD_FILES ->
     vd_code (upload_report expect replies bufs used) = 0 <->
     (replies = expect /\ map upload_checksum bufs = expect) /\ (sn_sqes used = 4 /\ sn_submits used = 1) /\
     sn_calls used = 8 /\ sn_completed used = 8 /\ sn_failed used = 0).
Proof.
  intros Hb. assert (Hu : u64 bodies = bodies) by (apply u64_small; lia). split; [|split; [|split]].
  - intros call touch n buf. verdict_of hello_report. rewrite Hu, (take_ge hello_message) by done. tauto.
  - intros r text back disk_n disk fd_closed used. verdict_of lifecycle_report. rewrite (take_ge text) by done. tauto.
  - intros pending issued reads wrote seen first still Hseen. verdict_of waitall_report.
    rewrite Hu, old_bytes_spec, forallb_forall by (by rewrite Hseen). rewrite List.Forall_forall. setoid_rewrite Z.eqb_eq. tauto.
  - intros expect replies bufs used He Hr Hbufs. verdict_of upload_report.
    pose proof (upload_matched_all expect replies bufs) as Hm. rewrite He in Hm. destruct (Hm Hr Hbufs) as [_ ->]. tauto.
Qed.

(** ** Concrete runs *)

Definition two_checks : list (string * bool) := [("the first"%string, true); ("the second"%string, false)].

Lemma finish_verdict_witness : vd_code (pragma_finish (run_checks two_checks no_checks)) = 1 /\ vd_passed (pragma_finish (run_checks two_checks no_checks)) = 1.
Proof.
  destruct (finish_verdict two_checks ltac:(cbn; lia)) as (H1 & _ & _ & H2). split; [rewrite H1; vm_compute; reflexivity|].
  rewrite H2; [vm_compute; reflexivity|cbn; unfold PRAGMA_MAX_CHECKS; lia].
Defined.

Definition counted (submits waits : Z) : snap := mk_snap 31 31 0 31 submits waits 0 0.

(** The three scenarios of the demo: writes that wait for one another, and
    two batches. *)
Definition demo_runs : list run :=
  [mk_run "write, write, read, one file" CONFLICTING (counted 1 1, counted 3 3, counted 4 4) true "read saw last";
   mk_run "8 writes to 8 different files" INDEPENDENT (counted 4 4, counted 4 4, counted 5 12) true "all 8 landed";
   mk_run "8 reads of one file" INDEPENDENT (counted 5 12, counted 5 12, counted 6 20) true "all 8 correct"].

Lemma ordering_verdict_witness :
  exists o, run_scenarios demo_runs (mk_ordering [] None (counted 0 0) (counted 0 0) no_checks) = Ret o /\ vd_code (ordering_report 31 (counted 6 20) o) = 0.
Proof.
  destruct (ordering_verdict demo_runs 31 (counted 6 20) (counted 0 0)) as (o & E & Hv).
  - cbn. lia.
  - lia.
  - repeat (apply List.Forall_cons; [split; split_and!; cbn; lia|]). apply List.Forall_nil.
  - exists o. split; [exact E|]. apply Hv. split; [|reflexivity].
    apply List.Forall_cons; [split; [reflexivity|left; reflexivity]|].
    repeat (apply List.Forall_cons; [unfold as_expected; cbn; split_and!; reflexivity|]). apply List.Forall_nil.
Defined.

Lemma seeded_block_ok_witness :
  demo_block_ok (take 600 (drop (2 * 600) (demo_seed_file 4 600))) 600 2 = Ret true /\
  demo_block_ok (take 600 (drop (2 * 600) (demo_seed_file 4 600))) 600 3 = Ret false.
Proof.
  split.
  - etransitivity; [apply (seeded_block_ok 4 600 2 2); lia|vm_compute; reflexivity].
  - etransitivity; [apply (seeded_block_ok 4 600 2 3); lia|vm_compute; reflexivity].
Defined.

Definition page (p : ptr) : fptr := mk_fptr p p (p + 4096).

Lemma demo_edges_witness : fst (scenario_dependencies (page 65536) (page 131072) (page 8192)) = [(0, 2); (2, 3)].
Proof. rewrite (demo_edges (page 65536) (page 131072) (page 8192)); [reflexivity|unfold allocated, apart, page; cbn; lia..]. Defined.

Lemma upload_checked_witness :
  exists sum, serve (request_bytes (upload_text 2) (request_of OP_PUT [8080; 20480; UPLOAD_BYTES] 5)) 7 = (value_line sum, 7).
Proof.
  destruct (upload_checked 5 7 [8080; 20480; UPLOAD_BYTES] eq_refl ltac:(unfold LONG_MAX; lia)) as [H _].
  destruct (H 2%nat ltac:(unfold UPLOAD_FILES; lia)) as (sum & _ & E). exists sum. exact E.
Defined.

Lemma demo_verdicts_witness :
  vd_code (waitall_report true (counted 1 0) (replicate 30 1) 1 waitall_file 33 false 31 (counted 1 0)) = 0.
Proof.
  destruct (demo_verdicts 31 (counted 1 0) ltac:(lia)) as (_ & _ & H & _).
  apply (H true (counted 1 0) (replicate 30 1) 1 waitall_file 33 false eq_refl).
  split_and!; try reflexivity. apply (bool_decide_unpack _). vm_compute. reflexivity.
Defined.
